(* ===== verification/_CoqProject ===== *)
-Q . S2P
Prelude.v
Bytes.v
Error.v
Compression.v
LogRecord.v
Fs.v
Names.v
Display.v
Segment.v
SegmentSpec.v
Search.v
SparseIndex.v
Faults.v
Log.v
LogInv.v
LogOps.v
LogRead.v
LogRetain.v
LogRecover.v
LogCrash.v
LogSpec.v
LogFaults.v
LogShift.v
LogStore.v
LogOpenFaults.v
LogReadFaults.v
LogReopen.v
LogRetainFaults.v
LogBytes.v
Examples.v
CodecTheorems.v
LogTheorems.v
OffsetStore.v
Partition.v
PartitionSpec.v
Topic.v
Producer.v
TopicSpec.v
TopicStore.v
Consumer.v
ConsumerSpec.v
SessionSpec.v
GroupSpec.v
ServiceExamples.v
ServiceTheorems.v
Clients.v
ClientsTheorems.v
Broker.v
BrokerSpec.v
Registry.v
BrokerStore.v
BrokerOpen.v
BrokerStart.v
BrokerCreate.v
BrokerRace.v
BrokerRefine.v
BrokerGroup.v
BrokerExamples.v
BrokerTheorems.v
RestartTheorems.v
Wakeup.v
WakeupTheorems.v
Http.v
HttpMain.v
HttpTheorems.v
Fuzz.v
FuzzSpec.v
FuzzTopic.v
FuzzOffsets.v
FuzzTheorems.v
UnitTests.v
UnitTestTheorems.v
Bench.v
BenchSpec.v
BenchRun.v
BenchTasks.v
BenchMain.v
BenchTheorems.v
