(* ===== verification/Prelude.v ===== *)
(** * kafko: a verification development

    kafko is an embedded, single-process message broker written in Rust: named
    topics split into partitions, each partition an append-only log of records
    in segment files, with producers, consumers and consumer groups on top.
    This library models its crate [kafko] (src/crates/kafko/src), the HTTP
    server [kafko-http], the benchmark client [kafko-bench], the fuzz targets
    and the unit tests as executable Rocq functions and proves what they
    promise.

    ** The program's parts and the files that model them

    - bytes on the wire: [Bytes] (integers and the [bytes] crate), [Error] and
      [Display] (error.rs), [Compression] (compression.rs), [LogRecord]
      (record.rs).
    - files: [Fs] is the file system, the clock and the failures of system
      calls; [Names] the names of segment and index files; [Search] the
      standard library's binary search.
    - one log: [Segment] (segment.rs), [SparseIndex] (sparse_index.rs), [Log]
      (log.rs: open with recovery, appends with rotation, reads, sync,
      retention). [LogInv] relates a log and its files to records; [LogOps],
      [LogRead], [LogRetain], [LogRecover] and [LogCrash] prove what each
      operation does; [LogSpec] and [LogStore] state the log's contract;
      [LogBytes] is recovery of files that no log wrote.  [Faults] is about
      runs in which system calls fail; [LogFaults] and [LogShift] are about
      such runs of a batch append, [LogReadFaults] of a read,
      [LogRetainFaults] of retention, [LogOpenFaults] and [LogReopen] of
      recovery.
    - one partition: [Partition] (partition.rs: the writer task with its
      retention timer, its queue and its handle), [PartitionSpec] its sequential
      machine, [Clients] any number of concurrent callers.
    - topics: [Topic] (topic.rs), [Producer] (producer.rs, position.rs),
      [TopicSpec], [TopicStore]; [Consumer] (consumer.rs), [ConsumerSpec],
      [SessionSpec] a consumer among sends and retention passes; [OffsetStore]
      (offset_store.rs), [GroupSpec]; [Wakeup] the parking of consumers
      (topic.rs, consumer.rs, partition.rs).
    - the broker: [Broker] (broker.rs), with [BrokerSpec], [Registry],
      [BrokerStore], [BrokerOpen], [BrokerRefine] and [BrokerGroup] about it,
      [BrokerStart] and [BrokerCreate] about starts and creations that fail,
      and [BrokerRace] about creations of one topic that overlap; [Http] and
      [HttpMain] (kafko-http/src/main.rs).
    - the fuzz targets (src/fuzz/fuzz_targets): [Fuzz] has the eight of them as
      functions of the fuzzer's input, assertions included; [FuzzSpec],
      [FuzzTopic] and [FuzzOffsets] run them.
    - the unit tests of the crate: [UnitTests].
    - the benchmark client: [Bench] (kafko-bench/src/main.rs) has its scenarios
      and [main]; [BenchSpec] counts records, [BenchRun], [BenchTasks] and
      [BenchMain] run it.

    Each part calls the ones above it in this list, as in the code.  State is
    explicit: an operation of type [M S E A] takes a state to an outcome - a
    value, an error, a panic with its message, or [NoFuel] - and the next
    state; [let*] is [?] and [;], [zoom] runs a method on a field, [attempt]
    is a [Result] kept as a value.  A log runs on [World * Log], a writer task
    on [World * Writer], a topic on [World * Topic], a broker on the world, the
    process (its [Arc]s and file locks) and the registry.

    ** Interfaces

    What a part promises to the ones below it is a class, and their theorems
    are proved from the class alone: [LogContract], [LogStore] and [LogReopen]
    (a log is an append-only list of records, in memory, on disk, and when an
    attempt to open it fails, whatever is represented how), which [kafko_log],
    [kafko_store] and [kafko_reopen] prove of the segmented log.  Code that is
    not in the repository is a parameter with its documented laws, and a
    concrete instance shows that the laws can hold: [Buf] (bytes), [Crc32]
    (crc32fast; the IEEE polynomial), [Codecs] (lz4_flex, zstd), [Flock] (fs4),
    [Notify] (tokio), [Axum] (axum: its laws are about any table of routes, and
    the routes of the server's table are computed).

    ** What the theorems show

    - [CodecTheorems]: encoding and decoding are inverse, a torn or damaged
      frame is told apart and never a record, no input makes the decoder
      panic, decoded records are well typed, sizes are exact or bounded.
    - [LogTheorems]: segments are byte strings, an index lookup lands before
      the record it is asked for, a log is its list of records through appends,
      rotation, reads and retention - which ends at its limits - and after a crash the records come back -
      all that were synced, a prefix of the rest - also when a system call of
      a batch append failed before it.
    - [ServiceTheorems]: the writer task answers as a sequential machine for
      every timing, or panics at once on a retention interval of zero;
      acknowledged appends survive its exit, batches keep their positions,
      consumers deliver everything in order, one that retention has overtaken
      stays where it is; committed offsets are atomic and durable.
    - [ClientsTheorems]: a partition is linearizable, marks and replies seen one
      by one as the task publishes them; no call hangs on the bounded queue, an
      acknowledged append is seen by all later calls.
    - [WakeupTheorems]: no wakeup is lost under relaxed loads - and a parked
      consumer is woken by its own scan.
    - [BrokerTheorems]: a broker, with its producers, consumers and retention
      timers, is a map from names to logs and of cursors; groups resume; the
      directory lock; deletion; calls that create one topic at the same time;
      and where the code falls short of its documentation.
    - [RestartTheorems]: a read that fails changes nothing; retention that fails
      stops between two segments, perhaps with one forgotten; recovery - of a log,
      or of the whole broker - that system calls interrupt any number of times
      loses nothing, nor does a process that is killed; shutdown, crash and start
      lose nothing of a topic that no client holds, and of one that is held keep
      what was synced and a prefix of the rest; what a creation that fails half
      way leaves behind.
    - [HttpTheorems]: from the environment to the bytes of the answers, the
      server is three logs.
    - [FuzzTheorems]: no input makes a fuzz target fail: the decoder, recovery
      and the discovery of partitions on any bytes at all, any sequence of log
      operations or sends, any group file.
    - [UnitTestTheorems]: the unit tests pass on every build, but for the two
      that assert how well a codec compresses, which no law of a codec promises:
      they pass or stop at that assertion.
    - [BenchTheorems]: the benchmark stores what it reports, under any
      interleaving of its tasks, and refuses to run twice.

    Theorems about failures and races that the code does not handle are stated
    as they are ([failed_append_misplaces_next],
    [refused_batch_takes_its_offset], [failed_rotation_blocks_log],
    [retention_deletes_oldest_or_stops], [oversized_lz4_is_unreadable],
    [retired_cursor_starves], [temp_named_group_is_reset],
    [shutdown_leaves_used_topics_running], [create_race_has_one_winner],
    [foreign_directory_blocks_open], [failed_create_leaves_partial_topic],
    [parked_consumer_spins]).

    ** Bounds and fuel

    Integers of the code are [Z] with their widths ([is_u32], [u64_add]: the
    release build's wrap-around).  [storable] says that a record fits its
    frame, [room] that a segment with a batch stays below what one [read]
    returns and a [u32] position reaches ([seg_limit]: the code reads a segment
    in one call); [fits] bounds the calls made on a partition by its offsets;
    [usable] says that the retention interval of a configuration is not zero,
    with which the task of every partition dies before it takes a command.
    The scans of log.rs take the length of the file as fuel, one frame of at
    least 25 bytes per step, and are proved never to run out; the writer task
    takes one scheduling choice per turn, and [recvs] - one more than the
    commands queued - is proved enough.

    ** Not modelled, and why

    - lib.rs re-exports; the criterion benches measure; getters of one field
      are the fields of the records; thread-local scratch buffers (record.rs,
      compression.rs) are cleared before each use and never show in a result.
    - What the benchmark prints, the times it measures and its profiler.
    - Below the parameter [Axum]: the sockets, the parsing of HTTP and the
      graceful end of the server, which [axum::serve] here does not reach; the
      requests of a run are served one after another.
    - The integration tests and the crash harness (tests/) drive processes from
      outside; the theorems on crashes and restarts cover what they sample.
    - Poisoning of the registry's lock, which needs a panic inside it.
    - A directory is listed in the order of the map that represents it, and
      [HashMap] iteration likewise: the theorems do not depend on it.
      [remove_dir_all] either fails or removes everything.
    - Tasks nobody waits for: a topic whose last [Arc] is dropped, a cleanup
      task spawned by [Drop], are recorded in the process but not run.  The
      partitions already open when a topic fails to open at a later one are
      forgotten: what their tasks would do is sync once and end.
    - The clock does not advance during a theorem's run.
    - When other tasks run.  A retention timer fires between two calls of a
      broker or a session, not inside one; the writer task alone takes commands
      and ticks in any order.  Callers of a partition overlap in [Clients],
      creations of a topic in [BrokerRace] (at their locked sections: the
      making of one call's files is one step), tasks of the benchmark at their
      sends, each append a turn of its own.
    - A crash loses any bytes that were not synced, from the end of a file. It
      keeps files made, renamed or removed before it ([LogCrash]): the code
      never syncs a directory.
    - Failing system calls are covered in the segment, the batch append, reads,
      retention and recovery of a log, the partition's writer, the offset store, the
      wakeup, and in the start of the broker and the creation of a topic.
      The single append and the other calls of a broker have theorems for runs
      without them; the definitions take a failure script
      everywhere.

    This file is the prelude: the outcome monad, integer widths, list lemmas,
    notations and tactics that every other file uses. *)

From stdpp Require Export prelude gmap strings list numbers sorting.
From Stdlib Require Export ZArith Lia.
From Stdlib Require Export Strings.Byte.

#[export] Set Default Goal Selector "!".

Open Scope Z_scope.

(** ** Outcomes of Rust code

    A call returns a value, returns an error of type [E] ([Result::Err]),
    panics, or, in a loop run on too little fuel, gives no answer.  No theorem
    treats [NoFuel] as a result: the loops of the program are proved never to
    reach it. *)
Inductive outcome (E A : Type) : Type :=
| Ok (a : A)
| Err (e : E)
| Panic (msg : string)
| NoFuel.
Arguments Ok {E A} a.
Arguments Err {E A} e.
Arguments Panic {E A} msg.
Arguments NoFuel {E A}.

(** ** State, errors and panics

    [M S E A] is code that mutates a state [S] and has an outcome.  An error
    or a panic keeps the mutations made before it, as [?] and unwinding do. *)
Definition M (S E A : Type) : Type := S -> outcome E A * S.

Definition ret {S E A} (a : A) : M S E A := fun s => (Ok a, s).
Definition throw {S E A} (e : E) : M S E A := fun s => (Err e, s).
Definition panic {S E A} (msg : string) : M S E A := fun s => (Panic msg, s).
Definition no_fuel {S E A} : M S E A := fun s => (NoFuel, s).
Definition get_st {S E} : M S E S := fun s => (Ok s, s).
Definition put_st {S E} (s' : S) : M S E unit := fun _ => (Ok tt, s').

Definition bind {S E A B} (m : M S E A) (k : A -> M S E B) : M S E B :=
  fun s =>
    match m s with
    | (Ok a, s') => k a s'
    | (Err e, s') => (Err e, s')
    | (Panic p, s') => (Panic p, s')
    | (NoFuel, s') => (NoFuel, s')
    end.

(** [attempt m]: run [m] and hand its [Result] to the caller (a Rust [match]
    on the result of the call); panics still unwind. *)
Definition attempt {S E E' A} (m : M S E A) : M S E' (A + E) :=
  fun s =>
    match m s with
    | (Ok a, s') => (Ok (inl a), s')
    | (Err e, s') => (Ok (inr e), s')
    | (Panic p, s') => (Panic p, s')
    | (NoFuel, s') => (NoFuel, s')
    end.

(** [map_err f m]: the error conversion of [?] and of [Result::map_err]. *)
Definition map_err {S E E' A} (f : E -> E') (m : M S E A) : M S E' A :=
  fun s =>
    match m s with
    | (Ok a, s') => (Ok a, s')
    | (Err e, s') => (Err (f e), s')
    | (Panic p, s') => (Panic p, s')
    | (NoFuel, s') => (NoFuel, s')
    end.

(** [zoom get set m]: run [m] on a part of the state (a [&mut] borrow of a
    field). *)
Definition zoom {S T E A} (get : S -> T) (set : T -> S -> S) (m : M T E A) : M S E A :=
  fun s => let '(o, t) := m (get s) in (o, set t s).

(** [local t m]: run [m] on a local variable that starts as [t]; the result
    comes with the variable's last value. *)
Definition local {S T E A} (t : T) (m : M T E A) : M S E (A * T) :=
  fun s =>
    match m t with
    | (Ok a, t') => (Ok (a, t'), s)
    | (Err e, _) => (Err e, s)
    | (Panic p, _) => (Panic p, s)
    | (NoFuel, _) => (NoFuel, s)
    end.

(** A Rust [loop]/[while]: the body returns [inl] to iterate, [inr] to leave. *)
Fixpoint loop {S E A B} (fuel : nat) (body : A -> M S E (A + B)) (a : A) : M S E B :=
  match fuel with
  | O => no_fuel
  | S fuel' =>
      bind (body a) (fun r =>
        match r with
        | inl a' => loop fuel' body a'
        | inr b => ret b
        end)
  end.

(** A Rust [for] over a list. *)
Fixpoint for_each {S E A} (l : list A) (body : A -> M S E unit) : M S E unit :=
  match l with
  | [] => ret tt
  | x :: l' => bind (body x) (fun _ => for_each l' body)
  end.

Declare Scope kafko_scope.
Delimit Scope kafko_scope with kafko.
Notation "'let*' x ':=' m 'in' k" := (bind m (fun x => k))
  (at level 10, x pattern, m at level 100, k at level 200,
   format "'[v' 'let*'  x  ':='  m  'in' '/' k ']'") : kafko_scope.
Open Scope kafko_scope.

(** ** Machine integers *)
Definition u8_max : Z := 2 ^ 8 - 1.
Definition u32_max : Z := 2 ^ 32 - 1.
Definition u64_max : Z := 2 ^ 64 - 1.

Definition is_u8 (z : Z) : Prop := 0 <= z < 2 ^ 8.
Definition is_u32 (z : Z) : Prop := 0 <= z < 2 ^ 32.
Definition is_u64 (z : Z) : Prop := 0 <= z < 2 ^ 64.
Definition is_i64 (z : Z) : Prop := - 2 ^ 63 <= z < 2 ^ 63.

(** [as u32], [as u64]: truncation. *)
Definition as_u32 (z : Z) : Z := z mod 2 ^ 32.
Definition as_u64 (z : Z) : Z := z mod 2 ^ 64.
(** [as i64]: truncation to two's complement. *)
Definition as_i64 (z : Z) : Z := (z + 2 ^ 63) mod 2 ^ 64 - 2 ^ 63.

(** [+], [-] and [+=] on [u64] (release profile: two's complement wrap). *)
Definition u64_add (a b : Z) : Z := as_u64 (a + b).
Definition u64_sub (a b : Z) : Z := as_u64 (a - b).
(** [i64::saturating_sub]. *)
Definition i64_saturating_sub (a b : Z) : Z := Z.max (- 2 ^ 63) (Z.min (2 ^ 63 - 1) (a - b)).
(** [u64::saturating_sub]. *)
Definition u64_saturating_sub (a b : Z) : Z := Z.max 0 (a - b).

(** [u32::try_from] on a value of a wider unsigned type. *)
Definition try_into_u32 (z : Z) : option Z := if z <=? u32_max then Some z else None.

(** [slice.len()] as an integer. *)
Definition len {A} (l : list A) : Z := Z.of_nat (length l).

(** ** Lemmas on integers and lengths *)
Create HintDb kafko.
Create Rewrite HintDb len.
Create Rewrite HintDb fs.

Lemma len_nonneg {A} (l : list A) : 0 <= len l.
Proof. unfold len. lia. Qed.

Lemma len_nil {A} : len (@nil A) = 0.
Proof. reflexivity. Qed.

Lemma len_cons {A} (x : A) l : len (x :: l) = 1 + len l.
Proof. unfold len. rewrite length_cons. lia. Qed.

Lemma len_app {A} (l k : list A) : len (l ++ k) = len l + len k.
Proof. unfold len. rewrite length_app. lia. Qed.

Lemma len_zero {A} (l : list A) : len l = 0 <-> l = [].
Proof. unfold len. destruct l; simpl; split; intros; (done || lia). Qed.

Lemma len_pos {A} (l : list A) : l <> [] -> 0 < len l.
Proof. destruct l; [done|]. intros _. rewrite len_cons. pose proof (len_nonneg l). lia. Qed.

Lemma len_length {A} (l : list A) : length l = Z.to_nat (len l).
Proof. unfold len. lia. Qed.

Lemma len_take {A} (n : nat) (l : list A) : Z.of_nat n <= len l -> len (take n l) = Z.of_nat n.
Proof. unfold len. intros. rewrite length_take. lia. Qed.

Lemma len_drop {A} (n : nat) (l : list A) :
  Z.of_nat n <= len l -> len (drop n l) = len l - Z.of_nat n.
Proof. unfold len. intros. rewrite length_drop. lia. Qed.

Lemma snoc_inj {A} (l k : list A) x y : l ++ [x] = k ++ [y] -> l = k /\ x = y.
Proof. intros E. apply app_inj_2 in E as [-> E]; [|done]. split; congruence. Qed.

#[export] Hint Rewrite @len_nil @len_cons @len_app : len.
#[export] Hint Resolve len_nonneg : kafko.

Lemma as_u32_small z : is_u32 z -> as_u32 z = z.
Proof. intros. apply Z.mod_small. done. Qed.

Lemma as_u64_small z : is_u64 z -> as_u64 z = z.
Proof. intros. apply Z.mod_small. done. Qed.

Lemma u64_add_small a b : 0 <= a + b < 2 ^ 64 -> u64_add a b = a + b.
Proof. apply as_u64_small. Qed.

Lemma u64_sub_small a b : 0 <= a - b < 2 ^ 64 -> u64_sub a b = a - b.
Proof. apply as_u64_small. Qed.

Lemma as_i64_small z : is_i64 z -> as_i64 z = z.
Proof. unfold is_i64, as_i64. intros. rewrite Z.mod_small; lia. Qed.

Lemma as_u32_range z : is_u32 (as_u32 z).
Proof. apply Z.mod_pos_bound. lia. Qed.

Lemma as_u64_range z : is_u64 (as_u64 z).
Proof. apply Z.mod_pos_bound. lia. Qed.

Lemma try_into_u32_Some z : is_u32 z -> try_into_u32 z = Some z.
Proof. unfold try_into_u32, is_u32, u32_max. intros. by rewrite (proj2 (Z.leb_le _ _)) by lia. Qed.

Lemma try_into_u32_None z : 2 ^ 32 <= z -> try_into_u32 z = None.
Proof. unfold try_into_u32, u32_max. intros. by rewrite (proj2 (Z.leb_gt _ _)) by lia. Qed.

(** ** Lemmas on the monad *)
Section monad.
Context {S E : Type}.

Lemma bind_Ok {A B} (m : M S E A) (k : A -> M S E B) s a s' :
  m s = (Ok a, s') -> bind m k s = k a s'.
Proof. unfold bind. by intros ->. Qed.

Lemma bind_Err {A B} (m : M S E A) (k : A -> M S E B) s e s' :
  m s = (Err e, s') -> bind m k s = (Err e, s').
Proof. unfold bind. by intros ->. Qed.

Lemma bind_Panic {A B} (m : M S E A) (k : A -> M S E B) s p s' :
  m s = (Panic p, s') -> bind m k s = (Panic p, s').
Proof. unfold bind. by intros ->. Qed.

Lemma bind_ret {A B} (a : A) (k : A -> M S E B) s : bind (ret a) k s = k a s.
Proof. done. Qed.

Lemma bind_bind {A B C} (m : M S E A) (k : A -> M S E B) (h : B -> M S E C) s :
  bind (bind m k) h s = bind m (fun a => bind (k a) h) s.
Proof. unfold bind. by destruct (m s) as [[]]. Qed.

Lemma bind_ext {A B} (m : M S E A) (k k' : A -> M S E B) s :
  (forall a s', k a s' = k' a s') -> bind m k s = bind m k' s.
Proof. intros H. unfold bind. destruct (m s) as [[] ?]; auto. Qed.

Lemma bind_Ok_inv {A B} (m : M S E A) (k : A -> M S E B) s b s2 :
  bind m k s = (Ok b, s2) -> exists a s1, m s = (Ok a, s1) /\ k a s1 = (Ok b, s2).
Proof. unfold bind. destruct (m s) as [[] ?]; naive_solver. Qed.

Lemma attempt_Ok {E' A} (m : M S E A) s a s' :
  m s = (Ok a, s') -> attempt (E' := E') m s = (Ok (inl a), s').
Proof. unfold attempt. by intros ->. Qed.

Lemma attempt_Err {E' A} (m : M S E A) s e s' :
  m s = (Err e, s') -> attempt (E' := E') m s = (Ok (inr e), s').
Proof. unfold attempt. by intros ->. Qed.

(** One turn of a loop. *)
Lemma loop_next {A B} fuel (body : A -> M S E (A + B)) a a' s s' :
  body a s = (Ok (inl a'), s') -> loop (Datatypes.S fuel) body a s = loop fuel body a' s'.
Proof. intros H. simpl. by rewrite (bind_Ok _ _ _ _ _ H). Qed.

Lemma loop_exit {A B} fuel (body : A -> M S E (A + B)) a b s s' :
  body a s = (Ok (inr b), s') -> loop (Datatypes.S fuel) body a s = (Ok b, s').
Proof. intros H. simpl. by rewrite (bind_Ok _ _ _ _ _ H). Qed.

Lemma loop_err {A B} fuel (body : A -> M S E (A + B)) a e s s' :
  body a s = (Err e, s') -> loop (Datatypes.S fuel) body a s = (Err e, s').
Proof. intros H. simpl. by rewrite (bind_Err _ _ _ _ _ H). Qed.

End monad.

(** [mstep H]: rewrite the head of a monadic sequence with the run [H] of its
    first command. *)
Ltac mstep H := first
  [ erewrite (bind_Ok _ _ _ _ _ H)
  | erewrite (bind_Err _ _ _ _ _ H)
  | erewrite (bind_Panic _ _ _ _ _ H) ]; cbn beta iota.

(** [mrun lem]: the same, the run being given by [lem], whose premises are
    integer bounds or hypotheses. *)
Ltac mrun lem :=
  erewrite bind_Ok;
  [ | solve [ eapply lem; first [ eassumption | lia | split; lia ] | apply lem ] ].

(** [lens]: normalise lengths, then decide. *)
Ltac lens := autorewrite with len in *; lia.

(** [zcase]: case on the first boolean integer test of the goal. *)
Ltac zcase :=
  match goal with
  | |- context [Z.ltb ?a ?b] => destruct (Z.ltb_spec a b)
  | |- context [Z.leb ?a ?b] => destruct (Z.leb_spec a b)
  | |- context [Z.eqb ?a ?b] => destruct (Z.eqb_spec a b)
  end.
