(* ===== verification/Bytes.v ===== *)
(** * Bytes and fixed-width integers

    [&[u8]] is [list byte]; the [to_be_bytes]/[from_be_bytes] and
    [to_le_bytes]/[from_le_bytes] families of the Rust standard library, with
    their round trips.  [Buf] is the interface of the [bytes] crate
    ([bytes::Buf] on [&[u8]], [bytes::BufMut] on [BytesMut]) that the record
    codec is written against; [std_buf] is one implementation of it. *)

From S2P Require Import Prelude.

Definition Z_of_byte (b : byte) : Z := Z.of_N (Byte.to_N b).
Definition byte_of_Z (z : Z) : byte := default x00 (Byte.of_N (Z.to_N (z mod 256))).

#[export] Instance byte_eq_dec : EqDecision byte := Byte.byte_eq_dec.

Lemma Z_of_byte_range b : 0 <= Z_of_byte b < 256.
Proof. unfold Z_of_byte. pose proof (Byte.to_N_bounded b). lia. Qed.

Lemma Z_of_byte_of_Z z : Z_of_byte (byte_of_Z z) = z mod 256.
Proof.
  unfold Z_of_byte, byte_of_Z.
  pose proof (Z.mod_pos_bound z 256 ltac:(lia)).
  destruct (Byte.of_N (Z.to_N (z mod 256))) as [b|] eqn:Hb; simpl.
  - apply Byte.to_of_N in Hb. rewrite Hb. lia.
  - apply Byte.of_N_None_iff in Hb. lia.
Qed.

Lemma byte_of_Z_of_byte b : byte_of_Z (Z_of_byte b) = b.
Proof.
  unfold byte_of_Z. rewrite Z.mod_small by apply Z_of_byte_range.
  unfold Z_of_byte. rewrite N2Z.id, Byte.of_to_N. done.
Qed.

Lemma Z_of_byte_inj b c : Z_of_byte b = Z_of_byte c -> b = c.
Proof. intros H. by rewrite <- (byte_of_Z_of_byte b), H, byte_of_Z_of_byte. Qed.

(** ** Little- and big-endian integers *)
Fixpoint to_le_bytes (n : nat) (z : Z) : list byte :=
  match n with
  | O => []
  | S n' => byte_of_Z z :: to_le_bytes n' (z / 256)
  end.

Fixpoint from_le_bytes (l : list byte) : Z :=
  match l with
  | [] => 0
  | b :: l' => Z_of_byte b + 256 * from_le_bytes l'
  end.

Definition to_be_bytes (n : nat) (z : Z) : list byte := rev (to_le_bytes n z).
Definition from_be_bytes (l : list byte) : Z := from_le_bytes (rev l).

Lemma length_to_le_bytes n z : length (to_le_bytes n z) = n.
Proof. revert z. induction n; intros; simpl; auto. Qed.

Lemma length_to_be_bytes n z : length (to_be_bytes n z) = n.
Proof. unfold to_be_bytes. by rewrite length_rev, length_to_le_bytes. Qed.

Lemma len_to_le_bytes n z : len (to_le_bytes n z) = Z.of_nat n.
Proof. unfold len. by rewrite length_to_le_bytes. Qed.

Lemma len_to_be_bytes n z : len (to_be_bytes n z) = Z.of_nat n.
Proof. unfold len. by rewrite length_to_be_bytes. Qed.

#[export] Hint Rewrite length_to_le_bytes length_to_be_bytes len_to_le_bytes len_to_be_bytes : len.

Lemma from_to_le_bytes n z : from_le_bytes (to_le_bytes n z) = z mod 256 ^ Z.of_nat n.
Proof.
  revert z. induction n as [|n IH]; intros z; simpl.
  { by rewrite Z.mod_1_r. }
  rewrite IH, Z_of_byte_of_Z.
  replace (Z.of_nat (S n)) with (Z.succ (Z.of_nat n)) by lia.
  rewrite Z.pow_succ_r, Z.rem_mul_r by lia. lia.
Qed.

Lemma from_to_be_bytes n z : from_be_bytes (to_be_bytes n z) = z mod 256 ^ Z.of_nat n.
Proof. unfold from_be_bytes, to_be_bytes. by rewrite rev_involutive, from_to_le_bytes. Qed.

Lemma from_le_bytes_range l : 0 <= from_le_bytes l < 256 ^ len l.
Proof.
  induction l as [|b l IH]; simpl.
  { unfold len. simpl. lia. }
  rewrite len_cons, Z.pow_add_r by (pose proof (len_nonneg l); lia).
  pose proof (Z_of_byte_range b). lia.
Qed.

Lemma from_be_bytes_range l : 0 <= from_be_bytes l < 256 ^ len l.
Proof.
  unfold from_be_bytes. pose proof (from_le_bytes_range (rev l)).
  unfold len in *. by rewrite length_rev in *.
Qed.

Lemma to_from_le_bytes l : to_le_bytes (length l) (from_le_bytes l) = l.
Proof.
  induction l as [|b l IH]; simpl; [done|].
  pose proof (Z_of_byte_range b).
  replace (Z_of_byte b + 256 * from_le_bytes l) with (from_le_bytes l * 256 + Z_of_byte b) by lia.
  rewrite Z.div_add_l, Z.div_small, Z.add_0_r, IH by lia. f_equal.
  apply Z_of_byte_inj. rewrite Z_of_byte_of_Z, Z.add_comm, Z.mod_add, Z.mod_small; lia.
Qed.

Lemma to_from_be_bytes l : to_be_bytes (length l) (from_be_bytes l) = l.
Proof.
  unfold to_be_bytes, from_be_bytes. rewrite <- (length_rev l), to_from_le_bytes.
  apply rev_involutive.
Qed.

Lemma to_be_bytes_1 b : to_be_bytes 1 (Z_of_byte b) = [b].
Proof.
  rewrite <- (to_from_be_bytes [b]). cbn [length]. f_equal. unfold from_be_bytes. cbn [rev app from_le_bytes]. lia.
Qed.

#[global] Opaque to_le_bytes to_be_bytes from_le_bytes from_be_bytes.

(** Two's complement: [i64] as the [u64] with the same bits. *)
Lemma as_i64_as_u64 z : is_i64 z -> as_i64 (as_u64 z) = z.
Proof.
  unfold is_i64, as_i64, as_u64. intros H.
  rewrite Zplus_mod_idemp_l, Z.mod_small; lia.
Qed.

(** ** The [bytes] crate

    [Buf] reads integers off the front of a slice and advances it, and panics
    ([None]) when too few bytes remain; [BufMut] appends them.  [BufLaws] is
    the documented behaviour of the calls the record codec makes. *)
Class Buf : Type := {
  get_u8 : list byte -> option (Z * list byte);
  get_u32 : list byte -> option (Z * list byte);
  get_i64 : list byte -> option (Z * list byte);
  advance : nat -> list byte -> option (list byte);
  put_u8 : list byte -> Z -> list byte;
  put_u32 : list byte -> Z -> list byte;
  put_i64 : list byte -> Z -> list byte;
  put_slice : list byte -> list byte -> list byte;
}.

Class BufLaws (B : Buf) : Prop := {
  get_u8_spec buf :
    get_u8 buf = if len buf <? 1 then None else Some (from_be_bytes (take 1 buf), drop 1 buf);
  get_u32_spec buf :
    get_u32 buf = if len buf <? 4 then None else Some (from_be_bytes (take 4 buf), drop 4 buf);
  get_i64_spec buf :
    get_i64 buf =
      if len buf <? 8 then None else Some (as_i64 (from_be_bytes (take 8 buf)), drop 8 buf);
  advance_spec n buf :
    advance n buf = if len buf <? Z.of_nat n then None else Some (drop n buf);
  put_u8_spec out z : is_u8 z -> put_u8 out z = out ++ to_be_bytes 1 z;
  put_u32_spec out z : is_u32 z -> put_u32 out z = out ++ to_be_bytes 4 z;
  put_i64_spec out z : is_i64 z -> put_i64 out z = out ++ to_be_bytes 8 (as_u64 z);
  put_slice_spec out bs : put_slice out bs = out ++ bs;
}.

(** A concrete [Buf], by the formulas of the laws. *)
Definition take_be (n : nat) (buf : list byte) : option (Z * list byte) :=
  if len buf <? Z.of_nat n then None else Some (from_be_bytes (take n buf), drop n buf).

#[export] Instance std_buf : Buf := {|
  get_u8 := take_be 1;
  get_u32 := take_be 4;
  get_i64 buf := prod_map as_i64 id <$> take_be 8 buf;
  advance n buf := if len buf <? Z.of_nat n then None else Some (drop n buf);
  put_u8 out z := out ++ to_be_bytes 1 z;
  put_u32 out z := out ++ to_be_bytes 4 z;
  put_i64 out z := out ++ to_be_bytes 8 (as_u64 z);
  put_slice out bs := out ++ bs;
|}.

#[export] Instance std_buf_laws : BufLaws std_buf.
Proof.
  split; intros; try done.
  cbn. unfold take_be. change (Z.of_nat 8) with 8. by destruct (len buf <? 8).
Qed.

(** ** Slices

    [take_slice n buf] is [&buf[..n]], [splice p bs l] is
    [l[p..p + bs.len()].copy_from_slice(bs)]; both panic out of range. *)
Definition take_slice {E} (n : Z) : M (list byte) E (list byte) :=
  fun buf =>
    if n <=? len buf then (Ok (take (Z.to_nat n) buf), buf)
    else (Panic "range end index out of range for slice", buf).

Definition splice (p : nat) (bs l : list byte) : list byte :=
  take p l ++ bs ++ drop (p + length bs) l.

Lemma splice_app (a b c bs : list byte) :
  length b = length bs -> splice (length a) bs (a ++ b ++ c) = a ++ bs ++ c.
Proof.
  intros H. unfold splice. rewrite take_app_length, <- H. f_equal. f_equal.
  by rewrite <- drop_drop, !drop_app_length.
Qed.

(** [get f]: a [Buf] read on the slice held in the state. *)
Definition get {E A} (f : list byte -> option (A * list byte)) : M (list byte) E A :=
  fun buf =>
    match f buf with
    | Some (a, buf') => (Ok a, buf')
    | None => (Panic "advance out of bounds", buf)
    end.

Definition advance_by {E} `{Buf} (n : Z) : M (list byte) E unit :=
  fun buf =>
    match advance (Z.to_nat n) buf with
    | Some buf' => (Ok tt, buf')
    | None => (Panic "advance out of bounds", buf)
    end.

Definition remaining {E} : M (list byte) E Z := fun buf => (Ok (len buf), buf).

Section reads.
Context {E : Type} {B : Buf} {BL : BufLaws B}.

Lemma get_be_app (f : list byte -> option (Z * list byte)) n bs rest :
  (forall buf, f buf = if len buf <? Z.of_nat n then None
                       else Some (from_be_bytes (take n buf), drop n buf)) ->
  length bs = n -> @get E Z f (bs ++ rest) = (Ok (from_be_bytes bs), rest).
Proof.
  intros Hf <-. unfold get. rewrite Hf, len_app.
  pose proof (len_nonneg rest). unfold len in *.
  rewrite (proj2 (Z.ltb_ge _ _)) by lia.
  by rewrite take_app_length, drop_app_length.
Qed.

Lemma get_u32_app z rest :
  is_u32 z -> @get E Z get_u32 (to_be_bytes 4 z ++ rest) = (Ok z, rest).
Proof.
  intros Hz. erewrite (get_be_app _ 4) by (apply get_u32_spec || apply length_to_be_bytes).
  rewrite from_to_be_bytes. do 2 f_equal. apply Z.mod_small. apply Hz.
Qed.

Lemma get_u8_app z rest :
  is_u8 z -> @get E Z get_u8 (to_be_bytes 1 z ++ rest) = (Ok z, rest).
Proof.
  intros Hz. erewrite (get_be_app _ 1) by (apply get_u8_spec || apply length_to_be_bytes).
  rewrite from_to_be_bytes. do 2 f_equal. apply Z.mod_small. apply Hz.
Qed.

Lemma get_i64_app z rest :
  is_i64 z -> @get E Z get_i64 (to_be_bytes 8 (as_u64 z) ++ rest) = (Ok z, rest).
Proof.
  intros Hz. unfold get. rewrite get_i64_spec, len_app, len_to_be_bytes.
  pose proof (len_nonneg rest). rewrite (proj2 (Z.ltb_ge _ _)) by lia.
  rewrite take_app_length', drop_app_length' by (by rewrite length_to_be_bytes).
  rewrite from_to_be_bytes. change (256 ^ Z.of_nat 8) with (2 ^ 64).
  unfold as_u64. rewrite Zmod_mod. fold (as_u64 z). by rewrite as_i64_as_u64.
Qed.

(** What a read that does not panic returns, on any slice. *)
Lemma get_u8_run buf :
  1 <= len buf ->
  @get E Z get_u8 buf = (Ok (from_be_bytes (take 1 buf)), drop 1 buf).
Proof. intros. unfold get. rewrite get_u8_spec. by rewrite (proj2 (Z.ltb_ge _ _)) by lia. Qed.

Lemma get_u32_run buf :
  4 <= len buf ->
  @get E Z get_u32 buf = (Ok (from_be_bytes (take 4 buf)), drop 4 buf).
Proof. intros. unfold get. rewrite get_u32_spec. by rewrite (proj2 (Z.ltb_ge _ _)) by lia. Qed.

Lemma get_i64_run buf :
  8 <= len buf ->
  @get E Z get_i64 buf = (Ok (as_i64 (from_be_bytes (take 8 buf))), drop 8 buf).
Proof. intros. unfold get. rewrite get_i64_spec. by rewrite (proj2 (Z.ltb_ge _ _)) by lia. Qed.

Lemma take_slice_run (n : Z) buf :
  n <= len buf -> @take_slice E n buf = (Ok (take (Z.to_nat n) buf), buf).
Proof. intros. unfold take_slice. by rewrite (proj2 (Z.leb_le _ _)). Qed.

Lemma advance_run (n : Z) buf :
  0 <= n <= len buf -> @advance_by E B n buf = (Ok tt, drop (Z.to_nat n) buf).
Proof.
  intros. unfold advance_by. rewrite advance_spec. by rewrite (proj2 (Z.ltb_ge _ _)) by lia.
Qed.

Lemma take_slice_app bs rest : @take_slice E (len bs) (bs ++ rest) = (Ok bs, bs ++ rest).
Proof.
  rewrite take_slice_run by (pose proof (len_nonneg rest); lens).
  rewrite <- len_length. by rewrite take_app_length.
Qed.

Lemma advance_app bs rest : @advance_by E B (len bs) (bs ++ rest) = (Ok tt, rest).
Proof.
  pose proof (len_nonneg rest). pose proof (len_nonneg bs).
  rewrite advance_run by lens. by rewrite <- len_length, drop_app_length.
Qed.

End reads.

(** ** Checksums

    [crc32fast::hash], a parameter: all the code needs of it is that it is a
    function into [u32]. *)
Class Crc32 : Type := { crc32 : list byte -> Z }.
Class Crc32Laws (H : Crc32) : Prop := { crc32_range bs : is_u32 (crc32 bs) }.

(** A concrete instance: CRC-32 (IEEE 802.3, reflected), bit by bit. *)
Fixpoint crc32_bits (n : nat) (crc : Z) : Z :=
  match n with
  | O => crc
  | S n' =>
      let shifted := Z.shiftr crc 1 in
      crc32_bits n' (if Z.odd crc then Z.lxor shifted 0xEDB88320 else shifted)
  end.

Definition crc32_step (crc : Z) (b : byte) : Z := crc32_bits 8 (Z.lxor crc (Z_of_byte b)).

#[export] Instance crc32_ieee : Crc32 := {|
  crc32 bs := as_u32 (Z.lxor (foldl crc32_step u32_max bs) u32_max)
|}.

#[export] Instance crc32_ieee_laws : Crc32Laws crc32_ieee.
Proof. split. intros. apply as_u32_range. Qed.

Example crc32_check_value :
  crc32 (map byte_of_Z [49; 50; 51; 52; 53; 54; 55; 56; 57]) = 0xCBF43926.
Proof. reflexivity. Qed.
