(* ===== verification/Error.v ===== *)
(** * Errors (error.rs)

    [KafkoError] with the source's constructors, [io::Error] as its kind and
    display string, and the hand-written [Clone]. *)

From S2P Require Import Prelude.

(** The kinds of [std::io::ErrorKind] the code names; [OtherKind] stands for
    each remaining one. *)
Inductive ErrorKind : Type :=
| NotFound
| PermissionDenied
| AlreadyExists
| StorageFull
| NotADirectory
| IsADirectory
| DirectoryNotEmpty
| OtherKind (n : nat).

#[export] Instance ErrorKind_eq_dec : EqDecision ErrorKind.
Proof. solve_decision. Defined.

Record io_error : Type := IoError { kind : ErrorKind; message : string }.

(** [std::io::Error::new(kind, message)] and [std::io::Error::from(kind)]. *)
Definition io_error_new (k : ErrorKind) (msg : string) : io_error := IoError k msg.
Definition io_error_from (k : ErrorKind) : io_error := IoError k "".

Inductive Compression : Type := CNone | Lz4 | Zstd.

#[export] Instance Compression_eq_dec : EqDecision Compression.
Proof. solve_decision. Defined.

Inductive KafkoError : Type :=
| Io (e : io_error)
| Truncated (needed : Z)
| CrcMismatch (expected actual : Z)
| InvalidLength (n : Z)
| Closed
| TopicAlreadyExists (name : string)
| TopicNotFound (name : string)
| TopicInUse (name : string)
| UnknownCompression (flag : Z)
| DecompressionFailed
| CompressionUnavailable (c : Compression)
| AlreadyOpen (path : list string)
| PartitionPanicked (payload : string)
| InvalidPartitionCount (n : Z)
| InvalidGroupName (name : string)
| InvalidTopicLayout (topic detail : string).

(** [impl Clone for KafkoError]. *)
Definition clone (e : KafkoError) : KafkoError :=
  match e with
  | Io e => Io (io_error_new (kind e) (message e))
  | Truncated needed => Truncated needed
  | CrcMismatch expected actual => CrcMismatch expected actual
  | InvalidLength n => InvalidLength n
  | Closed => Closed
  | TopicAlreadyExists s => TopicAlreadyExists s
  | TopicNotFound s => TopicNotFound s
  | TopicInUse s => TopicInUse s
  | UnknownCompression b => UnknownCompression b
  | DecompressionFailed => DecompressionFailed
  | CompressionUnavailable c => CompressionUnavailable c
  | AlreadyOpen p => AlreadyOpen p
  | PartitionPanicked p => PartitionPanicked p
  | InvalidPartitionCount n => InvalidPartitionCount n
  | InvalidGroupName s => InvalidGroupName s
  | InvalidTopicLayout t d => InvalidTopicLayout t d
  end.

(** A clone keeps the error (kind and message of an [Io] included), which is
    what lets one batch failure be fanned out to every waiter. *)
Lemma clone_id e : clone e = e.
Proof. by destruct e as [[]| | | | | | | | | | | | | | |]. Qed.

(** [Result<T>] of the crate, on a state [S]. *)
Abbreviation KM S A := (M S KafkoError A).
