(* ===== verification/Compression.v ===== *)
(** * Value compression (compression.rs)

    [Compression] with its wire flag, and [compress]/[decompress] over the two
    codec crates.  The crates ([lz4_flex], [zstd]) and the Cargo features of
    the build are the parameter [Codecs]; [CodecLaws] is what their
    documentation promises and the code relies on. *)

From S2P Require Import Prelude Bytes Error.

(** [lz4_compress_into raw cap] and [zstd_compress_to_buffer raw cap] write
    into a buffer of [cap] bytes and give the bytes written ([None]: an
    error). *)
Class Codecs : Type := {
  compression_lz4 : bool;
  compression_zstd : bool;
  lz4_get_maximum_output_size : Z -> Z;
  lz4_compress_into : list byte -> Z -> option (list byte);
  lz4_decompress_size_prepended : list byte -> option (list byte);
  zstd_compress_bound : Z -> Z;
  zstd_compress_to_buffer : list byte -> Z -> option (list byte);
  zstd_bulk_decompress : list byte -> Z -> option (list byte);
}.

Class CodecLaws (C : Codecs) : Prop := {
  lz4_compress_fits raw :
    exists block,
      lz4_compress_into raw (lz4_get_maximum_output_size (len raw)) = Some block
      /\ len block <= lz4_get_maximum_output_size (len raw);
  lz4_round_trip raw block :
    len raw < 2 ^ 32 ->
    lz4_compress_into raw (lz4_get_maximum_output_size (len raw)) = Some block ->
    lz4_decompress_size_prepended (to_le_bytes 4 (len raw) ++ block) = Some raw;
  lz4_decompress_capped compressed raw :
    lz4_decompress_size_prepended compressed = Some raw -> len raw <= from_le_bytes (take 4 compressed);
  zstd_compress_fits raw :
    exists frame, zstd_compress_to_buffer raw (zstd_compress_bound (len raw)) = Some frame;
  zstd_round_trip raw frame max :
    zstd_compress_to_buffer raw (zstd_compress_bound (len raw)) = Some frame ->
    len raw <= max -> zstd_bulk_decompress frame max = Some raw;
  zstd_decompress_capped frame max raw :
    zstd_bulk_decompress frame max = Some raw -> len raw <= max;
}.

Definition DECOMPRESS_MAX_SIZE : Z := 16 * 1024 * 1024.

(** ** Wire flags *)
Definition flag (c : Compression) : Z :=
  match c with
  | CNone => 0
  | Lz4 => 1
  | Zstd => 2
  end.

Definition from_flag {S} (f : Z) : KM S Compression :=
  match f with
  | 0 => ret CNone
  | 1 => ret Lz4
  | 2 => ret Zstd
  | other => throw (UnknownCompression other)
  end.

Section compression.
Context {C : Codecs}.

Definition is_available (c : Compression) : bool :=
  match c with
  | CNone => true
  | Lz4 => compression_lz4
  | Zstd => compression_zstd
  end.

(** ** Compression

    The state is the caller's output buffer. *)
Definition lz4_compress (raw : list byte) : KM (list byte) unit :=
  if compression_lz4 then
    fun out =>
      let max_block_size := lz4_get_maximum_output_size (len raw) in
      let out := resize (Z.to_nat (4 + max_block_size)) x00 out in
      let out := splice 0 (to_le_bytes 4 (as_u32 (len raw))) out in
      match lz4_compress_into raw (len out - 4) with
      | Some block => (Ok tt, take (4 + length block) (splice 4 block out))
      | None => (Panic "lz4 compress_into_with_table should not fail", out)
      end
  else throw (CompressionUnavailable Lz4).

Definition zstd_compress (raw : list byte) : KM (list byte) unit :=
  if compression_zstd then
    fun out =>
      let bound := zstd_compress_bound (len raw) in
      match zstd_compress_to_buffer raw bound with
      | Some frame => (Ok tt, frame)
      | None => (Panic "zstd compress should not fail", out)
      end
  else throw (CompressionUnavailable Zstd).

Definition compress (c : Compression) (raw : list byte) : KM (list byte) unit :=
  fun _ =>
    let out := [] in
    match c with
    | CNone => (Ok tt, out ++ raw)
    | Lz4 => lz4_compress raw out
    | Zstd => zstd_compress raw out
    end.

(** ** Decompression *)
Definition lz4_decompress {S} (compressed : list byte) : KM S (list byte) :=
  if compression_lz4 then
    if len compressed <? 4 then throw DecompressionFailed
    else
      let claimed_size := from_le_bytes (take 4 compressed) in
      if DECOMPRESS_MAX_SIZE <? claimed_size then throw DecompressionFailed
      else
        match lz4_decompress_size_prepended compressed with
        | Some raw => ret raw
        | None => throw DecompressionFailed
        end
  else throw (CompressionUnavailable Lz4).

Definition zstd_decompress {S} (compressed : list byte) : KM S (list byte) :=
  if compression_zstd then
    match zstd_bulk_decompress compressed DECOMPRESS_MAX_SIZE with
    | Some raw => ret raw
    | None => throw DecompressionFailed
    end
  else throw (CompressionUnavailable Zstd).

Definition decompress {S} (c : Compression) (compressed : list byte) : KM S (list byte) :=
  match c with
  | CNone => ret compressed
  | Lz4 => lz4_decompress compressed
  | Zstd => zstd_decompress compressed
  end.

End compression.

(** ** Facts *)
Lemma flag_range c : is_u8 (flag c).
Proof. by destruct c. Qed.

Lemma from_flag_flag {S} c (s : S) : from_flag (flag c) s = (Ok c, s).
Proof. by destruct c. Qed.

(** Every byte other than 0, 1, 2 is rejected with the byte itself. *)
Lemma from_flag_unknown {S} z (s : S) :
  ~ 0 <= z <= 2 -> from_flag z s = (Err (UnknownCompression z), s).
Proof. intros. destruct z as [|[[]|[]|]|]; try done; lia. Qed.

Lemma from_flag_cases {S} z (s : S) :
  (exists c, from_flag z s = (Ok c, s)) \/ from_flag z s = (Err (UnknownCompression z), s).
Proof. destruct z as [|[[]|[]|]|]; eauto. Qed.

Section facts.
Context {C : Codecs} {CL : CodecLaws C}.

Lemma lz4_compress_run raw :
  compression_lz4 = true ->
  exists block,
    lz4_compress_into raw (lz4_get_maximum_output_size (len raw)) = Some block
    /\ lz4_compress raw [] = (Ok tt, to_le_bytes 4 (as_u32 (len raw)) ++ block).
Proof.
  intros Hf. destruct (lz4_compress_fits raw) as (block & Hb & Hlen).
  exists block. split; [done|]. unfold lz4_compress. rewrite Hf. cbn zeta.
  set (max := lz4_get_maximum_output_size (len raw)) in *.
  assert (0 <= max) by (pose proof (len_nonneg block); lia).
  set (hdr := to_le_bytes 4 (as_u32 (len raw))).
  assert (Hh : length hdr = 4%nat) by apply length_to_le_bytes.
  rewrite resize_nil. replace (Z.to_nat (4 + max)) with (length hdr + Z.to_nat max)%nat by lia.
  rewrite replicate_add.
  pose proof (splice_app [] (replicate (length hdr) x00) (replicate (Z.to_nat max) x00) hdr) as Hs.
  rewrite !app_nil_l in Hs. change (length []) with 0%nat in Hs.
  rewrite Hs by apply length_replicate.
  replace (len (hdr ++ replicate (Z.to_nat max) x00) - 4) with max
    by (unfold len; rewrite length_app, length_replicate; lia).
  rewrite Hb. unfold len in Hlen.
  replace (Z.to_nat max) with (length block + (Z.to_nat max - length block))%nat by lia.
  rewrite replicate_add, <- Hh, splice_app by apply length_replicate.
  rewrite app_assoc, <- length_app. by rewrite take_app_length.
Qed.

Lemma zstd_compress_run raw :
  compression_zstd = true ->
  exists frame,
    zstd_compress_to_buffer raw (zstd_compress_bound (len raw)) = Some frame
    /\ zstd_compress raw [] = (Ok tt, frame).
Proof.
  intros Hf. destruct (zstd_compress_fits raw) as [frame Hz].
  exists frame. unfold zstd_compress. by rewrite Hf, Hz.
Qed.

(** Compressing with a codec of the build always succeeds, whatever is left
    in the scratch buffer. *)
Lemma compress_available c raw scratch :
  is_available c = true -> exists out, compress c raw scratch = (Ok tt, out).
Proof.
  destruct c; simpl; intros Hf; unfold compress; eauto.
  - destruct (lz4_compress_run raw Hf) as (b & _ & H). eauto.
  - destruct (zstd_compress_run raw Hf) as (b & _ & H). eauto.
Qed.

Lemma compress_unavailable c raw scratch :
  is_available c = false ->
  compress c raw scratch = (Err (CompressionUnavailable c), []).
Proof.
  destruct c; simpl; intros Hf; unfold compress, lz4_compress, zstd_compress;
    by rewrite ?Hf.
Qed.

Lemma decompress_unavailable {S} c raw (s : S) :
  is_available c = false -> decompress c raw s = (Err (CompressionUnavailable c), s).
Proof.
  destruct c; simpl; intros Hf; unfold lz4_decompress, zstd_decompress; by rewrite ?Hf.
Qed.

Lemma compress_Lz4_inv raw scratch out :
  compress Lz4 raw scratch = (Ok tt, out) ->
  compression_lz4 = true /\
  exists block,
    lz4_compress_into raw (lz4_get_maximum_output_size (len raw)) = Some block
    /\ out = to_le_bytes 4 (as_u32 (len raw)) ++ block.
Proof.
  unfold compress. intros Hc. destruct compression_lz4 eqn:Hf.
  - destruct (lz4_compress_run raw Hf) as (block & Hb & Hr). rewrite Hr in Hc.
    split; [done|]. exists block. split; congruence.
  - unfold lz4_compress in Hc. by rewrite Hf in Hc.
Qed.

Lemma compress_Zstd_inv raw scratch out :
  compress Zstd raw scratch = (Ok tt, out) ->
  compression_zstd = true /\
  zstd_compress_to_buffer raw (zstd_compress_bound (len raw)) = Some out.
Proof.
  unfold compress. intros Hc. destruct compression_zstd eqn:Hf.
  - destruct (zstd_compress_run raw Hf) as (frame & Hb & Hr). rewrite Hr in Hc.
    split; congruence.
  - unfold zstd_compress in Hc. by rewrite Hf in Hc.
Qed.

(** The size cap, on the bytes the LZ4 path writes. *)
Lemma lz4_decompress_prefixed {S} (raw block : list byte) (s : S) :
  compression_lz4 = true -> len raw < 2 ^ 32 ->
  lz4_decompress (to_le_bytes 4 (as_u32 (len raw)) ++ block) s =
  if DECOMPRESS_MAX_SIZE <? len raw then (Err DecompressionFailed, s)
  else match lz4_decompress_size_prepended (to_le_bytes 4 (len raw) ++ block) with
       | Some v => (Ok v, s)
       | None => (Err DecompressionFailed, s)
       end.
Proof.
  intros Hf Hlen. pose proof (len_nonneg raw). pose proof (len_nonneg block).
  rewrite as_u32_small by (split; lia).
  unfold lz4_decompress. rewrite Hf, len_app, len_to_le_bytes.
  rewrite (proj2 (Z.ltb_ge _ _)) by lia. cbn zeta.
  rewrite take_app_length', from_to_le_bytes by (by rewrite length_to_le_bytes).
  rewrite Z.mod_small by lia. by repeat case_match.
Qed.

Lemma decompress_compress {S} c raw scratch out (s : S) :
  compress c raw scratch = (Ok tt, out) ->
  c = CNone \/ len raw <= DECOMPRESS_MAX_SIZE ->
  decompress c out s = (Ok raw, s).
Proof.
  intros Hc [->|Hlen]; [by inversion Hc|].
  assert (len raw < 2 ^ 32) by (unfold DECOMPRESS_MAX_SIZE in Hlen; lia).
  destruct c; simpl.
  - by inversion Hc.
  - apply compress_Lz4_inv in Hc as (Hf & block & Hb & ->).
    rewrite lz4_decompress_prefixed, (proj2 (Z.ltb_ge _ _)) by done.
    by rewrite lz4_round_trip.
  - apply compress_Zstd_inv in Hc as (Hf & Hb).
    unfold zstd_decompress. by rewrite Hf, (zstd_round_trip _ _ _ Hb).
Qed.

(** A value the build compresses with LZ4 although it is over the
    decompression cap can never be decompressed again. *)
Lemma lz4_decompress_oversized {S} raw scratch out (s : S) :
  compress Lz4 raw scratch = (Ok tt, out) ->
  DECOMPRESS_MAX_SIZE < len raw < 2 ^ 32 ->
  decompress Lz4 out s = (Err DecompressionFailed, s).
Proof.
  intros Hc Hlen. simpl.
  apply compress_Lz4_inv in Hc as (Hf & block & Hb & ->).
  by rewrite lz4_decompress_prefixed, (proj2 (Z.ltb_lt _ _)) by (done || lia).
Qed.

End facts.

(** Decompression never panics and never touches the caller's state. *)
Lemma decompress_total `{Codecs} {S} c raw (s : S) :
  (exists v, decompress c raw s = (Ok v, s)) \/ (exists e, decompress c raw s = (Err e, s)).
Proof.
  destruct c; simpl; unfold lz4_decompress, zstd_decompress; repeat case_match; eauto.
Qed.

(** Whatever bytes are on disk, a decompressed zstd value is within the cap. *)
Lemma zstd_value_capped {C : Codecs} {CL : CodecLaws C} {S} raw v (s : S) :
  decompress Zstd raw s = (Ok v, s) -> len v <= DECOMPRESS_MAX_SIZE.
Proof.
  simpl. unfold zstd_decompress. repeat case_match; try done.
  intros [= ->]. by eapply zstd_decompress_capped.
Qed.

(** And so is a decompressed LZ4 value. *)
Lemma decompress_capped {C : Codecs} {CL : CodecLaws C} {S} c raw v (s s' : S) :
  c <> CNone -> decompress c raw s = (Ok v, s') -> len v <= DECOMPRESS_MAX_SIZE.
Proof.
  destruct c; [done| |]; intros _; simpl.
  - unfold lz4_decompress. destruct compression_lz4; [|done]. destruct (len raw <? 4); [done|].
    destruct (Z.ltb_spec DECOMPRESS_MAX_SIZE (from_le_bytes (take 4 raw))); [done|]. case_match eqn:E; [|done].
    intros [= <- <-]. pose proof (lz4_decompress_capped _ _ E). lia.
  - unfold zstd_decompress. repeat case_match; try done.
    intros [= <- <-]. by eapply zstd_decompress_capped.
Qed.

(** ** A concrete build

    All features on, with codecs that store the value as it is (a legal, if
    useless, LZ4 block and zstd frame format): the laws are satisfiable. *)
#[export] Instance stored_codecs : Codecs := {|
  compression_lz4 := true;
  compression_zstd := true;
  lz4_get_maximum_output_size n := n;
  lz4_compress_into raw cap := if len raw <=? cap then Some raw else None;
  lz4_decompress_size_prepended bs :=
    if from_le_bytes (take 4 bs) =? len (drop 4 bs) then Some (drop 4 bs) else None;
  zstd_compress_bound n := n;
  zstd_compress_to_buffer raw cap := if len raw <=? cap then Some raw else None;
  zstd_bulk_decompress frame max := if len frame <=? max then Some frame else None;
|}.

#[export] Instance stored_codecs_laws : CodecLaws stored_codecs.
Proof.
  split; simpl.
  - intros raw. exists raw. by rewrite Z.leb_refl.
  - intros raw block Hl. rewrite Z.leb_refl. intros [= <-]. pose proof (len_nonneg raw).
    rewrite take_app_length', drop_app_length', from_to_le_bytes by (by rewrite length_to_le_bytes).
    rewrite Z.mod_small by lia. by rewrite Z.eqb_refl.
  - intros compressed raw. destruct (Z.eqb_spec (from_le_bytes (take 4 compressed)) (len (drop 4 compressed))); [|done].
    intros [= <-]. lia.
  - intros raw. exists raw. by rewrite Z.leb_refl.
  - intros raw frame max. rewrite Z.leb_refl. intros [= <-] Hm. by rewrite (proj2 (Z.leb_le _ _)).
  - intros frame max raw. destruct (Z.leb_spec (len frame) max); [|done]. by intros [= <-].
Qed.
