(* ===== verification/LogRecord.v ===== *)
(** * Records and their wire format (record.rs)

    [record] is [struct Record]; [encode], [encode_with], [encode_inner] and
    [decode] are the codec, step for step.  [frame] is the reference layout
    the codec is proved against. *)

From S2P Require Import Prelude Bytes Error Compression.

Definition KEY_NULL_SENTINEL : Z := u32_max.
Definition MIN_TOTAL_LEN : Z := 4 + 1 + 8 + 4 + 4.

Record record : Type := Rec {
  timestamp_ms : Z;
  key : option (list byte);
  value : list byte;
}.

#[export] Instance record_eq_dec : EqDecision record.
Proof. solve_decision. Defined.

(** [Record::new]. *)
Definition new (timestamp_ms : Z) (key : option (list byte)) (value : list byte) : record :=
  Rec timestamp_ms key value.

Definition key_part (k : option (list byte)) : Z :=
  match k with
  | None => 4
  | Some k => 4 + len k
  end.

Definition wire_size (self : record) : Z :=
  4 + 4 + 1 + 8 + key_part (key self) + 4 + len (value self).

Section codec.
Context {B : Buf} {H : Crc32} {C : Codecs}.

(** ** Encoding

    The state is the output buffer [out: &mut BytesMut]. *)
Definition encode_inner (self : record) (compression : Compression)
    (val_bytes_override : option (list byte)) : KM (list byte) Z :=
  fun out =>
    let start_len := len out in
    let flag := flag compression in
    let val_bytes := default (value self) val_bytes_override in
    let val_part := 4 + len val_bytes in
    let payload_len := 1 + 8 + key_part (key self) + val_part in
    let total_len := 4 + payload_len in
    let out := put_u32 out (as_u32 total_len) in
    let crc_pos := length out in
    let out := put_u32 out 0 in
    let payload_start := length out in
    let out := put_u8 out flag in
    let out := put_i64 out (timestamp_ms self) in
    let out :=
      match key self with
      | None => put_u32 out KEY_NULL_SENTINEL
      | Some k => put_slice (put_u32 out (as_u32 (len k))) k
      end in
    let out := put_u32 out (as_u32 (len val_bytes)) in
    let out := put_slice out val_bytes in
    let crc := crc32 (drop payload_start out) in
    let out := splice crc_pos (to_be_bytes 4 crc) out in
    (Ok (len out - start_len), out).

(** The thread-local scratch buffer is cleared by [compress] before use, so
    its old contents are immaterial ([compress] ignores its input state). *)
Definition encode_with (self : record) (compression : Compression) : KM (list byte) Z :=
  match compression with
  | CNone => encode_inner self compression None
  | Lz4 | Zstd =>
      fun out =>
        match compress compression (value self) [] with
        | (Ok tt, scratch) => encode_inner self compression (Some scratch) out
        | (Err e, _) => (Err e, out)
        | (Panic p, _) => (Panic p, out)
        | (NoFuel, _) => (NoFuel, out)
        end
  end.

Definition encode (self : record) : KM (list byte) Z := encode_inner self CNone None.

(** ** Decoding

    The state is the input slice [buf: &mut &[u8]]. *)
Definition decode : KM (list byte) record :=
  let* rem := remaining in
  if rem <? 4 then throw (Truncated (4 - rem)) else
  let* total_len := get get_u32 in
  if total_len <? MIN_TOTAL_LEN then throw (InvalidLength (as_u32 total_len)) else
  let* rem := remaining in
  if rem <? total_len then throw (Truncated (total_len - rem)) else
  let* expected_crc := get get_u32 in
  let payload_len := total_len - 4 in
  let* payload := take_slice payload_len in
  let actual_crc := crc32 payload in
  if negb (actual_crc =? expected_crc) then throw (CrcMismatch expected_crc actual_crc) else
  let* flag := get get_u8 in
  let* compression := from_flag flag in
  let* timestamp_ms := get get_i64 in
  let* key_len_raw := get get_u32 in
  let* key :=
    (if key_len_raw =? KEY_NULL_SENTINEL then ret None else
     let key_len := key_len_raw in
     let* rem := remaining in
     if rem <? key_len then throw (InvalidLength (as_u32 total_len)) else
     let* bytes := take_slice key_len in
     let* _ := advance_by key_len in
     ret (Some bytes)) in
  let* rem := remaining in
  if rem <? 4 then throw (InvalidLength (as_u32 total_len)) else
  let* val_len := get get_u32 in
  let* rem := remaining in
  if rem <? val_len then throw (InvalidLength (as_u32 total_len)) else
  let* raw_val := take_slice val_len in
  let* value :=
    (match compression with
     | CNone => ret raw_val
     | Lz4 | Zstd => decompress compression raw_val
     end) in
  let* _ := advance_by val_len in
  ret (Rec timestamp_ms key value).

(** ** The layout, as a reference

    [stored] is the value as written: itself, or its compressed form. *)
Definition key_field (k : option (list byte)) : list byte :=
  match k with
  | None => to_be_bytes 4 KEY_NULL_SENTINEL
  | Some k => to_be_bytes 4 (as_u32 (len k)) ++ k
  end.

Definition payload (c : Compression) (stored : list byte) (r : record) : list byte :=
  to_be_bytes 1 (flag c) ++ to_be_bytes 8 (as_u64 (timestamp_ms r)) ++ key_field (key r)
  ++ to_be_bytes 4 (as_u32 (len stored)) ++ stored.

Definition frame (c : Compression) (stored : list byte) (r : record) : list byte :=
  to_be_bytes 4 (as_u32 (4 + len (payload c stored r)))
  ++ to_be_bytes 4 (crc32 (payload c stored r)) ++ payload c stored r.

(** The record is a value of the Rust type and its frame length fits the
    [u32] length field. *)
Definition fits (stored : list byte) (r : record) : Prop :=
  is_i64 (timestamp_ms r) /\ 4 + 1 + 8 + key_part (key r) + 4 + len stored < 2 ^ 32.

End codec.

(** ** Facts about the codec *)
Section codec_facts.
Context {B : Buf} {BL : BufLaws B} {H : Crc32} {HL : Crc32Laws H} {C : Codecs}.
Implicit Types (r : record) (c : Compression) (out rest stored : list byte).

Lemma len_key_field k : len (key_field k) = key_part k.
Proof. destruct k; simpl; lens. Qed.

Lemma key_part_pos k : 4 <= key_part k.
Proof. destruct k; simpl; unfold len; lia. Qed.

Lemma len_payload c stored r :
  len (payload c stored r) = 1 + 8 + key_part (key r) + (4 + len stored).
Proof. unfold payload. autorewrite with len. rewrite len_key_field. lia. Qed.

Lemma len_frame c stored r :
  len (frame c stored r) = 4 + 4 + 1 + 8 + key_part (key r) + 4 + len stored.
Proof. unfold frame. autorewrite with len. rewrite len_payload. lia. Qed.

Lemma put_key out k :
  match k with
  | None => put_u32 out KEY_NULL_SENTINEL
  | Some k => put_slice (put_u32 out (as_u32 (len k))) k
  end = out ++ key_field k.
Proof.
  destruct k as [k|]; simpl.
  - rewrite put_slice_spec, put_u32_spec by apply as_u32_range. by rewrite app_assoc.
  - by rewrite put_u32_spec.
Qed.

(** [encode_inner] appends exactly one frame and returns its length. *)
Lemma encode_inner_run r c ovr out :
  is_i64 (timestamp_ms r) ->
  encode_inner r c ovr out =
  (Ok (len (frame c (default (value r) ovr) r)), out ++ frame c (default (value r) ovr) r).
Proof.
  intros Hts. unfold encode_inner. cbn zeta. set (v := default (value r) ovr).
  rewrite put_key, put_slice_spec, !put_u32_spec, put_u8_spec, put_i64_spec
    by first [apply as_u32_range | apply flag_range | assumption | unfold is_u32; lia].
  rewrite <- !app_assoc. fold (payload c v r).
  replace (4 + (1 + 8 + key_part (key r) + (4 + len v))) with (4 + len (payload c v r))
    by (rewrite len_payload; lia).
  set (hd := to_be_bytes 4 (as_u32 _)).
  assert (Hd : drop (length (out ++ hd ++ to_be_bytes 4 0))
                 (out ++ hd ++ to_be_bytes 4 0 ++ payload c v r) = payload c v r).
  { replace (out ++ hd ++ to_be_bytes 4 0 ++ payload c v r)
      with ((out ++ hd ++ to_be_bytes 4 0) ++ payload c v r) by (by rewrite <- !app_assoc).
    apply drop_app_length. }
  rewrite !Hd, !(app_assoc out hd), !splice_app by (by rewrite !length_to_be_bytes).
  rewrite <- app_assoc. subst hd. fold (frame c v r). rewrite len_app. do 2 f_equal. lia.
Qed.

(** What the encoder stores for a value. *)
Definition stores c r stored : Prop :=
  match c with
  | CNone => stored = value r
  | Lz4 | Zstd => compress c (value r) [] = (Ok tt, stored)
  end.

Lemma encode_with_run r c stored out :
  is_i64 (timestamp_ms r) -> stores c r stored ->
  encode_with r c out = (Ok (len (frame c stored r)), out ++ frame c stored r).
Proof.
  intros Hts Hs. destruct c; simpl in Hs |- *; [|by rewrite Hs, encode_inner_run..].
  subst stored. apply (encode_inner_run r CNone None out Hts).
Qed.

Lemma bind_remaining {A} (k : Z -> KM (list byte) A) buf :
  bind remaining k buf = k (len buf) buf.
Proof. done. Qed.

(** Reading a key field back, whatever follows. *)
Lemma get_key {A} k rest e (cont : option (list byte) -> KM (list byte) A) :
  key_part k < 2 ^ 32 ->
  (let* key_len_raw := get get_u32 in
   let* key :=
     (if key_len_raw =? KEY_NULL_SENTINEL then ret None else
      let* rem := remaining in
      if rem <? key_len_raw then throw e else
      let* bytes := take_slice key_len_raw in
      let* _ := advance_by key_len_raw in
      ret (Some bytes)) in
   cont key) (key_field k ++ rest) = cont k rest.
Proof.
  intros Hk. destruct k as [k|]; simpl in Hk |- *.
  - pose proof (len_nonneg k).
    rewrite <- app_assoc, as_u32_small by (split; lia).
    rewrite (bind_Ok _ _ _ _ _ (get_u32_app (len k) (k ++ rest) ltac:(split; lia))).
    rewrite (proj2 (Z.eqb_neq _ _)) by (unfold KEY_NULL_SENTINEL, u32_max; lia).
    rewrite bind_bind, bind_remaining, (proj2 (Z.ltb_ge _ _))
      by (pose proof (len_nonneg rest); lens).
    by rewrite bind_bind, (bind_Ok _ _ _ _ _ (take_slice_app k rest)), bind_bind,
      (bind_Ok _ _ _ _ _ (advance_app k rest)).
  - by rewrite (bind_Ok _ _ _ _ _ (get_u32_app KEY_NULL_SENTINEL rest ltac:(done))).
Qed.

Lemma payload_app c stored r rest :
  payload c stored r ++ rest =
  to_be_bytes 1 (flag c) ++ to_be_bytes 8 (as_u64 (timestamp_ms r)) ++ key_field (key r)
  ++ to_be_bytes 4 (as_u32 (len stored)) ++ stored ++ rest.
Proof. unfold payload. by rewrite <- !app_assoc. Qed.

(** Decoding what the encoder wrote, with anything behind it: everything but
    the value comes back, the value is [decompress]ed. *)
Lemma decode_frame c stored r rest :
  fits stored r ->
  decode (frame c stored r ++ rest) =
  (let* v := decompress c stored in
   let* _ := advance_by (len stored) in
   ret (Rec (timestamp_ms r) (key r) v)) (stored ++ rest).
Proof.
  intros [Hts Hlen]. pose proof (len_nonneg stored). pose proof (len_nonneg rest).
  pose proof (key_part_pos (key r)). pose proof (len_payload c stored r) as Hp.
  unfold decode, frame. rewrite <- !app_assoc, bind_remaining.
  rewrite as_u32_small by (split; lia).
  rewrite (proj2 (Z.ltb_ge _ _)) by lens.
  mrun @get_u32_app.
  rewrite (proj2 (Z.ltb_ge _ _)) by (unfold MIN_TOTAL_LEN; lia).
  rewrite bind_remaining, (proj2 (Z.ltb_ge _ _)) by lens.
  rewrite (bind_Ok _ _ _ _ _ (get_u32_app _ _ (crc32_range _))). cbn zeta.
  replace (4 + len (payload c stored r) - 4) with (len (payload c stored r)) by lia.
  rewrite (bind_Ok _ _ _ _ _ (take_slice_app _ _)), Z.eqb_refl. cbn [negb].
  rewrite payload_app.
  rewrite (bind_Ok _ _ _ _ _ (get_u8_app _ _ (flag_range c))).
  rewrite (bind_Ok _ _ _ _ _ (from_flag_flag c _)).
  rewrite (bind_Ok _ _ _ _ _ (get_i64_app _ _ Hts)).
  rewrite get_key by lia.
  rewrite bind_remaining, (proj2 (Z.ltb_ge _ _)) by lens.
  rewrite (as_u32_small (len stored)) by (split; lia).
  mrun @get_u32_app.
  rewrite bind_remaining, (proj2 (Z.ltb_ge _ _)) by lens.
  rewrite (bind_Ok _ _ _ _ _ (take_slice_app _ _)).
  by destruct c.
Qed.

Lemma decode_frame_Ok c stored r rest :
  fits stored r -> (forall s : list byte, decompress c stored s = (Ok (value r), s)) ->
  decode (frame c stored r ++ rest) = (Ok r, rest).
Proof.
  intros Hf Hd. rewrite decode_frame by done.
  rewrite (bind_Ok _ _ _ _ _ (Hd _)), (bind_Ok _ _ _ _ _ (advance_app stored rest)).
  by destruct r.
Qed.

Lemma decode_frame_Err c stored r rest e :
  fits stored r -> (forall s : list byte, decompress c stored s = (Err e, s)) ->
  decode (frame c stored r ++ rest) = (Err e, stored ++ rest).
Proof. intros Hf Hd. rewrite decode_frame by done. by rewrite (bind_Err _ _ _ _ _ (Hd _)). Qed.

(** A frame cut short anywhere is reported as truncated, never as another
    error and never decoded: the torn-tail case of crash recovery. *)
Lemma decode_frame_prefix c stored r (n : nat) :
  fits stored r -> Z.of_nat n < len (frame c stored r) ->
  exists needed s, decode (take n (frame c stored r)) = (Err (Truncated needed), s) /\ 0 < needed.
Proof.
  intros [Hts Hlen] Hn. pose proof (len_nonneg stored). pose proof (key_part_pos (key r)).
  pose proof (len_payload c stored r) as Hp. pose proof (len_frame c stored r) as Hl.
  unfold decode. rewrite bind_remaining, len_take by lia.
  destruct (Z.ltb_spec (Z.of_nat n) 4).
  { do 2 eexists. split; [done|lia]. }
  unfold frame. rewrite take_app_ge by (rewrite length_to_be_bytes; lia).
  rewrite as_u32_small by (split; lia).
  mrun @get_u32_app.
  rewrite (proj2 (Z.ltb_ge _ _)) by (unfold MIN_TOTAL_LEN; lia).
  rewrite length_to_be_bytes, bind_remaining, len_take by (autorewrite with len; lia).
  rewrite (proj2 (Z.ltb_lt _ _)) by lia.
  do 2 eexists. split; [done|lia].
Qed.

(** One read of known length off a suffix of the input. *)
Tactic Notation "rd" uconstr(lem) :=
  erewrite bind_Ok; [ | apply lem; rewrite ?len_drop by lia; lia ]; rewrite ?drop_drop.

(** The errors decoding can report. *)
Definition decode_error (e : KafkoError) : Prop :=
  match e with
  | Truncated n => 0 < n
  | CrcMismatch x a => x <> a
  | InvalidLength _ | UnknownCompression _ | DecompressionFailed
  | CompressionUnavailable _ => True
  | _ => False
  end.

(** On arbitrary bytes decoding never panics: it reports one of the errors
    above, or consumes at least a minimal frame off the front. *)
Definition decode_post buf (res : outcome KafkoError record * list byte) : Prop :=
  match res with
  | (Ok _, rest) => exists n : nat, rest = drop n buf /\ 25 <= Z.of_nat n <= len buf
  | (Err e, _) => decode_error e
  | _ => False
  end.

(** The part of [decode] behind the key field. *)
Lemma decode_value_post c ts k (n : nat) buf e :
  decode_error e -> 21 <= Z.of_nat n <= len buf ->
  decode_post buf
    ((let* rem := remaining in
      if rem <? 4 then throw e else
      let* val_len := get get_u32 in
      let* rem := remaining in
      if rem <? val_len then throw e else
      let* raw_val := take_slice val_len in
      let* value :=
        (match c with
         | CNone => ret raw_val
         | Lz4 | Zstd => decompress c raw_val
         end) in
      let* _ := advance_by val_len in
      ret (Rec ts k value)) (drop n buf)).
Proof.
  intros He Hn. rewrite bind_remaining. zcase; [done|].
  rewrite len_drop in * by lia.
  rd get_u32_run. rewrite bind_remaining.
  set (vl := from_be_bytes _). pose proof (from_be_bytes_range (take 4 (drop n buf))) as Hvl.
  fold vl in Hvl. zcase; [done|]. rewrite len_drop in * by lia.
  rd take_slice_run.
  set (raw := take _ _). set (m := match c with CNone => _ | _ => _ end).
  assert (Hm : (exists v, m (drop (n + 4) buf) = (Ok v, drop (n + 4) buf))
               \/ (exists e', m (drop (n + 4) buf) = (Err e', drop (n + 4) buf) /\ decode_error e')).
  { subst m. destruct c; simpl; unfold lz4_decompress, zstd_decompress;
      repeat case_match; first [left; by eexists | right; by eexists]. }
  destruct Hm as [[v Hm] | (e' & Hm & He')]; mstep Hm; [|done].
  rd advance_run.
  simpl. eexists. split; [done|]. lia.
Qed.

Lemma record_decode_total buf : decode_post buf (decode buf).
Proof.
  unfold decode. rewrite bind_remaining.
  destruct (Z.ltb_spec (len buf) 4); [simpl; lia|].
  rd get_u32_run. set (tl := from_be_bytes _).
  destruct (Z.ltb_spec tl MIN_TOTAL_LEN) as [|Htl]; [done|]. unfold MIN_TOTAL_LEN in Htl.
  rewrite bind_remaining, len_drop by lia.
  destruct (Z.ltb_spec (len buf - Z.of_nat 4) tl); [simpl; lia|].
  rd get_u32_run.
  cbn zeta.
  rd take_slice_run.
  destruct (Z.eqb_spec (crc32 (take (Z.to_nat (tl - 4)) (drop (4 + 4) buf)))
              (from_be_bytes (take 4 (drop 4 buf)))) as [|Hne]; cbn [negb].
  2: { exact (not_eq_sym Hne). }
  rd get_u8_run.
  destruct (from_flag_cases (from_be_bytes (take 1 (drop (4 + 4) buf))) (drop (4 + 4 + 1) buf))
    as [[c Hc] | Hc]; mstep Hc; [|done].
  rd get_i64_run.
  rd get_u32_run.
  set (kl := from_be_bytes (take 4 _)).
  pose proof (from_be_bytes_range (take 4 (drop (4 + 4 + 1 + 8) buf))) as Hkl. fold kl in Hkl.
  destruct (Z.eqb_spec kl KEY_NULL_SENTINEL).
  { rewrite bind_ret. by apply decode_value_post; [|lia]. }
  rewrite bind_bind, bind_remaining, len_drop by lia.
  destruct (Z.ltb_spec (len buf - Z.of_nat (4 + 4 + 1 + 8 + 4)) kl); [done|].
  rewrite bind_bind. rd take_slice_run.
  rewrite bind_bind. rd advance_run.
  rewrite bind_ret. by apply decode_value_post; [|lia].
Qed.

(** A failing checksum is always reported: no record is produced from a frame
    whose stored and recomputed CRC differ. *)
Lemma decode_Ok_crc buf r rest :
  decode buf = (Ok r, rest) ->
  let total_len := from_be_bytes (take 4 buf) in
  from_be_bytes (take 4 (drop 4 buf)) = crc32 (take (Z.to_nat (total_len - 4)) (drop 8 buf)).
Proof.
  unfold decode. rewrite bind_remaining. zcase; [done|].
  rd get_u32_run. set (tl := from_be_bytes _).
  zcase; [done|]. unfold MIN_TOTAL_LEN in *.
  rewrite bind_remaining, len_drop by lia. zcase; [done|].
  rd get_u32_run.
  cbn zeta.
  rd take_slice_run.
  zcase; done.
Qed.

(** What the reads of the decoder return. *)
Lemma get_u32_inv {E} buf z s : @get E Z get_u32 buf = (Ok z, s) -> is_u32 z.
Proof.
  unfold get. rewrite get_u32_spec. destruct (Z.ltb_spec (len buf) 4) as [|Hb]; [done|]. intros [= <- _].
  pose proof (from_be_bytes_range (take 4 buf)) as Hr. rewrite len_take in Hr by lia. split; lia.
Qed.

Lemma get_i64_inv {E} buf z s : @get E Z get_i64 buf = (Ok z, s) -> is_i64 z.
Proof.
  unfold get. rewrite get_i64_spec. destruct (Z.ltb_spec (len buf) 8) as [|Hb]; [done|]. intros [= <- _].
  unfold as_i64, is_i64. pose proof (Z.mod_pos_bound (from_be_bytes (take 8 buf) + 2 ^ 63) (2 ^ 64) ltac:(lia)). lia.
Qed.

Lemma take_slice_inv {E} n buf bs s : @take_slice E n buf = (Ok bs, s) -> 0 <= n -> len bs = n.
Proof. unfold take_slice. destruct (Z.leb_spec n (len buf)); [|done]. intros [= <- _] Hn. rewrite len_take; lia. Qed.

(** A decoded record is a value of the Rust types. *)
Definition typed (r : record) : Prop :=
  is_i64 (timestamp_ms r) /\ is_u32 (len (value r)) /\ forall k, key r = Some k -> is_u32 (len k).

Lemma decode_typed {CL : CodecLaws C} buf r rest : decode buf = (Ok r, rest) -> typed r.
Proof.
  unfold decode. intros Hd. apply bind_Ok_inv in Hd as (rem & s0 & _ & Hd). case_match; [done|].
  apply bind_Ok_inv in Hd as (tl & s1 & _ & Hd). case_match; [done|].
  apply bind_Ok_inv in Hd as (rem2 & s2 & _ & Hd). case_match; [done|].
  apply bind_Ok_inv in Hd as (crc & s3 & _ & Hd). cbn zeta in Hd.
  apply bind_Ok_inv in Hd as (pl & s4 & _ & Hd). destruct (negb _); [done|].
  apply bind_Ok_inv in Hd as (f & s5 & _ & Hd). apply bind_Ok_inv in Hd as (c & s6 & _ & Hd).
  apply bind_Ok_inv in Hd as (ts & s7 & Hts%get_i64_inv & Hd).
  apply bind_Ok_inv in Hd as (kl & s8 & Hkl%get_u32_inv & Hd).
  apply bind_Ok_inv in Hd as (k & s9 & Hk & Hd).
  apply bind_Ok_inv in Hd as (rem3 & s10 & _ & Hd). case_match; [done|].
  apply bind_Ok_inv in Hd as (vl & s11 & Hvl%get_u32_inv & Hd).
  apply bind_Ok_inv in Hd as (rem4 & s12 & _ & Hd). case_match; [done|].
  apply bind_Ok_inv in Hd as (raw & s13 & Hraw & Hd).
  apply bind_Ok_inv in Hd as (v & s14 & Hv & Hd). apply bind_Ok_inv in Hd as (u & s15 & _ & Hd).
  injection Hd as <- _. apply take_slice_inv in Hraw; [|apply Hvl]. split; [done|]. split; simpl.
  - destruct c; [by injection Hv as <- _; rewrite Hraw|..];
      (apply decompress_capped in Hv; [|done]); pose proof (len_nonneg v); unfold DECOMPRESS_MAX_SIZE in Hv; split; lia.
  - intros k' ->. destruct (kl =? KEY_NULL_SENTINEL); [done|].
    apply bind_Ok_inv in Hk as (rem5 & t1 & _ & Hk). destruct (rem5 <? kl); [done|].
    apply bind_Ok_inv in Hk as (bs & t2 & Hbs & Hk). apply bind_Ok_inv in Hk as (u' & t3 & _ & Hk).
    injection Hk as -> _. apply take_slice_inv in Hbs; [|apply Hkl]. by rewrite Hbs.
Qed.

End codec_facts.
