(* ===== verification/Fs.v ===== *)
(** * The file system

    What the program uses of [std::fs], [std::io] and [tokio::fs] (which runs
    the same calls on a blocking thread).  A [World] holds the files and
    directories by path, the clock, and a script of injected I/O failures:
    every system call takes the next entry of the script and fails with it if
    it is a [Fault]; an empty script means no call fails.  A file keeps the
    bytes a reader sees and the bytes known to be on the device ([f_synced],
    updated by [sync_data]/[sync_all]).  [read_max] bounds the bytes one
    [read] call transfers (0x7ffff000 on Linux). *)

From S2P Require Import Prelude Bytes Error.

Abbreviation path := (list string).

Record fnode : Type := FNode { f_data : list byte; f_synced : list byte; f_mtime : Z }.

Inductive node : Type := NFile (f : fnode) | NDir.

#[export] Instance fnode_eq_dec : EqDecision fnode.
Proof. solve_decision. Defined.

#[export] Instance node_eq_dec : EqDecision node.
Proof. solve_decision. Defined.

(** A failing call: the error kind, and for a write how many bytes got into
    the file before it failed. *)
Record fault : Type := Fault { fault_kind : ErrorKind; fault_written : nat }.

Record World : Type := mkWorld {
  nodes : gmap path node;
  now_ms : Z;
  faults : list (option fault);
  read_max : Z;
}.

Abbreviation IO A := (M World io_error A).

Definition set_nodes (f : gmap path node -> gmap path node) (w : World) : World :=
  mkWorld (f (nodes w)) (now_ms w) (faults w) (read_max w).

Definition next_fault {E} : M World E (option fault) :=
  fun w =>
    match faults w with
    | [] => (Ok None, w)
    | f :: fs => (Ok f, mkWorld (nodes w) (now_ms w) fs (read_max w))
    end.

(** A call that does nothing when it fails. *)
Definition syscall {A} (m : IO A) : IO A :=
  let* f := next_fault in
  match f with
  | Some f => throw (io_error_from (fault_kind f))
  | None => m
  end.

Definition get_node (p : path) : IO (option node) := fun w => (Ok (nodes w !! p), w).

Definition lookup_file (p : path) : IO fnode :=
  let* n := get_node p in
  match n with
  | Some (NFile f) => ret f
  | Some NDir => throw (io_error_from IsADirectory)
  | None => throw (io_error_from NotFound)
  end.

Definition put_file (p : path) (f : fnode) : IO unit :=
  fun w => (Ok tt, set_nodes <[p := NFile f]> w).

Definition parent_is_dir (p : path) (w : World) : bool :=
  match removelast p with
  | [] => true
  | q => match nodes w !! q with Some NDir => true | _ => false end
  end.

(** ** Paths *)

(** [OpenOptions::new().create_new(true)...open(p)]. *)
Definition open_create_new (p : path) : IO unit :=
  syscall
    (let* n := get_node p in
     match n with
     | Some _ => throw (io_error_from AlreadyExists)
     | None =>
         fun w =>
           if parent_is_dir p w then put_file p (FNode [] [] (now_ms w)) w
           else (Err (io_error_from NotFound), w)
     end).

(** [File::create(p)]: an empty file, the old contents gone. *)
Definition create_file (p : path) : IO unit :=
  syscall
    (let* n := get_node p in
     match n with
     | Some NDir => throw (io_error_from IsADirectory)
     | Some (NFile _) => fun w => put_file p (FNode [] [] (now_ms w)) w
     | None =>
         fun w =>
           if parent_is_dir p w then put_file p (FNode [] [] (now_ms w)) w
           else (Err (io_error_from NotFound), w)
     end).

(** [OpenOptions::new()....create(true).truncate(false).open(p)]: an existing
    file as it is, else a new empty one. *)
Definition open_or_create (p : path) : IO unit :=
  syscall
    (let* n := get_node p in
     match n with
     | Some NDir => throw (io_error_from IsADirectory)
     | Some (NFile _) => ret tt
     | None => fun w =>
           if parent_is_dir p w then put_file p (FNode [] [] (now_ms w)) w
           else (Err (io_error_from NotFound), w)
     end).

(** [OpenOptions::new()...open(p)] without a create flag. *)
Definition open_existing (p : path) : IO unit := syscall (let* _ := lookup_file p in ret tt).

(** [std::fs::metadata(p)]: the length and the modification time. *)
Definition metadata (p : path) : IO (Z * Z) :=
  syscall (let* f := lookup_file p in ret (len (f_data f), f_mtime f)).

(** [std::fs::read(p)]: the whole contents. *)
Definition read_file (p : path) : IO (list byte) :=
  syscall (let* f := lookup_file p in ret (f_data f)).

Definition remove_file (p : path) : IO unit :=
  syscall
    (let* _ := lookup_file p in
     fun w => (Ok tt, set_nodes (delete p) w)).

(** [rename(a, b)]: atomic replacement of [b]. *)
Definition rename (a b : path) : IO unit :=
  syscall
    (let* f := lookup_file a in
     let* n := get_node b in
     match n with
     | Some NDir => throw (io_error_from IsADirectory)
     | _ => fun w => (Ok tt, set_nodes (fun m => <[b := NFile f]> (delete a m)) w)
     end).

Fixpoint mkdirs (done todo : path) : IO unit :=
  match todo with
  | [] => ret tt
  | x :: todo' =>
      let p := done ++ [x] in
      let* n := get_node p in
      match n with
      | Some NDir => mkdirs p todo'
      | Some (NFile _) => throw (io_error_from NotADirectory)
      | None =>
          let* _ := (fun w => (Ok tt, set_nodes <[p := NDir]> w)) in
          mkdirs p todo'
      end
  end.

Definition create_dir_all (p : path) : IO unit := syscall (mkdirs [] p).

(** The entries of a directory, in no particular order: name and node. *)
Definition child_of (p : path) (e : path * node) : option (string * node) :=
  match reverse (fst e) with
  | name :: rp => if decide (reverse rp = p) then Some (name, snd e) else None
  | [] => None
  end.

Definition children (w : World) (p : path) : list (string * node) :=
  omap (child_of p) (map_to_list (nodes w)).

Definition read_dir (p : path) : IO (list (string * node)) :=
  syscall
    (fun w =>
       match nodes w !! p with
       | Some NDir => (Ok (children w p), w)
       | Some (NFile _) => (Err (io_error_from NotADirectory), w)
       | None => (Err (io_error_from NotFound), w)
       end).

(** [remove_dir_all(p)]: the directory and everything below it. *)
Definition remove_dir_all (p : path) : IO unit :=
  syscall
    (fun w =>
       match nodes w !! p with
       | Some NDir => (Ok tt, set_nodes (filter (fun e => ~ p `prefix_of` fst e)) w)
       | Some (NFile _) => (Err (io_error_from NotADirectory), w)
       | None => (Err (io_error_from NotFound), w)
       end).

(** ** Open files

    A handle is the path it was opened at and the kernel's file position. *)
Record File : Type := mkFile { fd_path : path; fd_pos : Z }.

Abbreviation FileIO A := (M (World * File) io_error A).

Definition on_world {A} (m : IO A) : FileIO A := zoom fst (fun w s => (w, snd s)) m.

(** The bytes of a file after [bs] is written at [pos]; a gap reads as
    zeros. *)
Definition write_at (pos : nat) (bs data : list byte) : list byte :=
  take pos (data ++ replicate (pos - length data) x00) ++ bs ++ drop (pos + length bs) data.

Definition do_write (bs : list byte) : FileIO unit :=
  fun '(w, fd) =>
    match lookup_file (fd_path fd) w with
    | (Ok f, _) =>
        let f' := FNode (write_at (Z.to_nat (fd_pos fd)) bs (f_data f)) (f_synced f) (now_ms w) in
        (Ok tt, (set_nodes <[fd_path fd := NFile f']> w, mkFile (fd_path fd) (fd_pos fd + len bs)))
    | (Err e, _) => (Err e, (w, fd))
    | (Panic p, _) => (Panic p, (w, fd))
    | (NoFuel, _) => (NoFuel, (w, fd))
    end.

(** [file.write_all(bs)]: on failure a prefix of [bs] may have been written,
    and the position has moved past it. *)
Definition write_all (bs : list byte) : FileIO unit :=
  let* f := on_world next_fault in
  match f with
  | Some f =>
      let* _ := do_write (take (fault_written f) bs) in
      throw (io_error_from (fault_kind f))
  | None => do_write bs
  end.

(** [file.write_all(bs)] on a file opened with [append(true)]: every write
    goes to the end of the file. *)
Definition write_all_append (bs : list byte) : FileIO unit :=
  let* _ := (fun '(w, fd) =>
    match lookup_file (fd_path fd) w with
    | (Ok f, _) => (Ok tt, (w, mkFile (fd_path fd) (len (f_data f))))
    | _ => (Ok tt, (w, fd))
    end) in
  write_all bs.

(** [file.read(buf)] with a buffer of [n] bytes: the bytes read, at most
    [read_max]. *)
Definition read (n : Z) : FileIO (list byte) :=
  let* fd := (fun s => (Ok (snd s), s)) in
  let* w := (fun s => (Ok (fst s), s)) in
  let* f := on_world (syscall (lookup_file (fd_path fd))) in
  let got := take (Z.to_nat (Z.min n (read_max w))) (drop (Z.to_nat (fd_pos fd)) (f_data f)) in
  fun '(w, fd) => (Ok got, (w, mkFile (fd_path fd) (fd_pos fd + len got))).

(** [file.seek(SeekFrom::Start(pos))]. *)
Definition seek (pos : Z) : FileIO unit :=
  let* _ := on_world (syscall (ret tt)) in
  fun '(w, fd) => (Ok tt, (w, mkFile (fd_path fd) pos)).

(** [file.set_len(n)]. *)
Definition set_len (n : Z) : FileIO unit :=
  let* fd := (fun s => (Ok (snd s), s)) in
  on_world (syscall
    (let* f := lookup_file (fd_path fd) in
     fun w =>
       put_file (fd_path fd)
         (FNode (resize (Z.to_nat n) x00 (f_data f)) (f_synced f) (now_ms w)) w)).

(** [file.sync_data()] and [file.sync_all()]. *)
Definition sync_data : FileIO unit :=
  let* fd := (fun s => (Ok (snd s), s)) in
  on_world (syscall
    (let* f := lookup_file (fd_path fd) in
     put_file (fd_path fd) (FNode (f_data f) (f_data f) (f_mtime f)))).

(** [?] on an [io::Result]: [KafkoError::from]. *)
Definition io {S A} (m : M S io_error A) : KM S A := map_err Io m.

(** ** Facts about calls that do not fail *)
Definition quiet (w : World) : Prop := faults w = [].

Lemma next_fault_quiet {E} w : quiet w -> @next_fault E w = (Ok None, w).
Proof. unfold next_fault. by intros ->. Qed.

Lemma syscall_quiet {A} (m : IO A) w : quiet w -> syscall m w = m w.
Proof. intros Hq. unfold syscall. by rewrite (bind_Ok _ _ _ _ _ (next_fault_quiet w Hq)). Qed.

(** A failing system call that is not a write changes no file. *)
Lemma syscall_fault {A} (m : IO A) w f fs :
  faults w = Some f :: fs ->
  syscall m w = (Err (io_error_from (fault_kind f)),
                 mkWorld (nodes w) (now_ms w) fs (read_max w)).
Proof. intros Hf. unfold syscall, bind, next_fault. by rewrite Hf. Qed.

Lemma quiet_set_nodes f w : quiet (set_nodes f w) <-> quiet w.
Proof. done. Qed.

Lemma nodes_set_nodes f w : nodes (set_nodes f w) = f (nodes w).
Proof. done. Qed.

Lemma now_set_nodes f w : now_ms (set_nodes f w) = now_ms w.
Proof. done. Qed.

Lemma read_max_set_nodes f w : read_max (set_nodes f w) = read_max w.
Proof. done. Qed.

#[export] Hint Rewrite nodes_set_nodes now_set_nodes read_max_set_nodes : fs.

Section quiet_runs.
Context (w : World) (Hq : quiet w).

Lemma lookup_file_run p f :
  nodes w !! p = Some (NFile f) -> lookup_file p w = (Ok f, w).
Proof. unfold lookup_file, bind, get_node. by intros ->. Qed.

Lemma open_create_new_run p :
  nodes w !! p = None -> parent_is_dir p w = true ->
  open_create_new p w = (Ok tt, set_nodes <[p := NFile (FNode [] [] (now_ms w))]> w).
Proof.
  intros Hn Hp. unfold open_create_new. rewrite syscall_quiet by done.
  unfold bind, get_node. by rewrite Hn, Hp.
Qed.

Lemma open_create_new_exists p n :
  nodes w !! p = Some n -> open_create_new p w = (Err (io_error_from AlreadyExists), w).
Proof.
  intros Hn. unfold open_create_new. rewrite syscall_quiet by done.
  unfold bind, get_node. by rewrite Hn.
Qed.

Lemma open_or_create_run p :
  nodes w !! p <> Some NDir -> parent_is_dir p w = true ->
  exists w', open_or_create p w = (Ok tt, w') /\ quiet w' /\ now_ms w' = now_ms w
    /\ read_max w' = read_max w /\ (exists f, nodes w' !! p = Some (NFile f))
    /\ forall q, q <> p -> nodes w' !! q = nodes w !! q.
Proof.
  intros Hn Hp. unfold open_or_create. rewrite syscall_quiet by done. unfold bind, get_node.
  destruct (nodes w !! p) as [[f|]|] eqn:E; [|done|].
  - exists w. split; [done|]. repeat (split; [done|]). split; [eauto|done].
  - rewrite Hp. eexists. split; [reflexivity|]. repeat (split; [done|]). split; simpl.
    + rewrite lookup_insert_eq. eauto.
    + intros q Hne. by rewrite lookup_insert_ne.
Qed.

Lemma remove_dir_all_run p :
  nodes w !! p = Some NDir ->
  remove_dir_all p w = (Ok tt, set_nodes (filter (fun e => ~ p `prefix_of` fst e)) w).
Proof. intros Hn. unfold remove_dir_all. rewrite syscall_quiet by done. by rewrite Hn. Qed.

Lemma read_dir_run p : nodes w !! p = Some NDir -> read_dir p w = (Ok (children w p), w).
Proof. intros Hn. unfold read_dir. rewrite syscall_quiet by done. by rewrite Hn. Qed.

Lemma open_existing_run p f :
  nodes w !! p = Some (NFile f) -> open_existing p w = (Ok tt, w).
Proof.
  intros. unfold open_existing. rewrite syscall_quiet by done.
  by rewrite (bind_Ok _ _ _ _ _ (lookup_file_run p f ltac:(done))).
Qed.

Lemma metadata_run p f :
  nodes w !! p = Some (NFile f) -> metadata p w = (Ok (len (f_data f), f_mtime f), w).
Proof.
  intros. unfold metadata. rewrite syscall_quiet by done.
  by rewrite (bind_Ok _ _ _ _ _ (lookup_file_run p f ltac:(done))).
Qed.

Lemma read_file_run p f :
  nodes w !! p = Some (NFile f) -> read_file p w = (Ok (f_data f), w).
Proof.
  intros. unfold read_file. rewrite syscall_quiet by done.
  by rewrite (bind_Ok _ _ _ _ _ (lookup_file_run p f ltac:(done))).
Qed.

Lemma read_file_missing p :
  nodes w !! p = None -> read_file p w = (Err (io_error_from NotFound), w).
Proof.
  intros Hn. unfold read_file. rewrite syscall_quiet by done.
  unfold lookup_file, bind, get_node. by rewrite Hn.
Qed.

Lemma remove_file_run p f :
  nodes w !! p = Some (NFile f) -> remove_file p w = (Ok tt, set_nodes (delete p) w).
Proof.
  intros. unfold remove_file. rewrite syscall_quiet by done.
  by rewrite (bind_Ok _ _ _ _ _ (lookup_file_run p f ltac:(done))).
Qed.

Lemma remove_file_missing p :
  nodes w !! p = None -> remove_file p w = (Err (io_error_from NotFound), w).
Proof.
  intros Hn. unfold remove_file. rewrite syscall_quiet by done.
  unfold lookup_file, bind, get_node. by rewrite Hn.
Qed.

Lemma write_all_run bs p pos f :
  nodes w !! p = Some (NFile f) ->
  write_all bs (w, mkFile p pos) =
  (Ok tt, (set_nodes <[p := NFile (FNode (write_at (Z.to_nat pos) bs (f_data f))
                                     (f_synced f) (now_ms w))]> w,
           mkFile p (pos + len bs))).
Proof.
  intros Hf. unfold write_all, on_world, zoom, bind; simpl. rewrite next_fault_quiet by done.
  simpl. by rewrite (lookup_file_run p f Hf).
Qed.

Lemma write_all_append_run bs p pos f :
  nodes w !! p = Some (NFile f) ->
  write_all_append bs (w, mkFile p pos) =
  (Ok tt, (set_nodes <[p := NFile (FNode (f_data f ++ bs) (f_synced f) (now_ms w))]> w,
           mkFile p (len (f_data f) + len bs))).
Proof.
  intros Hf. unfold write_all_append, bind at 1. simpl fd_path. cbn iota beta.
  rewrite (lookup_file_run p f Hf), (write_all_run bs p (len (f_data f)) f Hf).
  rewrite <- len_length. unfold write_at.
  by rewrite Nat.sub_diag, app_nil_r, firstn_all, drop_ge, app_nil_r by lia.
Qed.

Lemma file_read_run n p pos f :
  nodes w !! p = Some (NFile f) ->
  let got := take (Z.to_nat (Z.min n (read_max w))) (drop (Z.to_nat pos) (f_data f)) in
  read n (w, mkFile p pos) = (Ok got, (w, mkFile p (pos + len got))).
Proof.
  intros Hf. unfold read, on_world, zoom, bind; simpl.
  by rewrite syscall_quiet, (lookup_file_run p f Hf) by done.
Qed.

Lemma seek_run pos p pos' :
  seek pos (w, mkFile p pos') = (Ok tt, (w, mkFile p pos)).
Proof. unfold seek, on_world, zoom, bind; simpl. by rewrite syscall_quiet. Qed.

Lemma set_len_run n p pos f :
  nodes w !! p = Some (NFile f) ->
  set_len n (w, mkFile p pos) =
  (Ok tt, (set_nodes <[p := NFile (FNode (resize (Z.to_nat n) x00 (f_data f))
                                     (f_synced f) (now_ms w))]> w, mkFile p pos)).
Proof.
  intros Hf. unfold set_len, on_world, zoom, bind; simpl.
  by rewrite syscall_quiet, (lookup_file_run p f Hf) by done.
Qed.

Lemma sync_data_run p pos f :
  nodes w !! p = Some (NFile f) ->
  sync_data (w, mkFile p pos) =
  (Ok tt, (set_nodes <[p := NFile (FNode (f_data f) (f_data f) (f_mtime f))]> w, mkFile p pos)).
Proof.
  intros Hf. unfold sync_data, on_world, zoom, bind; simpl.
  by rewrite syscall_quiet, (lookup_file_run p f Hf) by done.
Qed.

End quiet_runs.

Lemma write_at_end bs data : write_at (length data) bs data = data ++ bs.
Proof.
  unfold write_at. by rewrite Nat.sub_diag, app_nil_r, firstn_all, drop_ge, app_nil_r by lia.
Qed.

(** The entries of a directory are its direct children. *)
Lemma elem_of_children w p name n :
  (name, n) ∈ children w p <-> nodes w !! (p ++ [name]) = Some n.
Proof.
  unfold children. rewrite list_elem_of_omap. split.
  - intros ([q m] & Hin & Hc). unfold child_of in Hc. simpl in Hc.
    destruct (reverse q) as [|x rp] eqn:Hr; [done|]. case_decide; [|done]. simplify_eq.
    apply elem_of_map_to_list in Hin.
    rewrite <- (reverse_involutive q), Hr, reverse_cons in Hin. done.
  - intros Hn. exists (p ++ [name], n). split; [by apply elem_of_map_to_list|].
    unfold child_of. simpl. rewrite reverse_app. simpl.
    rewrite reverse_involutive. by rewrite decide_True.
Qed.

Lemma map_err_Ok {S E E' A} (f : E -> E') (m : M S E A) s a s' : m s = (Ok a, s') -> map_err f m s = (Ok a, s').
Proof. unfold map_err. by intros ->. Qed.

Lemma io_Ok {S A} (m : M S io_error A) s a s' : m s = (Ok a, s') -> io m s = (Ok a, s').
Proof. unfold io, map_err. by intros ->. Qed.

Lemma io_Err {S A} (m : M S io_error A) s e s' : m s = (Err e, s') -> io m s = (Err (Io e), s').
Proof. unfold io, map_err. by intros ->. Qed.

(** ** Framing

    [touches ps w w']: going from [w] to [w'] changed no node outside [ps]
    and left the clock and the failure script alone. *)
Definition touches (ps : list path) (w w' : World) : Prop :=
  faults w' = faults w /\ now_ms w' = now_ms w /\ read_max w' = read_max w
  /\ forall p, p ∉ ps -> nodes w' !! p = nodes w !! p.

Lemma touches_refl ps w : touches ps w w.
Proof. done. Qed.

Lemma touches_trans ps w1 w2 w3 : touches ps w1 w2 -> touches ps w2 w3 -> touches ps w1 w3.
Proof.
  intros (H1 & H2 & H3 & H4) (K1 & K2 & K3 & K4).
  repeat split; try congruence. intros p Hp. by rewrite K4, H4.
Qed.

Lemma touches_weaken ps ps' w w' : ps ⊆ ps' -> touches ps w w' -> touches ps' w w'.
Proof. intros Hs (H1 & H2 & H3 & H4). repeat split; try done. intros p Hp. apply H4. set_solver. Qed.

Lemma touches_insert p n w : touches [p] w (set_nodes <[p := n]> w).
Proof. repeat split. intros q Hq. simpl. rewrite lookup_insert_ne; [done|]. set_solver. Qed.

Lemma touches_delete p w : touches [p] w (set_nodes (delete p) w).
Proof. repeat split. intros q Hq. simpl. rewrite lookup_delete_ne; [done|]. set_solver. Qed.

Lemma touches_quiet ps w w' : touches ps w w' -> quiet w -> quiet w'.
Proof. intros (H & _). unfold quiet. congruence. Qed.

Lemma touches_lookup ps w w' p : touches ps w w' -> p ∉ ps -> nodes w' !! p = nodes w !! p.
Proof. intros (_ & _ & _ & H). apply H. Qed.

Lemma touches_fst p q w w' : touches [p] w w' -> touches [p; q] w w'.
Proof. apply touches_weaken. by apply list_subseteq_skip, list_subseteq_nil. Qed.

Lemma touches_snd p q w w' : touches [q] w w' -> touches [p; q] w w'.
Proof. apply touches_weaken. by apply list_subseteq_cons. Qed.

#[export] Hint Resolve touches_fst touches_snd : kafko.
#[export] Hint Resolve touches_refl touches_insert touches_delete : kafko.

(** ** Methods

    A method of a component [T] runs on the world and the component: [self]
    reads the component, [modify_self] updates it, [in_world] is a call that
    does not touch it. *)
Definition self {T E} : M (World * T) E T := fun s => (Ok (snd s), s).
Definition modify_self {T E} (f : T -> T) : M (World * T) E unit :=
  fun s => (Ok tt, (fst s, f (snd s))).
Definition in_world {T E A} (m : M World E A) : M (World * T) E A :=
  zoom fst (fun w s => (w, snd s)) m.

Lemma bind_self {T E A} (k : T -> M (World * T) E A) w t :
  bind self k (w, t) = k t (w, t).
Proof. done. Qed.

Lemma bind_modify_self {T E A} (f : T -> T) (k : unit -> M (World * T) E A) w t :
  bind (modify_self f) k (w, t) = k tt (w, f t).
Proof. done. Qed.

Lemma in_world_run {T E A} (m : M World E A) w w' (t : T) o :
  m w = (o, w') -> in_world m (w, t) = (o, (w', t)).
Proof. unfold in_world, zoom. simpl. by intros ->. Qed.

(** [with_local t m]: run [m] on the world and a local [t]. *)
Definition with_local {T A} (t : T) (m : KM (World * T) A) : KM World (A * T) :=
  fun w =>
    match m (w, t) with
    | (Ok a, (w', t')) => (Ok (a, t'), w')
    | (Err e, (w', _)) => (Err e, w')
    | (Panic p, (w', _)) => (Panic p, w')
    | (NoFuel, (w', _)) => (NoFuel, w')
    end.

Lemma with_local_run {T A} (m : KM (World * T) A) w t a w' t' :
  m (w, t) = (Ok a, (w', t')) -> with_local t m w = (Ok (a, t'), w').
Proof. intros Hm. unfold with_local. by rewrite Hm. Qed.

(** ** Calls that may fail

    With any failure script, a call other than a write either does its work or
    returns an error and leaves the files alone; it never panics. *)
Lemma syscall_cases {A} (m : IO A) w :
  exists w0, nodes w0 = nodes w /\ now_ms w0 = now_ms w
    /\ (syscall m w = m w0 \/ exists e, syscall m w = (Err e, w0)).
Proof.
  unfold syscall, bind, next_fault. destruct (faults w) as [|[f|] fs].
  - exists w. do 2 (split; [done|]). by left.
  - exists (mkWorld (nodes w) (now_ms w) fs (read_max w)). do 2 (split; [done|]). right. by eexists.
  - exists (mkWorld (nodes w) (now_ms w) fs (read_max w)). do 2 (split; [done|]). by left.
Qed.

Lemma create_file_cases p w :
  match create_file p w with
  | (Ok _, w') => exists t, nodes w' = <[p := NFile (FNode [] [] t)]> (nodes w)
  | (Err _, w') => nodes w' = nodes w
  | _ => False
  end.
Proof.
  unfold create_file. set (m := bind _ _).
  destruct (syscall_cases m w) as (w0 & Hn & Ht & [->|[e ->]]); [|done].
  unfold m, bind, get_node. destruct (nodes w0 !! p) as [[f|]|]; simpl.
  - eexists. by rewrite Hn.
  - done.
  - destruct (parent_is_dir p w0); simpl; [eexists; by rewrite Hn|done].
Qed.

Lemma do_write_run bs w p pos f :
  nodes w !! p = Some (NFile f) ->
  do_write bs (w, mkFile p pos) =
  (Ok tt, (set_nodes <[p := NFile (FNode (write_at (Z.to_nat pos) bs (f_data f)) (f_synced f) (now_ms w))]> w,
           mkFile p (pos + len bs))).
Proof. intros Hf. unfold do_write. simpl. by rewrite (lookup_file_run w p f Hf). Qed.

#[local] Arguments do_write : simpl never.

(** Writing a fresh file and syncing it. *)
Lemma write_sync_cases bs w p s t :
  nodes w !! p = Some (NFile (FNode [] s t)) ->
  match (let* _ := write_all bs in sync_data) (w, mkFile p 0) with
  | (Ok _, (w', _)) => exists t', nodes w' = <[p := NFile (FNode bs bs t')]> (nodes w)
  | (Err _, (w', _)) => exists n, nodes w' = <[p := n]> (nodes w)
  | _ => False
  end.
Proof.
  intros Hp.
  assert (Hw : exists w0, nodes w0 = nodes w /\
    (write_all bs (w, mkFile p 0) = do_write bs (w0, mkFile p 0)
     \/ exists bs' e, write_all bs (w, mkFile p 0) =
          (Err e, snd (do_write bs' (w0, mkFile p 0))))).
  { unfold write_all, on_world, zoom, bind, next_fault; simpl. destruct (faults w) as [|[f|] fs].
    - exists w. split; [done|by left].
    - exists (mkWorld (nodes w) (now_ms w) fs (read_max w)). split; [done|]. right.
      exists (take (fault_written f) bs), (io_error_from (fault_kind f)).
      rewrite (do_write_run _ _ p 0 (FNode [] s t)) by done. done.
    - exists (mkWorld (nodes w) (now_ms w) fs (read_max w)). split; [done|by left]. }
  destruct Hw as (w0 & Hn & Hw). rewrite <- Hn in Hp.
  destruct Hw as [Hw|(bs' & e & Hw)]; unfold bind at 1; rewrite Hw, (do_write_run _ _ _ _ _ Hp).
  2: { simpl. eexists. by rewrite Hn. }
  set (w1 := set_nodes _ w0).
  assert (Hp1 : nodes w1 !! p = Some (NFile (FNode bs s (now_ms w0)))).
  { unfold w1, write_at. simpl. rewrite lookup_insert_eq. by rewrite drop_nil, app_nil_r. }
  unfold sync_data, on_world, zoom, bind at 1. simpl. set (m := bind _ _).
  destruct (syscall_cases m w1) as (w2 & Hn2 & _ & [Hs|[e Hs]]); rewrite Hs.
  - unfold m. rewrite <- Hn2 in Hp1. rewrite (bind_Ok _ _ _ _ _ (lookup_file_run w2 p _ Hp1)). simpl.
    eexists. rewrite Hn2. unfold w1. simpl. by rewrite insert_insert_eq, Hn.
  - simpl. eexists. rewrite Hn2. unfold w1. simpl. by rewrite Hn.
Qed.

Lemma rename_cases a b w f :
  nodes w !! a = Some (NFile f) ->
  match rename a b w with
  | (Ok _, w') => nodes w' = <[b := NFile f]> (delete a (nodes w))
  | (Err _, w') => nodes w' = nodes w
  | _ => False
  end.
Proof.
  intros Ha. unfold rename. set (m := bind _ _).
  destruct (syscall_cases m w) as (w0 & Hn & _ & [->|[e ->]]); [|done].
  unfold m. rewrite <- Hn in Ha. rewrite (bind_Ok _ _ _ _ _ (lookup_file_run w0 a _ Ha)).
  unfold bind, get_node. destruct (nodes w0 !! b) as [[]|]; simpl; by rewrite Hn.
Qed.
