(* ===== verification/Names.v ===== *)
(** * File names

    The formatting and parsing of [std] that name segment and index files:
    [format!("{:020}", n)], [to_string] of integers, [str::parse::<u64>],
    [str::strip_suffix], and the paths [segment_path] (segment.rs) and [index_path] (sparse_index.rs). *)

From S2P Require Import Prelude Bytes Error Fs.
From Stdlib Require Import Ascii.

Definition FILENAME_DIGITS : nat := 20.

Definition digit_char (d : Z) : ascii := ascii_of_N (48 + Z.to_N d).
Definition digit_val (c : ascii) : option Z :=
  let n := Z.of_N (N_of_ascii c) in
  if (48 <=? n) && (n <=? 57) then Some (n - 48) else None.

(** The [w] low decimal digits of [n], most significant first. *)
Fixpoint fmt_digits (w : nat) (n : Z) : string :=
  match w with
  | O => ""
  | S w' => fmt_digits w' (n / 10) +:+ String (digit_char (n mod 10)) ""
  end.

(** [format!("{:020}", n)]: a [u64] has at most 20 decimal digits, so the
    zero-padded form has exactly 20. *)
Definition fmt020 (n : Z) : string := fmt_digits FILENAME_DIGITS n.

(** [str::parse::<u64>] and [str::parse::<u32>] ([max] is the type's bound):
    an optional [+], then at least one digit, no overflow. *)
Fixpoint parse_digits (max acc : Z) (s : string) : option Z :=
  match s with
  | EmptyString => Some acc
  | String c s' =>
      match digit_val c with
      | Some d => if max <? 10 * acc + d then None else parse_digits max (10 * acc + d) s'
      | None => None
      end
  end.

Definition parse_uint (max : Z) (s : string) : option Z :=
  match s with
  | EmptyString => None
  | String c s' =>
      if Ascii.eqb c "+" then
        match s' with EmptyString => None | _ => parse_digits max 0 s' end
      else parse_digits max 0 s
  end.

Definition parse_u64 : string -> option Z := parse_uint u64_max.
Definition parse_u32 : string -> option Z := parse_uint u32_max.

(** [s.strip_suffix(suf)]. *)
Fixpoint strip_suffix (suf s : string) : option string :=
  if String.eqb s suf then Some EmptyString
  else
    match s with
    | EmptyString => None
    | String c s' => String c <$> strip_suffix suf s'
    end.

(** [u32::to_string]: decimal, no leading zeros ([fuel] bounds the digits). *)
Fixpoint to_dec (fuel : nat) (n : Z) (acc : string) : string :=
  match fuel with
  | O => acc
  | S fuel' =>
      if n <? 10 then String (digit_char n) acc
      else to_dec fuel' (n / 10) (String (digit_char (n mod 10)) acc)
  end.
Definition u32_to_string (n : Z) : string := to_dec 10 n "".
(** [u64::to_string]. *)
Definition u64_to_string (n : Z) : string := to_dec 20 n "".

(** [format!("{:#x}", n)] of a [u32]. *)
Definition hex_char (d : Z) : ascii := if d <? 10 then digit_char d else ascii_of_N (87 + Z.to_N d).
Fixpoint to_hex_digits (fuel : nat) (n : Z) (acc : string) : string :=
  match fuel with
  | O => acc
  | S fuel' =>
      if n <? 16 then String (hex_char n) acc
      else to_hex_digits fuel' (n / 16) (String (hex_char (n mod 16)) acc)
  end.
Definition to_hex (n : Z) : string := "0x" +:+ to_hex_digits 8 n "".

Definition segment_path (dir : path) (base_offset : Z) : path :=
  dir ++ [fmt020 base_offset +:+ ".log"].

Definition index_path (dir : path) (base_offset : Z) : path :=
  dir ++ [fmt020 base_offset +:+ ".index"].

(** [path.with_extension("index")] on a [.log] path. *)
Definition with_extension_index (p : path) : path :=
  match reverse p with
  | [] => []
  | name :: rp =>
      reverse rp ++ [default name (strip_suffix ".log" name) +:+ ".index"]
  end.

(** ** Facts *)
#[local] Arguments String.append !_ _ : simpl nomatch.

Lemma string_length_app s t : String.length (s +:+ t) = (String.length s + String.length t)%nat.
Proof. induction s; simpl; congruence. Qed.

Lemma string_app_assoc (s t u : string) : (s +:+ t) +:+ u = s +:+ (t +:+ u).
Proof. induction s; simpl; congruence. Qed.

Lemma string_app_inj_r (s t u : string) : s +:+ u = t +:+ u -> s = t.
Proof.
  revert t. induction s as [|c s IH]; intros [|d t] H; simpl in *; try done.
  - apply (f_equal String.length) in H. simpl in H. rewrite string_length_app in H. lia.
  - apply (f_equal String.length) in H. simpl in H. rewrite string_length_app in H. lia.
  - injection H as -> H. f_equal. by apply IH.
Qed.

Lemma strip_suffix_app suf s : strip_suffix suf (s +:+ suf) = Some s.
Proof.
  induction s as [|c s IH].
  - change (strip_suffix suf suf = Some ""). destruct suf; cbn [strip_suffix]; [done|].
    by rewrite String.eqb_refl.
  - change (String c s +:+ suf) with (String c (s +:+ suf)). cbn [strip_suffix].
    destruct (String.eqb_spec (String c (s +:+ suf)) suf) as [E|_].
    + apply (f_equal String.length) in E. simpl in E. rewrite string_length_app in E. lia.
    + by rewrite IH.
Qed.

Lemma strip_suffix_Some suf s p : strip_suffix suf s = Some p -> s = p +:+ suf.
Proof.
  revert p. induction s as [|c s IH]; intros p; cbn [strip_suffix].
  - destruct (String.eqb_spec "" suf) as [<-|]; [|done]. by intros [= <-].
  - destruct (String.eqb_spec (String c s) suf) as [<-|]; [by intros [= <-]|].
    destruct (strip_suffix suf s) as [q|]; [|done]. simpl. intros [= <-].
    simpl. by rewrite <- (IH q).
Qed.

Lemma digit_val_char d : 0 <= d < 10 -> digit_val (digit_char d) = Some d.
Proof.
  intros. unfold digit_val, digit_char.
  rewrite N_ascii_embedding by lia.
  rewrite (proj2 (Z.leb_le 48 _)), (proj2 (Z.leb_le _ 57)) by lia. simpl. f_equal. lia.
Qed.

Lemma parse_digits_app max acc s t n :
  parse_digits max acc s = Some n -> parse_digits max acc (s +:+ t) = parse_digits max n t.
Proof.
  revert acc. induction s as [|c s IH]; intros acc; simpl; [by intros [= ->]|].
  destruct (digit_val c); [|done]. zcase; [done|]. apply IH.
Qed.

Lemma parse_fmt_digits max w n :
  0 <= n < 10 ^ Z.of_nat w -> n <= max -> parse_digits max 0 (fmt_digits w n) = Some n.
Proof.
  revert n. induction w as [|w IH]; intros n Hn Hm.
  { simpl in *. f_equal. lia. }
  replace (Z.of_nat (S w)) with (Z.succ (Z.of_nat w)) in Hn by lia.
  rewrite Z.pow_succ_r in Hn by lia.
  pose proof (Z.div_mod n 10 ltac:(lia)). pose proof (Z.mod_pos_bound n 10 ltac:(lia)).
  simpl fmt_digits. rewrite (parse_digits_app _ _ _ _ (n / 10)).
  - simpl. rewrite digit_val_char by lia.
    rewrite (proj2 (Z.ltb_ge _ _)) by lia. f_equal. lia.
  - apply IH; [|lia]. split; [apply Z.div_pos; lia|]. apply Z.div_lt_upper_bound; lia.
Qed.

(** The first character of a formatted number is a digit. *)
Lemma fmt_digits_cons w n :
  exists d s, fmt_digits (S w) n = String (digit_char d) s /\ 0 <= d < 10.
Proof.
  revert n. induction w as [|w IH]; intros n.
  - simpl. do 2 eexists. split; [done|]. apply Z.mod_pos_bound. lia.
  - destruct (IH (n / 10)) as (d & s & E & Hd). change (fmt_digits (S (S w)) n)
      with (fmt_digits (S w) (n / 10) +:+ String (digit_char (n mod 10)) "").
    rewrite E. simpl. eauto.
Qed.

Lemma digit_char_not_plus d : 0 <= d < 10 -> Ascii.eqb (digit_char d) "+" = false.
Proof.
  intros Hd. destruct (Ascii.eqb_spec (digit_char d) "+") as [E|]; [|done].
  apply (f_equal digit_val) in E. by rewrite digit_val_char in E by done.
Qed.

(** Reading a file name back gives the offset it was made from. *)
Lemma parse_fmt020 n : is_u64 n -> parse_u64 (fmt020 n) = Some n.
Proof.
  intros [? ?]. unfold parse_u64, parse_uint, fmt020, FILENAME_DIGITS.
  destruct (fmt_digits_cons 19 n) as (d & s & E & Hd).
  pose proof (parse_fmt_digits u64_max 20 n) as P. rewrite E in P |- *.
  rewrite digit_char_not_plus by done. apply P; unfold u64_max; simpl; lia.
Qed.

Lemma fmt020_inj a b : is_u64 a -> is_u64 b -> fmt020 a = fmt020 b -> a = b.
Proof.
  intros Ha Hb E. apply parse_fmt020 in Ha, Hb. congruence.
Qed.

Lemma fmt_digits_length w n : String.length (fmt_digits w n) = w.
Proof.
  revert n. induction w as [|w IH]; intros n; simpl; [done|].
  rewrite string_length_app, IH. simpl. lia.
Qed.

Lemma fmt020_length n : String.length (fmt020 n) = 20%nat.
Proof. apply fmt_digits_length. Qed.

#[global] Opaque fmt020.

Lemma segment_path_inj dir a b :
  is_u64 a -> is_u64 b -> segment_path dir a = segment_path dir b -> a = b.
Proof.
  intros Ha Hb E. apply snoc_inj in E as [_ E].
  apply fmt020_inj; [done|done|]. by eapply string_app_inj_r.
Qed.

Lemma index_path_inj dir a b :
  is_u64 a -> is_u64 b -> index_path dir a = index_path dir b -> a = b.
Proof.
  intros Ha Hb E. apply snoc_inj in E as [_ E].
  apply fmt020_inj; [done|done|]. by eapply string_app_inj_r.
Qed.

Lemma segment_index_path_ne dir a b : segment_path dir a <> index_path dir b.
Proof.
  unfold segment_path, index_path. intros E. apply snoc_inj in E as [_ E].
  apply (f_equal String.length) in E. rewrite !string_length_app in E.
  rewrite !fmt020_length in E. simpl in E. lia.
Qed.

Lemma with_extension_segment_path dir b :
  with_extension_index (segment_path dir b) = index_path dir b.
Proof.
  unfold with_extension_index, segment_path, index_path.
  rewrite reverse_app. simpl. by rewrite strip_suffix_app, reverse_involutive.
Qed.

(** [index_path] entries are not taken for segments. *)
Lemma index_name_not_log n : strip_suffix ".log" (fmt020 n +:+ ".index") = None.
Proof.
  destruct (strip_suffix ".log" (fmt020 n +:+ ".index")) as [p|] eqn:E; [|done].
  apply strip_suffix_Some in E. exfalso. revert E. generalize (fmt020 n). clear n.
  intros s. revert p. induction s as [|c s IH]; intros p E.
  - do 6 (destruct p as [|? p]; [discriminate E|]; injection E as _ E).
    by destruct p.
  - destruct p as [|d p]; simpl in E; simplify_eq; [|by eapply IH].
    apply (f_equal String.length) in H. rewrite string_length_app in H. simpl in H. lia.
Qed.

(** ** Decimal names *)
Lemma parse_to_dec fuel n rest max :
  0 <= n < 10 ^ Z.of_nat fuel -> (0 < fuel)%nat -> n <= max ->
  parse_digits max 0 (to_dec fuel n rest) = parse_digits max n rest.
Proof.
  revert n rest. induction fuel as [|fuel IH]; intros n rest Hn Hf Hm; [lia|].
  cbn [to_dec]. destruct (Z.ltb_spec n 10).
  - cbn [parse_digits]. rewrite digit_val_char by lia. simpl. by rewrite (proj2 (Z.ltb_ge _ _)) by lia.
  - rewrite Nat2Z.inj_succ, Z.pow_succ_r in Hn by lia.
    pose proof (Z.div_mod n 10 ltac:(lia)). pose proof (Z.mod_pos_bound n 10 ltac:(lia)).
    rewrite IH.
    + cbn [parse_digits]. rewrite digit_val_char by lia.
      rewrite (proj2 (Z.ltb_ge _ _)) by lia. f_equal. lia.
    + split; [lia|]. apply Z.div_lt_upper_bound; lia.
    + destruct fuel; [simpl in Hn; lia|lia].
    + lia.
Qed.

Lemma to_dec_cons fuel n rest :
  (0 < fuel)%nat -> 0 <= n -> exists d s, to_dec fuel n rest = String (digit_char d) s /\ 0 <= d < 10.
Proof.
  revert n rest. induction fuel as [|fuel IH]; intros n rest Hf Hn; [lia|]. cbn [to_dec].
  destruct (Z.ltb_spec n 10); [eexists _, _; split; [done|lia]|].
  destruct fuel as [|fuel].
  - simpl. eexists _, _. split; [done|]. apply Z.mod_pos_bound. lia.
  - apply IH; [lia|]. apply Z.div_pos; lia.
Qed.

Lemma parse_uint_to_dec max fuel n :
  (0 < fuel)%nat -> 0 <= n < 10 ^ Z.of_nat fuel -> n <= max -> parse_uint max (to_dec fuel n "") = Some n.
Proof.
  intros Hf Hn Hm. unfold parse_uint. destruct (to_dec_cons fuel n "" Hf ltac:(lia)) as (d & s & E & Hd).
  rewrite E, digit_char_not_plus by done. rewrite <- E. by rewrite parse_to_dec.
Qed.

Lemma parse_u32_to_string n : is_u32 n -> parse_u32 (u32_to_string n) = Some n.
Proof.
  intros Hn. unfold is_u32 in Hn. apply parse_uint_to_dec; [lia| |unfold u32_max; lia].
  change (10 ^ Z.of_nat 10) with 10000000000. lia.
Qed.

Lemma parse_u64_to_string n : is_u64 n -> parse_u64 (u64_to_string n) = Some n.
Proof.
  intros Hn. unfold is_u64 in Hn. apply parse_uint_to_dec; [lia| |unfold u64_max; lia].
  change (10 ^ Z.of_nat 20) with 100000000000000000000. lia.
Qed.

Lemma u32_to_string_inj a b : is_u32 a -> is_u32 b -> u32_to_string a = u32_to_string b -> a = b.
Proof. intros Ha Hb E. apply parse_u32_to_string in Ha, Hb. congruence. Qed.

#[global] Opaque u32_to_string.
