(* ===== verification/Display.v ===== *)
(** * What errors print (error.rs)

    [Display] of [KafkoError], from the [#[error]] attributes.  [str_debug] is
    [str]'s [Debug], which quotes and escapes by the Unicode tables, and
    [path_display] is [Path::display], which prints a path as it was spelled;
    both are parameters. *)

From S2P Require Import Prelude Error Names.

Definition usize_to_string : Z -> string := u64_to_string.

(** [#[derive(Debug)]] on [Compression]. *)
Definition compression_debug (c : Compression) : string :=
  match c with CNone => "None" | Lz4 => "Lz4" | Zstd => "Zstd" end.

Section display.
Context (str_debug : string -> string) (path_display : list string -> string).

Definition to_string (e : KafkoError) : string :=
  match e with
  | Io e => "io: " +:+ message e
  | Truncated needed => "record decode: input truncated (need " +:+ usize_to_string needed +:+ " more bytes)"
  | CrcMismatch expected actual =>
      "record decode: CRC mismatch (expected " +:+ to_hex expected +:+ ", got " +:+ to_hex actual +:+ ")"
  | InvalidLength n => "record decode: invalid length field (" +:+ u32_to_string n +:+ ")"
  | Closed => "partition closed"
  | TopicAlreadyExists s => "topic '" +:+ s +:+ "' already exists"
  | TopicNotFound s => "topic '" +:+ s +:+ "' not found"
  | TopicInUse s => "topic '" +:+ s +:+ "' in use; drop all producers and consumers before deleting"
  | UnknownCompression b => "unknown compression flag: " +:+ u32_to_string b
  | DecompressionFailed => "decompression failed"
  | CompressionUnavailable c =>
      "compression codec " +:+ compression_debug c
      +:+ " is not enabled in this build; rebuild kafko with the matching `compression-*` feature"
  | AlreadyOpen p =>
      "data directory " +:+ path_display p +:+ " is already opened by another Kafko instance (file lock held)"
  | PartitionPanicked p => "partition writer task panicked: " +:+ p
  | InvalidPartitionCount n =>
      "invalid partition count " +:+ u32_to_string n +:+ ": a topic needs at least 1 partition"
  | InvalidGroupName s => "invalid consumer group name " +:+ str_debug s +:+ ": use non-empty [A-Za-z0-9._-]"
  | InvalidTopicLayout topic detail => "topic '" +:+ topic +:+ "' has an invalid on-disk layout: " +:+ detail
  end.

End display.

Example crc_mismatch_text sd pd :
  to_string sd pd (CrcMismatch 0xdeadbeef 0x0badf00d)
  = "record decode: CRC mismatch (expected 0xdeadbeef, got 0xbadf00d)".
Proof. reflexivity. Qed.
