(* ===== verification/Segment.v ===== *)
(** * Segments (segment.rs)

    One [.log] file and its append cursor.  The central fact is that the
    cached [cursor] agrees with the kernel's file position, which is what
    lets [ensure_cursor] skip a seek; and what happens to it when a write
    fails half way. *)

From S2P Require Import Prelude Bytes Error Fs Names.

Record Segment : Type := mkSegment {
  base_offset : Z;
  seg_path : path;
  file : File;
  size : Z;
  cursor : option Z;
}.

Definition set_file (f : File) (s : Segment) : Segment :=
  mkSegment (base_offset s) (seg_path s) f (size s) (cursor s).
Definition set_size (n : Z) (s : Segment) : Segment :=
  mkSegment (base_offset s) (seg_path s) (file s) n (cursor s).
Definition set_cursor (c : option Z) (s : Segment) : Segment :=
  mkSegment (base_offset s) (seg_path s) (file s) (size s) c.

(** A call on the segment's [File]. *)
Definition on_file {A} (m : FileIO A) : KM (World * Segment) A :=
  zoom (fun s => (fst s, file (snd s))) (fun t s => (fst t, set_file (snd t) (snd s))) (io m).

Definition create (dir : path) (base_offset : Z) : KM World Segment :=
  let path := segment_path dir base_offset in
  let* _ := io (open_create_new path) in
  ret (mkSegment base_offset path (mkFile path 0) 0 (Some 0)).

Definition open (dir : path) (base_offset : Z) : KM World Segment :=
  let path := segment_path dir base_offset in
  let* md := io (metadata path) in
  let* _ := io (open_existing path) in
  ret (mkSegment base_offset path (mkFile path 0) (fst md) (Some 0)).

Definition would_overflow (self : Segment) (additional threshold : Z) : bool :=
  if size self =? 0 then false
  else threshold <? u64_add (size self) additional.

Definition ensure_cursor (pos : Z) : KM (World * Segment) unit :=
  let* s := self in
  if decide (cursor s <> Some pos) then
    let* _ := on_file (seek pos) in
    modify_self (set_cursor (Some pos))
  else ret tt.

Definition append (bytes : list byte) : KM (World * Segment) Z :=
  let* s := self in
  let file_pos := size s in
  let* _ := ensure_cursor file_pos in
  let* _ := on_file (write_all bytes) in
  let* _ := modify_self (set_cursor (Some (u64_add file_pos (len bytes)))) in
  let* _ := modify_self (set_size (u64_add file_pos (len bytes))) in
  ret file_pos.

(** [read_at(file_pos, into)] with [into] of [n] bytes: the bytes read. *)
Definition read_at (file_pos n : Z) : KM (World * Segment) (list byte) :=
  let* _ := ensure_cursor file_pos in
  let* got := on_file (read n) in
  let* _ := modify_self (set_cursor (Some (u64_add file_pos (len got)))) in
  ret got.

Definition truncate (new_size : Z) : KM (World * Segment) unit :=
  let* _ := on_file (set_len new_size) in
  let* _ := on_file sync_data in
  let* _ := modify_self (set_size new_size) in
  modify_self (set_cursor None).

Definition sync : KM (World * Segment) unit := on_file sync_data.

Definition last_modified_ms : KM (World * Segment) Z :=
  let* s := self in
  let* md := in_world (io (metadata (seg_path s))) in
  ret (as_i64 (Z.max 0 (snd md))).

(** ** Representation

    [rep w s data]: the segment's file holds [data], its cached size is the
    file's, and a cached cursor is the kernel's position. *)
Record rep (w : World) (s : Segment) (data : list byte) : Prop := {
  rep_path : fd_path (file s) = seg_path s;
  rep_file : exists f, nodes w !! seg_path s = Some (NFile f) /\ f_data f = data;
  rep_size : size s = len data;
  rep_cursor : forall p, cursor s = Some p -> fd_pos (file s) = p;
  rep_bound : len data < 2 ^ 64;
}.

Section facts.
Implicit Types (w : World) (s : Segment) (data bytes : list byte).

Lemma segment_on_file_run {A} (m : FileIO A) w s a w' fd :
  m (w, file s) = (Ok a, (w', fd)) -> on_file m (w, s) = (Ok a, (w', set_file fd s)).
Proof. intros Hm. unfold on_file, zoom. simpl. by rewrite (io_Ok _ _ _ _ Hm). Qed.

(** After [ensure_cursor pos] the kernel's position is [pos]. *)
Lemma ensure_cursor_run w s data pos :
  quiet w -> rep w s data ->
  exists s', ensure_cursor pos (w, s) = (Ok tt, (w, s')) /\ rep w s' data
    /\ fd_pos (file s') = pos /\ cursor s' = Some pos
    /\ base_offset s' = base_offset s /\ seg_path s' = seg_path s /\ size s' = size s.
Proof.
  intros Hq [Hp Hf Hs Hc Hb]. unfold ensure_cursor. rewrite bind_self.
  case_decide as Hd.
  - destruct (file s) as [fp fpos] eqn:Hfs. simpl in Hp. subst fp.
    erewrite bind_Ok; [|eapply segment_on_file_run; rewrite Hfs; by apply seek_run].
    eexists. split; [done|]. split; [|done]. split; simpl; try done. congruence.
  - exists s. split; [done|]. split; [done|].
    split; [by apply Hc|]. done.
Qed.

Lemma rep_node w s data : rep w s data ->
  exists f, nodes w !! seg_path s = Some (NFile f) /\ f_data f = data.
Proof. by intros []. Qed.

Lemma segment_append_run w s data bytes :
  quiet w -> rep w s data -> len data + len bytes < 2 ^ 64 ->
  exists f s',
    nodes w !! seg_path s = Some (NFile f) /\
    let w' := set_nodes <[seg_path s := NFile (FNode (data ++ bytes) (f_synced f) (now_ms w))]> w in
    append bytes (w, s) = (Ok (len data), (w', s')) /\ rep w' s' (data ++ bytes)
    /\ base_offset s' = base_offset s /\ seg_path s' = seg_path s.
Proof.
  intros Hq Hr Hlen. destruct (rep_node _ _ _ Hr) as (f & Hf & Hd).
  exists f. unfold append. rewrite bind_self. cbn zeta.
  destruct (ensure_cursor_run w s data (size s) Hq Hr)
    as (s1 & He & [Hp1 Hf1 Hs1 Hc1 Hb1] & Hpos & Hcur & Hbase & Hpath & Hsize).
  rewrite (bind_Ok _ _ _ _ _ He).
  assert (Hfile : file s1 = mkFile (seg_path s) (len data)).
  { destruct (file s1) as [? ?]; simpl in *. rewrite <- Hs1. congruence. }
  erewrite bind_Ok; [|eapply segment_on_file_run; rewrite Hfile; by apply write_all_run].
  rewrite !bind_modify_self.
  pose proof (len_nonneg data). pose proof (len_nonneg bytes).
  rewrite (rep_size _ _ _ Hr), u64_add_small by lia. subst data.
  rewrite <- len_length, write_at_end.
  eexists. split; [done|]. split; [reflexivity|].
  split; [|done]. split; simpl; rewrite ?len_app; try done.
  - rewrite Hpath. eexists. split; [apply lookup_insert_eq|]. done.
  - congruence.
Qed.

(** A read returns the bytes at the position it asks for, wherever the file
    was left by earlier calls. *)
Lemma read_at_run w s data pos n :
  quiet w -> rep w s data -> 0 <= pos <= len data ->
  let got := take (Z.to_nat (Z.min n (read_max w))) (drop (Z.to_nat pos) data) in
  exists s', read_at pos n (w, s) = (Ok got, (w, s')) /\ rep w s' data
    /\ base_offset s' = base_offset s /\ seg_path s' = seg_path s.
Proof.
  intros Hq Hr Hpos. cbn zeta. destruct (rep_node _ _ _ Hr) as (f & Hf & Hd).
  unfold read_at.
  destruct (ensure_cursor_run w s data pos Hq Hr)
    as (s1 & He & [Hp1 Hf1 Hs1 Hc1 Hb1] & Hpos1 & Hcur & Hbase & Hpath & Hsize).
  rewrite (bind_Ok _ _ _ _ _ He).
  assert (Hfile : file s1 = mkFile (seg_path s) pos).
  { destruct (file s1) as [? ?]; simpl in *. congruence. }
  erewrite bind_Ok; [|eapply segment_on_file_run; rewrite Hfile; by apply (file_read_run w Hq n _ _ f)].
  rewrite bind_modify_self, Hd. set (got := take _ _).
  assert (len got <= len data - pos).
  { unfold got, len in *. rewrite length_take, length_drop. lia. }
  rewrite u64_add_small by (pose proof (len_nonneg got); lia).
  eexists. split; [reflexivity|]. split; [|done]. split; simpl; try done. congruence.
Qed.

Lemma truncate_run w s data (n : Z) :
  quiet w -> rep w s data -> 0 <= n <= len data ->
  exists s', let data' := take (Z.to_nat n) data in
    let w' := set_nodes <[seg_path s := NFile (FNode data' data' (now_ms w))]> w in
    truncate n (w, s) = (Ok tt, (w', s')) /\ rep w' s' data'
    /\ base_offset s' = base_offset s /\ seg_path s' = seg_path s.
Proof.
  intros Hq Hr Hn. destruct (rep_node _ _ _ Hr) as (f & Hf & Hd). destruct Hr as [Hp _ Hs Hc Hb].
  unfold truncate. destruct (file s) as [fp fpos] eqn:Hfs. simpl in Hp. subst fp.
  erewrite bind_Ok; [|eapply segment_on_file_run; rewrite Hfs; by apply set_len_run].
  erewrite bind_Ok; [|eapply segment_on_file_run; simpl; apply sync_data_run; [done|apply lookup_insert_eq]].
  rewrite bind_modify_self. cbn [f_data f_synced f_mtime].
  rewrite Hd, resize_le by (rewrite len_length; lia).
  eexists. split.
  { unfold modify_self, set_nodes. simpl. rewrite insert_insert_eq. reflexivity. }
  split; [|done]. split; simpl; try done.
  - eexists. split; [apply lookup_insert_eq|]. done.
  - rewrite len_take; lia.
  - rewrite len_take; lia.
Qed.

Lemma segment_sync_run w s data f :
  quiet w -> rep w s data -> nodes w !! seg_path s = Some (NFile f) ->
  exists s', let w' := set_nodes <[seg_path s := NFile (FNode data data (f_mtime f))]> w in
    sync (w, s) = (Ok tt, (w', s')) /\ rep w' s' data
    /\ base_offset s' = base_offset s /\ seg_path s' = seg_path s.
Proof.
  intros Hq [Hp (f' & Hf' & Hd) Hs Hc Hb] Hf.
  unfold sync. destruct (file s) as [fp fpos] eqn:Hfs. simpl in Hp. subst fp.
  eexists. cbn zeta. split.
  - rewrite Hf in Hf'. injection Hf' as <-. rewrite <- Hd.
    eapply segment_on_file_run. rewrite Hfs. by apply sync_data_run.
  - split; [|done]. split; simpl; try done.
    eexists. split; [apply lookup_insert_eq|]. done.
Qed.

(** Writes to other files do not disturb a segment. *)
Lemma rep_frame w w' s data :
  rep w s data -> nodes w' !! seg_path s = nodes w !! seg_path s -> rep w' s data.
Proof. intros [? Hf ? ? ?] E. split; try done. by rewrite E. Qed.

Lemma segment_create_run w dir base :
  quiet w -> nodes w !! segment_path dir base = None ->
  parent_is_dir (segment_path dir base) w = true ->
  let w' := set_nodes <[segment_path dir base := NFile (FNode [] [] (now_ms w))]> w in
  exists s, create dir base w = (Ok s, w') /\ rep w' s []
    /\ base_offset s = base /\ seg_path s = segment_path dir base.
Proof.
  intros Hq Hn Hp. cbn zeta. unfold create.
  erewrite bind_Ok; [|apply io_Ok; by apply open_create_new_run].
  eexists. split; [reflexivity|]. split; [|done]. split; simpl; try done.
  - eexists. split; [apply lookup_insert_eq|]. done.
  - congruence.
Qed.

Lemma segment_open_run w dir base f :
  quiet w -> nodes w !! segment_path dir base = Some (NFile f) -> len (f_data f) < 2 ^ 64 ->
  exists s, open dir base w = (Ok s, w) /\ rep w s (f_data f)
    /\ base_offset s = base /\ seg_path s = segment_path dir base.
Proof.
  intros Hq Hn Hl. unfold open.
  erewrite bind_Ok; [|apply io_Ok; by apply metadata_run].
  erewrite bind_Ok; [|apply io_Ok; by eapply open_existing_run].
  eexists. split; [reflexivity|]. split; [|done]. split; simpl; try done.
  - eauto.
  - congruence.
Qed.

End facts.
