(* ===== verification/SegmentSpec.v ===== *)
(** * A segment as a byte string

    Any sequence of the calls of segment.rs against the byte string they stand
    for: the cached file position never shows.  And what is left of that after
    a write that fails half way. *)

From S2P Require Import Prelude Bytes Error Fs Names Segment.

(** One call, and its reply. *)
Inductive seg_op : Type :=
| OAppend (bytes : list byte)
| ORead (file_pos n : Z)
| OTruncate (new_size : Z)
| OSync.

Inductive seg_reply : Type :=
| RPos (file_pos : Z)
| RBytes (bytes : list byte)
| RDone.

Definition seg_call (o : seg_op) : KM (World * Segment) seg_reply :=
  match o with
  | OAppend bytes => let* pos := append bytes in ret (RPos pos)
  | ORead file_pos n => let* bytes := read_at file_pos n in ret (RBytes bytes)
  | OTruncate n => let* _ := truncate n in ret RDone
  | OSync => let* _ := sync in ret RDone
  end.

Fixpoint seg_calls (os : list seg_op) : KM (World * Segment) (list seg_reply) :=
  match os with
  | [] => ret []
  | o :: os' => let* r := seg_call o in let* rs := seg_calls os' in ret (r :: rs)
  end.

(** The same on the byte string; [limit] is what one read transfers. *)
Definition spec_call (limit : Z) (data : list byte) (o : seg_op) : list byte * seg_reply :=
  match o with
  | OAppend bytes => (data ++ bytes, RPos (len data))
  | ORead pos n => (data, RBytes (take (Z.to_nat (Z.min n limit)) (drop (Z.to_nat pos) data)))
  | OTruncate n => (take (Z.to_nat n) data, RDone)
  | OSync => (data, RDone)
  end.

Fixpoint spec_calls (limit : Z) (data : list byte) (os : list seg_op) : list byte * list seg_reply :=
  match os with
  | [] => (data, [])
  | o :: os' =>
      let '(data1, r) := spec_call limit data o in
      let '(data2, rs) := spec_calls limit data1 os' in (data2, r :: rs)
  end.

(** Reads and truncations stay within the data, and sizes within [u64]. *)
Definition call_fits (data : list byte) (o : seg_op) : Prop :=
  match o with
  | OAppend bytes => len data + len bytes < 2 ^ 64
  | ORead pos _ => 0 <= pos <= len data
  | OTruncate n => 0 <= n <= len data
  | OSync => True
  end.

Fixpoint calls_fit (limit : Z) (data : list byte) (os : list seg_op) : Prop :=
  match os with
  | [] => True
  | o :: os' => call_fits data o /\ calls_fit limit (fst (spec_call limit data o)) os'
  end.

Lemma seg_call_run w s data o :
  quiet w -> rep w s data -> call_fits data o ->
  let '(data', r) := spec_call (read_max w) data o in
  exists w' s', seg_call o (w, s) = (Ok r, (w', s')) /\ rep w' s' data'
    /\ quiet w' /\ read_max w' = read_max w.
Proof.
  intros Hq Hr Hf. destruct o as [bytes|pos n|n|]; simpl in *.
  - destruct (segment_append_run w s data bytes Hq Hr Hf) as (f & s' & _ & Hrun & Hr' & _).
    eexists _, s'. by rewrite (bind_Ok _ _ _ _ _ Hrun).
  - destruct (read_at_run w s data pos n Hq Hr Hf) as (s' & Hrun & Hr' & _).
    exists w, s'. by rewrite (bind_Ok _ _ _ _ _ Hrun).
  - destruct (truncate_run w s data n Hq Hr Hf) as (s' & Hrun & Hr' & _).
    eexists _, s'. by rewrite (bind_Ok _ _ _ _ _ Hrun).
  - destruct (rep_node _ _ _ Hr) as (f & Hn & _).
    destruct (segment_sync_run w s data f Hq Hr Hn) as (s' & Hrun & Hr' & _).
    eexists _, s'. by rewrite (bind_Ok _ _ _ _ _ Hrun).
Qed.

Lemma seg_calls_run w s data os :
  quiet w -> rep w s data -> calls_fit (read_max w) data os ->
  let '(data', rs) := spec_calls (read_max w) data os in
  exists w' s', seg_calls os (w, s) = (Ok rs, (w', s')) /\ rep w' s' data' /\ quiet w'.
Proof.
  revert w s data. induction os as [|o os IH]; intros w s data Hq Hr Hf; simpl in *; [eauto|].
  destruct Hf as [Hf1 Hf2]. pose proof (seg_call_run w s data o Hq Hr Hf1) as Hc.
  destruct (spec_call _ data o) as [data1 r]. simpl in Hf2.
  destruct Hc as (w1 & s1 & Hrun1 & Hr1 & Hq1 & Hm1).
  specialize (IH w1 s1 data1 Hq1 Hr1). rewrite Hm1 in IH. specialize (IH Hf2).
  destruct (spec_calls _ data1 os) as [data2 rs]. destruct IH as (w2 & s2 & Hrun2 & Hr2 & Hq2).
  exists w2, s2. by rewrite (bind_Ok _ _ _ _ _ Hrun1), (bind_Ok _ _ _ _ _ Hrun2).
Qed.

(** ** A write that fails after some bytes *)

(** When the segment is ready at its end, a write that fails after [k > 0]
    bytes leaves the cached position behind the file's: the next append reports
    the old end as its position, but its bytes come after the stray ones. *)
Lemma failed_append_run w s data bytes1 bytes2 f :
  rep w s data -> cursor s = Some (len data) -> faults w = [Some f] ->
  (0 < fault_written f <= length bytes1)%nat -> len data + len bytes1 + len bytes2 < 2 ^ 64 ->
  exists w1 s1 w2 s2 fl,
    append bytes1 (w, s) = (Err (Io (io_error_from (fault_kind f))), (w1, s1))
    /\ append bytes2 (w1, s1) = (Ok (len data), (w2, s2))
    /\ size s2 = len data + len bytes2
    /\ nodes w2 !! seg_path s = Some (NFile fl)
    /\ f_data fl = data ++ take (fault_written f) bytes1 ++ bytes2.
Proof.
  intros [Hp (fl & Hfl & Hd) Hs Hc Hb] Hcur Hfa Hk Hlen. destruct s as [base sp [fp fpos] sz cur].
  simpl in *. subst fp cur sz. specialize (Hc _ eq_refl). subst fpos.
  set (k := fault_written f) in *. subst data. set (data := f_data fl) in *.
  pose proof (len_nonneg data). pose proof (len_nonneg bytes1). pose proof (len_nonneg bytes2).
  assert (Hk2 : len (take k bytes1) = Z.of_nat k) by (unfold len; rewrite length_take; lia).
  assert (Hec : forall w n fd, ensure_cursor n (w, mkSegment base sp fd n (Some n))
    = (Ok tt, (w, mkSegment base sp fd n (Some n)))).
  { intros. unfold ensure_cursor. rewrite bind_self. simpl. by rewrite decide_False by auto. }
  set (w0 := mkWorld (nodes w) (now_ms w) [] (read_max w)).
  set (fl1 := FNode (data ++ take k bytes1) (f_synced fl) (now_ms w)).
  set (w1 := set_nodes <[sp := NFile fl1]> w0).
  set (s1 := mkSegment base sp (mkFile sp (len data + Z.of_nat k)) (len data) (Some (len data))).
  assert (Ha1 : append bytes1 (w, mkSegment base sp (mkFile sp (len data)) (len data) (Some (len data)))
    = (Err (Io (io_error_from (fault_kind f))), (w1, s1))).
  { unfold append. rewrite bind_self. simpl size. cbv zeta. rewrite (bind_Ok _ _ _ _ _ (Hec _ _ _)).
    erewrite bind_Err; [reflexivity|]. unfold on_file, zoom, io, map_err, write_all, on_world, zoom, bind. simpl.
    unfold next_fault. rewrite Hfa. fold k. unfold do_write. simpl.
    unfold lookup_file, bind, get_node. simpl. rewrite Hfl. simpl. unfold throw. fold data. rewrite Hk2.
    rewrite <- len_length, write_at_end. done. }
  assert (Hn1 : nodes w1 !! sp = Some (NFile fl1)) by apply lookup_insert_eq.
  set (fl2 := FNode (data ++ take k bytes1 ++ bytes2) (f_synced fl) (now_ms w)).
  exists w1, s1. eexists (set_nodes <[sp := NFile fl2]> w1), _, fl2. split; [exact Ha1|].
  split; [|split; [|split; [apply lookup_insert_eq|done]]].
  - unfold append. rewrite bind_self. unfold s1. cbn [size set_size set_cursor set_file]. cbv zeta.
    rewrite (bind_Ok _ _ _ _ _ (Hec _ _ _)).
    erewrite bind_Ok; [|eapply segment_on_file_run; apply (write_all_run w1 eq_refl bytes2 sp _ fl1 Hn1)].
    rewrite !bind_modify_self. simpl f_data. replace (len data + Z.of_nat k) with (len (data ++ take k bytes1)).
    2: { rewrite len_app. lia. }
    rewrite <- len_length, write_at_end, <- app_assoc. reflexivity.
  - simpl. by rewrite u64_add_small by lia.
Qed.
