(* ===== verification/Search.v ===== *)
(** * Binary search

    [slice::binary_search_by_key] of the Rust standard library (the
    branch-free loop of its implementation), with its contract on sorted
    slices.  Used by the sparse index and to find the segment of an offset. *)

From S2P Require Import Prelude.

Section search.
Context {A : Type} (key : A -> Z) (l : list A) (target : Z).

(** [cmp] of the element at [i] with the target; [i] is always in range. *)
Definition cmp_at (i : nat) : comparison :=
  match l !! i with
  | Some x => Z.compare (key x) target
  | None => Gt
  end.

(** [while size > 1 { half = size / 2; mid = base + half;
    base = if cmp(mid) == Greater { base } else { mid }; size -= half }]. *)
Fixpoint search_loop (fuel size base : nat) : nat :=
  match fuel with
  | O => base
  | S fuel' =>
      if Nat.leb size 1 then base
      else
        let half := Nat.div2 size in
        let mid := (base + half)%nat in
        let base' := match cmp_at mid with Gt => base | _ => mid end in
        search_loop fuel' (size - half) base'
  end.

(** [inl i] is [Ok(i)], [inr i] is [Err(i)]. *)
Definition binary_search_by_key : nat + nat :=
  match length l with
  | O => inr 0%nat
  | size =>
      let base := search_loop size size 0 in
      match cmp_at base with
      | Eq => inl base
      | Lt => inr (S base)
      | Gt => inr base
      end
  end.

Definition sorted_by_key : Prop :=
  forall i j x y, (i <= j)%nat -> l !! i = Some x -> l !! j = Some y -> key x <= key y.

(** The loop keeps [target] inside the window [base, base + size). *)
Definition window (size base : nat) : Prop :=
  (base + size <= length l)%nat /\ (0 < size)%nat
  /\ (base = 0%nat \/ exists x, l !! base = Some x /\ key x <= target)
  /\ (forall j y, (base + size <= j)%nat -> l !! j = Some y -> target < key y).

Lemma search_loop_window fuel size base :
  sorted_by_key -> (size <= fuel)%nat -> window size base ->
  window 1 (search_loop fuel size base).
Proof.
  intros Hs. revert size base. induction fuel as [|fuel IH]; intros size base Hf Hw.
  { destruct Hw as (? & ? & _). lia. }
  simpl. destruct (Nat.leb_spec size 1).
  { destruct Hw as (? & ? & ?). by replace 1%nat with size by lia. }
  pose proof (Nat.div2_odd size) as Hodd.
  assert (0 < Nat.div2 size < size)%nat by (destruct (Nat.odd size); simpl in *; lia).
  set (half := Nat.div2 size) in *. destruct Hw as (H1 & H2 & H3 & H4).
  destruct (lookup_lt_is_Some_2 l (base + half) ltac:(lia)) as [x Hx].
  unfold cmp_at. rewrite Hx. destruct (Z.compare_spec (key x) target);
    (apply IH; [lia|]; split; [lia|]; split; [lia|]; split).
  - right. exists x. split; [done|lia].
  - intros j y Hj. apply H4. lia.
  - right. exists x. split; [done|lia].
  - intros j y Hj. apply H4. lia.
  - done.
  - intros j y Hj Hy. assert (key x <= key y); [|lia].
    apply (Hs (base + half)%nat j); [lia|done..].
Qed.

(** Sorted or not, the loop stays inside the slice. *)
Lemma search_loop_in fuel size base :
  (base + size <= length l)%nat -> (0 < size)%nat -> (search_loop fuel size base < length l)%nat.
Proof.
  revert size base. induction fuel as [|fuel IH]; intros size base Hle Hpos; simpl; [lia|].
  destruct (Nat.leb_spec size 1); [lia|]. pose proof (Nat.div2_odd size) as Hodd.
  assert (0 < Nat.div2 size < size)%nat by (destruct (Nat.odd size); simpl in *; lia).
  destruct (cmp_at _); apply IH; lia.
Qed.

(** What a caller may index with the answer. *)
Lemma binary_search_bounds :
  match binary_search_by_key with
  | inl i => (i < length l)%nat
  | inr i => (i <= length l)%nat
  end.
Proof.
  unfold binary_search_by_key. destruct (length l) as [|n] eqn:Hn; [lia|].
  pose proof (search_loop_in (S n) (S n) 0 ltac:(lia) ltac:(lia)) as Hlt. rewrite Hn in Hlt.
  destruct (cmp_at _); lia.
Qed.

(** The contract of [binary_search_by_key] on a sorted slice. *)
Lemma binary_search_spec :
  sorted_by_key ->
  match binary_search_by_key with
  | inl i => exists x, l !! i = Some x /\ key x = target
  | inr i =>
      (i <= length l)%nat
      /\ (forall j y, (j < i)%nat -> l !! j = Some y -> key y < target)
      /\ (forall j y, (i <= j)%nat -> l !! j = Some y -> target < key y)
  end.
Proof.
  intros Hs. unfold binary_search_by_key. destruct (length l) as [|n] eqn:Hn.
  { split; [lia|]. split; intros j y Hj Hy; [lia|]. apply lookup_lt_Some in Hy. lia. }
  assert (Hw : window 1 (search_loop (S n) (S n) 0)).
  { apply search_loop_window; [done|lia|]. split; [lia|]. split; [lia|]. split; [by left|].
    intros j y Hj Hy. apply lookup_lt_Some in Hy. lia. }
  set (base := search_loop (S n) (S n) 0) in *. destruct Hw as (H1 & _ & H3 & H4).
  destruct (lookup_lt_is_Some_2 l base ltac:(lia)) as [x Hx].
  unfold cmp_at. rewrite Hx. destruct (Z.compare_spec (key x) target).
  - eauto.
  - split; [lia|]. split; intros j y Hj Hy.
    + assert (key y <= key x); [|lia]. apply (Hs j base); [lia|done..].
    + apply (H4 j y); [lia|done].
  - destruct H3 as [Hb|(x' & Hx' & ?)]; [|simplify_eq; lia].
    split; [lia|]. split; intros j y Hj Hy; [lia|].
    assert (key x <= key y); [|lia]. apply (Hs base j); [lia|done..].
Qed.

End search.

(** Sortedness along the list. *)
Lemma sorted_by_key_app {A} (key : A -> Z) l1 l2 :
  sorted_by_key key (l1 ++ l2) <->
  sorted_by_key key l1 /\ sorted_by_key key l2
  /\ (forall x y, x ∈ l1 -> y ∈ l2 -> key x <= key y).
Proof.
  split.
  - intros Hs. split; [|split].
    + intros i j x y Hij Hx Hy. apply (Hs i j); [done|by apply lookup_app_l_Some..].
    + intros i j x y Hij Hx Hy. apply (Hs (length l1 + i) (length l1 + j))%nat; [lia|..];
        rewrite lookup_app_r by lia; by rewrite Nat.add_sub_swap, Nat.sub_diag by lia.
    + intros x y Hx Hy. apply list_elem_of_lookup in Hx as [i Hi].
      apply list_elem_of_lookup in Hy as [j Hj]. pose proof (lookup_lt_Some _ _ _ Hi).
      apply (Hs i (length l1 + j))%nat; [lia|by apply lookup_app_l_Some|].
      rewrite lookup_app_r by lia. by rewrite Nat.add_sub_swap, Nat.sub_diag by lia.
  - intros (H1 & H2 & H12) i j x y Hij Hx Hy.
    apply lookup_app_Some in Hx as [Hx|[Hi Hx]], Hy as [Hy|[Hj Hy]].
    + by apply (H1 i j).
    + apply H12; apply list_elem_of_lookup; eauto.
    + apply lookup_lt_Some in Hy. lia.
    + apply (H2 (i - length l1) (j - length l1))%nat; [lia|done..].
Qed.
