(* ===== verification/SparseIndex.v ===== *)
(** * Sparse offset index (sparse_index.rs)

    Entries [relative offset -> file position], one every [interval] bytes,
    in memory and in an append-only [.index] file.  [positions] is what makes
    an index right for a segment: every entry points at the first byte of the
    record it names, in offset order. *)

From S2P Require Import Prelude Bytes Error Fs Names Search.

Definition ENTRY_SIZE : Z := 8.

Record IndexEntry : Type := mkEntry { relative_offset : Z; file_position : Z }.

Record SparseIndex : Type := mkIndex {
  base_offset : Z;
  idx_path : path;
  file : File;
  entries : list IndexEntry;
  bytes_since_last_entry : Z;
  interval : Z;
}.

Definition set_file (f : File) (s : SparseIndex) : SparseIndex :=
  mkIndex (base_offset s) (idx_path s) f (entries s) (bytes_since_last_entry s) (interval s).
Definition set_entries (l : list IndexEntry) (s : SparseIndex) : SparseIndex :=
  mkIndex (base_offset s) (idx_path s) (file s) l (bytes_since_last_entry s) (interval s).
Definition set_bytes_since (n : Z) (s : SparseIndex) : SparseIndex :=
  mkIndex (base_offset s) (idx_path s) (file s) (entries s) n (interval s).

Definition on_file {A} (m : FileIO A) : KM (World * SparseIndex) A :=
  zoom (fun s => (fst s, file (snd s))) (fun t s => (fst t, set_file (snd t) (snd s))) (io m).

Definition create (dir : path) (base_offset interval : Z) : KM World SparseIndex :=
  let path := index_path dir base_offset in
  let* _ := io (open_create_new path) in
  ret (mkIndex base_offset path (mkFile path 0) [] 0 interval).

(** The loop over [bytes.chunks_exact(ENTRY_SIZE)]: a trailing partial chunk
    is ignored. *)
Fixpoint parse_entries (bytes : list byte) : list IndexEntry :=
  match bytes with
  | b0 :: b1 :: b2 :: b3 :: b4 :: b5 :: b6 :: b7 :: rest =>
      mkEntry (from_be_bytes [b0; b1; b2; b3]) (from_be_bytes [b4; b5; b6; b7])
      :: parse_entries rest
  | _ => []
  end.

Definition open (dir : path) (base_offset interval : Z) : KM World SparseIndex :=
  let path := index_path dir base_offset in
  let* bytes := io (read_file path) in
  let entries := parse_entries bytes in
  let* _ := io (open_existing path) in
  ret (mkIndex base_offset path (mkFile path 0) entries 0 interval).

Definition entry_bytes (e : IndexEntry) : list byte :=
  to_be_bytes 4 (relative_offset e) ++ to_be_bytes 4 (file_position e).

Definition write_entry (entry : IndexEntry) : KM (World * SparseIndex) unit :=
  on_file (write_all_append (entry_bytes entry)).

Definition track_append (absolute_offset file_position record_size : Z)
    : KM (World * SparseIndex) unit :=
  let* s := self in
  let need_entry :=
    match entries s with [] => true | _ => interval s <=? bytes_since_last_entry s end in
  let* _ :=
    (if need_entry then
       match try_into_u32 (u64_sub absolute_offset (base_offset s)) with
       | None => panic "relative offset exceeds u32 (segment too large?)"
       | Some relative_offset =>
           match try_into_u32 file_position with
           | None => panic "file position exceeds u32 (segment too large?)"
           | Some file_position_u32 =>
               let entry := mkEntry relative_offset file_position_u32 in
               let* _ := write_entry entry in
               let* _ := modify_self (fun s => set_entries (entries s ++ [entry]) s) in
               modify_self (set_bytes_since 0)
           end
       end
     else ret tt) in
  modify_self (fun s =>
    set_bytes_since (u64_add (bytes_since_last_entry s) (as_u64 record_size)) s).

(** [(file_position, starting_offset)]; [self.entries[i]] panics out of range. *)
Definition lookup {S} (self : SparseIndex) (absolute_offset : Z) : KM S (Z * Z) :=
  if absolute_offset <? base_offset self then ret (0, base_offset self)
  else
    let relative :=
      match try_into_u32 (u64_sub absolute_offset (base_offset self)) with
      | Some r => r
      | None => u32_max
      end in
    let at_entry i :=
      match entries self !! i with
      | Some e => ret (file_position e, u64_add (base_offset self) (relative_offset e))
      | None => panic "index out of bounds"
      end in
    match binary_search_by_key relative_offset (entries self) relative with
    | inl i => at_entry i
    | inr O => ret (0, base_offset self)
    | inr i => at_entry (i - 1)%nat
    end.

Definition sync : KM (World * SparseIndex) unit := on_file sync_data.

(** ** Correctness of an index

    [pos_of frames i] is the file position of record [i] of a segment whose
    records are encoded as [frames]. *)
Definition pos_of (frames : list (list byte)) (i : nat) : Z := len (concat (take i frames)).

Definition points_to (frames : list (list byte)) (k : nat) (e : IndexEntry) : Prop :=
  exists i : nat, (i < k)%nat /\ relative_offset e = Z.of_nat i
    /\ file_position e = pos_of frames i.

(** The entries name records among the first [k] of [frames], in order. *)
Definition positions (s : SparseIndex) (frames : list (list byte)) (k : nat) : Prop :=
  Forall (points_to frames k) (entries s) /\ sorted_by_key relative_offset (entries s).

(** The [.index] file on disk and the entries in memory agree. *)
Record rep (w : World) (s : SparseIndex) : Prop := {
  rep_path : fd_path (file s) = idx_path s;
  rep_file : exists f, nodes w !! idx_path s = Some (NFile f)
    /\ parse_entries (f_data f) = entries s
    /\ exists k, length (f_data f) = (8 * k)%nat;
}.

Lemma parse_entry_bytes e rest :
  is_u32 (relative_offset e) -> is_u32 (file_position e) ->
  parse_entries (entry_bytes e ++ rest) = e :: parse_entries rest.
Proof.
  intros Hr Hp. unfold entry_bytes. rewrite <- app_assoc.
  pose proof (length_to_be_bytes 4 (relative_offset e)) as L1.
  pose proof (length_to_be_bytes 4 (file_position e)) as L2.
  pose proof (from_to_be_bytes 4 (relative_offset e)) as R1.
  pose proof (from_to_be_bytes 4 (file_position e)) as R2.
  destruct (to_be_bytes 4 (relative_offset e)) as [|? [|? [|? [|? []]]]]; try done.
  destruct (to_be_bytes 4 (file_position e)) as [|? [|? [|? [|? []]]]]; try done.
  simpl. rewrite R1, R2. destruct e; simpl in *. by rewrite !Z.mod_small by done.
Qed.

(** Parsing consumes whole entries from the left, so what follows a whole
    number of entries is parsed on its own. *)
Lemma parse_entries_app k a b :
  length a = (8 * k)%nat -> parse_entries (a ++ b) = parse_entries a ++ parse_entries b.
Proof.
  revert a. induction k as [|k IH]; intros a Ha.
  { apply nil_length_inv in Ha. by subst a. }
  do 8 (destruct a as [|? a]; [simpl in Ha; lia|]). simpl. f_equal. apply IH.
  simpl in Ha. lia.
Qed.

Lemma parse_entries_short bs : (length bs < 8)%nat -> parse_entries bs = [].
Proof. do 8 (destruct bs as [|? bs]; [done|]). simpl. lia. Qed.

Lemma length_entry_bytes e : length (entry_bytes e) = 8%nat.
Proof. unfold entry_bytes. by rewrite length_app, !length_to_be_bytes. Qed.

(** What [track_append] leaves on disk is what [open] reads back, even when
    the last entry is torn. *)
Lemma parse_entries_concat l torn :
  Forall (fun e => is_u32 (relative_offset e) /\ is_u32 (file_position e)) l ->
  (length torn < 8)%nat ->
  parse_entries (concat (map entry_bytes l) ++ torn) = l.
Proof.
  intros Hl Ht. induction Hl as [|e l [Hr Hp] _ IH]; simpl.
  - by apply parse_entries_short.
  - by rewrite <- app_assoc, parse_entry_bytes, IH.
Qed.

(** ** Facts about positions *)
Lemma pos_of_nonneg frames i : 0 <= pos_of frames i.
Proof. apply len_nonneg. Qed.

Lemma pos_of_app_l f1 f2 i : (i <= length f1)%nat -> pos_of (f1 ++ f2) i = pos_of f1 i.
Proof. intros. unfold pos_of. by rewrite take_app_le. Qed.

Lemma pos_of_all frames : pos_of frames (length frames) = len (concat frames).
Proof. unfold pos_of. by rewrite firstn_all. Qed.

Lemma pos_of_S frames i fr :
  frames !! i = Some fr -> pos_of frames (S i) = pos_of frames i + len fr.
Proof.
  intros Hi. unfold pos_of. rewrite (take_S_r _ _ fr) by done.
  rewrite concat_app. simpl. rewrite app_nil_r. lens.
Qed.

Lemma pos_of_le frames i : pos_of frames i <= len (concat frames).
Proof.
  unfold pos_of. rewrite <- (take_drop i frames) at 2. rewrite concat_app, len_app.
  pose proof (len_nonneg (concat (drop i frames))). lia.
Qed.

(** Cutting a segment at the position of record [i] leaves the records from
    [i] on. *)
Lemma drop_pos_of frames i : drop (Z.to_nat (pos_of frames i)) (concat frames) = concat (drop i frames).
Proof.
  unfold pos_of. rewrite <- len_length. rewrite <- (take_drop i frames) at 2.
  by rewrite concat_app, drop_app_length.
Qed.

Lemma positions_app s f1 f2 k :
  (k <= length f1)%nat -> positions s f1 k -> positions s (f1 ++ f2) k.
Proof.
  intros Hk [Hf Hs]. split; [|done]. eapply Forall_impl; [exact Hf|].
  intros e (i & Hi & Hr & Hp). exists i. by rewrite pos_of_app_l by lia.
Qed.

Lemma positions_nil b p f n i frames : positions (mkIndex b p f [] n i) frames 0.
Proof. split; [done|]. by intros i1 i2 x y _ Hx. Qed.

(** [lookup] lands on the start of a record at or before the offset. *)
Lemma lookup_spec {S} s frames k off (st : S) :
  positions s frames k -> is_u64 off -> base_offset s <= off ->
  is_u64 (base_offset s) -> base_offset s + Z.of_nat k < 2 ^ 64 ->
  exists i : nat, (i <= k)%nat
    /\ lookup s off st = (Ok (pos_of frames i, base_offset s + Z.of_nat i), st)
    /\ base_offset s + Z.of_nat i <= off.
Proof.
  intros [Hf Hs] Hoff Hb Hbu Hk. unfold is_u64 in *. unfold lookup.
  rewrite (proj2 (Z.ltb_ge _ _)) by done. rewrite u64_sub_small by lia. cbn zeta.
  set (rel := match try_into_u32 _ with Some r => r | None => _ end).
  assert (Hrel : rel <= off - base_offset s).
  { unfold rel, try_into_u32. destruct (Z.leb_spec (off - base_offset s) u32_max); lia. }
  assert (Hzero : exists i : nat, (i <= k)%nat
    /\ @ret S KafkoError _ (0, base_offset s) st = (Ok (pos_of frames i, base_offset s + Z.of_nat i), st)
    /\ base_offset s + Z.of_nat i <= off).
  { exists 0%nat. split; [lia|]. split; [|lia]. unfold pos_of, ret. simpl. do 3 f_equal. lia. }
  assert (Hat : forall i e, entries s !! i = Some e -> relative_offset e <= rel ->
    exists j : nat, (j <= k)%nat
    /\ @ret S KafkoError _ (file_position e, u64_add (base_offset s) (relative_offset e)) st
       = (Ok (pos_of frames j, base_offset s + Z.of_nat j), st)
    /\ base_offset s + Z.of_nat j <= off).
  { intros i e He Hle. rewrite Forall_lookup in Hf. destruct (Hf i e He) as (j & Hj & Hr & Hp).
    exists j. split; [lia|]. rewrite Hr, Hp, u64_add_small by lia. split; [done|]. lia. }
  pose proof (binary_search_spec relative_offset (entries s) rel Hs) as Hbs.
  destruct (binary_search_by_key relative_offset (entries s) rel) as [i|[|i]].
  - destruct Hbs as (e & He & Hr). rewrite He. apply (Hat i e He). lia.
  - exact Hzero.
  - destruct Hbs as (Hi & Hlt & _).
    destruct (lookup_lt_is_Some_2 (entries s) i ltac:(lia)) as [e He].
    replace (Datatypes.S i - 1)%nat with i by lia. rewrite He. apply (Hat i e He). assert (relative_offset e < rel); [|lia].
    apply (Hlt i e); [lia|done].
Qed.

Lemma lookup_before {S} s off (st : S) :
  off < base_offset s -> lookup s off st = (Ok (0, base_offset s), st).
Proof. intros. unfold lookup. by rewrite (proj2 (Z.ltb_lt _ _)). Qed.

(** Whatever the entries are, sorted or not, a lookup does not panic. *)
Lemma lookup_total s off : exists r, forall S (st : S), lookup s off st = (Ok r, st).
Proof.
  unfold lookup. destruct (_ <? _); [by eexists|]. cbv zeta.
  match goal with |- context [binary_search_by_key relative_offset (entries s) ?rel] =>
    pose proof (binary_search_bounds relative_offset (entries s) rel) as Hb;
    destruct (binary_search_by_key relative_offset (entries s) rel) as [i|[|i]] end; [|by eexists|].
  - destruct (lookup_lt_is_Some_2 (entries s) i Hb) as [e He]. rewrite He. by eexists.
  - destruct (lookup_lt_is_Some_2 (entries s) (Datatypes.S i - 1) ltac:(lia)) as [e He]. rewrite He. by eexists.
Qed.

(** ** Runs of the operations *)
Lemma index_on_file_run {A} (m : FileIO A) w s a w' fd :
  m (w, file s) = (Ok a, (w', fd)) -> on_file m (w, s) = (Ok a, (w', set_file fd s)).
Proof. intros Hm. unfold on_file, zoom. simpl. by rewrite (io_Ok _ _ _ _ Hm). Qed.

Lemma rep_touch w w' s : rep w s -> nodes w' !! idx_path s = nodes w !! idx_path s -> rep w' s.
Proof. intros [Hp Hf] E. split; [done|]. by rewrite E. Qed.

Lemma positions_snoc s frames k e :
  positions s frames k -> relative_offset e = Z.of_nat k -> file_position e = pos_of frames k ->
  positions (set_entries (entries s ++ [e]) s) frames (S k).
Proof.
  intros [Hf Hs] Hr Hp. split; simpl.
  - apply Forall_app. split.
    + eapply Forall_impl; [exact Hf|]. intros e' (i & Hi & ?). exists i. split; [lia|done].
    + apply Forall_singleton. exists k. split; [lia|done].
  - apply sorted_by_key_app. split; [done|]. split.
    + intros i j x y _ Hx Hy. apply list_lookup_singleton_Some in Hx as [_ <-], Hy as [_ <-]. lia.
    + intros x y Hx ->%list_elem_of_singleton. rewrite Forall_forall in Hf.
      destruct (Hf x Hx) as (i & Hi & Hxr & _). lia.
Qed.

Lemma positions_S s frames k : positions s frames k -> positions s frames (S k).
Proof.
  intros [Hf Hs]. split; [|done]. eapply Forall_impl; [exact Hf|].
  intros e (i & Hi & ?). exists i. split; [lia|done].
Qed.

(** Appending an entry for record [k] of the segment keeps the index right;
    the only file it writes is the index file. *)
Lemma track_append_run w s frames k size :
  quiet w -> rep w s -> positions s frames k ->
  is_u64 (base_offset s) -> is_u32 (Z.of_nat k) -> is_u32 (pos_of frames k) ->
  base_offset s + Z.of_nat k < 2 ^ 64 ->
  exists w' s',
    track_append (base_offset s + Z.of_nat k) (pos_of frames k) size (w, s) = (Ok tt, (w', s'))
    /\ rep w' s' /\ positions s' frames (S k) /\ touches [idx_path s] w w'
    /\ base_offset s' = base_offset s /\ idx_path s' = idx_path s.
Proof.
  intros Hq Hr Hpos Hb Hk Hp Hbk. unfold is_u64 in *. unfold track_append. rewrite bind_self.
  rewrite u64_sub_small by lia.
  replace (base_offset s + Z.of_nat k - base_offset s) with (Z.of_nat k) by lia.
  rewrite !try_into_u32_Some by done.
  set (need := match entries s with [] => true | _ => _ end). destruct need; cbn zeta iota.
  - destruct Hr as [Hpath (f & Hf & Hparse & kk & Hkk)].
    destruct (file s) as [fp fpos] eqn:Hfs. simpl in Hpath. subst fp.
    set (e := mkEntry (Z.of_nat k) (pos_of frames k)).
    rewrite bind_bind. unfold write_entry.
    erewrite bind_Ok; [|eapply index_on_file_run; rewrite Hfs; by apply write_all_append_run].
    rewrite bind_bind, !bind_modify_self. unfold modify_self.
    do 2 eexists. split; [reflexivity|]. split; [|split; [|split; [|done]]].
    + split; [done|]. simpl. eexists. split; [apply lookup_insert_eq|]. simpl. split.
      * rewrite (parse_entries_app kk) by done. rewrite Hparse.
        rewrite <- (app_nil_r (entry_bytes e)), parse_entry_bytes by done. done.
      * exists (kk + 1)%nat. rewrite length_app, length_entry_bytes. lia.
    + by apply positions_snoc.
    + simpl. auto with kafko.
  - rewrite bind_ret. unfold modify_self. do 2 eexists. split; [reflexivity|].
    split; [by destruct Hr|]. split; [by apply positions_S|]. split; [auto with kafko|done].
Qed.

Lemma index_create_run w dir base ivl :
  quiet w -> nodes w !! index_path dir base = None ->
  parent_is_dir (index_path dir base) w = true ->
  let w' := set_nodes <[index_path dir base := NFile (FNode [] [] (now_ms w))]> w in
  exists s, create dir base ivl w = (Ok s, w') /\ rep w' s /\ entries s = []
    /\ base_offset s = base /\ idx_path s = index_path dir base.
Proof.
  intros Hq Hn Hp. cbn zeta. unfold create.
  erewrite bind_Ok; [|apply io_Ok; by apply open_create_new_run].
  eexists. split; [reflexivity|]. split; [|done]. split; [done|].
  eexists. split; [apply lookup_insert_eq|]. split; [done|]. by exists 0%nat.
Qed.

Lemma index_open_run w dir base ivl f :
  quiet w -> nodes w !! index_path dir base = Some (NFile f) ->
  exists s, open dir base ivl w = (Ok s, w) /\ entries s = parse_entries (f_data f)
    /\ base_offset s = base /\ idx_path s = index_path dir base /\ fd_path (file s) = idx_path s.
Proof.
  intros Hq Hn. unfold open.
  erewrite bind_Ok; [|apply io_Ok; by apply read_file_run].
  erewrite bind_Ok; [|apply io_Ok; by eapply open_existing_run].
  by eexists.
Qed.

Lemma index_sync_run w s f :
  quiet w -> rep w s -> nodes w !! idx_path s = Some (NFile f) ->
  exists s', let w' := set_nodes <[idx_path s := NFile (FNode (f_data f) (f_data f) (f_mtime f))]> w in
    sync (w, s) = (Ok tt, (w', s')) /\ rep w' s' /\ entries s' = entries s
    /\ base_offset s' = base_offset s /\ idx_path s' = idx_path s.
Proof.
  intros Hq [Hp (f' & Hf' & Hpe & Hk)] Hf. rewrite Hf in Hf'. injection Hf' as <-.
  unfold sync. destruct (file s) as [fp fpos] eqn:Hfs. simpl in Hp. subst fp.
  eexists. cbn zeta. split.
  - eapply index_on_file_run. rewrite Hfs. by apply sync_data_run.
  - split; [|done]. split; [done|]. simpl. eexists. split; [apply lookup_insert_eq|]. done.
Qed.
