(* ===== verification/Faults.v ===== *)
(** * Runs in which system calls fail

    [runs_or m F s]: from [s], whatever its failure script, [m] either does
    what it does when no call fails, or stops at the first failing call with
    an I/O error and a state in which [F] holds.  [runs_or_bind] composes such
    runs, so a theorem about failing calls needs the runs without failures,
    and what holds at each call. *)

From S2P Require Import Prelude Bytes Error Fs Names Segment SparseIndex.

(** The world with another failure script, and with none. *)
Definition with_faults (fs : list (option fault)) (w : World) : World :=
  mkWorld (nodes w) (now_ms w) fs (read_max w).
Definition calm (w : World) : World := with_faults [] w.

(** The outcome of a run without failures, the rest of the script put back. *)
Definition resume {S E A} (fs : list (option fault)) (r : outcome E A * (World * S))
    : outcome E A * (World * S) :=
  (fst r, (with_faults fs (fst (snd r)), snd (snd r))).

Lemma calm_quiet w : quiet (calm w).
Proof. done. Qed.

Lemma calm_of_quiet w : quiet w -> calm w = w.
Proof. unfold quiet, calm, with_faults. intros <-. by destruct w. Qed.

Lemma calm_with_faults fs w : calm (with_faults fs w) = calm w.
Proof. done. Qed.

Lemma resume_quiet {S E A} (o : outcome E A) w (s : S) :
  quiet w -> resume [] (o, (w, s)) = (o, (w, s)).
Proof. intros Hq. unfold resume. simpl. change (with_faults [] w) with (calm w). by rewrite calm_of_quiet. Qed.

(** ** Single calls

    [one_call inj m]: [m] makes one system call. If the script lets it pass,
    [m] runs as it does without a script; if not, it returns the error and
    changes nothing. *)
Definition one_call {S E A} (inj : io_error -> E) (m : M (World * S) E A) : Prop :=
  forall w s,
    match faults w with
    | Some f :: fs => m (w, s) = (Err (inj (io_error_from (fault_kind f))), (with_faults fs w, s))
    | fs => m (w, s) = resume (tail fs) (m (calm w, s))
    end.

(** A part of a call that looks at files only. *)
Definition silent {A} (m : IO A) : Prop :=
  forall fs w, m (with_faults fs w) = (fst (m (calm w)), with_faults fs (snd (m (calm w)))).

Lemma silent_bind {A B} (m : IO A) (k : A -> IO B) :
  silent m -> (forall a, silent (k a)) -> silent (bind m k).
Proof.
  intros Hm Hk fs w. unfold bind. rewrite (Hm fs w). destruct (m (calm w)) as [[a|e|p|] w1] eqn:E; try done.
  simpl. rewrite (Hk a fs w1). assert (w1 = calm w1) as <-; [|done].
  pose proof (Hm [] w) as H0. change (with_faults [] w) with (calm w) in H0. rewrite E in H0. simpl in H0.
  by injection H0.
Qed.

Lemma silent_lookup_file p : silent (lookup_file p).
Proof. intros fs w. unfold lookup_file, bind, get_node. simpl. by destruct (nodes w !! p) as [[]|]. Qed.

Lemma silent_put_file p f : silent (put_file p f).
Proof. done. Qed.

Lemma silent_create_new p :
  silent (let* n := get_node p in
          match n with
          | Some _ => throw (io_error_from AlreadyExists)
          | None =>
              fun w =>
                if parent_is_dir p w then put_file p (FNode [] [] (now_ms w)) w
                else (Err (io_error_from NotFound), w)
          end).
Proof.
  intros fs w. unfold bind, get_node. simpl. destruct (nodes w !! p); [done|].
  change (parent_is_dir p (with_faults fs w)) with (parent_is_dir p (calm w)).
  by destruct (parent_is_dir p (calm w)).
Qed.

(** A call of the file system made from a component. *)
Lemma one_call_syscall {S A} (m : IO A) :
  silent m -> one_call (S := S) (fun e => e) (zoom fst (fun w s => (w, snd s)) (syscall m)).
Proof.
  intros Hm [ns t fs rm] s. unfold zoom, syscall, bind, next_fault. simpl.
  destruct fs as [|[f|] fs]; simpl; try done.
  - specialize (Hm [] (mkWorld ns t [] rm)). unfold calm, with_faults in *. simpl in *.
    destruct (m _) as [o w']. simpl in *. by injection Hm as ->.
  - specialize (Hm fs (mkWorld ns t [] rm)). unfold calm, with_faults in *. simpl in *. rewrite Hm.
    clear Hm. destruct (m _) as [o w']. reflexivity.
Qed.

Lemma one_call_io {S A} (m : M (World * S) io_error A) :
  one_call (fun e => e) m -> one_call Io (io m).
Proof.
  intros Hm w s. specialize (Hm w s). unfold io, map_err.
  destruct (faults w) as [|[f|] fs]; rewrite Hm; [|done|]; clear Hm; destruct (m _) as [[] []]; reflexivity.
Qed.

(** A call on a part of a component. *)
Lemma one_call_zoom {S T E A} (inj : io_error -> E) (get : S -> T) (set : T -> S -> S)
    (m : M (World * T) E A) :
  (forall s, set (get s) s = s) -> one_call inj m ->
  one_call inj (zoom (fun s => (fst s, get (snd s))) (fun t s => (fst t, set (snd t) (snd s))) m).
Proof.
  intros Hgs Hm w s. specialize (Hm w (get s)). unfold zoom. simpl.
  destruct (faults w) as [|[f|] fs]; rewrite Hm; simpl; rewrite ?Hgs; [|done|];
    clear Hm; destruct (m _) as [o []]; reflexivity.
Qed.

Lemma one_call_then {S E A B} (inj : io_error -> E) (m : M (World * S) E A) (f : A -> B) :
  one_call inj m -> one_call inj (let* a := m in ret (f a)).
Proof.
  intros Hm w s. specialize (Hm w s). unfold bind.
  destruct (faults w) as [|[fl|] fs]; rewrite Hm; [|done|]; clear Hm; destruct (m _) as [[] []]; reflexivity.
Qed.

Lemma one_call_sync_data : one_call (fun e => e) sync_data.
Proof.
  intros w fd. pose proof (one_call_syscall (S := File)
    (let* f := lookup_file (fd_path fd) in
     put_file (fd_path fd) (FNode (f_data f) (f_data f) (f_mtime f)))
    (silent_bind _ _ (silent_lookup_file _) (fun _ => silent_put_file _ _)) w fd) as Hc.
  exact Hc.
Qed.

Lemma one_call_segment_sync : one_call Io Segment.sync.
Proof.
  apply (one_call_zoom Io Segment.file Segment.set_file); [by intros []|].
  apply one_call_io, one_call_sync_data.
Qed.

Lemma one_call_index_sync : one_call Io SparseIndex.sync.
Proof.
  apply (one_call_zoom Io SparseIndex.file SparseIndex.set_file); [by intros []|].
  apply one_call_io, one_call_sync_data.
Qed.

Lemma one_call_ext {S E A} inj (m m' : M (World * S) E A) :
  (forall s, m' s = m s) -> one_call inj m -> one_call inj m'.
Proof. intros Hs Hm w s. specialize (Hm w s). by rewrite !Hs. Qed.

(** Creating a file of a segment. *)
Lemma one_call_create {T A} (p : path) (f : unit -> A) :
  one_call (S := T) Io (in_world (let* u := io (open_create_new p) in ret (f u))).
Proof.
  eapply one_call_ext; [|exact (one_call_then Io _ f (one_call_io _ (one_call_syscall (S := T) _ (silent_create_new p))))].
  intros [w s]. unfold in_world, zoom, io, map_err, bind. simpl. change (syscall _ w) with (open_create_new p w).
  destruct (open_create_new p w) as [[] ?]; reflexivity.
Qed.

(** ** Sequences of calls *)
Definition runs_or {S E A} (inj : io_error -> E) (m : M (World * S) E A)
    (F : World -> S -> Prop) (w : World) (s : S) : Prop :=
  (exists fs, m (w, s) = resume fs (m (calm w, s)))
  \/ (exists e w' s', m (w, s) = (Err (inj e), (w', s')) /\ F w' s').

Section runs.
Context {S E : Type} (inj : io_error -> E).

Lemma one_call_runs {A} (m : M (World * S) E A) (F : World -> S -> Prop) w s :
  one_call inj m -> (forall fs, F (with_faults fs w) s) -> runs_or inj m F w s.
Proof.
  intros Hm HF. specialize (Hm w s). destruct (faults w) as [|[f|] fs].
  - left. eauto.
  - right. eauto 6.
  - left. eauto.
Qed.

Lemma runs_or_imp {A} (m : M (World * S) E A) (F G : World -> S -> Prop) w s :
  (forall w' s', F w' s' -> G w' s') -> runs_or inj m F w s -> runs_or inj m G w s.
Proof. intros HFG [Hr|(e & w' & s' & Hr & HF)]; [by left|right; eauto 7]. Qed.

Lemma runs_or_ext {A} (m m' : M (World * S) E A) F w s :
  (forall s, m' s = m s) -> runs_or inj m F w s -> runs_or inj m' F w s.
Proof. intros Hs Hr. unfold runs_or. rewrite !Hs. exact Hr. Qed.

(** Code without system calls. *)
Lemma runs_or_pure {A} (m : M (World * S) E A) F w s o s' :
  (forall w, m (w, s) = (o, (w, s'))) -> runs_or inj m F w s.
Proof. intros Hm. left. exists (faults w). rewrite !Hm. unfold resume. simpl. by destruct w. Qed.

Lemma runs_or_ret {A} (a : A) F w (s : S) : runs_or inj (ret a) F w s.
Proof. by eapply runs_or_pure. Qed.

Lemma runs_or_bind {A B} (m : M (World * S) E A) (k : A -> M (World * S) E B) F w s :
  runs_or inj m F w s ->
  (forall a w1 s1, m (calm w, s) = (Ok a, (w1, s1)) ->
     quiet w1 /\ forall fs, runs_or inj (k a) F (with_faults fs w1) s1) ->
  runs_or inj (bind m k) F w s.
Proof.
  intros [[fs Hm]|(e & w' & s' & Hm & HF)] Hk.
  2: { right. exists e, w', s'. split; [|done]. by apply bind_Err. }
  unfold runs_or, bind. rewrite Hm. destruct (m (calm w, s)) as [[a|e|p|] [w1 s1]] eqn:E1; simpl.
  - destruct (Hk a w1 s1 eq_refl) as [Hq Hr]. destruct (Hr fs) as [[fs' Hk']|Hk'].
    + left. exists fs'. rewrite Hk', calm_with_faults. by rewrite calm_of_quiet.
    + by right.
  - left. by exists fs.
  - left. by exists fs.
  - left. by exists fs.
Qed.

Lemma runs_or_bind_pure {A B} (m : M (World * S) E A) (k : A -> M (World * S) E B) F w s a s' :
  (forall w, m (w, s) = (Ok a, (w, s'))) -> runs_or inj (k a) F w s' -> runs_or inj (bind m k) F w s.
Proof. intros Hm. unfold runs_or, bind. by rewrite !Hm. Qed.

Lemma runs_or_zoom {T A} (get : S -> T) (set : T -> S -> S) (m : M (World * T) E A) F w s :
  runs_or inj m F w (get s) ->
  runs_or inj (zoom (fun s => (fst s, get (snd s))) (fun t s => (fst t, set (snd t) (snd s))) m)
    (fun w' s' => exists t, s' = set t s /\ F w' t) w s.
Proof.
  unfold runs_or, zoom. simpl. intros [[fs Hm]|(e & w' & t & Hm & HF)].
  - left. exists fs. rewrite Hm. by destruct (m (calm w, get s)) as [o []].
  - right. rewrite Hm. eauto 7.
Qed.
End runs.

Lemma runs_or_io {S A} (m : M (World * S) io_error A) F w s :
  runs_or (fun e => e) m F w s -> runs_or Io (io m) F w s.
Proof.
  unfold runs_or, io, map_err. intros [[fs Hm]|(e & w' & t & Hm & HF)].
  - left. exists fs. rewrite Hm. by destruct (m (calm w, s)) as [[] []].
  - right. rewrite Hm. eauto 7.
Qed.

(** ** Writes

    [appended p bytes w w']: the file at [p] got some of [bytes], perhaps none,
    at its end; nothing else changed, and nothing was synced. *)
Definition appended (p : path) (bytes : list byte) (w w' : World) : Prop :=
  read_max w' = read_max w /\ (forall q, q <> p -> nodes w' !! q = nodes w !! q)
  /\ exists f f' k, nodes w !! p = Some (NFile f) /\ nodes w' !! p = Some (NFile f')
       /\ f_data f' = f_data f ++ take k bytes /\ f_synced f' = f_synced f /\ now_ms w' = now_ms w.

Lemma appended_none p bytes w fs f :
  nodes w !! p = Some (NFile f) -> appended p bytes w (with_faults fs w).
Proof.
  intros Hf. split; [done|]. split; [done|]. exists f, f, 0%nat. by rewrite take_0, app_nil_r.
Qed.

Lemma write_all_runs bytes w p pos f :
  nodes w !! p = Some (NFile f) -> pos = len (f_data f) ->
  runs_or (fun e => e) (write_all bytes) (fun w' fd => appended p bytes w w' /\ fd_path fd = p)
    w (mkFile p pos).
Proof.
  intros Hf ->. unfold runs_or. rewrite (write_all_run (calm w) eq_refl bytes p _ f Hf).
  unfold write_all, on_world, zoom, bind, next_fault. simpl.
  destruct (faults w) as [|[fl|] fs] eqn:E.
  - left. exists []. rewrite (do_write_run bytes w p _ f Hf). unfold resume. simpl.
    unfold set_nodes, with_faults. simpl. by rewrite E.
  - right. set (w0 := mkWorld _ _ _ _).
    rewrite (do_write_run (take (fault_written fl) bytes) w0 p _ f Hf). do 3 eexists. split; [reflexivity|].
    split; [|done]. split; [done|]. split; [intros q Hq; simpl; by rewrite lookup_insert_ne|].
    exists f. eexists _, (fault_written fl). split; [done|]. split; [simpl; apply lookup_insert_eq|].
    simpl. by rewrite <- len_length, write_at_end.
  - left. exists fs. set (w0 := mkWorld _ _ _ _). by rewrite (do_write_run bytes w0 p _ f Hf).
Qed.

Lemma write_all_append_runs bytes w p pos f :
  nodes w !! p = Some (NFile f) ->
  runs_or (fun e => e) (write_all_append bytes)
    (fun w' fd => appended p bytes w w' /\ fd_path fd = p) w (mkFile p pos).
Proof.
  intros Hf. pose proof (write_all_runs bytes w p _ f Hf eq_refl) as Hr.
  assert (Hs : forall fs, write_all_append bytes (with_faults fs w, mkFile p pos)
    = write_all bytes (with_faults fs w, mkFile p (len (f_data f)))).
  { intros fs. unfold write_all_append. erewrite bind_Ok; [reflexivity|]. simpl.
    by rewrite (lookup_file_run (with_faults fs w) p f Hf). }
  unfold runs_or in *. pose proof (Hs (faults w)) as Hw. pose proof (Hs []) as Hc.
  replace (with_faults (faults w) w) with w in Hw by (by destruct w). unfold calm in *. by rewrite Hw, Hc.
Qed.

Lemma runs_or_self {S E B} inj (k : S -> M (World * S) E B) F w s :
  runs_or inj (k s) F w s -> runs_or inj (bind self k) F w s.
Proof. done. Qed.

Lemma runs_or_modify {S E B} inj f (k : unit -> M (World * S) E B) F w s :
  runs_or inj (k tt) F w (f s) -> runs_or inj (bind (modify_self f) k) F w s.
Proof. done. Qed.

(** A sequence of pure updates. *)
Lemma runs_or_update {S E} inj (f : S -> S) F w s : runs_or (E := E) inj (modify_self f) F w s.
Proof. by apply (runs_or_pure _ _ F w s (Ok tt) (f s)). Qed.

Lemma runs_or_panic {S E A} inj msg F w (s : S) : runs_or (E := E) (A := A) inj (panic msg) F w s.
Proof. by eapply runs_or_pure. Qed.

Ltac runs_pure :=
  rewrite ?bind_ret;
  repeat apply runs_or_modify; first [apply runs_or_update | apply runs_or_ret | apply runs_or_panic].

Lemma rep_same_nodes w w' s data :
  Segment.rep w s data -> nodes w' = nodes w -> Segment.rep w' s data.
Proof. intros Hr E. eapply Segment.rep_frame; [exact Hr|]. by rewrite E. Qed.

(** ** Writing to a segment *)
Lemma one_call_seek pos : one_call (fun e => e) (seek pos).
Proof.
  pose proof (one_call_syscall (S := File) (ret tt) (fun _ _ => eq_refl)) as Hc.
  intros w fd. specialize (Hc w fd). unfold seek, on_world, bind.
  destruct (faults w) as [|[f|] fs]; rewrite Hc; reflexivity.
Qed.

Lemma ensure_cursor_runs w s pos F :
  (forall fs, F (with_faults fs w) s) -> runs_or Io (ensure_cursor pos) F w s.
Proof.
  intros HF. unfold ensure_cursor. apply runs_or_self. case_decide; [|apply runs_or_ret].
  apply runs_or_bind; [|intros [] w1 s1 Hm; split; [|intros fs; apply runs_or_update]].
  - apply one_call_runs; [|done].
    apply (one_call_zoom Io Segment.file Segment.set_file); [by intros []|].
    apply one_call_io, one_call_seek.
  - unfold Segment.on_file, zoom, io, map_err, seek, on_world, zoom, bind, syscall in Hm. simpl in Hm.
    injection Hm as <- _. done.
Qed.

Lemma segment_append_runs w s data bytes :
  Segment.rep w s data ->
  runs_or Io (Segment.append bytes) (fun w' s' => appended (seg_path s) bytes w w') w s.
Proof.
  intros Hr. destruct (Segment.rep_node _ _ _ Hr) as (f & Hf & Hd).
  pose proof (rep_same_nodes w (calm w) s data Hr eq_refl) as Hrc.
  unfold Segment.append. apply runs_or_self. cbv zeta. apply runs_or_bind.
  { apply ensure_cursor_runs. intros fs. by eapply appended_none. }
  intros [] w1 s1 Hm.
  destruct (ensure_cursor_run (calm w) s data (size s) (calm_quiet w) Hrc)
    as (s' & He & Hr1 & Hpos & _ & _ & Hpath & _).
  rewrite Hm in He. injection He as -> ->. split; [done|]. intros fs.
  assert (Hfile : Segment.file s' = mkFile (seg_path s) (len (f_data f))).
  { pose proof (Segment.rep_path _ _ _ Hr1) as Hp. pose proof (Segment.rep_size _ _ _ Hr) as Hs.
    destruct (Segment.file s'). simpl in *. congruence. }
  apply runs_or_bind; [|intros [] w2 s2 Hm2; split; [|intros fs2; runs_pure]].
  - eapply runs_or_imp; [|apply runs_or_zoom, runs_or_io; rewrite Hfile; by eapply write_all_runs].
    by intros w' s2' (t & _ & Ha & _).
  - unfold Segment.on_file, zoom in Hm2. simpl in Hm2. rewrite Hfile in Hm2.
    change (with_faults [] _) with (calm w) in Hm2.
    rewrite (io_Ok _ _ _ _ (write_all_run (calm w) eq_refl bytes _ _ f Hf)) in Hm2.
    injection Hm2 as <- _. done.
Qed.

(** ** Writing to an index *)
Lemma track_append_runs w s off pos sz f :
  fd_path (SparseIndex.file s) = idx_path s -> nodes w !! idx_path s = Some (NFile f) ->
  runs_or Io (track_append off pos sz)
    (fun w' s' => exists bytes, appended (idx_path s) bytes w w' /\ idx_path s' = idx_path s
       /\ SparseIndex.base_offset s' = SparseIndex.base_offset s) w s.
Proof.
  intros Hp Hf. unfold track_append. apply runs_or_self. cbv zeta.
  destruct (match entries s with [] => true | _ => _ end); [|runs_pure].
  destruct (try_into_u32 _) as [ro|]; [|runs_pure].
  destruct (try_into_u32 pos) as [fp|]; [|runs_pure].
  set (e := mkEntry ro fp). eapply runs_or_ext; [intros st; apply bind_bind|].
  apply runs_or_bind; [|intros [] w2 s2 Hm2; split; [|intros fs2; runs_pure]].
  - eapply runs_or_imp; [|apply runs_or_zoom, runs_or_io;
      destruct (SparseIndex.file s) as [p0 q0]; simpl in Hp; subst p0; by eapply write_all_append_runs].
    intros w' s' (t & -> & Ha & _). by exists (entry_bytes e).
  - unfold write_entry, SparseIndex.on_file, zoom in Hm2. simpl in Hm2.
    destruct (SparseIndex.file s) as [p0 q0]. simpl in Hp. subst p0.
    change (with_faults [] _) with (calm w) in Hm2.
    rewrite (io_Ok _ _ _ _ (write_all_append_run (calm w) eq_refl (entry_bytes e) _ q0 f Hf)) in Hm2.
    injection Hm2 as <- _. done.
Qed.
