(* ===== verification/Log.v ===== *)
(** * The segmented log (log.rs)

    [Log] with every operation of its [impl]: creation, recovery on open,
    single and batched appends with rotation, reads through the sparse index,
    fsync and retention.  Methods run on the world and the log. *)

From S2P Require Import Prelude Bytes Error Compression LogRecord Fs Names Search.
From S2P Require Import Segment SparseIndex.

(** A [Duration] is its number of nanoseconds. *)
Definition as_millis (d : Z) : Z := d / 1000000.

Record LogConfig : Type := mkLogConfig {
  segment_size_threshold : Z;
  index_interval : Z;
  max_segment_age : option Z;
  max_partition_bytes : option Z;
  retention_check_interval : Z;
  batch_max_records : Z;
  batch_max_bytes : Z;
  compression : Compression;
}.

(** [impl Default for LogConfig]. *)
Definition default_config : LogConfig := {|
  segment_size_threshold := Z.shiftl 1 30;
  index_interval := 4 * 1024;
  max_segment_age := None;
  max_partition_bytes := None;
  retention_check_interval := 60 * 1000000000;
  batch_max_records := 1024;
  batch_max_bytes := 64 * 1024;
  compression := CNone;
|}.

Record IndexedSegment : Type := mkIndexed {
  segment : Segment.Segment;
  index : SparseIndex.SparseIndex;
}.

Record Log : Type := mkLog {
  dir : path;
  config : LogConfig;
  segments : list IndexedSegment;
  next_offset : Z;
  encode_buf : list byte;
  actual_sizes : list Z;
}.

Definition set_segments (x : list IndexedSegment) (l : Log) : Log :=
  mkLog (dir l) (config l) x (next_offset l) (encode_buf l) (actual_sizes l).
Definition set_next_offset (x : Z) (l : Log) : Log :=
  mkLog (dir l) (config l) (segments l) x (encode_buf l) (actual_sizes l).
Definition set_encode_buf (x : list byte) (l : Log) : Log :=
  mkLog (dir l) (config l) (segments l) (next_offset l) x (actual_sizes l).
Definition set_actual_sizes (x : list Z) (l : Log) : Log :=
  mkLog (dir l) (config l) (segments l) (next_offset l) (encode_buf l) x.

(** Calls on the parts of an indexed segment, and on segment [i] or the last
    segment of the log. *)
Definition on_seg {A} (m : KM (World * Segment.Segment) A) : KM (World * IndexedSegment) A :=
  zoom (fun s => (fst s, segment (snd s)))
       (fun t s => (fst t, mkIndexed (snd t) (index (snd s)))) m.

Definition on_idx {A} (m : KM (World * SparseIndex.SparseIndex) A) : KM (World * IndexedSegment) A :=
  zoom (fun s => (fst s, index (snd s)))
       (fun t s => (fst t, mkIndexed (segment (snd s)) (snd t))) m.

Definition on_nth {A} (i : nat) (m : KM (World * IndexedSegment) A) : KM (World * Log) A :=
  fun '(w, l) =>
    match segments l !! i with
    | Some s =>
        let '(o, (w', s')) := m (w, s) in (o, (w', set_segments (<[i := s']> (segments l)) l))
    | None => (Panic "index out of bounds", (w, l))
    end.

Definition on_active {A} (m : KM (World * IndexedSegment) A) : KM (World * Log) A :=
  fun '(w, l) =>
    match last (segments l) with
    | Some s =>
        let '(o, (w', s')) := m (w, s) in
        (o, (w', set_segments (removelast (segments l) ++ [s']) l))
    | None => (Panic "segments invariant: never empty after create", (w, l))
    end.

#[global] Arguments on_nth : simpl never.
#[global] Arguments on_active : simpl never.

(** [fn current_timestamp_ms]. *)
Definition current_timestamp_ms {E} : M World E Z := fun w => (Ok (as_i64 (Z.max 0 (now_ms w))), w).

Section log.
Context {B : Buf} {H : Crc32} {C : Codecs}.

Definition create (dir : path) (config : LogConfig) : KM World Log :=
  let* _ := io (create_dir_all dir) in
  let* segment := Segment.create dir 0 in
  let* index := SparseIndex.create dir 0 (index_interval config) in
  ret (mkLog dir config [mkIndexed segment index] 0 [] []).

Definition segment_count (self : Log) : Z := len (segments self).

Definition total_size (self : Log) : Z :=
  foldr (fun s acc => u64_add (Segment.size (segment s)) acc) 0 (segments self).

(** ** Appending *)
Definition rotate_active_segment : KM (World * Log) unit :=
  let* _ := on_active (on_seg Segment.sync) in
  let* _ := on_active (on_idx SparseIndex.sync) in
  let* l := self in
  let* new_segment := in_world (Segment.create (dir l) (next_offset l)) in
  let* new_index :=
    in_world (SparseIndex.create (dir l) (next_offset l) (index_interval (config l))) in
  modify_self (fun l => set_segments (segments l ++ [mkIndexed new_segment new_index]) l).

Definition active_would_overflow (additional : Z) : KM (World * Log) bool :=
  let* l := self in
  match last (segments l) with
  | Some s =>
      ret (Segment.would_overflow (segment s) additional (segment_size_threshold (config l)))
  | None => panic "segments invariant: never empty after create"
  end.

Definition append (record : record) : KM (World * Log) Z :=
  let wire_size_estimate := wire_size record in
  let* l := self in
  let compression := compression (config l) in
  let* should_rotate := active_would_overflow wire_size_estimate in
  let* _ := (if should_rotate then rotate_active_segment else ret tt) in
  let* enc := local [] (encode_with record compression) in
  let '(actual_size, buf) := enc in
  let* file_pos := on_active (on_seg (Segment.append buf)) in
  let* l := self in
  let offset := next_offset l in
  let* _ := on_active (on_idx (SparseIndex.track_append offset file_pos actual_size)) in
  let* _ := modify_self (fun l => set_next_offset (u64_add (next_offset l) 1) l) in
  ret offset.

Definition on_encode_buf {A} (m : KM (list byte) A) : KM (World * Log) A :=
  zoom (fun s => encode_buf (snd s)) (fun b s => (fst s, set_encode_buf b (snd s))) m.

(** [for record in records { .. }]: the offsets assigned and the offset after
    them. *)
Fixpoint encode_all (compression : Compression) (records : list record)
    (offsets : list Z) (current_offset : Z) : KM (World * Log) (list Z * Z) :=
  match records with
  | [] => ret (offsets, current_offset)
  | record :: records' =>
      let offsets := offsets ++ [current_offset] in
      let current_offset := u64_add current_offset 1 in
      let* actual := on_encode_buf (encode_with record compression) in
      let* _ := modify_self (fun l => set_actual_sizes (actual_sizes l ++ [actual]) l) in
      encode_all compression records' offsets current_offset
  end.

(** [for (i, &size) in self.actual_sizes.iter().enumerate() { .. }]. *)
Fixpoint track_all (offsets sizes : list Z) (i : nat) (file_pos : Z) : KM (World * Log) unit :=
  match sizes with
  | [] => ret tt
  | size :: sizes' =>
      match offsets !! i with
      | Some offset =>
          let* _ := on_active (on_idx (SparseIndex.track_append offset file_pos size)) in
          track_all offsets sizes' (S i) (u64_add file_pos size)
      | None => panic "index out of bounds"
      end
  end.

Definition append_batch (records : list record) : KM (World * Log) (list Z) :=
  match records with
  | [] => ret []
  | _ =>
      let total_wire_size := foldr (fun r acc => wire_size r + acc) 0 records in
      let* should_rotate := active_would_overflow total_wire_size in
      let* _ := (if should_rotate then rotate_active_segment else ret tt) in
      let* l := self in
      let compression := compression (config l) in
      let* _ := modify_self (fun l => set_actual_sizes [] (set_encode_buf [] l)) in
      let* enc := encode_all compression records [] (next_offset l) in
      let '(offsets, current_offset) := enc in
      let* l := self in
      let* file_pos := on_active (on_seg (Segment.append (encode_buf l))) in
      let* _ := track_all offsets (actual_sizes l) 0 file_pos in
      let* _ := modify_self (set_next_offset current_offset) in
      ret offsets
  end.

(** ** Reading *)
Definition find_segment_index (self : Log) (offset : Z) : nat :=
  match binary_search_by_key (fun s => Segment.base_offset (segment s)) (segments self) offset with
  | inl i => i
  | inr O => 0%nat
  | inr (S i) => i
  end.

(** [while !slice.is_empty() { .. }] of [read_record_at]. *)
Fixpoint scan_to (fuel : nat) (offset current_offset : Z) (slice : list byte)
    : outcome KafkoError (option record) :=
  match fuel with
  | O => NoFuel
  | S fuel' =>
      match slice with
      | [] => Ok None
      | _ =>
          match decode slice with
          | (Ok r, slice') =>
              if current_offset =? offset then Ok (Some r)
              else scan_to fuel' offset (u64_add current_offset 1) slice'
          | (Err (Truncated _), _) => Ok None
          | (Err e, _) => Err e
          | (Panic p, _) => Panic p
          | (NoFuel, _) => NoFuel
          end
      end
  end.

Definition read_record_at (offset : Z) : KM (World * Log) (option record) :=
  let* l := self in
  if next_offset l <=? offset then ret None
  else
    let seg_idx := find_segment_index l offset in
    match segments l !! seg_idx with
    | None => panic "index out of bounds"
    | Some segment_pair =>
        let* at_entry := SparseIndex.lookup (index segment_pair) offset in
        let '(file_pos, starting_offset) := at_entry in
        let remaining := u64_saturating_sub (Segment.size (segment segment_pair)) file_pos in
        if remaining =? 0 then ret None
        else
          let* slice := on_nth seg_idx (on_seg (Segment.read_at file_pos remaining)) in
          fun s => (scan_to (S (length slice)) offset starting_offset slice, s)
    end.

(** ** Durability and retention *)
Definition sync : KM (World * Log) unit :=
  let* _ := on_active (on_seg Segment.sync) in
  on_active (on_idx SparseIndex.sync).

(** [match remove_file(..) { Ok(()) => {}, Err(NotFound) => {}, Err(e) => return Err(e) }]. *)
Definition remove_file_if_present (p : path) : KM World unit :=
  let* res := attempt (remove_file p) in
  match res with
  | inl _ => ret tt
  | inr e => if decide (kind e = NotFound) then ret tt else throw (Io e)
  end.

Definition delete_oldest_segment : KM (World * Log) unit :=
  let* l := self in
  match segments l with
  | [] => panic "removal index (is 0) should be < len (is 0)"
  | oldest :: rest =>
      let* _ := modify_self (set_segments rest) in
      let log_path := Segment.seg_path (segment oldest) in
      let index_path := with_extension_index log_path in
      let* _ := in_world (io (remove_file log_path)) in
      in_world (remove_file_if_present index_path)
  end.

(** The two [while] loops of [apply_retention]; each turn deletes one segment,
    so the number of segments bounds the turns. *)
Definition retain_by_age (cutoff deleted : Z) : KM (World * Log) (Z + Z) :=
  let* l := self in
  if 1 <? len (segments l) then
    let* mtime := on_nth 0 (on_seg Segment.last_modified_ms) in
    if mtime <? cutoff then
      let* _ := delete_oldest_segment in
      ret (inl (deleted + 1))
    else ret (inr deleted)
  else ret (inr deleted).

Definition retain_by_size (max_bytes deleted : Z) : KM (World * Log) (Z + Z) :=
  let* l := self in
  if (1 <? len (segments l)) && (max_bytes <? total_size l) then
    let* _ := delete_oldest_segment in
    ret (inl (deleted + 1))
  else ret (inr deleted).

Definition apply_retention : KM (World * Log) Z :=
  let* now_ms := in_world current_timestamp_ms in
  let* l := self in
  let* deleted :=
    (match max_segment_age (config l) with
     | Some max_age =>
         let max_age_ms := as_i64 (as_millis max_age) in
         let cutoff := i64_saturating_sub now_ms max_age_ms in
         loop (S (length (segments l))) (retain_by_age cutoff) 0
     | None => ret 0
     end) in
  match max_partition_bytes (config l) with
  | Some max_bytes => loop (S (length (segments l))) (retain_by_size max_bytes) deleted
  | None => ret deleted
  end.

(** ** Opening and recovery *)
Definition segment_offset_of_name (name : string) : option Z :=
  match strip_suffix ".log" name with
  | Some prefix => parse_u64 prefix
  | None => None
  end.

Definition discover_segment_offsets (dir : path) : KM World (list Z) :=
  let* entries := io (read_dir dir) in
  let offsets := omap (fun e => segment_offset_of_name (fst e)) entries in
  ret (merge_sort Z.le offsets).

(** The whole-segment buffer both passes of recovery decode: [vec![0; size]]
    filled by one [read_at]; bytes the call did not transfer stay zero. *)
Definition read_whole : KM (World * Segment.Segment) (list byte) :=
  let* s := self in
  let size := Segment.size s in
  let* got := Segment.read_at 0 size in
  ret (got ++ replicate (Z.to_nat size - length got) x00).

Fixpoint scan_valid (fuel : nat) (last_valid_pos : Z) (slice : list byte)
    : outcome KafkoError Z :=
  match fuel with
  | O => NoFuel
  | S fuel' =>
      match slice with
      | [] => Ok last_valid_pos
      | _ =>
          match decode slice with
          | (Ok _, slice') =>
              let consumed := len slice - len slice' in
              scan_valid fuel' (u64_add last_valid_pos consumed) slice'
          | (Err (Truncated _), _) | (Err (CrcMismatch _ _), _) | (Err (InvalidLength _), _) =>
              Ok last_valid_pos
          | (Err e, _) => Err e
          | (Panic p, _) => Panic p
          | (NoFuel, _) => NoFuel
          end
      end
  end.

Definition scan_for_last_valid_position : KM (World * Segment.Segment) Z :=
  let* s := self in
  if Segment.size s =? 0 then ret 0
  else
    let* buf := read_whole in
    fun st => (scan_valid (S (length buf)) 0 buf, st).

(** The [while] loop of [replay_records_to_index], on the index. *)
Fixpoint replay_loop (fuel : nat) (base_offset file_pos count : Z) (slice : list byte)
    : KM (World * SparseIndex.SparseIndex) Z :=
  match fuel with
  | O => no_fuel
  | S fuel' =>
      match slice with
      | [] => ret count
      | _ =>
          let* dec := local slice decode in
          let slice' := snd dec in
          let consumed := len slice - len slice' in
          let offset := u64_add base_offset count in
          let* _ := SparseIndex.track_append offset file_pos consumed in
          replay_loop fuel' base_offset (u64_add file_pos consumed) (u64_add count 1) slice'
      end
  end.

Definition replay_records_to_index (base_offset : Z) : KM (World * IndexedSegment) Z :=
  let* s := self in
  if Segment.size (segment s) =? 0 then ret 0
  else
    let* buf := on_seg read_whole in
    on_idx (replay_loop (S (length buf)) base_offset 0 0 buf).

Definition recover_active_segment (dir : path) (base_offset index_interval : Z)
    : KM World (Segment.Segment * SparseIndex.SparseIndex * Z) :=
  let* segment := Segment.open dir base_offset in
  let* scanned := with_local segment scan_for_last_valid_position in
  let '(last_valid_pos, segment) := scanned in
  let* truncated :=
    (if last_valid_pos <? Segment.size segment
     then with_local segment (Segment.truncate last_valid_pos)
     else ret (tt, segment)) in
  let segment := snd truncated in
  let* _ := remove_file_if_present (index_path dir base_offset) in
  let* index := SparseIndex.create dir base_offset index_interval in
  let* replayed := with_local (mkIndexed segment index) (replay_records_to_index base_offset) in
  let '(record_count, s) := replayed in
  ret (Log.segment s, Log.index s, record_count).

(** [for &base in &base_offsets[..base_offsets.len() - 1]]. *)
Fixpoint open_sealed (dir : path) (index_interval : Z) (bases : list Z)
    (segments : list IndexedSegment) : KM World (list IndexedSegment) :=
  match bases with
  | [] => ret segments
  | base :: bases' =>
      let* segment := Segment.open dir base in
      let* index := SparseIndex.open dir base index_interval in
      open_sealed dir index_interval bases' (segments ++ [mkIndexed segment index])
  end.

Definition open (dir : path) (config : LogConfig) : KM World Log :=
  let* _ := io (create_dir_all dir) in
  let* base_offsets := discover_segment_offsets dir in
  match last base_offsets with
  | None => create dir config
  | Some active_base =>
      let* segments := open_sealed dir (index_interval config) (removelast base_offsets) [] in
      let* recovered := recover_active_segment dir active_base (index_interval config) in
      let '(active_segment, active_index, active_record_count) := recovered in
      let segments := segments ++ [mkIndexed active_segment active_index] in
      let next_offset := u64_add active_base active_record_count in
      ret (mkLog dir config segments next_offset [] [])
  end.

End log.
