(* ===== verification/LogInv.v ===== *)
(** * Representation of the log

    What ties a [Log] and the files it works on to the records it holds.
    [log_core] describes the segments, [log_rep] adds the next offset: a log
    that starts at offset [start], with the records [concat cs] in its sealed
    segments (one list per segment) and [c] in the active one. *)

From S2P Require Import Prelude Bytes Error Compression LogRecord Fs Names Search.
From S2P Require Import Segment SparseIndex Log.

(** An encoded record: its bytes, and the record they decode to. Cut short,
    the bytes decode to a [Truncated] error. *)
Abbreviation erec := (list byte * record)%type.
Abbreviation frames c := (map (@fst (list byte) record) c).

Section rep.
Context {B : Buf} {H : Crc32} {C : Codecs}.

Definition decodes (p : erec) : Prop :=
  fst p <> [] /\ (forall rest, decode (fst p ++ rest) = (Ok (snd p), rest))
  /\ (forall n, (n < length (fst p))%nat ->
        exists needed s, decode (take n (fst p)) = (Err (Truncated needed), s)).

(** The largest segment that one [read] transfers and whose positions fit the
    index's [u32] fields. *)
Definition seg_limit (w : World) : Z := Z.min (read_max w) u32_max.

Record seg_ok (w : World) (dir : path) (base : Z) (s : IndexedSegment) (c : list erec) : Prop := {
  sk_rep : Segment.rep w (segment s) (concat (frames c));
  sk_base : Segment.base_offset (segment s) = base;
  sk_path : seg_path (segment s) = segment_path dir base;
  sk_ibase : SparseIndex.base_offset (index s) = base;
  sk_ipath : idx_path (index s) = index_path dir base;
  sk_dec : Forall decodes c;
  sk_max : len (concat (frames c)) <= seg_limit w;
}.

Definition synced (w : World) (p : path) : Prop :=
  exists f, nodes w !! p = Some (NFile f) /\ f_synced f = f_data f.

(** A segment that is no longer written: both files are on the device, and the
    index file holds the index. *)
Record sealed_ok (w : World) (s : IndexedSegment) : Prop := {
  sl_seg : synced w (seg_path (segment s));
  sl_idx : synced w (idx_path (index s));
  sl_rep : SparseIndex.rep w (index s);
}.

(** Sealed segments back to back: each starts at the offset where the previous
    one ends. *)
Fixpoint chain (w : World) (dir : path) (base : Z) (ss : list IndexedSegment)
    (cs : list (list erec)) : Prop :=
  match ss, cs with
  | [], [] => True
  | s :: ss', c :: cs' =>
      seg_ok w dir base s c /\ sealed_ok w s /\ positions (index s) (frames c) (length c)
      /\ c <> [] /\ chain w dir (base + len c) ss' cs'
  | _, _ => False
  end.

(** ** The directory of a log *)

(** The offsets where the segments start, the active one aside. *)
Fixpoint bases_of (base : Z) (cs : list (list erec)) : list Z :=
  match cs with
  | [] => []
  | c :: cs' => base :: bases_of (base + len c) cs'
  end.

Definition all_bases (start : Z) (cs : list (list erec)) : list Z :=
  bases_of start cs ++ [start + len (concat cs)].

Definition dirs_made (w : World) (dir : path) : Prop :=
  forall p, p `prefix_of` dir -> p <> [] -> nodes w !! p = Some NDir.

(** The directory exists, its [.log] files are named after [bases], and no
    index file is in the way of a later segment. *)
Record dir_ok (w : World) (dir : path) (bases : list Z) : Prop := {
  do_dirs : dirs_made w dir;
  do_dir : nodes w !! dir = Some NDir;
  do_names : forall name n b, nodes w !! (dir ++ [name]) = Some n ->
    segment_offset_of_name name = Some b -> name = fmt020 b +:+ ".log" /\ b ∈ bases;
  do_fresh : forall b, (forall x, x ∈ bases -> x < b) -> b < 2 ^ 64 ->
    nodes w !! index_path dir b = None;
  do_nodir : forall b, nodes w !! index_path dir b <> Some NDir;
}.

Record core (w : World) (dir : path) (start : Z) (sealed : list IndexedSegment)
    (active : IndexedSegment) (cs : list (list erec)) (c : list erec) (k : nat) : Prop := {
  co_chain : chain w dir start sealed cs;
  co_active : seg_ok w dir (start + len (concat cs)) active c;
  co_index : SparseIndex.rep w (index active);
  co_pos : positions (index active) (frames c) k;
  co_k : (k <= length c)%nat;
  co_start : 0 <= start;
  co_bound : start + len (concat cs) + len c < 2 ^ 64;
  co_dir : dir_ok w dir (all_bases start cs);
}.

(** [k] is the number of records of the active segment the index has been told
    about; between two calls it is all of them. *)
Definition log_core (w : World) (l : Log) (start : Z) (cs : list (list erec)) (c : list erec)
    (k : nat) : Prop :=
  exists sealed active, segments l = sealed ++ [active]
    /\ core w (dir l) start sealed active cs c k.

Definition log_rep (w : World) (l : Log) (start : Z) (cs : list (list erec)) (c : list erec) : Prop :=
  log_core w l start cs c (length c) /\ next_offset l = start + len (concat cs) + len c.

(** The records a log holds, in offset order. *)
Definition records_of (cs : list (list erec)) (c : list erec) : list record :=
  map snd (concat cs ++ c).

End rep.

Section facts.
Context {B : Buf} {H : Crc32} {C : Codecs}.
Implicit Types (w : World) (s : IndexedSegment) (c : list erec) (cs : list (list erec)).

Lemma frames_app c1 c2 : frames (c1 ++ c2) = frames c1 ++ frames c2.
Proof. apply map_app. Qed.

Lemma length_frames c : length (frames c) = length c.
Proof. apply length_map. Qed.

(** Encoded records are not empty, so a segment has at most as many records
    as bytes. *)
Lemma count_le_bytes c : Forall decodes c -> len c <= len (concat (frames c)).
Proof.
  induction 1 as [|[fr r] c [Hne _] _ IH]; simpl; [done|]. rewrite len_cons, len_app.
  destruct fr; [done|]. rewrite len_cons. pose proof (len_nonneg fr). lia.
Qed.

Lemma seg_limit_touches ps w w' : touches ps w w' -> seg_limit w' = seg_limit w.
Proof. intros (_ & _ & E & _). unfold seg_limit. by rewrite E. Qed.

Lemma seg_ok_touches ps w w' dir base s c :
  touches ps w w' -> segment_path dir base ∉ ps -> seg_ok w dir base s c -> seg_ok w' dir base s c.
Proof.
  intros Ht Hp [Hr Hb Hpa Hib Hip Hd Hm]. split; try done.
  - eapply Segment.rep_frame; [done|]. rewrite Hpa. by eapply touches_lookup.
  - by erewrite seg_limit_touches.
Qed.

Lemma synced_touches ps w w' p : touches ps w w' -> p ∉ ps -> synced w p -> synced w' p.
Proof. intros Ht Hp (f & Hf & E). exists f. split; [|done]. by erewrite touches_lookup. Qed.

Lemma sealed_ok_touches ps w w' s :
  touches ps w w' -> seg_path (segment s) ∉ ps -> idx_path (index s) ∉ ps ->
  sealed_ok w s -> sealed_ok w' s.
Proof.
  intros Ht H1 H2 [Hs Hi Hr]. split.
  - by eapply synced_touches.
  - by eapply synced_touches.
  - eapply SparseIndex.rep_touch; [done|]. by eapply touches_lookup.
Qed.

Lemma chain_touches ps w w' dir base ss cs :
  touches ps w w' ->
  (forall b, base <= b < base + len (concat cs) ->
     (segment_path dir b ∉ ps) /\ (index_path dir b ∉ ps)) ->
  chain w dir base ss cs -> chain w' dir base ss cs.
Proof.
  intros Ht. revert base ss. induction cs as [|c cs IH]; intros base [|s ss]; simpl; try done.
  intros Hps (Hs & Hse & Hpos & Hne & Hc). rewrite len_app in Hps.
  pose proof (len_nonneg (concat cs)). pose proof (len_nonneg c).
  pose proof (len_pos c Hne). destruct (Hps base ltac:(lia)) as [Hps1 Hps2].
  split; [|split; [|split; [done|split; [done|]]]].
  - by eapply seg_ok_touches.
  - eapply sealed_ok_touches; [done|by rewrite (sk_path _ _ _ _ _ Hs)|by rewrite (sk_ipath _ _ _ _ _ Hs)|done].
  - apply IH; [|done]. intros b Hb. apply Hps. lia.
Qed.

Lemma chain_snoc w dir base ss cs s c :
  chain w dir base ss cs -> seg_ok w dir (base + len (concat cs)) s c -> sealed_ok w s ->
  positions (index s) (frames c) (length c) -> c <> [] ->
  chain w dir base (ss ++ [s]) (cs ++ [c]).
Proof.
  revert base ss. induction cs as [|c' cs IH]; intros base [|s' ss]; simpl; try done.
  - rewrite len_nil, Z.add_0_r. done.
  - intros (Hs & Hse & Hpos & Hne & Hc) Hs' Hse' Hp' Hn'. do 4 (split; [done|]).
    apply IH; try done. rewrite len_app in Hs'. by rewrite Z.add_assoc in Hs'.
Qed.

Lemma chain_length w dir base ss cs : chain w dir base ss cs -> length ss = length cs.
Proof.
  revert base ss. induction cs as [|c cs IH]; intros base [|s ss]; simpl; try done.
  intros (_ & _ & _ & _ & Hc). f_equal. by eapply IH.
Qed.

Lemma chain_lookup w dir base ss cs i s :
  chain w dir base ss cs -> ss !! i = Some s ->
  exists c, cs !! i = Some c /\ seg_ok w dir (base + len (concat (take i cs))) s c
    /\ sealed_ok w s /\ positions (index s) (frames c) (length c) /\ c <> [].
Proof.
  revert base ss i. induction cs as [|c cs IH]; intros base [|s' ss] i; try done.
  intros (Hs & Hse & Hpos & Hne & Hc) Hi. destruct i as [|i]; simpl in *.
  - injection Hi as <-. exists c. rewrite len_nil, Z.add_0_r. done.
  - destruct (IH _ _ _ Hc Hi) as (c' & ? & ? & ?). exists c'.
    rewrite len_app, Z.add_assoc. done.
Qed.

Lemma snoc_ne {A} (l : list A) x : l <> l ++ [x].
Proof. intros E. apply (f_equal length) in E. rewrite length_app in E. simpl in E. lia. Qed.

Lemma parent_segment_path w dir b :
  nodes w !! dir = Some NDir -> parent_is_dir (segment_path dir b) w = true.
Proof.
  intros Hd. unfold parent_is_dir, segment_path. rewrite removelast_last.
  destruct dir; [done|]. by rewrite Hd.
Qed.

Lemma parent_index_path w dir b :
  nodes w !! dir = Some NDir -> parent_is_dir (index_path dir b) w = true.
Proof.
  intros Hd. unfold parent_is_dir, index_path. rewrite removelast_last.
  destruct dir; [done|]. by rewrite Hd.
Qed.

(** The two files of a segment, and that they belong to no other segment. *)
Definition seg_files (dir : path) (b : Z) : list path := [segment_path dir b; index_path dir b].

Lemma seg_files_other dir b n :
  is_u64 b -> is_u64 n -> b <> n ->
  (segment_path dir b ∉ seg_files dir n) /\ (index_path dir b ∉ seg_files dir n).
Proof.
  intros Hb Hn Hne. unfold seg_files. rewrite !not_elem_of_cons.
  split_and!; try apply not_elem_of_nil.
  - by intros E%segment_path_inj.
  - apply segment_index_path_ne.
  - intros E. symmetry in E. by apply segment_index_path_ne in E.
  - by intros E%index_path_inj.
Qed.

Lemma seg_files_not_dir dir b : dir ∉ seg_files dir b.
Proof.
  unfold seg_files. rewrite !not_elem_of_cons.
  split_and!; try apply not_elem_of_nil; apply snoc_ne.
Qed.

(** Changes to the files of one offset outside the chain keep the chain. *)
Lemma chain_seg_files w w' dir base ss cs n :
  touches (seg_files dir n) w w' -> is_u64 n -> 0 <= base ->
  base + len (concat cs) < 2 ^ 64 -> n < base \/ base + len (concat cs) <= n ->
  chain w dir base ss cs -> chain w' dir base ss cs.
Proof.
  intros Ht Hn Hb Hb' Hle. eapply chain_touches; [done|]. intros b Hbb. unfold is_u64 in *.
  apply seg_files_other; unfold is_u64; lia.
Qed.

Lemma all_bases_le start cs b : b ∈ all_bases start cs -> b <= start + len (concat cs).
Proof.
  unfold all_bases. revert start. induction cs as [|c cs IH]; intros start; simpl.
  - rewrite list_elem_of_singleton. lia.
  - rewrite elem_of_cons, len_app. pose proof (len_nonneg c). pose proof (len_nonneg (concat cs)).
    intros [->|Hb]; [lia|]. rewrite Z.add_assoc in Hb |- *. by apply IH.
Qed.

Lemma all_bases_last start cs : start + len (concat cs) ∈ all_bases start cs.
Proof. apply elem_of_app. right. by apply list_elem_of_singleton. Qed.

Lemma bases_of_snoc start cs c : bases_of start (cs ++ [c]) = all_bases start cs.
Proof.
  unfold all_bases. revert start. induction cs as [|c' cs IH]; intros start; simpl.
  - by rewrite len_nil, Z.add_0_r.
  - by rewrite IH, len_app, Z.add_assoc.
Qed.

Lemma segment_offset_of_segment_name b : is_u64 b -> segment_offset_of_name (fmt020 b +:+ ".log") = Some b.
Proof. intros Hb. unfold segment_offset_of_name. by rewrite strip_suffix_app, parse_fmt020. Qed.

Lemma segment_offset_of_index_name b : segment_offset_of_name (fmt020 b +:+ ".index") = None.
Proof. unfold segment_offset_of_name. by rewrite index_name_not_log. Qed.

(** No segment file is in the way of a later segment. *)
Lemma dir_ok_segment_fresh w dir bases b :
  dir_ok w dir bases -> (forall x, x ∈ bases -> x < b) -> is_u64 b ->
  nodes w !! segment_path dir b = None.
Proof.
  intros Hd Hlt Hb. destruct (nodes w !! segment_path dir b) as [n|] eqn:E; [|done].
  destruct (do_names _ _ _ Hd _ _ b E) as [_ Hin]; [by apply segment_offset_of_segment_name|].
  specialize (Hlt b Hin). lia.
Qed.

Lemma dir_ok_weaken w dir bases bases' : bases ⊆ bases' -> dir_ok w dir bases -> dir_ok w dir bases'.
Proof.
  intros Hs [H1 H2 H3 H4 H5]. split; try done.
  - intros name n b Hn E. destruct (H3 _ _ _ Hn E). auto.
  - intros b Hb. apply H4. auto.
Qed.

(** Writing the files of a segment of the log. *)
Lemma dir_ok_touches w w' dir bases n :
  touches (seg_files dir n) w w' -> is_u64 n -> n ∈ bases ->
  nodes w' !! index_path dir n <> Some NDir ->
  dir_ok w dir bases -> dir_ok w' dir bases.
Proof.
  intros Ht Hn Hin Hf [H1 H2 H3 H4 H5].
  assert (Hpre : forall p, p `prefix_of` dir -> p ∉ seg_files dir n).
  { intros p Hp Hi. unfold seg_files in Hi. rewrite !elem_of_cons in Hi.
    apply prefix_length in Hp. destruct Hi as [->|[->|Hi%elem_of_nil]]; [..|done];
      unfold segment_path, index_path in Hp; rewrite length_app in Hp; simpl in Hp; lia. }
  split.
  - intros p Hp Hne. rewrite (touches_lookup _ _ _ _ Ht) by by apply Hpre. by apply H1.
  - rewrite (touches_lookup _ _ _ _ Ht); [done|by apply Hpre].
  - intros name m b Hm E. destruct (decide (dir ++ [name] ∈ seg_files dir n)) as [Hi|Hi].
    + unfold seg_files in Hi. rewrite !elem_of_cons in Hi. unfold segment_path, index_path in Hi.
      destruct Hi as [Hi|[Hi|Hi%elem_of_nil]]; [..|done]; apply snoc_inj in Hi as [_ ->].
      * rewrite segment_offset_of_segment_name in E by done. injection E as <-. done.
      * by rewrite segment_offset_of_index_name in E.
    + rewrite (touches_lookup _ _ _ _ Ht) in Hm by done. by eapply H3.
  - intros b Hb Hlt. rewrite (touches_lookup _ _ _ _ Ht); [by apply H4|].
    pose proof (Hb n Hin). unfold is_u64 in Hn.
    by apply seg_files_other; unfold is_u64; try lia.
  - intros b Hbd. destruct (decide (index_path dir b = index_path dir n)) as [E|Hne]; [congruence|].
    apply (H5 b). rewrite <- Hbd. symmetry. eapply touches_lookup; [done|].
    unfold seg_files. rewrite !not_elem_of_cons. split_and!; [|done|apply not_elem_of_nil].
    intros E. symmetry in E. by apply segment_index_path_ne in E.
Qed.

(** Deleting the files of the first segment, perhaps not that of its index. *)
Lemma dir_ok_delete w w' dir n bases m :
  touches (seg_files dir n) w w' -> is_u64 n ->
  nodes w' !! segment_path dir n = None ->
  nodes w' !! index_path dir n = None \/ nodes w' !! index_path dir n = nodes w !! index_path dir n ->
  m ∈ bases -> n < m -> dir_ok w dir (n :: bases) -> dir_ok w' dir bases.
Proof.
  intros Ht Hn Hs Hi Hm Hlt [H1 H2 H3 H4 H5].
  assert (Hsame : forall p, p <> segment_path dir n -> p <> index_path dir n ->
                  nodes w' !! p = nodes w !! p).
  { intros p Hp1 Hp2. eapply touches_lookup; [done|]. unfold seg_files.
    rewrite !not_elem_of_cons. split_and!; [done|done|apply not_elem_of_nil]. }
  assert (Hpre : forall p, p `prefix_of` dir -> nodes w' !! p = nodes w !! p).
  { intros p Hp%prefix_length. apply Hsame; intros ->;
      unfold segment_path, index_path in Hp; rewrite length_app in Hp; simpl in Hp; lia. }
  split.
  - intros p Hp Hne. rewrite Hpre by done. by apply H1.
  - by rewrite Hpre.
  - intros name k b Hk E.
    destruct (decide (dir ++ [name] = segment_path dir n)) as [E2|Hne2]; [by rewrite E2, Hs in Hk|].
    assert (nodes w !! (dir ++ [name]) = Some k) as Hk'.
    { destruct (decide (dir ++ [name] = index_path dir n)) as [E1|Hne1]; [|by rewrite <- Hsame].
      rewrite E1 in *. destruct Hi as [Hi|Hi]; congruence. }
    destruct (H3 _ _ _ Hk' E) as [-> Hin]. split; [done|]. apply elem_of_cons in Hin as [->|]; done.
  - intros b Hb Hb'. assert (nodes w !! index_path dir b = None) as Hb0.
    { apply H4; [|done]. intros x [->|Hx]%elem_of_cons; [specialize (Hb m Hm); lia|by apply Hb]. }
    destruct (decide (index_path dir b = index_path dir n)) as [E|Hne]; [rewrite E in *; destruct Hi; congruence|].
    rewrite Hsame; [done| |done]. intros E. symmetry in E. by apply segment_index_path_ne in E.
  - intros b Hb. specialize (H5 b).
    destruct (decide (index_path dir b = index_path dir n)) as [E|Hne]; [rewrite E in *; destruct Hi; congruence|].
    rewrite Hsame in Hb; [done|by intros E; symmetry in E; apply segment_index_path_ne in E|done].
Qed.

(** [stays dir w w']: only direct children of [dir] changed. *)
Definition stays (dir : path) (w w' : World) : Prop :=
  faults w' = faults w /\ now_ms w' = now_ms w /\ read_max w' = read_max w
  /\ forall p, (forall x, p <> dir ++ [x]) -> nodes w' !! p = nodes w !! p.

Lemma stays_refl dir w : stays dir w w.
Proof. done. Qed.

Lemma stays_trans dir w1 w2 w3 : stays dir w1 w2 -> stays dir w2 w3 -> stays dir w1 w3.
Proof.
  intros (H1 & H2 & H3 & H4) (K1 & K2 & K3 & K4). do 3 (split; [congruence|]).
  intros p Hp. by rewrite K4, H4.
Qed.

Lemma stays_limit dir w w' : stays dir w w' -> seg_limit w' = seg_limit w.
Proof. intros (_ & _ & E & _). unfold seg_limit. by rewrite E. Qed.

Lemma touches_stays ps dir w w' :
  touches ps w w' -> (forall p, p ∈ ps -> exists x, p = dir ++ [x]) -> stays dir w w'.
Proof.
  intros (H1 & H2 & H3 & H4) Hps. do 3 (split; [done|]). intros p Hp. apply H4. intros Hin.
  destruct (Hps p Hin) as [x ->]. by apply (Hp x).
Qed.

Lemma seg_files_stays dir n w w' : touches (seg_files dir n) w w' -> stays dir w w'.
Proof.
  intros Ht. eapply touches_stays; [done|]. intros p Hp. unfold seg_files in Hp.
  rewrite !elem_of_cons in Hp. destruct Hp as [->|[->|Hp%elem_of_nil]]; [by eexists..|done].
Qed.

Lemma seg_ok_stays w w' dir base s c ps :
  seg_ok w dir base s c -> touches ps w w' -> ps ⊆ [seg_path (segment s); idx_path (index s)] ->
  stays dir w w'.
Proof.
  intros Hs Ht Hps. eapply (seg_files_stays _ base), touches_weaken; [|exact Ht].
  unfold seg_files. by rewrite <- (sk_path _ _ _ _ _ Hs), <- (sk_ipath _ _ _ _ _ Hs).
Qed.

(** ** Steps on the active segment *)
Lemma on_active_run {A} (m : KM (World * IndexedSegment) A) w w' (l : Log) sealed a a' o :
  segments l = sealed ++ [a] -> m (w, a) = (o, (w', a')) ->
  on_active m (w, l) = (o, (w', set_segments (sealed ++ [a']) l)).
Proof. intros Hs Hm. unfold on_active. by rewrite Hs, last_snoc, Hm, removelast_last. Qed.

Lemma on_seg_run {A} (m : KM (World * Segment.Segment) A) w w' s sg o :
  m (w, segment s) = (o, (w', sg)) -> on_seg m (w, s) = (o, (w', mkIndexed sg (index s))).
Proof. intros Hm. unfold on_seg, zoom. simpl. by rewrite Hm. Qed.

Lemma on_idx_run {A} (m : KM (World * SparseIndex.SparseIndex) A) w w' s ix o :
  m (w, index s) = (o, (w', ix)) -> on_idx m (w, s) = (o, (w', mkIndexed (segment s) ix)).
Proof. intros Hm. unfold on_idx, zoom. simpl. by rewrite Hm. Qed.

(** Changing the active segment's own two files keeps everything else. *)
Lemma core_update w w' dir start sealed a a' cs c c' k k' :
  core w dir start sealed a cs c k ->
  touches [seg_path (segment a); idx_path (index a)] w w' ->
  seg_ok w' dir (start + len (concat cs)) a' c' ->
  SparseIndex.rep w' (index a') -> positions (index a') (frames c') k' -> (k' <= length c')%nat ->
  start + len (concat cs) + len c' < 2 ^ 64 ->
  core w' dir start sealed a' cs c' k'.
Proof.
  intros [Hch Ha Hix Hp Hk Hst Hb Hd] Ht Ha' Hix' Hp' Hk' Hb'.
  pose proof (len_nonneg (concat cs)). pose proof (len_nonneg c).
  rewrite (sk_path _ _ _ _ _ Ha), (sk_ipath _ _ _ _ _ Ha) in Ht.
  fold (seg_files dir (start + len (concat cs))) in Ht.
  split; try done.
  - eapply chain_seg_files; [done|split; lia|done|lia|by right; lia|done].
  - eapply dir_ok_touches; [done|split; lia|apply all_bases_last| |done].
    destruct Hix' as [_ (f & Hf & _)]. rewrite (sk_ipath _ _ _ _ _ Ha') in Hf. by rewrite Hf.
Qed.

(** ** What is known to be on the device

    [secured w dir b bs]: the first bytes of the segment at [b] that are on the
    device are [bs], perhaps more. *)
Definition secured (w : World) (dir : path) (b : Z) (bs : list byte) : Prop :=
  exists f, nodes w !! segment_path dir b = Some (NFile f) /\ bs `prefix_of` f_synced f.

(** Nothing of a segment that was on the device is lost. *)
Definition secures (dir : path) (b : Z) (w w' : World) : Prop :=
  forall bs, secured w dir b bs -> secured w' dir b bs.

Lemma secures_refl dir b w : secures dir b w w.
Proof. by intros bs. Qed.

Lemma secures_trans dir b w1 w2 w3 : secures dir b w1 w2 -> secures dir b w2 w3 -> secures dir b w1 w3.
Proof. intros H1 H2 bs Hs. auto. Qed.

Lemma secures_same dir b w w' :
  nodes w' !! segment_path dir b = nodes w !! segment_path dir b -> secures dir b w w'.
Proof. intros E bs (f & Hf & Hp). exists f. by rewrite E. Qed.

(** ** Logs in different directories do not interfere *)
Definition apart (d1 d2 : path) : Prop := length d1 = length d2 /\ d1 <> d2.

(** Nothing changed that a log in [dir] looks at. *)
Definition unaffected (dir : path) (w w' : World) : Prop :=
  faults w' = faults w /\ now_ms w' = now_ms w /\ read_max w' = read_max w
  /\ (forall p, p `prefix_of` dir -> p <> [] -> nodes w' !! p = nodes w !! p)
  /\ nodes w' !! dir = nodes w !! dir
  /\ forall x, nodes w' !! (dir ++ [x]) = nodes w !! (dir ++ [x]).

(** [grows dir w w']: the directories on the way to [dir] are there in [w'];
    otherwise only direct children of [dir] changed. *)
Definition grows (dir : path) (w w' : World) : Prop :=
  faults w' = faults w /\ now_ms w' = now_ms w /\ read_max w' = read_max w
  /\ dirs_made w' dir
  /\ forall p, ~ (p `prefix_of` dir) \/ p = [] -> (forall x, p <> dir ++ [x]) ->
       nodes w' !! p = nodes w !! p.

Lemma snoc_not_prefix (d : path) x : ~ (d ++ [x]) `prefix_of` d.
Proof. intros Hp%prefix_length. rewrite length_app in Hp. simpl in Hp. lia. Qed.

Lemma apart_child d d' p x : apart d d' -> p `prefix_of` d' -> p <> d ++ [x].
Proof. intros [Hl _] Hp ->. apply prefix_length in Hp. rewrite length_app in Hp. simpl in Hp. lia. Qed.

Lemma stays_unaffected d d' w w' : stays d w w' -> apart d d' -> unaffected d' w w'.
Proof.
  intros (H1 & H2 & H3 & H4) Ha. do 3 (split; [done|]). split; [|split].
  - intros p Hp _. apply H4. intros x. by eapply apart_child.
  - apply H4. intros x. by eapply apart_child.
  - intros x. apply H4. intros y E%snoc_inj. destruct Ha, E. congruence.
Qed.

Lemma grows_child d d' w w' x :
  grows d w w' -> apart d d' -> nodes w' !! (d' ++ [x]) = nodes w !! (d' ++ [x]).
Proof.
  intros (_ & _ & _ & _ & Hs) [Hl Hne]. apply Hs.
  - left. intros Hp%prefix_length. rewrite length_app in Hp. simpl in Hp. lia.
  - intros y E%snoc_inj. destruct E. congruence.
Qed.

Lemma grows_unaffected d d' w w' :
  grows d w w' -> apart d d' -> d' <> [] -> dirs_made w d' -> unaffected d' w w'.
Proof.
  intros Hg Ha Hne Hd. pose proof Hg as (H1 & H2 & H3 & H4 & H5). do 3 (split; [done|]).
  assert (Hpre : forall p, p `prefix_of` d' -> p <> [] -> nodes w' !! p = nodes w !! p).
  { intros p Hp Hnp. destruct (decide (p `prefix_of` d)) as [Hpd|Hpd]; [by rewrite H4, Hd|].
    apply H5; [by left|]. intros x. by eapply apart_child. }
  split; [done|]. split; [by apply Hpre|]. intros x. by eapply grows_child.
Qed.

Lemma stays_grows d w w' : stays d w w' -> dirs_made w d -> grows d w w'.
Proof.
  intros (H1 & H2 & H3 & H4) Hd. do 3 (split; [done|]). split.
  - intros p Hp Hne. rewrite H4; [by apply Hd|]. intros x ->. by apply snoc_not_prefix in Hp.
  - intros p _ Hp. by apply H4.
Qed.

Lemma unaffected_touches d w w' :
  unaffected d w w' ->
  exists ps, touches ps w w' /\ (forall p, p `prefix_of` d -> p <> [] -> p ∉ ps) /\ (d ∉ ps)
    /\ forall x, d ++ [x] ∉ ps.
Proof.
  intros (H1 & H2 & H3 & H4 & H5 & H6).
  exists (filter (fun p => nodes w' !! p <> nodes w !! p) (elements (dom (nodes w) ∪ dom (nodes w')))).
  split; [|split; [|split]].
  - do 3 (split; [done|]). intros p Hp.
    destruct (decide (nodes w' !! p = nodes w !! p)) as [E|E]; [done|exfalso]. apply Hp, list_elem_of_filter.
    split; [done|]. apply elem_of_elements, elem_of_union. rewrite !elem_of_dom.
    destruct (nodes w !! p), (nodes w' !! p); [by eauto..|done].
  - intros p Hp Hne [Hin _]%list_elem_of_filter. by apply Hin, H4.
  - intros [Hin _]%list_elem_of_filter. by apply Hin.
  - intros x [Hin _]%list_elem_of_filter. by apply Hin.
Qed.

Lemma dir_ok_unaffected w w' d bases : unaffected d w w' -> dir_ok w d bases -> dir_ok w' d bases.
Proof.
  intros (_ & _ & _ & H4 & H5 & H6) [D1 D2 D3 D4 D5]. split.
  - intros p Hp Hne. rewrite H4 by done. by apply D1.
  - by rewrite H5.
  - intros name n b. rewrite H6. apply D3.
  - intros b. unfold index_path. rewrite H6. apply D4.
  - intros b. unfold index_path. rewrite H6. apply D5.
Qed.

Lemma log_rep_unaffected w w' (l : Log) start cs c :
  unaffected (dir l) w w' -> log_rep w l start cs c -> log_rep w' l start cs c.
Proof.
  intros Hu [(sealed & a & Hsegs & [Hch Ha Hix Hp Hk Hst Hb Hd]) Hn].
  destruct (unaffected_touches _ _ _ Hu) as (ps & Ht & Hpre & Hdir & Hchild).
  split; [|done]. exists sealed, a. split; [done|]. split; try done.
  - eapply chain_touches; [exact Ht| |done]. intros b _. split; apply Hchild.
  - eapply seg_ok_touches; [exact Ht|apply Hchild|done].
  - eapply SparseIndex.rep_touch; [done|]. eapply touches_lookup; [exact Ht|].
    rewrite (sk_ipath _ _ _ _ _ Ha). apply Hchild.
  - by eapply dir_ok_unaffected.
Qed.

Lemma log_rep_apart d w w' (l : Log) start cs c :
  stays d w w' -> apart d (dir l) -> log_rep w l start cs c -> log_rep w' l start cs c.
Proof. intros Hs Ha. apply log_rep_unaffected. by eapply stays_unaffected. Qed.

End facts.
