(* ===== verification/LogOps.v ===== *)
(** * What the log operations do

    Each operation of [Log] against the representation of [LogInv]: appends
    (single and batched, with and without rotation), reads, fsync and
    retention. *)

From S2P Require Import Prelude Bytes Error Compression LogRecord Fs Names Search.
From S2P Require Import Segment SparseIndex Log LogInv.

Section storable.
Context {B : Buf} {BL : BufLaws B} {H : Crc32} {HL : Crc32Laws H} {C : Codecs} {CL : CodecLaws C}.

(** The bytes a record is written as. *)
Definition wire (c : Compression) (r : record) : list byte := snd (encode_with r c []).

(** A record the log can store and read back: its timestamp is an [i64], its
    codec is in the build, a compressed value is within the decompression
    cap, and the frame fits its [u32] length field. *)
Definition storable (c : Compression) (r : record) : Prop :=
  is_i64 (timestamp_ms r) /\ is_available c = true
  /\ (c = CNone \/ len (value r) <= DECOMPRESS_MAX_SIZE)
  /\ len (wire c r) < 2 ^ 32 + 4.

Lemma storable_frame c r :
  is_i64 (timestamp_ms r) -> is_available c = true ->
  exists stored, stores c r stored /\ wire c r = frame c stored r
    /\ forall out, encode_with r c out = (Ok (len (wire c r)), out ++ wire c r).
Proof.
  intros Hts Hav.
  assert (exists stored, stores c r stored) as [stored Hs].
  { destruct c; [by eexists|by apply (compress_available _ (value r) [])..]. }
  assert (Hw : wire c r = frame c stored r) by (unfold wire; by rewrite (encode_with_run r c stored)).
  exists stored. split; [done|]. split; [done|]. intros out. rewrite Hw. by apply encode_with_run.
Qed.

Lemma storable_encode c r out :
  storable c r -> encode_with r c out = (Ok (len (wire c r)), out ++ wire c r).
Proof. intros (Hts & Hav & _). by destruct (storable_frame c r Hts Hav) as (? & _ & _ & E). Qed.

Lemma storable_decodes c r : storable c r -> decodes (wire c r, r).
Proof.
  intros (Hts & Hav & Hcap & Hlen).
  destruct (storable_frame c r Hts Hav) as (stored & Hs & Hw & _). rewrite Hw in Hlen.
  unfold decodes. simpl. rewrite Hw.
  pose proof (len_frame c stored r) as Hl. pose proof (key_part_pos (key r)).
  pose proof (len_nonneg stored). split.
  - intros E. rewrite E in Hl. rewrite len_nil in Hl. lia.
  - assert (fits stored r) by (split; [done|]; lia). split.
    2: { intros n Hn. destruct (decode_frame_prefix c stored r n) as (needed & s & E & _);
           [done|unfold len; lia|by eauto]. }
    intros rest. apply decode_frame_Ok; [done|].
    intros s. destruct c; [by rewrite Hs|exact (decompress_compress _ _ _ _ s Hs Hcap)..].
Qed.

Definition wires (c : Compression) (rs : list record) : list erec := map (fun r => (wire c r, r)) rs.

Lemma wires_decode c rs : Forall (storable c) rs -> Forall decodes (wires c rs).
Proof. induction 1; simpl; constructor; auto. by apply storable_decodes. Qed.

Lemma snd_wires c rs : map snd (wires c rs) = rs.
Proof. unfold wires. rewrite map_map. apply map_id. Qed.

Lemma length_wires c rs : length (wires c rs) = length rs.
Proof. apply length_map. Qed.

End storable.

Section ops.
Context {B : Buf} {BL : BufLaws B} {H : Crc32} {HL : Crc32Laws H} {C : Codecs} {CL : CodecLaws C}.
Implicit Types (w : World) (l : Log) (c : list erec) (cs : list (list erec)).

(** ** Writing to the active segment *)
Lemma core_write w l start cs c ps :
  quiet w -> log_core w l start cs c (length c) -> Forall decodes ps ->
  len (concat (frames c)) + len (concat (frames ps)) <= seg_limit w ->
  start + len (concat cs) + len c + len ps < 2 ^ 64 ->
  exists w' segs',
    on_active (on_seg (Segment.append (concat (frames ps)))) (w, l)
      = (Ok (len (concat (frames c))), (w', set_segments segs' l))
    /\ log_core w' (set_segments segs' l) start cs (c ++ ps) (length c)
    /\ quiet w' /\ stays (dir l) w w' /\ secures (dir l) (start + len (concat cs)) w w'.
Proof.
  intros Hq (sealed & a & Hsegs & Hco) Hps Hroom Hb. destruct (co_active _ _ _ _ _ _ _ _ Hco) as [Hr Hba Hpa Hib Hip Hd Hm].
  unfold seg_limit, u32_max in Hroom.
  destruct (segment_append_run w (segment a) _ (concat (frames ps)) Hq Hr ltac:(lia))
    as (f & sg & Hf & Hrun & Hrep & Hbase & Hpath).
  set (w' := set_nodes _ w) in *.
  assert (Ht : touches [seg_path (segment a); idx_path (index a)] w w').
  { apply touches_fst, touches_insert. }
  eexists w', _. split.
  { eapply on_active_run; [done|]. by apply on_seg_run. }
  rewrite <- concat_app, <- frames_app in Hrep.
  split; [|split; [done|split; [eapply seg_ok_stays; [by apply Hco|exact Ht|done]|]]].
  2: { intros bs (f' & Hf' & Hbs). rewrite <- Hpa, Hf in Hf'. injection Hf' as <-.
       eexists. rewrite <- Hpa. split; [apply lookup_insert_eq|done]. }
  exists sealed, (mkIndexed sg (index a)). split; [done|].
  eapply core_update; [done|done|..]; simpl.
  - split; simpl; try congruence.
    + by apply Forall_app.
    + rewrite frames_app, concat_app, len_app. erewrite seg_limit_touches by done.
      unfold seg_limit, u32_max. lia.
  - eapply SparseIndex.rep_touch; [apply Hco|].
    simpl. rewrite lookup_insert_ne; [done|]. rewrite Hpa, Hip. apply segment_index_path_ne.
  - rewrite frames_app. apply positions_app; [by rewrite length_frames|]. apply Hco.
  - rewrite length_app. lia.
  - rewrite len_app. lia.
Qed.

(** ** Telling the index about the next record *)
Lemma core_track w l start cs c k size :
  quiet w -> log_core w l start cs c k -> (k < length c)%nat ->
  exists w' segs',
    on_active (on_idx (SparseIndex.track_append (start + len (concat cs) + Z.of_nat k)
                         (pos_of (frames c) k) size)) (w, l)
      = (Ok tt, (w', set_segments segs' l))
    /\ log_core w' (set_segments segs' l) start cs c (S k)
    /\ quiet w' /\ stays (dir l) w w' /\ secures (dir l) (start + len (concat cs)) w w'.
Proof.
  intros Hq (sealed & a & Hsegs & Hco) Hk. pose proof Hco as [Hch Ha Hix Hp _ Hst Hbd _].
  pose proof (len_nonneg (concat cs)). pose proof (pos_of_nonneg (frames c) k).
  pose proof (pos_of_le (frames c) k) as Hple.
  pose proof (sk_max _ _ _ _ _ Ha) as Hm. unfold seg_limit, u32_max in Hm.
  pose proof (count_le_bytes _ (sk_dec _ _ _ _ _ Ha)) as Hcnt. unfold len in Hcnt at 1.
  unfold len in Hbd at 2.
  destruct (track_append_run w (index a) (frames c) k size Hq Hix Hp)
    as (w' & ix & Hrun & Hrep & Hpos & Ht & Hbase & Hpath);
    [rewrite (sk_ibase _ _ _ _ _ Ha); split; lia|split; lia|split; lia|
     rewrite (sk_ibase _ _ _ _ _ Ha); lia|].
  rewrite (sk_ibase _ _ _ _ _ Ha) in Hrun.
  assert (Ht' : touches [seg_path (segment a); idx_path (index a)] w w').
  { by apply touches_snd. }
  eexists w', _. split.
  { eapply on_active_run; [done|]. by apply on_idx_run. }
  split; [|split; [by eapply touches_quiet|split; [eapply seg_ok_stays; [exact Ha|exact Ht'|done]|]]].
  2: { eapply secures_same, touches_lookup; [exact Ht|]. rewrite (sk_ipath _ _ _ _ _ Ha).
       intros E%list_elem_of_singleton. by apply segment_index_path_ne in E. }
  exists sealed, (mkIndexed (segment a) ix). split; [done|].
  eapply core_update; [done|done|..]; simpl; try done.
  eapply seg_ok_touches; [exact Ht| |].
  - rewrite (sk_ipath _ _ _ _ _ Ha). intros E%list_elem_of_singleton.
    by apply segment_index_path_ne in E.
  - destruct Ha as [? ? ? Hib Hip ? ?]. split; simpl; congruence.
Qed.

(** ** Rotation *)

(** Fsync of the active segment, and then of its index. *)
Lemma core_sync_segment w l start cs c k :
  quiet w -> log_core w l start cs c k ->
  exists w' segs',
    on_active (on_seg Segment.sync) (w, l) = (Ok tt, (w', set_segments segs' l))
    /\ log_core w' (set_segments segs' l) start cs c k
    /\ synced w' (segment_path (dir l) (start + len (concat cs)))
    /\ quiet w' /\ stays (dir l) w w'.
Proof.
  intros Hq (sealed & a & Hsegs & Hco). pose proof Hco as [_ Ha Hix Hp Hk _ Hbd _].
  pose proof Ha as [Hr Hba Hpa Hib Hip Hd Hm].
  destruct (Segment.rep_node _ _ _ Hr) as (f & Hf & Hfd).
  destruct (segment_sync_run w (segment a) _ f Hq Hr Hf) as (sg & Hrun & Hrep & Hb1 & Hp1).
  set (w1 := set_nodes _ w) in *.
  assert (Ht1 : touches [seg_path (segment a)] w w1) by apply touches_insert.
  assert (Hix1 : SparseIndex.rep w1 (index a)).
  { eapply SparseIndex.rep_touch; [done|]. eapply touches_lookup; [done|].
    rewrite Hpa, Hip. intros E%list_elem_of_singleton. symmetry in E. by apply segment_index_path_ne in E. }
  exists w1, (sealed ++ [mkIndexed sg (index a)]). split.
  { eapply on_active_run; [done|]. by apply on_seg_run. }
  split; [|split; [rewrite <- Hpa; eexists; split; [apply lookup_insert_eq|done]|split; [done|]]].
  - exists sealed, (mkIndexed sg (index a)). split; [done|].
    eapply core_update; [done|by apply touches_fst|..]; simpl; try done.
    split; simpl; try congruence. exact Hm.
  - eapply (seg_ok_stays w w1); [exact Ha|by apply touches_fst|done].
Qed.

Lemma core_sync_index w l start cs c k :
  quiet w -> log_core w l start cs c k ->
  synced w (segment_path (dir l) (start + len (concat cs))) ->
  exists w' sealed a,
    on_active (on_idx SparseIndex.sync) (w, l) = (Ok tt, (w', set_segments (sealed ++ [a]) l))
    /\ core w' (dir l) start sealed a cs c k
    /\ synced w' (segment_path (dir l) (start + len (concat cs)))
    /\ synced w' (index_path (dir l) (start + len (concat cs)))
    /\ quiet w' /\ stays (dir l) w w'.
Proof.
  intros Hq (sealed & a & Hsegs & Hco) Hsy. pose proof Hco as [_ Ha Hix Hp Hk _ Hbd _].
  pose proof Ha as [Hr Hba Hpa Hib Hip Hd Hm]. pose proof Hix as [_ (f2 & Hf2 & _)].
  destruct (index_sync_run w (index a) f2 Hq Hix Hf2) as (ix & Hrun2 & Hrep2 & He2 & Hb2 & Hp2).
  set (w2 := set_nodes _ w) in *.
  assert (Ht2 : touches [idx_path (index a)] w w2) by apply touches_insert.
  assert (Hpath : segment_path (dir l) (start + len (concat cs)) ∉ [idx_path (index a)]).
  { rewrite Hip. intros E%list_elem_of_singleton. by apply segment_index_path_ne in E. }
  exists w2, sealed, (mkIndexed (segment a) ix). split.
  { erewrite on_active_run; [reflexivity|done|]. by apply on_idx_run. }
  split; [|split; [by eapply synced_touches|split; [|split; [done|]]]].
  - eapply core_update; [done|by apply touches_snd|..]; simpl; try done.
    + eapply seg_ok_touches; [exact Ht2|done|]. split; simpl; congruence || done.
    + destruct Hp as [Hp1' Hp2']. split; by rewrite He2.
  - rewrite <- Hip. eexists. split; [apply lookup_insert_eq|done].
  - eapply (seg_ok_stays w w2); [exact Ha|by apply touches_snd|done].
Qed.

Lemma core_sync w l start cs c :
  quiet w -> log_core w l start cs c (length c) ->
  exists w' segs' sealed a,
    Log.sync (w, l) = (Ok tt, (w', set_segments segs' l))
    /\ segs' = sealed ++ [a] /\ core w' (dir l) start sealed a cs c (length c)
    /\ synced w' (seg_path (segment a)) /\ synced w' (idx_path (index a))
    /\ quiet w' /\ stays (dir l) w w'.
Proof.
  intros Hq Hco.
  destruct (core_sync_segment w l start cs c _ Hq Hco) as (w1 & segs1 & H1 & Hco1 & Hs1 & Hq1 & Hst1).
  destruct (core_sync_index w1 _ start cs c _ Hq1 Hco1 Hs1) as (w2 & sealed & a & H2 & Hco2 & Hs2 & Hi2 & Hq2 & Hst2).
  exists w2, (sealed ++ [a]), sealed, a. pose proof (co_active _ _ _ _ _ _ _ _ Hco2) as Ha.
  rewrite (sk_path _ _ _ _ _ Ha), (sk_ipath _ _ _ _ _ Ha).
  split; [|split; [done|split; [done|split; [done|split; [done|split; [done|by eapply stays_trans]]]]]].
  unfold Log.sync. by rewrite (bind_Ok _ _ _ _ _ H1), H2.
Qed.

(** Rotation seals a non-empty active segment, fsynced, and starts an empty
    one at the next offset; the records stay. *)
(** The two files of a new segment. *)
Lemma create_pair_run w d n ivl :
  quiet w -> nodes w !! d = Some NDir -> nodes w !! segment_path d n = None -> nodes w !! index_path d n = None ->
  0 <= seg_limit w ->
  exists w1 w2 sg ix,
    Segment.create d n w = (Ok sg, w1) /\ SparseIndex.create d n ivl w1 = (Ok ix, w2) /\ quiet w2
    /\ touches (seg_files d n) w w2 /\ seg_ok w2 d n (mkIndexed sg ix) [] /\ SparseIndex.rep w2 ix
    /\ positions ix (frames []) 0 /\ nodes w2 !! index_path d n <> Some NDir.
Proof.
  intros Hq Hd Hs Hi Hlim.
  destruct (segment_create_run w d n Hq Hs (parent_segment_path _ _ _ Hd)) as (sg & Hc1 & Hr1 & Hb1 & Hp1).
  set (w1 := set_nodes _ w) in *.
  assert (Ht1 : touches [segment_path d n] w w1) by apply touches_insert.
  assert (Hi1 : nodes w1 !! index_path d n = None).
  { rewrite (touches_lookup _ _ _ _ Ht1); [done|].
    intros E%list_elem_of_singleton. symmetry in E. by apply segment_index_path_ne in E. }
  assert (Hd1 : nodes w1 !! d = Some NDir).
  { rewrite (touches_lookup _ _ _ _ Ht1); [done|]. intros E%list_elem_of_singleton. by apply snoc_ne in E. }
  destruct (index_create_run w1 d n ivl Hq Hi1 (parent_index_path _ _ _ Hd1)) as (ix & Hc2 & Hr2 & He2 & Hb2 & Hp2).
  set (w2 := set_nodes _ w1) in *.
  assert (Ht2 : touches [index_path d n] w1 w2) by apply touches_insert.
  assert (Ht : touches (seg_files d n) w w2).
  { eapply touches_trans; [by apply touches_fst|by apply touches_snd]. }
  exists w1, w2, sg, ix. do 4 (split; [done|]). split; [|split; [done|split]].
  - split; simpl; try done. eapply Segment.rep_frame; [done|]. rewrite Hp1, (touches_lookup _ _ _ _ Ht2); [done|].
    intros E%list_elem_of_singleton. by apply segment_index_path_ne in E.
  - split; rewrite He2; [done|]. by intros i j x y _ Hx.
  - destruct Hr2 as [_ (f & Hf & _)]. rewrite Hp2 in Hf. by rewrite Hf.
Qed.

Lemma rotate_run w l start cs c :
  quiet w -> log_rep w l start cs c -> c <> [] -> next_offset l < 2 ^ 64 ->
  exists w' segs',
    rotate_active_segment (w, l) = (Ok tt, (w', set_segments segs' l))
    /\ log_rep w' (set_segments segs' l) start (cs ++ [c]) []
    /\ quiet w' /\ stays (dir l) w w'.
Proof.
  intros Hq [Hcore Hn] Hne Hnb.
  destruct (core_sync w l start cs c Hq Hcore)
    as (w1 & segs1 & sealed & a & Hsync & -> & Hco & Hsy1 & Hsy2 & Hq1 & Hl1).
  destruct Hco as [Hch Ha Hix Hp Hk Hst Hbd Hd].
  pose proof (len_pos c Hne). pose proof (len_nonneg (concat cs)).
  unfold rotate_active_segment. unfold Log.sync in Hsync.
  apply bind_Ok_inv in Hsync as ([] & [w0 l0] & Hs1 & Hs2).
  rewrite (bind_Ok _ _ _ _ _ Hs1), (bind_Ok _ _ _ _ _ Hs2), bind_self. simpl.
  assert (Hlt : forall x, x ∈ all_bases start cs -> x < next_offset l).
  { intros x Hx%all_bases_le. lia. }
  destruct (create_pair_run w1 (dir l) (next_offset l) (index_interval (config l)) Hq1)
    as (w2 & w3 & sg & ix & Hc1 & Hc2 & Hq3 & Ht & Hok & Hri & Hpi & Hnd); [by eapply do_dir| | | |].
  { apply (dir_ok_segment_fresh _ _ _ _ Hd Hlt). split; lia. }
  { exact (do_fresh _ _ _ Hd _ Hlt Hnb). }
  { pose proof (sk_max _ _ _ _ _ Ha). pose proof (len_nonneg (concat (frames c))). lia. }
  erewrite bind_Ok; [|apply in_world_run; exact Hc1].
  erewrite bind_Ok; [|apply in_world_run; exact Hc2].
  eexists w3, _. split; [reflexivity|]. split; [|split; [done|by eapply stays_trans, seg_files_stays]].
  assert (Hcat : start + len (concat (cs ++ [c])) = next_offset l).
  { rewrite concat_app, len_app. simpl. rewrite app_nil_r. lia. }
  assert (Hch' : chain w3 (dir l) start (sealed ++ [a]) (cs ++ [c])).
  { eapply chain_seg_files; [done|split; lia|lia|lia|right; lia|by apply chain_snoc]. }
  split; [|rewrite len_nil, Z.add_0_r; by rewrite Hcat].
  exists (sealed ++ [a]), (mkIndexed sg ix). split; [done|].
  split; rewrite ?Hcat; try done.
  - rewrite len_nil. lia.
  - eapply dir_ok_touches; [exact Ht|split; lia| |done|].
    + rewrite <- Hcat. apply all_bases_last.
    + eapply dir_ok_weaken; [|exact Hd]. unfold all_bases at 2. rewrite bases_of_snoc.
      by apply list_subseteq_app_l.
Qed.

(** ** Appending *)

(** Whether a rotation is due does not depend on the files. *)
Lemma overflow_any w w' l n o :
  active_would_overflow n (w, l) = (o, (w, l)) -> active_would_overflow n (w', l) = (o, (w', l)).
Proof.
  unfold active_would_overflow. rewrite !bind_self.
  destruct (last (segments l)); unfold ret, panic; intros E; by injection E as <-.
Qed.

(** When a rotation is due. *)
Lemma overflow_cases w l start cs c additional :
  log_rep w l start cs c -> 0 <= additional < 2 ^ 63 ->
  exists b, active_would_overflow additional (w, l) = (Ok b, (w, l))
    /\ if b then c <> [] else c = [] \/ len (concat (frames c)) <= segment_size_threshold (config l).
Proof.
  intros [(sealed & a & Hs & Hco) _] Hadd. unfold active_would_overflow.
  rewrite bind_self, Hs, last_snoc. eexists. split; [reflexivity|].
  destruct (co_active _ _ _ _ _ _ _ _ Hco) as [Hr _ _ _ _ Hdec Hm].
  unfold Segment.would_overflow. rewrite (Segment.rep_size _ _ _ Hr).
  unfold seg_limit, u32_max in Hm. pose proof (len_nonneg (concat (frames c))).
  destruct (Z.eqb_spec (len (concat (frames c))) 0) as [Hz|Hz].
  - left. apply len_zero. pose proof (count_le_bytes c Hdec). pose proof (len_nonneg c). lia.
  - rewrite u64_add_small by lia. destruct (Z.ltb_spec (segment_size_threshold (config l)) (len (concat (frames c)) + additional)).
    + by intros ->.
    + right. lia.
Qed.

(** The rotation step both appends start with. *)
Lemma maybe_rotate_run w l start cs c additional :
  quiet w -> log_rep w l start cs c -> next_offset l < 2 ^ 64 -> 0 <= additional < 2 ^ 63 ->
  exists w' segs' cs' c',
    (let* should_rotate := active_would_overflow additional in
     (if should_rotate then rotate_active_segment else ret tt)) (w, l)
      = (Ok tt, (w', set_segments segs' l))
    /\ log_rep w' (set_segments segs' l) start cs' c'
    /\ concat cs' ++ c' = concat cs ++ c
    /\ (c' = [] \/ len (concat (frames c')) <= segment_size_threshold (config l))
    /\ quiet w' /\ stays (dir l) w w'.
Proof.
  intros Hq Hrep Hb Hadd.
  destruct (overflow_cases w l start cs c additional Hrep Hadd) as ([|] & Ho & Hc); rewrite (bind_Ok _ _ _ _ _ Ho).
  - destruct (rotate_run w l start cs c Hq Hrep Hc Hb) as (w' & segs' & Hr & Hrep' & Hq' & Hl').
    exists w', segs', (cs ++ [c]), []. split; [done|]. split; [done|].
    rewrite concat_app. simpl. rewrite !app_nil_r. split; [done|].
    split; [by left|done].
  - exists w, (segments l), cs, c. split; [by destruct l|]. by destruct l.
Qed.

(** The offsets of [n] records from [from] on. *)
Definition offsets_from (from : Z) (n : nat) : list Z := map (fun i => from + Z.of_nat i) (seq 0 n).

Lemma offsets_from_lookup from n i : (i < n)%nat -> offsets_from from n !! i = Some (from + Z.of_nat i).
Proof.
  intros Hi. unfold offsets_from. rewrite list_lookup_fmap.
  rewrite lookup_seq_lt by done. done.
Qed.

Lemma offsets_from_S from n : offsets_from from (S n) = from :: offsets_from (from + 1) n.
Proof.
  unfold offsets_from. simpl. f_equal; [lia|]. rewrite <- seq_shift, map_map.
  apply map_ext. intros. lia.
Qed.

Lemma length_offsets_from from n : length (offsets_from from n) = n.
Proof. unfold offsets_from. by rewrite length_map, length_seq. Qed.

Lemma encode_all_run cmp rs offs cur w l :
  Forall (storable cmp) rs -> 0 <= cur -> cur + len rs < 2 ^ 64 ->
  encode_all cmp rs offs cur (w, l) =
  (Ok (offs ++ offsets_from cur (length rs), cur + len rs),
   (w, set_actual_sizes (actual_sizes l ++ map len (frames (wires cmp rs)))
         (set_encode_buf (encode_buf l ++ concat (frames (wires cmp rs))) l))).
Proof.
  intros Hst. revert offs cur l. induction Hst as [|r rs Hr _ IH]; intros offs cur l H0 Hb; simpl.
  { rewrite !app_nil_r, len_nil, Z.add_0_r. by destruct l. }
  rewrite len_cons in *. pose proof (len_nonneg rs).
  erewrite bind_Ok.
  2: { unfold on_encode_buf, zoom. simpl. by rewrite storable_encode. }
  rewrite bind_modify_self, u64_add_small, IH by lia. simpl.
  rewrite offsets_from_S, <- !app_assoc, Z.add_assoc. done.
Qed.

(** The next of the sizes that are left to be told to the index. *)
Lemma next_size c k sz sizes :
  sz :: sizes = map len (frames (drop k c)) -> len (concat (frames c)) < 2 ^ 64 ->
  (k < length c)%nat /\ sizes = map len (frames (drop (S k) c))
  /\ u64_add (pos_of (frames c) k) sz = pos_of (frames c) (S k).
Proof.
  intros Hsz Hb.
  assert (Hk : (k < length c)%nat).
  { apply (f_equal length) in Hsz. rewrite !length_map, length_drop in Hsz. simpl in Hsz. lia. }
  destruct (lookup_lt_is_Some_2 c k Hk) as [[fr r] Hfr].
  rewrite (drop_S _ _ _ Hfr) in Hsz. simpl in Hsz. injection Hsz as -> Hsz.
  assert (Hf : frames c !! k = Some fr) by (by rewrite list_lookup_fmap, Hfr).
  pose proof (pos_of_S _ _ _ Hf). pose proof (pos_of_le (frames c) (S k)).
  pose proof (pos_of_nonneg (frames c) (S k)). do 2 (split; [done|]). by rewrite u64_add_small by lia.
Qed.

Lemma core_bytes w l start cs c k : log_core w l start cs c k -> len (concat (frames c)) < 2 ^ 64.
Proof.
  intros (se & a & _ & Hc). pose proof (sk_max _ _ _ _ _ (co_active _ _ _ _ _ _ _ _ Hc)) as Hm.
  unfold seg_limit, u32_max in Hm. lia.
Qed.

Lemma track_all_run offs sizes i w l start cs c k :
  quiet w -> log_core w l start cs c k ->
  sizes = map len (frames (drop k c)) ->
  (forall j, (j < length sizes)%nat ->
     offs !! (i + j)%nat = Some (start + len (concat cs) + Z.of_nat (k + j))) ->
  exists w' segs',
    track_all offs sizes i (pos_of (frames c) k) (w, l) = (Ok tt, (w', set_segments segs' l))
    /\ log_core w' (set_segments segs' l) start cs c (length c)
    /\ quiet w' /\ stays (dir l) w w'.
Proof.
  intros Hq Hco Hsz Ho. revert w l i k Hq Hco Hsz Ho.
  induction sizes as [|sz sizes IH]; intros w l i k Hq Hco Hsz Ho; simpl.
  { pose proof Hco as (se & a & _ & Hc). pose proof (co_k _ _ _ _ _ _ _ _ Hc).
    assert (k = length c).
    { apply (f_equal length) in Hsz. rewrite !length_map, length_drop in Hsz. simpl in Hsz. lia. }
    subst k. exists w, (segments l). by destruct l. }
  destruct (next_size c k sz sizes Hsz (core_bytes _ _ _ _ _ _ Hco)) as (Hk & Hsz' & HS).
  pose proof (Ho 0%nat ltac:(simpl; lia)) as Ho0. rewrite !Nat.add_0_r in Ho0. rewrite Ho0.
  destruct (core_track w l start cs c k sz Hq Hco Hk) as (w1 & segs1 & Hr & Hco1 & Hq1 & Hl1 & _).
  rewrite (bind_Ok _ _ _ _ _ Hr), HS. clear Hsz.
  destruct (IH w1 (set_segments segs1 l) (S i) (S k) Hq1 Hco1 Hsz') as (w2 & segs2 & Hr2 & Hco2 & Hq2 & Hl2).
  { intros j Hj. replace (S i + j)%nat with (i + S j)%nat by lia. rewrite (Ho (S j)) by (simpl; lia).
    f_equal. lia. }
  exists w2, segs2. split; [done|]. split; [done|]. split; [done|]. by eapply stays_trans.
Qed.

(** What a batch asks for when it decides about rotation. *)
Definition total_wire_size (rs : list record) : Z := foldr (fun r acc => wire_size r + acc) 0 rs.

(** A batch the log has room for: on top of a segment that is full up to the
    rotation threshold, it stays within what one read transfers. *)
Record room (w : World) (cfg : LogConfig) (rs : list record) : Prop := {
  rm_threshold : 0 <= segment_size_threshold cfg;
  rm_bytes : segment_size_threshold cfg + len (concat (frames (wires (compression cfg) rs))) <= seg_limit w;
  rm_wire : total_wire_size rs < 2 ^ 63;
}.

Lemma room_active w cfg rs c :
  room w cfg rs -> c = [] \/ len (concat (frames c)) <= segment_size_threshold cfg ->
  len (concat (frames c)) + len (concat (frames (wires (compression cfg) rs))) <= seg_limit w.
Proof.
  intros [Ht Hb _] [->|Hc]; [|lia]. simpl. pose proof (len_nonneg (concat (frames (wires (compression cfg) rs)))).
  change (len []) with 0. lia.
Qed.

Lemma wire_size_nonneg r : 0 <= wire_size r.
Proof.
  unfold wire_size. pose proof (key_part_pos (key r)). pose proof (len_nonneg (value r)). lia.
Qed.

Lemma total_wire_size_nonneg rs : 0 <= total_wire_size rs.
Proof. induction rs as [|r rs IH]; simpl; [lia|]. pose proof (wire_size_nonneg r). lia. Qed.

Lemma log_append_run w l start cs c r :
  quiet w -> log_rep w l start cs c -> storable (compression (config l)) r ->
  room w (config l) [r] -> next_offset l + 1 < 2 ^ 64 ->
  exists w' l' cs' c',
    Log.append r (w, l) = (Ok (next_offset l), (w', l'))
    /\ log_rep w' l' start cs' c'
    /\ concat cs' ++ c' = concat cs ++ c ++ wires (compression (config l)) [r]
    /\ config l' = config l /\ dir l' = dir l /\ quiet w' /\ stays (dir l) w w'.
Proof.
  intros Hq Hrep Hst Hroom Hb.
  pose proof (rm_wire _ _ _ Hroom) as Hws. simpl in Hws. pose proof (wire_size_nonneg r).
  destruct (maybe_rotate_run w l start cs c (wire_size r) Hq Hrep ltac:(lia) ltac:(lia))
    as (w1 & segs1 & cs1 & c1 & Hrot & Hrep1 & Hcat1 & Hlen1 & Hq1 & Hl1).
  pose proof (room_active w _ _ c1 Hroom Hlen1) as Hbytes. set (cmp := compression (config l)) in *.
  unfold Log.append. rewrite bind_self. fold cmp. cbn zeta. rewrite <- bind_bind, (bind_Ok _ _ _ _ _ Hrot).
  erewrite bind_Ok; [|unfold local; by rewrite (storable_encode cmp r [] Hst)]. cbn beta iota.
  destruct Hrep1 as [Hco1 Hn1]. simpl in Hn1.
  assert (Hw : frames (wires cmp [r]) = [wire cmp r]) by done. rewrite Hw in Hbytes.
  destruct (core_write w1 _ start cs1 c1 (wires cmp [r]) Hq1 Hco1) as (w2 & segs2 & Hrun & Hco2 & Hq2 & Hl2 & _);
    [by apply wires_decode, Forall_singleton|rewrite (stays_limit _ _ _ Hl1), Hw; lia|
     unfold len at 3; rewrite length_wires; simpl; lia|].
  rewrite Hw in Hrun. cbn [concat] in Hrun. rewrite app_nil_r in Hrun.
  rewrite (bind_Ok _ _ _ _ _ Hrun), bind_self. simpl next_offset.
  destruct (core_track w2 _ start cs1 (c1 ++ wires cmp [r]) (length c1) (len (wire cmp r)) Hq2 Hco2)
    as (w3 & segs3 & Hrun3 & Hco3 & Hq3 & Hl3 & _); [rewrite length_app; simpl; lia|].
  rewrite frames_app, pos_of_app_l, <- (length_frames c1), pos_of_all in Hrun3 by (by rewrite length_frames).
  rewrite length_frames in Hrun3. fold (len c1) in Hrun3. rewrite <- Hn1 in Hrun3.
  rewrite (bind_Ok _ _ _ _ _ Hrun3), bind_modify_self. simpl.
  do 4 eexists. split; [reflexivity|]. rewrite Hn1 in Hb |- *.
  pose proof (len_nonneg (concat cs1)). pose proof (len_nonneg c1).
  assert (0 <= start) by (by destruct Hco1 as (? & ? & _ & [])).
  split; [split|].
  - destruct Hco3 as (se & a & Hs & Hc). exists se, a. split; [done|].
    replace (length (c1 ++ wires cmp [r])) with (S (length c1)) by (rewrite length_app; simpl; lia). done.
  - simpl. rewrite u64_add_small by lia. rewrite len_app, len_cons, len_nil. lia.
  - split; [by rewrite app_assoc, Hcat1, <- app_assoc|]. split; [done|]. split; [done|].
    split; [done|]. eapply stays_trans; [exact Hl1|]. eapply stays_trans; [exact Hl2|exact Hl3].
Qed.

Lemma log_append_batch_run w l start cs c rs :
  quiet w -> log_rep w l start cs c -> Forall (storable (compression (config l))) rs ->
  room w (config l) rs -> next_offset l + len rs < 2 ^ 64 ->
  exists w' l' cs' c',
    Log.append_batch rs (w, l) = (Ok (offsets_from (next_offset l) (length rs)), (w', l'))
    /\ log_rep w' l' start cs' c'
    /\ concat cs' ++ c' = concat cs ++ c ++ wires (compression (config l)) rs
    /\ config l' = config l /\ dir l' = dir l /\ quiet w' /\ stays (dir l) w w'.
Proof.
  intros Hq Hrep Hst Hroom Hb. set (cmp := compression (config l)) in *.
  destruct rs as [|r0 rs0]; [|set (rs := r0 :: rs0) in *].
  { exists w, l, cs, c. simpl. by rewrite app_nil_r. }
  pose proof (len_nonneg rs).
  pose proof (rm_wire _ _ _ Hroom) as Hws. pose proof (total_wire_size_nonneg rs).
  destruct (maybe_rotate_run w l start cs c (total_wire_size rs) Hq Hrep ltac:(lia) ltac:(lia))
    as (w1 & segs1 & cs1 & c1 & Hrot & Hrep1 & Hcat1 & Hlen1 & Hq1 & Hl1).
  pose proof (room_active w _ _ c1 Hroom Hlen1) as Hbytes. fold cmp in Hbytes.
  unfold Log.append_batch, rs. cbv iota. change (r0 :: rs0) with rs. cbv zeta. clearbody rs.
  rewrite <- bind_bind, (bind_Ok _ _ _ _ _ Hrot), bind_self, bind_modify_self. simpl config.
  fold cmp. destruct Hrep1 as [Hco1 Hn1]. simpl in Hn1.
  assert (0 <= start) by (by destruct Hco1 as (? & ? & _ & [])).
  pose proof (len_nonneg (concat cs1)). pose proof (len_nonneg c1).
  erewrite bind_Ok; [|apply encode_all_run; [done|simpl; lia|simpl; lia]]. cbv iota beta.
  rewrite bind_self. simpl.
  set (l2 := set_actual_sizes _ _).
  assert (Hco2 : log_core w1 l2 start cs1 c1 (length c1)) by exact Hco1.
  destruct (core_write w1 l2 start cs1 c1 (wires cmp rs) Hq1 Hco2) as (w2 & segs2 & Hrun & Hco3 & Hq2 & Hl2 & _);
    [by apply wires_decode|rewrite (stays_limit _ _ _ Hl1); lia|unfold len at 3; rewrite length_wires; fold (len rs); lia|].
  rewrite (bind_Ok _ _ _ _ _ Hrun).
  destruct (track_all_run (offsets_from (next_offset l) (length rs)) (map len (frames (wires cmp rs)))
              0 w2 (set_segments segs2 l2) start cs1 (c1 ++ wires cmp rs) (length c1) Hq2 Hco3)
    as (w3 & segs3 & Hrun3 & Hco4 & Hq3 & Hl3).
  { by rewrite drop_app_length. }
  { intros j Hj. rewrite length_map, length_frames, length_wires in Hj. simpl.
    rewrite offsets_from_lookup by done. f_equal. unfold len in Hn1. unfold len. lia. }
  rewrite frames_app, pos_of_app_l, <- (length_frames c1), pos_of_all in Hrun3 by (by rewrite length_frames).
  rewrite (bind_Ok _ _ _ _ _ Hrun3), bind_modify_self. simpl.
  do 4 eexists. split; [reflexivity|]. split; [split; [exact Hco4|]|].
  - simpl. rewrite len_app. unfold len at 4. rewrite length_wires. fold (len rs). lia.
  - split; [by rewrite app_assoc, Hcat1, <- app_assoc|]. split; [done|]. split; [done|].
    split; [done|]. eapply stays_trans; [exact Hl1|]. eapply stays_trans; [exact Hl2|exact Hl3].
Qed.

End ops.
