(* ===== verification/LogRead.v ===== *)
(** * Reading from the log

    [read_record_at] returns the record at an offset the log holds, through
    the binary search over the segments, the sparse index and the scan; past
    the end it returns nothing, and below the first retained offset it also
    returns nothing. *)

From S2P Require Import Prelude Bytes Error Compression LogRecord Fs Names Search.
From S2P Require Import Segment SparseIndex Log LogInv.

Section read.
Context {B : Buf} {H : Crc32} {C : Codecs}.
Implicit Types (w : World) (l : Log) (s : IndexedSegment) (c : list erec) (cs : list (list erec)).

(** ** The segment that holds an offset *)

(** The offset where segment [i] starts. *)
Definition base_of (start : Z) (css : list (list erec)) (i : nat) : Z :=
  start + len (concat (take i css)).

Lemma base_of_S start css i ci :
  css !! i = Some ci -> base_of start css (S i) = base_of start css i + len ci.
Proof.
  intros Hi. unfold base_of. rewrite (take_S_r _ _ ci) by done. rewrite concat_app. simpl.
  rewrite app_nil_r. lens.
Qed.

Lemma base_of_mono start css i j : (i <= j)%nat -> base_of start css i <= base_of start css j.
Proof.
  intros Hij. unfold base_of. rewrite <- (take_drop i (take j css)), take_take, Nat.min_l by done.
  rewrite concat_app, len_app. pose proof (len_nonneg (concat (drop i (take j css)))). lia.
Qed.

(** Segment [i] of a log, with its contents. *)
Lemma log_rep_seg w l start cs c i s :
  log_rep w l start cs c -> segments l !! i = Some s ->
  exists ci, (cs ++ [c]) !! i = Some ci
    /\ seg_ok w (dir l) (base_of start (cs ++ [c]) i) s ci
    /\ positions (index s) (frames ci) (length ci)
    /\ ((S i < length (segments l))%nat -> ci <> []).
Proof.
  intros [(sealed & a & Hs & Hco) Hn] Hi. rewrite Hs in *.
  pose proof Hco as [Hch Ha _ Hp _ _ _ _].
  pose proof (chain_length _ _ _ _ _ Hch) as Hl. unfold base_of.
  apply lookup_app_Some in Hi as [Hi|[Hge Hi]].
  - destruct (chain_lookup _ _ _ _ _ _ _ Hch Hi) as (ci & Hci & Hok & _ & Hpos & Hne).
    pose proof (lookup_lt_Some _ _ _ Hi). exists ci.
    rewrite take_app_le by lia. split_and!; try done. by apply lookup_app_l_Some.
  - apply list_lookup_singleton_Some in Hi as [Hi0 <-].
    assert (i = length cs) as -> by lia. exists c.
    rewrite take_app_length, lookup_app_r, Nat.sub_diag by lia.
    split; [done|]. split; [done|]. split; [done|]. rewrite length_app. simpl. lia.
Qed.

Lemma log_rep_segments_length w l start cs c :
  log_rep w l start cs c -> length (segments l) = length (cs ++ [c]).
Proof.
  intros [(sealed & a & Hs & Hco) Hn]. rewrite Hs, !length_app.
  by rewrite (chain_length _ _ _ _ _ (co_chain _ _ _ _ _ _ _ _ Hco)).
Qed.

(** Bases along the segments, strictly increasing below the last. *)
Lemma log_rep_bases w l start cs c i j si sj :
  log_rep w l start cs c -> (i <= j)%nat -> segments l !! i = Some si -> segments l !! j = Some sj ->
  Segment.base_offset (segment si) <= Segment.base_offset (segment sj)
  /\ ((i < j)%nat -> Segment.base_offset (segment si) < Segment.base_offset (segment sj)).
Proof.
  intros Hrep Hij Hi Hj.
  destruct (log_rep_seg _ _ _ _ _ _ _ Hrep Hi) as (ci & Hci & [_ -> _ _ _ _ _] & _ & Hne).
  destruct (log_rep_seg _ _ _ _ _ _ _ Hrep Hj) as (cj & _ & [_ -> _ _ _ _ _] & _ & _).
  split; [by apply base_of_mono|]. intros Hlt.
  pose proof (lookup_lt_Some _ _ _ Hj).
  pose proof (len_pos ci ltac:(apply Hne; lia)).
  pose proof (base_of_mono start (cs ++ [c]) (S i) j ltac:(lia)) as Hm.
  rewrite (base_of_S _ _ _ _ Hci) in Hm. lia.
Qed.

Lemma find_segment_index_spec w l start cs c off i s :
  log_rep w l start cs c -> segments l !! i = Some s ->
  Segment.base_offset (segment s) <= off ->
  (forall j s', (i < j)%nat -> segments l !! j = Some s' -> off < Segment.base_offset (segment s')) ->
  find_segment_index l off = i.
Proof.
  intros Hrep Hi Hle Hgt. unfold find_segment_index.
  pose proof (binary_search_spec (fun s => Segment.base_offset (segment s)) (segments l) off) as Hbs.
  destruct binary_search_by_key as [k|m].
  - destruct Hbs as (x & Hx & Hk).
    { intros i1 i2 x y Hij Hx Hy. eapply (log_rep_bases w l); eauto. }
    destruct (Nat.lt_trichotomy k i) as [Hlt|[Heq|Hlt]]; [|done|].
    + destruct (log_rep_bases w l start cs c k i x s Hrep ltac:(lia) Hx Hi) as [_ K].
      specialize (K Hlt). lia.
    + specialize (Hgt k x Hlt Hx). lia.
  - destruct Hbs as (Hm & Hlo & Hhi).
    { intros i1 i2 x y Hij Hx Hy. eapply (log_rep_bases w l); eauto. }
    assert (i < m)%nat as Him.
    { destruct (Nat.lt_ge_cases i m) as [|Hge]; [done|]. specialize (Hhi i s Hge Hi). lia. }
    destruct m as [|m]; [lia|]. destruct (Nat.eq_dec i m) as [|Hne]; [done|].
    destruct (lookup_lt_is_Some_2 (segments l) m ltac:(lia)) as [x Hx].
    specialize (Hlo m x ltac:(lia) Hx). specialize (Hgt m x ltac:(lia) Hx). lia.
Qed.

Lemma find_segment_index_before w l start cs c off :
  log_rep w l start cs c -> off < start -> find_segment_index l off = 0%nat.
Proof.
  intros Hrep Hlt. unfold find_segment_index.
  pose proof (binary_search_spec (fun s => Segment.base_offset (segment s)) (segments l) off) as Hbs.
  assert (forall j s, segments l !! j = Some s -> off < Segment.base_offset (segment s)) as Hall.
  { intros j s Hj. destruct (log_rep_seg _ _ _ _ _ _ _ Hrep Hj) as (? & _ & [_ -> _ _ _ _ _] & _).
    unfold base_of. pose proof (len_nonneg (concat (take j (cs ++ [c])))). lia. }
  destruct binary_search_by_key as [k|m].
  - destruct Hbs as (x & Hx & Hk); [|specialize (Hall _ _ Hx); lia].
    intros i1 i2 x y Hij Hx Hy. eapply (log_rep_bases w l); eauto.
  - destruct Hbs as (Hm & Hlo & _).
    { intros i1 i2 x y Hij Hx Hy. eapply (log_rep_bases w l); eauto. }
    destruct m as [|m]; [done|].
    destruct (lookup_lt_is_Some_2 (segments l) m ltac:(lia)) as [x Hx].
    specialize (Hlo m x ltac:(lia) Hx). specialize (Hall m x Hx). lia.
Qed.

(** ** The scan *)
Lemma scan_to_run ps off cur fuel :
  Forall decodes ps -> (length ps < fuel)%nat -> 0 <= cur -> cur + len ps < 2 ^ 64 ->
  scan_to fuel off cur (concat (frames ps)) =
    Ok (if off <? cur then None else snd <$> ps !! Z.to_nat (off - cur)).
Proof.
  intros Hd. revert off cur fuel. induction Hd as [|[fr r] ps (Hne & Hdec & _) _ IH];
    intros off cur fuel Hf H0 Hb; (destruct fuel as [|fuel]; [simpl in Hf; lia|]).
  { simpl. by destruct (off <? cur). }
  rewrite len_cons in Hb. simpl in Hf, Hne, Hdec. pose proof (len_nonneg ps). simpl.
  destruct (fr ++ concat (frames ps)) as [|b0 bs] eqn:E.
  { apply app_eq_nil in E as [-> _]. done. }
  rewrite <- E, Hdec. destruct (Z.eqb_spec cur off) as [->|Hco].
  { by rewrite Z.ltb_irrefl, Z.sub_diag. }
  rewrite u64_add_small, IH by lia.
  destruct (Z.ltb_spec off cur).
  { by rewrite (proj2 (Z.ltb_lt _ _)) by lia. }
  rewrite (proj2 (Z.ltb_ge _ _)) by lia.
  replace (Z.to_nat (off - cur)) with (S (Z.to_nat (off - (cur + 1)))) by lia. done.
Qed.

(** ** A read moves only file cursors *)
Lemma chain_insert w dir base ss cs i s s' :
  chain w dir base ss cs -> ss !! i = Some s ->
  (forall b c, seg_ok w dir b s c -> seg_ok w dir b s' c) -> index s' = index s ->
  seg_path (segment s') = seg_path (segment s) ->
  chain w dir base (<[i := s']> ss) cs.
Proof.
  intros Hch Hi Hok Hix Hpa. revert base i cs Hch Hi.
  induction ss as [|x ss IH]; intros base [|i] [|c cs]; simpl; try done.
  - intros (Hx & [? ? ?] & Hp & Hne & Hc) E. injection E as ->. split; [by apply Hok|].
    split; [|by rewrite Hix]. split; rewrite ?Hpa, ?Hix; done.
  - intros (Hx & Hse & Hp & Hne & Hc) E. do 4 (split; [done|]). by apply IH.
Qed.

Lemma log_rep_insert w l start cs c i s s' :
  log_rep w l start cs c -> segments l !! i = Some s ->
  (forall b c, seg_ok w (dir l) b s c -> seg_ok w (dir l) b s' c) -> index s' = index s ->
  seg_path (segment s') = seg_path (segment s) ->
  log_rep w (set_segments (<[i := s']> (segments l)) l) start cs c.
Proof.
  intros [(sealed & a & Hs & Hco) Hn] Hi Hok Hix Hpa. split; [|done]. rewrite Hs in Hi |- *.
  destruct Hco as [Hch Ha Hixr Hp Hk Hst Hb Hd].
  apply lookup_app_Some in Hi as [Hi|[Hge Hi]].
  - exists (<[i := s']> sealed), a. split.
    { simpl. by rewrite insert_app_l by (by eapply lookup_lt_Some). }
    split; try done. by eapply chain_insert.
  - apply list_lookup_singleton_Some in Hi as [Hi0 <-].
    assert (i = length sealed) as -> by lia.
    exists sealed, s'. split.
    { simpl. rewrite insert_app_r_alt by lia. by rewrite Nat.sub_diag. }
    split; try done; [by apply Hok|by rewrite Hix..].
Qed.

(** Reading moves the cached file position of a segment, nothing else. *)
Lemma log_rep_moved w l start cs c i s sg data :
  log_rep w l start cs c -> segments l !! i = Some s ->
  Segment.rep w (segment s) data -> Segment.rep w sg data ->
  Segment.base_offset sg = Segment.base_offset (segment s) -> seg_path sg = seg_path (segment s) ->
  log_rep w (set_segments (<[i := mkIndexed sg (index s)]> (segments l)) l) start cs c.
Proof.
  intros Hrep Hi Hr Hr' Hb Hp. eapply log_rep_insert; [done|done| |done|done].
  intros b c0 [Hr0 ? ? ? ? ? ?]. split; simpl; try done; try congruence.
  destruct (Segment.rep_node _ _ _ Hr0) as (f0 & Hf0 & <-). destruct (Segment.rep_node _ _ _ Hr) as (f1 & Hf1 & Hd1).
  rewrite Hf0 in Hf1. injection Hf1 as <-. by rewrite Hd1.
Qed.

(** A segment ends before the log does. *)
Lemma base_of_end start cs c i ci :
  (cs ++ [c]) !! i = Some ci ->
  start <= base_of start (cs ++ [c]) i
  /\ base_of start (cs ++ [c]) i + len ci <= start + len (concat cs) + len c.
Proof.
  intros Hci. split; [unfold base_of; pose proof (len_nonneg (concat (take i (cs ++ [c])))); lia|].
  rewrite <- (base_of_S _ _ _ _ Hci).
  pose proof (base_of_mono start (cs ++ [c]) (S i) (length (cs ++ [c]))
    ltac:(apply lookup_lt_Some in Hci; lia)) as Hm.
  unfold base_of in Hm at 2. rewrite firstn_all, concat_app, len_app in Hm. simpl in Hm.
  rewrite app_nil_r in Hm. lia.
Qed.

Lemma on_nth_run {A} (m : KM (World * IndexedSegment) A) w w' l i s s' o :
  segments l !! i = Some s -> m (w, s) = (o, (w', s')) ->
  on_nth i m (w, l) = (o, (w', set_segments (<[i := s']> (segments l)) l)).
Proof. intros Hs Hm. unfold on_nth. by rewrite Hs, Hm. Qed.

(** Where the index sends a read: the start of a record of the segment, at or
    before the one wanted, or the start of the segment. *)
Lemma segment_lookup {S} w dir base s ci off (st : S) :
  seg_ok w dir base s ci -> positions (index s) (frames ci) (length ci) ->
  0 <= base -> base + len ci < 2 ^ 64 -> is_u64 off ->
  exists k : nat, (k <= length ci)%nat
    /\ lookup (index s) off st = (Ok (pos_of (frames ci) k, base + Z.of_nat k), st)
    /\ (base + Z.of_nat k <= off \/ k = 0%nat).
Proof.
  intros [_ _ _ Hb2 _ _ _] Hpos H0 Hb Hoff. unfold len, is_u64 in *.
  destruct (Z.ltb_spec off base).
  - exists 0%nat. rewrite lookup_before by lia. split; [lia|]. split; [|by right].
    by rewrite Hb2, Z.add_0_r.
  - destruct (lookup_spec (index s) (frames ci) (length ci) off st) as (k & Hk & Hl & Hle);
      rewrite ?Hb2; [done|split; lia|lia|split; lia|lia|].
    exists k. split; [done|]. rewrite Hb2 in Hl, Hle. split; [done|by left].
Qed.

(** No record starts at the end of a segment. *)
Lemma pos_of_end ci k :
  Forall decodes ci -> len (concat (frames ci)) <= pos_of (frames ci) k -> drop k ci = [].
Proof.
  intros Hd Hle. pose proof (drop_pos_of (frames ci) k) as Hdr.
  rewrite drop_ge, skipn_map in Hdr by (unfold len in *; lia).
  assert (Forall decodes (drop k ci)) as Hdd by by apply Forall_drop.
  destruct (drop k ci) as [|[fr r] ?]; [done|exfalso]. simpl in Hdr. symmetry in Hdr.
  apply app_eq_nil in Hdr as [-> _]. by apply Forall_inv in Hdd as [? _].
Qed.

(** What one segment answers: a scan from the position the index gives. *)
Lemma read_segment_run w l start cs c i s ci off :
  quiet w -> log_rep w l start cs c -> off < next_offset l ->
  segments l !! i = Some s -> find_segment_index l off = i ->
  (cs ++ [c]) !! i = Some ci -> 0 <= off ->
  exists l',
    Log.read_record_at off (w, l) =
      (Ok (if off <? base_of start (cs ++ [c]) i then None
           else snd <$> ci !! Z.to_nat (off - base_of start (cs ++ [c]) i)), (w, l'))
    /\ log_rep w l' start cs c /\ dir l' = dir l /\ config l' = config l.
Proof.
  intros Hq Hrep Hlt Hi Hfi Hci H0.
  destruct (log_rep_seg _ _ _ _ _ _ _ Hrep Hi) as (ci' & Hci' & Hok & Hpos & _).
  rewrite Hci in Hci'. injection Hci' as <-.
  pose proof Hrep as [(sealed & a & _ & Hco) Hn].
  pose proof (co_bound _ _ _ _ _ _ _ _ Hco) as Hbd. pose proof (co_start _ _ _ _ _ _ _ _ Hco) as Hst.
  destruct (base_of_end start cs c i ci Hci) as [Hbase Hend].
  set (base := base_of start (cs ++ [c]) i) in *.
  pose proof (len_nonneg ci).
  destruct (segment_lookup _ _ _ _ _ off (w, l) Hok Hpos) as (k & Hk & Hlk & Hko); [lia|lia|split; lia|].
  destruct Hok as [Hr Hb1 Hp1 Hb2 Hp2 Hdec Hmax].
  unfold Log.read_record_at. rewrite bind_self, (proj2 (Z.leb_gt _ _)), Hfi, Hi by done.
  rewrite (bind_Ok _ _ _ _ _ Hlk).
  cbv zeta beta iota.
  pose proof (pos_of_le (frames ci) k). pose proof (pos_of_nonneg (frames ci) k).
  assert (Hres : (if off <? base + Z.of_nat k then None
       else snd <$> drop k ci !! Z.to_nat (off - (base + Z.of_nat k))) =
      (if off <? base then None else snd <$> ci !! Z.to_nat (off - base))).
  { destruct (Z.ltb_spec off base).
    - by rewrite (proj2 (Z.ltb_lt _ _)) by lia.
    - rewrite (proj2 (Z.ltb_ge _ _)) by lia. rewrite lookup_drop. do 2 f_equal. lia. }
  rewrite <- Hres. rewrite (Segment.rep_size _ _ _ Hr). unfold u64_saturating_sub.
  destruct (Z.eqb_spec (Z.max 0 (len (concat (frames ci)) - pos_of (frames ci) k)) 0) as [Hz|Hz].
  - (* the position is the end of the segment: no record left *)
    exists l. rewrite pos_of_end by (done || lia). split; [by destruct (off <? _)|done].
  - rewrite Z.max_r in Hz |- * by lia.
    destruct (Segment.read_at_run w (segment s) _ (pos_of (frames ci) k)
      (len (concat (frames ci)) - pos_of (frames ci) k) Hq Hr ltac:(lia))
      as (sg & Hrun & Hr' & Hb' & Hp').
    unfold seg_limit in Hmax. rewrite drop_pos_of, Z.min_l, take_ge in Hrun.
    2: { pose proof (drop_pos_of (frames ci) k) as Hd. apply (f_equal len) in Hd.
         rewrite len_drop in Hd by lia. unfold len in *. lia. }
    2: lia.
    erewrite bind_Ok; [|eapply on_nth_run; [done|by apply on_seg_run]].
    exists (set_segments (<[i := mkIndexed sg (index s)]> (segments l)) l). split; [|split; [|done]].
    + rewrite skipn_map, scan_to_run; [reflexivity|..].
      * by apply Forall_drop.
      * pose proof (count_le_bytes (drop k ci) ltac:(by apply Forall_drop)). unfold len in *. lia.
      * lia.
      * rewrite len_drop by (unfold len; lia). lia.
    + by eapply log_rep_moved.
Qed.

(** ** The contract of [read_record_at] *)
Lemma concat_lookup {A} (ls : list (list A)) n x :
  concat ls !! n = Some x ->
  exists i li j, ls !! i = Some li /\ li !! j = Some x /\ n = (length (concat (take i ls)) + j)%nat.
Proof.
  revert n. induction ls as [|l0 ls IH]; intros n Hn; [done|]. simpl in Hn.
  apply lookup_app_Some in Hn as [Hn|[Hge Hn]].
  - by exists 0%nat, l0, n.
  - destruct (IH _ Hn) as (i & li & j & Hi & Hj & Heq). exists (S i), li, j.
    split; [done|]. split; [done|]. simpl. rewrite length_app. lia.
Qed.

Lemma read_record_at_run w l start cs c off :
  quiet w -> log_rep w l start cs c -> 0 <= off ->
  exists l',
    Log.read_record_at off (w, l) =
      (Ok (if off <? start then None else records_of cs c !! Z.to_nat (off - start)), (w, l'))
    /\ log_rep w l' start cs c /\ dir l' = dir l /\ config l' = config l.
Proof.
  intros Hq Hrep H0. pose proof Hrep as [(sealed & a & Hs & Hco) Hn].
  pose proof (co_start _ _ _ _ _ _ _ _ Hco) as Hst. unfold records_of.
  assert (Hcat : concat (cs ++ [c]) = concat cs ++ c) by (rewrite concat_app; simpl; by rewrite app_nil_r).
  pose proof (log_rep_segments_length _ _ _ _ _ Hrep) as Hlen.
  destruct (Z.ltb_spec off start) as [Hlt|Hge].
  { destruct (lookup_lt_is_Some_2 (segments l) 0) as [s Hi]; [rewrite Hlen, length_app; simpl; lia|].
    destruct (log_rep_seg _ _ _ _ _ _ _ Hrep Hi) as (ci & Hci & _ & _ & _).
    pose proof (len_nonneg (concat cs)). pose proof (len_nonneg c).
    destruct (read_segment_run w l start cs c 0 s ci off) as (l' & Hrun & ?);
      [done|done|lia|done|by eapply find_segment_index_before|done|done|].
    exists l'. rewrite Hrun. unfold base_of. simpl. rewrite len_nil, Z.add_0_r.
    by rewrite (proj2 (Z.ltb_lt _ _)). }
  destruct (Z.ltb_spec off (next_offset l)) as [Hlt|Hend].
  2: { exists l. unfold Log.read_record_at. rewrite bind_self, (proj2 (Z.leb_le _ _)) by done.
       split; [|done]. rewrite lookup_ge_None_2; [done|].
       rewrite length_map, length_app. unfold len in Hn. lia. }
  destruct (lookup_lt_is_Some_2 (concat (cs ++ [c])) (Z.to_nat (off - start))) as [x Hx].
  { rewrite Hcat, length_app. unfold len in Hn. lia. }
  destruct (concat_lookup _ _ _ Hx) as (i & ci & j & Hci & Hj & Heq).
  destruct (lookup_lt_is_Some_2 (segments l) i) as [s Hi].
  { rewrite Hlen. by eapply lookup_lt_Some. }
  destruct (log_rep_seg _ _ _ _ _ _ _ Hrep Hi) as (ci' & Hci' & Hok & _ & _).
  rewrite Hci in Hci'. injection Hci' as <-.
  pose proof (lookup_lt_Some _ _ _ Hj) as Hjl.
  assert (Hoff : off = base_of start (cs ++ [c]) i + Z.of_nat j) by (unfold base_of, len; lia).
  assert (Hf : find_segment_index l off = i).
  { eapply find_segment_index_spec; [done|done| |].
    - rewrite (sk_base _ _ _ _ _ Hok). lia.
    - intros j' s' Hj' Hs'.
      destruct (log_rep_seg _ _ _ _ _ _ _ Hrep Hs') as (? & _ & [_ -> _ _ _ _ _] & _).
      pose proof (base_of_mono start (cs ++ [c]) (S i) j' ltac:(lia)) as Hm.
      rewrite (base_of_S _ _ _ _ Hci) in Hm. unfold len in Hm. lia. }
  destruct (read_segment_run w l start cs c i s ci off) as (l' & Hrun & ?); try done.
  exists l'. rewrite Hrun. split; [|done]. do 2 f_equal.
  rewrite <- Hcat, list_lookup_fmap, Hx. rewrite (proj2 (Z.ltb_ge _ _)) by lia.
  replace (Z.to_nat (off - base_of start (cs ++ [c]) i)) with j by lia. by rewrite Hj.
Qed.

End read.
