(* ===== verification/LogRetain.v ===== *)
(** * Retention

    [apply_retention] deletes whole segments, oldest first and never the
    active one: first those older than the age limit, then as many as the
    size limit asks for.  The records of the kept segments stay, at their
    offsets. *)

From S2P Require Import Prelude Bytes Error Compression LogRecord Fs Names Search.
From S2P Require Import Segment SparseIndex Log LogInv LogRead.

(** How many segments each policy deletes, from the modification times and
    the sizes of the segments, the active one last. *)
Fixpoint age_count (cutoff : Z) (mtimes : list Z) : nat :=
  match mtimes with
  | m :: (_ :: _) as rest => if m <? cutoff then S (age_count cutoff rest) else 0
  | _ => 0
  end.

Fixpoint sum (l : list Z) : Z :=
  match l with [] => 0 | x :: l' => x + sum l' end.

Fixpoint size_count (total : list Z -> Z) (max_bytes : Z) (sizes : list Z) : nat :=
  match sizes with
  | s :: (_ :: _) as rest => if max_bytes <? total sizes then S (size_count total max_bytes rest) else 0
  | _ => 0
  end.

(** The sum as [u64] computes it. *)
Definition u64_sum (l : list Z) : Z := foldr u64_add 0 l.

Definition mtime_of (w : World) (s : IndexedSegment) : Z :=
  match nodes w !! seg_path (segment s) with
  | Some (NFile f) => as_i64 (Z.max 0 (f_mtime f))
  | _ => 0
  end.

Lemma age_count_cons cutoff m m' ms :
  age_count cutoff (m :: m' :: ms) = if m <? cutoff then S (age_count cutoff (m' :: ms)) else 0%nat.
Proof. done. Qed.

Lemma size_count_cons total mx s s' ss :
  size_count total mx (s :: s' :: ss) =
  if mx <? total (s :: s' :: ss) then S (size_count total mx (s' :: ss)) else 0%nat.
Proof. done. Qed.

Lemma age_count_lt cutoff ms : ms <> [] -> (age_count cutoff ms < length ms)%nat.
Proof.
  induction ms as [|m [|m' ms] IH]; intros Hne; [done|simpl; lia|].
  rewrite age_count_cons. specialize (IH ltac:(done)). zcase; cbn [length] in *; lia.
Qed.

Lemma size_count_lt total mx ss : ss <> [] -> (size_count total mx ss < length ss)%nat.
Proof.
  induction ss as [|s [|s' ss] IH]; intros Hne; [done|simpl; lia|].
  rewrite size_count_cons. specialize (IH ltac:(done)). zcase; cbn [length] in *; lia.
Qed.

(** After the size policy the partition is within its limit, unless only the
    active segment is left. *)
Lemma size_count_enough mx ss :
  ss <> [] -> let rest := drop (size_count sum mx ss) ss in length rest = 1%nat \/ sum rest <= mx.
Proof.
  intros Hne. induction ss as [|s [|s' ss] IH]; [done|by left|].
  rewrite size_count_cons. zcase; [by apply IH|by right].
Qed.

(** It deletes no segment more than that takes. *)
Lemma size_count_needed mx ss n : size_count sum mx ss = S n -> mx < sum (drop n ss).
Proof.
  revert n. induction ss as [|s [|s' ss] IH]; intros n; [done..|].
  rewrite size_count_cons. zcase; [|done]. intros [= E]. destruct n as [|n]; [done|]. by apply IH.
Qed.

Lemma sum_nonneg l : Forall (fun x => 0 <= x) l -> 0 <= sum l.
Proof. induction 1; simpl; lia. Qed.

Lemma u64_sum_small l : Forall (fun x => 0 <= x) l -> sum l < 2 ^ 64 -> u64_sum l = sum l.
Proof.
  unfold u64_sum. induction 1 as [|x l Hx Hl IH]; simpl; [done|]. intros Hb.
  pose proof (sum_nonneg l Hl). rewrite IH by lia. apply u64_add_small. lia.
Qed.

Lemma size_count_u64 mx l :
  Forall (fun x => 0 <= x) l -> sum l < 2 ^ 64 -> size_count u64_sum mx l = size_count sum mx l.
Proof.
  intros Hl. induction Hl as [|x l Hx Hl IH]; [done|]. destruct l as [|y l]; [done|]. intros Hb.
  rewrite !size_count_cons, u64_sum_small by (by try constructor).
  rewrite IH; [done|]. cbn [sum] in *. lia.
Qed.

Section retain.
Context {B : Buf} {H : Crc32} {C : Codecs}.
Implicit Types (w : World) (l : Log) (s : IndexedSegment) (c : list erec) (cs : list (list erec)).

Definition seg_size s : Z := Segment.size (segment s).

Lemma total_size_sizes l : total_size l = u64_sum (map seg_size (segments l)).
Proof.
  unfold total_size, u64_sum. induction (segments l) as [|s ss IH]; simpl; [done|]. by rewrite IH.
Qed.

Lemma remove_file_if_present_run w p :
  quiet w -> nodes w !! p <> Some NDir ->
  exists w', remove_file_if_present p w = (Ok tt, w') /\ touches [p] w w'
    /\ nodes w' !! p = None.
Proof.
  intros Hq Hnd. unfold remove_file_if_present, attempt.
  destruct (nodes w !! p) as [[f|]|] eqn:Hp; [|done|].
  - exists (set_nodes (delete p) w). unfold bind. rewrite (remove_file_run w Hq p f Hp).
    split; [done|]. split; [apply touches_delete|]. apply lookup_delete_eq.
  - exists w. unfold bind. rewrite (remove_file_missing w Hq p Hp). split; [done|].
    split; [apply touches_refl|done].
Qed.

(** The log without its first segment, of whose files that of the index may be
    left. *)
Lemma log_rep_behead w w' l start cs c c0 s ss :
  log_rep w l start (c0 :: cs) c -> segments l = s :: ss ->
  touches (seg_files (dir l) start) w w' -> nodes w' !! segment_path (dir l) start = None ->
  nodes w' !! index_path (dir l) start = None
    \/ nodes w' !! index_path (dir l) start = nodes w !! index_path (dir l) start ->
  log_rep w' (set_segments ss l) (start + len c0) cs c.
Proof.
  intros [(sealed & a & Hs & Hco) Hn] Hss Ht Hseg Hix0. destruct Hco as [Hch Ha Hix Hp Hk Hst Hb Hd].
  destruct sealed as [|s0 sealed]; [done|]. rewrite Hs in Hss. injection Hss as -> <-.
  destruct Hch as (_ & _ & _ & Hne & Hch).
  simpl concat in *. rewrite len_app in *. pose proof (len_pos c0 Hne).
  pose proof (len_nonneg (concat cs)). pose proof (len_nonneg c).
  assert (forall b, start < b < 2 ^ 64 -> (segment_path (dir l) b ∉ seg_files (dir l) start)
                     /\ (index_path (dir l) b ∉ seg_files (dir l) start)) as Hother.
  { intros b Hbb. apply seg_files_other; [split; lia..|lia]. }
  split; [|simpl; lia].
  exists sealed, a. split; [done|]. simpl dir.
  split; try done; rewrite <- ?Z.add_assoc; try done; try lia.
  - eapply chain_touches; [done| |done]. intros b Hbb. apply Hother. lia.
  - eapply seg_ok_touches; [done| |done]. apply Hother. lia.
  - eapply SparseIndex.rep_touch; [done|]. eapply touches_lookup; [done|].
    rewrite (sk_ipath _ _ _ _ _ Ha). apply Hother. lia.
  - eapply (dir_ok_delete w w' _ start _ (start + len c0 + len (concat cs))); try done.
    + split; lia.
    + apply all_bases_last.
    + lia.
    + unfold all_bases in Hd |- *. simpl in Hd. by rewrite len_app, Z.add_assoc in Hd.
Qed.

Lemma log_rep_first w l start cs c c0 :
  log_rep w l start (c0 :: cs) c ->
  exists s ss f, segments l = s :: ss /\ Segment.seg_path (segment s) = segment_path (dir l) start
    /\ nodes w !! segment_path (dir l) start = Some (NFile f)
    /\ nodes w !! index_path (dir l) start <> Some NDir.
Proof.
  intros [(sealed & a & Hs & Hco) _]. destruct Hco as [Hch _ _ _ _ _ _ Hd].
  destruct sealed as [|s sealed]; [done|]. destruct Hch as ([Hr _ Hps _ _ _ _] & _).
  destruct (Segment.rep_node _ _ _ Hr) as (f & Hf & _). rewrite Hps in Hf.
  exists s, (sealed ++ [a]), f. split; [done|]. split; [done|]. split; [done|]. eapply do_nodir, Hd.
Qed.

Lemma log_rep_starts w l start cs c c0 : log_rep w l start (c0 :: cs) c -> 0 <= start < start + len c0.
Proof.
  intros [(sealed & ? & ? & [Hch _ _ _ _ ? _ _]) _]. destruct sealed; [done|].
  destruct Hch as (_ & _ & _ & Hne & _). pose proof (len_pos c0 Hne). lia.
Qed.

Lemma delete_oldest_run w l start cs c c0 :
  quiet w -> log_rep w l start (c0 :: cs) c ->
  exists w' l' s ss,
    delete_oldest_segment (w, l) = (Ok tt, (w', l'))
    /\ segments l = s :: ss /\ l' = set_segments ss l
    /\ log_rep w' l' (start + len c0) cs c /\ quiet w'
    /\ touches (seg_files (dir l) start) w w'.
Proof.
  intros Hq Hrep. destruct (log_rep_first _ _ _ _ _ _ Hrep) as (s & ss & f & Hs & Hps & Hf & Hnd).
  unfold delete_oldest_segment. rewrite bind_self, Hs. cbv iota beta zeta.
  rewrite bind_modify_self, Hps, with_extension_segment_path.
  set (w1 := set_nodes (delete (segment_path (dir l) start)) w).
  assert (Ht1 : touches [segment_path (dir l) start] w w1) by apply touches_delete.
  destruct (remove_file_if_present_run w1 (index_path (dir l) start) Hq) as (w2 & Hrun2 & Ht2 & Hnone).
  { simpl. by rewrite lookup_delete_ne by apply segment_index_path_ne. }
  assert (Ht : touches (seg_files (dir l) start) w w2).
  { eapply touches_trans; [by apply touches_fst|by apply touches_snd]. }
  exists w2, (set_segments ss l), s, ss. split.
  { erewrite bind_Ok.
    2: { apply in_world_run. apply io_Ok. by apply (remove_file_run w Hq _ f). }
    by apply in_world_run. }
  split; [done|]. split; [done|]. split; [|split; [by eapply touches_quiet|done]].
  eapply log_rep_behead; [done|done|done| |by left].
  rewrite (touches_lookup _ _ _ _ Ht2); [simpl; apply lookup_delete_eq|].
  intros E%list_elem_of_singleton. by apply segment_index_path_ne in E.
Qed.

Lemma segments_two w l start c0 cs c :
  log_rep w l start (c0 :: cs) c -> exists s s' ss, segments l = s :: s' :: ss.
Proof.
  intros Hrep. pose proof (log_rep_segments_length _ _ _ _ _ Hrep) as E.
  destruct (segments l) as [|s [|s' ss]]; simpl in E; rewrite ?length_app in E; simpl in E; try lia.
  eauto.
Qed.

Lemma segments_one w l start c :
  log_rep w l start [] c -> exists s, segments l = [s].
Proof.
  intros Hrep. pose proof (log_rep_segments_length _ _ _ _ _ Hrep) as E.
  destruct (segments l) as [|s [|]]; simpl in E; try lia. eauto.
Qed.

Lemma mtime_run w l start cs c s ss :
  quiet w -> log_rep w l start cs c -> segments l = s :: ss ->
  on_nth 0 (on_seg Segment.last_modified_ms) (w, l) = (Ok (mtime_of w s), (w, l)).
Proof.
  intros Hq Hrep Hs. assert (segments l !! 0%nat = Some s) as Hi by by rewrite Hs.
  destruct (log_rep_seg _ _ _ _ _ _ _ Hrep Hi) as (ci & _ & [Hr _ _ _ _ _ _] & _).
  destruct (Segment.rep_node _ _ _ Hr) as (f & Hf & _).
  erewrite on_nth_run; [|done|].
  2: { apply on_seg_run. unfold Segment.last_modified_ms. rewrite bind_self.
       erewrite bind_Ok; [reflexivity|]. apply in_world_run, io_Ok. by apply metadata_run. }
  unfold mtime_of. rewrite Hf. rewrite list_insert_id by (by destruct s). by destruct l.
Qed.

(** The segments of a log are not the files of a segment below its start. *)
Lemma log_rep_above w l start cs c n i s :
  log_rep w l start cs c -> 0 <= n < start -> segments l !! i = Some s ->
  Segment.seg_path (segment s) ∉ seg_files (dir l) n.
Proof.
  intros Hrep Hn Hi. destruct (log_rep_seg _ _ _ _ _ _ _ Hrep Hi) as (ci & Hci & Hok & _).
  pose proof (base_of_mono start (cs ++ [c]) 0 i ltac:(lia)) as Hlo.
  pose proof (base_of_mono start (cs ++ [c]) i (length (cs ++ [c]))
    ltac:(apply lookup_lt_Some in Hci; lia)) as Hhi.
  unfold base_of in Hlo at 1, Hhi at 2. simpl in Hlo. rewrite len_nil in Hlo.
  rewrite firstn_all, concat_app, len_app in Hhi. simpl in Hhi. rewrite app_nil_r in Hhi.
  destruct Hrep as [(? & ? & _ & Hco) _]. pose proof (co_bound _ _ _ _ _ _ _ _ Hco).
  rewrite (sk_path _ _ _ _ _ Hok). apply seg_files_other; [split; lia..|lia].
Qed.

Lemma mtime_of_touches w w' l start cs c n :
  log_rep w' l start cs c -> touches (seg_files (dir l) n) w w' -> 0 <= n < start ->
  map (mtime_of w') (segments l) = map (mtime_of w) (segments l).
Proof.
  intros Hrep Ht Hn. apply map_ext_in. intros s Hs%list_elem_of_In.
  apply list_elem_of_lookup in Hs as [i Hi]. unfold mtime_of.
  erewrite touches_lookup; [done|exact Ht|]. by eapply log_rep_above.
Qed.

(** ** The two loops

    Both delete the oldest segment as long as there are two and a policy, a
    test on a measure of the segments, says so. *)
Section retain_loop.
Context (body : Z -> KM (World * Log) (Z + Z)) (more : list Z -> bool) (count : list Z -> nat)
  (measure : World -> IndexedSegment -> Z).
Context (body_one : forall d w l s, segments l = [s] -> body d (w, l) = (Ok (inr d), (w, l))).
Context (body_more : forall d w l start cs c, quiet w -> log_rep w l start cs c -> cs <> [] ->
  body d (w, l) = (if more (map (measure w) (segments l))
                   then bind delete_oldest_segment (fun _ => ret (inl (d + 1)))
                   else ret (inr d)) (w, l)).
Context (count_one : forall x, count [x] = 0%nat).
Context (count_more : forall x y r,
  count (x :: y :: r) = if more (x :: y :: r) then S (count (y :: r)) else 0%nat).
Context (measure_touches : forall w w' l start cs c n,
  log_rep w' l start cs c -> touches (seg_files (dir l) n) w w' -> 0 <= n < start ->
  map (measure w') (segments l) = map (measure w) (segments l)).

Lemma retain_loop_run w l start cs c d fuel :
  quiet w -> log_rep w l start cs c -> (length cs < fuel)%nat ->
  let n := count (map (measure w) (segments l)) in
  exists w' l',
    loop fuel body d (w, l) = (Ok (d + Z.of_nat n), (w', l'))
    /\ l' = set_segments (drop n (segments l)) l
    /\ log_rep w' l' (start + len (concat (take n cs))) (drop n cs) c /\ quiet w'
    /\ stays (dir l) w w'.
Proof using All.
  revert w l start d fuel. induction cs as [|c0 cs IH]; intros w l start d fuel Hq Hrep Hf.
  - destruct (segments_one _ _ _ _ Hrep) as [s Hs]. destruct fuel as [|fuel]; [lia|].
    exists w, l. rewrite Hs. simpl map. rewrite count_one. simpl take. simpl concat.
    rewrite (len_nil (A := erec)), !Z.add_0_r. rewrite drop_0.
    split; [by eapply loop_exit, body_one|]. rewrite <- Hs. by destruct l.
  - destruct (segments_two _ _ _ _ _ _ Hrep) as (s & s' & ss & Hs).
    destruct fuel as [|fuel]; [lia|]. simpl in Hf.
    pose proof (body_more d w l start (c0 :: cs) c Hq Hrep ltac:(done)) as Hbody.
    rewrite Hs in *. cbn [map] in *. rewrite count_more.
    destruct (more _) eqn:Hm; [|exists w, l].
    + destruct (delete_oldest_run _ _ _ _ _ _ Hq Hrep)
        as (w1 & l1 & s1 & ss1 & Hdel & Hs1 & -> & Hrep1 & Hq1 & Ht1).
      rewrite Hs in Hs1. injection Hs1 as <- <-.
      pose proof (log_rep_starts _ _ _ _ _ _ Hrep) as Hst.
      destruct (IH w1 _ (start + len c0) (d + 1) fuel Hq1 Hrep1 ltac:(lia))
        as (w2 & l2 & Hrun & Hl2 & Hrep2 & Hq2 & Hsl2).
      rewrite (measure_touches w w1 _ _ _ _ start Hrep1 Ht1 Hst) in Hrun, Hl2, Hrep2.
      simpl segments in *. cbn [map] in *.
      exists w2, l2. pose proof (seg_files_stays _ _ _ _ Ht1) as Hsl1.
      split; [|split; [|split; [|split; [done|by eapply stays_trans]]]].
      * rewrite (loop_next _ _ _ (d + 1) _ (w1, set_segments (s' :: ss) l)).
        { rewrite Hrun. do 2 f_equal. lia. }
        rewrite Hbody, (bind_Ok _ _ _ _ _ Hdel). done.
      * by rewrite Hl2.
      * simpl. by rewrite len_app, Z.add_assoc.
    + simpl. rewrite (len_nil (A := erec)), !Z.add_0_r. split; [by apply loop_exit|].
      rewrite <- Hs. by destruct l.
Qed.

End retain_loop.

Lemma retain_by_age_run cutoff w l start cs c d fuel :
  quiet w -> log_rep w l start cs c -> (length cs < fuel)%nat ->
  let n := age_count cutoff (map (mtime_of w) (segments l)) in
  exists w' l',
    loop fuel (retain_by_age cutoff) d (w, l) = (Ok (d + Z.of_nat n), (w', l'))
    /\ l' = set_segments (drop n (segments l)) l
    /\ log_rep w' l' (start + len (concat (take n cs))) (drop n cs) c /\ quiet w'
    /\ stays (dir l) w w'.
Proof.
  apply (retain_loop_run (retain_by_age cutoff)
           (fun ms => match ms with m :: _ => m <? cutoff | [] => false end)
           (age_count cutoff) mtime_of); try done.
  - intros d' w' l' s Hs. unfold retain_by_age. by rewrite bind_self, Hs.
  - intros d' w' l' start' cs' c' Hq Hrep Hne. destruct cs' as [|c0 cs']; [done|].
    destruct (segments_two _ _ _ _ _ _ Hrep) as (s & s' & ss & Hs).
    unfold retain_by_age. rewrite bind_self, Hs, !len_cons.
    rewrite (proj2 (Z.ltb_lt _ _)) by (pose proof (len_nonneg ss); lia).
    rewrite (bind_Ok _ _ _ _ _ (mtime_run w' l' start' _ c' s _ Hq Hrep Hs)).
    simpl. by destruct (_ <? _).
  - intros. by eapply mtime_of_touches.
Qed.

Lemma retain_by_size_run mx w l start cs c d fuel :
  quiet w -> log_rep w l start cs c -> (length cs < fuel)%nat ->
  let n := size_count u64_sum mx (map seg_size (segments l)) in
  exists w' l',
    loop fuel (retain_by_size mx) d (w, l) = (Ok (d + Z.of_nat n), (w', l'))
    /\ l' = set_segments (drop n (segments l)) l
    /\ log_rep w' l' (start + len (concat (take n cs))) (drop n cs) c /\ quiet w'
    /\ stays (dir l) w w'.
Proof.
  apply (retain_loop_run (retain_by_size mx) (fun ss => mx <? u64_sum ss)
           (size_count u64_sum mx) (fun _ => seg_size)); try done.
  - intros d' w' l' s Hs. unfold retain_by_size. by rewrite bind_self, Hs.
  - intros d' w' l' start' cs' c' Hq Hrep Hne. destruct cs' as [|c0 cs']; [done|].
    destruct (segments_two _ _ _ _ _ _ Hrep) as (s & s' & ss & Hs).
    unfold retain_by_size. rewrite bind_self, total_size_sizes, Hs, !len_cons.
    rewrite (proj2 (Z.ltb_lt _ _)) by (pose proof (len_nonneg ss); lia). simpl andb.
    by destruct (_ <? _).
Qed.

(** [total_size] where it does not wrap. *)
Lemma total_size_sum (ss : list IndexedSegment) l :
  Forall (fun x => 0 <= x) (map seg_size ss) -> sum (map seg_size ss) < 2 ^ 64 ->
  total_size (set_segments ss l) = sum (map seg_size ss).
Proof. intros Hn Hb. rewrite total_size_sizes. by apply u64_sum_small. Qed.

Lemma seg_size_nonneg w l start cs c :
  log_rep w l start cs c -> Forall (fun x => 0 <= x) (map seg_size (segments l)).
Proof.
  intros Hrep. apply Forall_map, Forall_lookup_2. intros i s Hi.
  destruct (log_rep_seg _ _ _ _ _ _ _ Hrep Hi) as (ci & _ & [Hr _ _ _ _ _ _] & _).
  simpl. unfold seg_size. rewrite (Segment.rep_size _ _ _ Hr). apply len_nonneg.
Qed.

(** ** The contract of [apply_retention] *)
Definition age_deletes (w : World) (l : Log) : nat :=
  match max_segment_age (config l) with
  | Some max_age =>
      let cutoff := i64_saturating_sub (as_i64 (Z.max 0 (now_ms w))) (as_i64 (as_millis max_age)) in
      age_count cutoff (map (mtime_of w) (segments l))
  | None => 0
  end.

Definition size_deletes (l : Log) (ss : list IndexedSegment) : nat :=
  match max_partition_bytes (config l) with
  | Some max_bytes => size_count u64_sum max_bytes (map seg_size ss)
  | None => 0
  end.

Lemma drop_nonneg_sum (xs : list Z) n : Forall (fun x => 0 <= x) xs -> sum (drop n xs) <= sum xs.
Proof.
  intros Hl. revert n. induction Hl as [|x xs Hx Hl IH]; intros [|n]; simpl; try lia.
  specialize (IH n). lia.
Qed.

(** The active segment is never deleted. *)
Lemma deletes_le w l start cs c :
  log_rep w l start cs c ->
  (age_deletes w l + size_deletes l (drop (age_deletes w l) (segments l)) <= length cs)%nat.
Proof.
  intros Hrep. pose proof (log_rep_segments_length _ _ _ _ _ Hrep) as Hl.
  rewrite length_app in Hl. simpl in Hl.
  assert (age_deletes w l <= length cs)%nat as Ha.
  { unfold age_deletes. destruct (max_segment_age (config l)); [|lia]. cbv zeta.
    match goal with |- (age_count ?c ?ms <= _)%nat => pose proof (age_count_lt c ms) as Hlt end.
    rewrite length_map, Hl in Hlt. destruct (segments l); [simpl in Hl; lia|].
    specialize (Hlt ltac:(done)). lia. }
  set (a := age_deletes w l) in *. unfold size_deletes.
  destruct (max_partition_bytes (config l)) as [mx|]; [|lia].
  pose proof (size_count_lt u64_sum mx (map seg_size (drop a (segments l)))) as Hlt.
  rewrite length_map, length_drop in Hlt.
  assert (length (drop a (segments l)) <> 0%nat) as Hne by (rewrite length_drop; lia).
  destruct (drop a (segments l)); [done|]. specialize (Hlt ltac:(done)). lia.
Qed.

Lemma apply_retention_run w l start cs c :
  quiet w -> log_rep w l start cs c ->
  let a := age_deletes w l in
  let n := (a + size_deletes l (drop a (segments l)))%nat in
  exists w' l',
    apply_retention (w, l) = (Ok (Z.of_nat n), (w', l'))
    /\ l' = set_segments (drop n (segments l)) l
    /\ log_rep w' l' (start + len (concat (take n cs))) (drop n cs) c /\ quiet w'
    /\ stays (dir l) w w'.
Proof.
  intros Hq Hrep. cbn zeta. set (a := age_deletes w l).
  assert (exists w1 l1,
    match max_segment_age (config l) with
     | Some max_age =>
         let max_age_ms := as_i64 (as_millis max_age) in
         let cutoff := i64_saturating_sub (as_i64 (Z.max 0 (now_ms w))) max_age_ms in
         loop (S (length (segments l))) (retain_by_age cutoff) 0
     | None => ret 0
     end (w, l) = (Ok (Z.of_nat a), (w1, l1))
    /\ l1 = set_segments (drop a (segments l)) l
    /\ log_rep w1 l1 (start + len (concat (take a cs))) (drop a cs) c /\ quiet w1
    /\ stays (dir l) w w1)
    as (w1 & l1 & Hrun1 & Hl1 & Hrep1 & Hq1 & Hsl1).
  { unfold a, age_deletes. destruct (max_segment_age (config l)) as [age|].
    - apply retain_by_age_run; [done|done|].
      rewrite (log_rep_segments_length _ _ _ _ _ Hrep), length_app. simpl. lia.
    - exists w, l. simpl. rewrite (len_nil (A := erec)), Z.add_0_r, !drop_0.
      split; [done|]. split; [by destruct l|done]. }
  unfold apply_retention. rewrite (bind_Ok _ _ _ (as_i64 (Z.max 0 (now_ms w))) (w, l)) by done.
  rewrite bind_self. erewrite bind_Ok; [|exact Hrun1].
  unfold size_deletes. subst l1. cbn [config set_segments] in *.
  destruct (max_partition_bytes (config l)) as [mx|].
  - edestruct (retain_by_size_run mx w1 _ _ _ _ (Z.of_nat a) (S (length (segments l))) Hq1 Hrep1)
      as (w2 & l2 & Hrun2 & -> & Hrep2 & Hq2 & Hsl2).
    { rewrite (log_rep_segments_length _ _ _ _ _ Hrep), length_app, length_drop. simpl. lia. }
    cbn [segments set_segments] in *. rewrite Nat2Z.inj_add. rewrite !drop_drop in Hrep2.
    exists w2. eexists. split; [exact Hrun2|].
    rewrite drop_drop. split; [done|]. split; [|split; [done|by eapply stays_trans]].
    rewrite <- take_take_drop, concat_app, len_app, Z.add_assoc. exact Hrep2.
  - exists w1. eexists. rewrite Nat.add_0_r. done.
Qed.

End retain.
