(* ===== verification/LogRecover.v ===== *)
(** * Opening a log

    [Log.open] on the files a log left behind, the end of the active segment
    possibly torn: it finds the segments by name, reopens the sealed ones,
    cuts the torn tail off the active one and rebuilds its index. *)

From S2P Require Import Prelude Bytes Error Compression LogRecord Fs Names Search.
From S2P Require Import Segment SparseIndex Log LogInv LogOps LogRetain.

(** ** Finding the segments *)
Lemma NoDup_omap_inj {A B} (f : A -> option B) (l : list A) :
  NoDup l -> (forall x y z, x ∈ l -> y ∈ l -> f x = Some z -> f y = Some z -> x = y) ->
  NoDup (omap f l).
Proof.
  induction 1 as [|x l Hx Hl IH]; intros Hf; simpl; [constructor|].
  assert (NoDup (omap f l)).
  { apply IH. intros a b z Ha Hb. apply Hf; by constructor. }
  destruct (f x) as [z|] eqn:Hz; [|done]. constructor; [|done].
  rewrite list_elem_of_omap. intros (y & Hy & Hyz).
  by rewrite (Hf x y z) in Hx by (by constructor || done).
Qed.

Lemma children_NoDup w p : NoDup (children w p).
Proof.
  apply NoDup_omap_inj; [apply NoDup_map_to_list|]. intros [q1 n1] [q2 n2] [name n] _ _.
  unfold child_of. simpl.
  destruct (reverse q1) as [|x1 r1] eqn:E1; [done|]. destruct (reverse q2) as [|x2 r2] eqn:E2; [done|].
  do 2 (case_decide; [|done]). intros [= -> ->] [= -> ->]. f_equal.
  rewrite <- (reverse_involutive q1), <- (reverse_involutive q2), E1, E2.
  rewrite !reverse_cons. congruence.
Qed.

Lemma StronglySorted_lt_NoDup (l : list Z) : StronglySorted Z.lt l -> NoDup l /\ StronglySorted Z.le l.
Proof.
  induction 1 as [|x l Hl [IH1 IH2] Hx]; [by split; constructor|]. rewrite Forall_forall in Hx. split.
  - constructor; [|done]. intros Hin. specialize (Hx x Hin). lia.
  - constructor; [done|]. apply Forall_forall. intros y Hy. specialize (Hx y Hy). lia.
Qed.

Section discover.
Context {B : Buf} {H : Crc32} {C : Codecs}.

Lemma discover_run w dir bases :
  quiet w -> dir_ok w dir bases ->
  (forall b, b ∈ bases -> is_u64 b /\ exists n, nodes w !! segment_path dir b = Some n) ->
  StronglySorted Z.lt bases -> discover_segment_offsets dir w = (Ok bases, w).
Proof.
  intros Hq [_ Hd Hon _ _] Hal Hs. unfold discover_segment_offsets.
  erewrite bind_Ok; [|apply io_Ok; unfold read_dir; by rewrite syscall_quiet, Hd].
  unfold ret. do 2 f_equal. cbv zeta.
  set (os := omap _ _). destruct (StronglySorted_lt_NoDup _ Hs) as [Hnd Hle].
  assert (os ≡ₚ bases) as Hperm.
  { apply NoDup_Permutation; [|done|].
    - apply NoDup_omap_inj; [apply children_NoDup|].
      intros [n1 m1] [n2 m2] b H1 H2 E1 E2. simpl in *. apply elem_of_children in H1, H2.
      destruct (Hon _ _ _ H1 E1) as [-> _], (Hon _ _ _ H2 E2) as [-> _]. congruence.
    - intros b. unfold os. rewrite list_elem_of_omap. split.
      + intros ([name n] & Hin & E). apply elem_of_children in Hin. by eapply Hon.
      + intros Hb. destruct (Hal b Hb) as (Hu & n & Hn). exists (fmt020 b +:+ ".log", n).
        split; [by apply elem_of_children|]. by apply segment_offset_of_segment_name. }
  apply (StronglySorted_unique Z.le).
  - apply (StronglySorted_merge_sort Z.le).
  - done.
  - by rewrite merge_sort_Permutation.
Qed.

End discover.

Section recover.
Context {B : Buf} {H : Crc32} {C : Codecs}.
Implicit Types (w : World) (c : list erec) (cs : list (list erec)).

(** ** The sealed segments *)

(** The files of a sealed segment. *)
Record sealed_files (w : World) (dir : path) (base : Z) (c : list erec) : Prop := {
  sf_seg : exists f, nodes w !! segment_path dir base = Some (NFile f)
    /\ f_data f = concat (frames c) /\ f_synced f = f_data f;
  sf_idx : exists g k, nodes w !! index_path dir base = Some (NFile g)
    /\ f_synced g = f_data g /\ length (f_data g) = (8 * k)%nat
    /\ Forall (points_to (frames c) (length c)) (parse_entries (f_data g))
    /\ sorted_by_key relative_offset (parse_entries (f_data g));
  sf_dec : Forall decodes c;
  sf_max : len (concat (frames c)) <= seg_limit w;
  sf_ne : c <> [];
}.

Fixpoint all_sealed (w : World) (dir : path) (base : Z) (cs : list (list erec)) : Prop :=
  match cs with
  | [] => True
  | c :: cs' => sealed_files w dir base c /\ all_sealed w dir (base + len c) cs'
  end.

Lemma bases_of_sorted w dir base cs :
  all_sealed w dir base cs ->
  StronglySorted Z.lt (all_bases base cs)
  /\ Forall (fun b => base <= b
       /\ (b < base + len (concat cs) -> exists f, nodes w !! segment_path dir b = Some (NFile f)))
       (all_bases base cs).
Proof.
  unfold all_bases. revert base. induction cs as [|c cs IH]; intros base; simpl.
  - rewrite len_nil, Z.add_0_r. intros _. split; [by repeat constructor|].
    constructor; [split; [lia|]; lia|done].
  - intros [Hs Ha]. destruct (IH _ Ha) as [H1 H2]. rewrite <- Z.add_assoc, <- len_app in H1, H2.
    pose proof (len_pos c (sf_ne _ _ _ _ Hs)). split.
    + constructor; [done|]. eapply Forall_impl; [done|]. intros b [Hb _]. simpl in Hb. lia.
    + constructor.
      * split; [lia|]. intros _. destruct (sf_seg _ _ _ _ Hs) as (f & Hf & _). by exists f.
      * eapply Forall_impl; [done|]. intros b [Hb Hb']. split; [lia|done].
Qed.

Lemma open_sealed_run w dir ivl base cs acc :
  quiet w -> all_sealed w dir base cs ->
  exists ss, open_sealed dir ivl (bases_of base cs) acc w = (Ok (acc ++ ss), w)
    /\ chain w dir base ss cs.
Proof.
  intros Hq. revert base acc. induction cs as [|c cs IH]; intros base acc; simpl.
  { intros _. exists []. by rewrite app_nil_r. }
  intros [[(f & Hf & Hfd & Hfs) (g & k & Hg & Hgs & Hgk & Hpt & Hso) Hdec Hmax Hne] Ha].
  destruct (segment_open_run w dir base f Hq Hf) as (sg & Ho & Hr & Hb & Hp).
  { rewrite Hfd. unfold seg_limit, u32_max in Hmax. lia. }
  destruct (index_open_run w dir base ivl g Hq Hg) as (ix & Hoi & He & Hbi & Hpi & Hfi).
  destruct (IH (base + len c) (acc ++ [mkIndexed sg ix]) Ha) as (ss & Hrun & Hch).
  exists (mkIndexed sg ix :: ss). rewrite (bind_Ok _ _ _ _ _ Ho), (bind_Ok _ _ _ _ _ Hoi), Hrun.
  split; [by rewrite <- app_assoc|]. rewrite Hfd in Hr. split; [by split|]. split.
  - split; simpl; rewrite ?Hp, ?Hpi; [by exists f|by exists g|].
    split; [congruence|]. rewrite Hpi, He. eauto.
  - split; [|done]. split; simpl; by rewrite He.
Qed.

(** ** The active segment *)

(** The errors the scan takes for the end of the valid data. *)
Definition stops (e : KafkoError) : Prop :=
  match e with Truncated _ | CrcMismatch _ _ | InvalidLength _ => True | _ => False end.

(** Bytes at which the scan stops: none, or a record that does not decode. *)
Definition torn (bs : list byte) : Prop :=
  bs = [] \/ exists e s, decode bs = (Err e, s) /\ stops e.

Lemma scan_valid_run ps t pos fuel :
  Forall decodes ps -> torn t -> (length ps < fuel)%nat -> 0 <= pos ->
  pos + len (concat (frames ps)) < 2 ^ 64 ->
  scan_valid fuel pos (concat (frames ps) ++ t) = Ok (pos + len (concat (frames ps))).
Proof.
  intros Hd Ht. revert pos fuel. induction Hd as [|[fr r] ps (Hne & Hdec & _) _ IH];
    intros pos fuel Hf H0 Hb; (destruct fuel as [|fuel]; [simpl in Hf; lia|]).
  { simpl. rewrite len_nil, Z.add_0_r. destruct Ht as [->|(e & s & Hdt & He)]; [done|].
    destruct t; [done|]. rewrite Hdt. by destruct e. }
  simpl in Hf, Hne, Hdec, Hb |- *. rewrite len_app in Hb.
  pose proof (len_nonneg fr). pose proof (len_nonneg (concat (frames ps))).
  rewrite <- app_assoc. destruct (fr ++ concat (frames ps) ++ t) as [|b0 bs] eqn:E.
  { apply app_eq_nil in E as [-> _]. done. }
  rewrite <- E, Hdec. rewrite len_app, Z.add_simpl_r, u64_add_small, IH by lia. f_equal.
  rewrite len_app. lia.
Qed.

Lemma replay_loop_run w ix c k base fuel :
  quiet w -> SparseIndex.rep w ix -> positions ix (frames c) k -> (k <= length c)%nat ->
  SparseIndex.base_offset ix = base -> 0 <= base -> base + len c < 2 ^ 64 ->
  Forall decodes c -> len (concat (frames c)) <= u32_max -> (length c - k < fuel)%nat ->
  exists w' ix',
    replay_loop fuel base (pos_of (frames c) k) (Z.of_nat k) (concat (frames (drop k c))) (w, ix)
      = (Ok (len c), (w', ix'))
    /\ SparseIndex.rep w' ix' /\ positions ix' (frames c) (length c) /\ touches [idx_path ix] w w'
    /\ SparseIndex.base_offset ix' = base /\ idx_path ix' = idx_path ix.
Proof.
  revert w ix k. induction fuel as [|fuel IH]; intros w ix k Hq Hr Hp Hk Hba H0 Hb Hd Hm Hf; [lia|].
  simpl. unfold len in Hb. destruct (decide (k = length c)) as [->|Hne].
  { rewrite drop_ge by done. simpl. by exists w, ix. }
  destruct (lookup_lt_is_Some_2 c k ltac:(lia)) as [[fr r] Hfr].
  pose proof Hd as Hd'. rewrite Forall_lookup in Hd'. destruct (Hd' _ _ Hfr) as (Hfne & Hdec & _).
  simpl in Hfne, Hdec. rewrite (drop_S _ _ _ Hfr). simpl.
  destruct (fr ++ concat (frames (drop (S k) c))) as [|b0 bs] eqn:E.
  { apply app_eq_nil in E as [-> _]. done. }
  rewrite <- E. erewrite bind_Ok; [|unfold local; by rewrite Hdec].
  cbn [snd]. rewrite len_app, Z.add_simpl_r.
  pose proof (pos_of_nonneg (frames c) k). pose proof (pos_of_le (frames c) (S k)).
  assert (Hpf : pos_of (frames c) (S k) = pos_of (frames c) k + len fr).
  { apply pos_of_S. by rewrite list_lookup_fmap, Hfr. }
  pose proof (len_nonneg fr). pose proof (count_le_bytes c Hd) as Hcnt.
  unfold len in Hcnt at 1. unfold u32_max in Hm.
  rewrite (u64_add_small base) by lia.
  destruct (track_append_run w ix (frames c) k (len fr) Hq Hr Hp)
    as (w1 & ix1 & Hrun & Hr1 & Hp1 & Ht1 & Hb1 & Hi1);
    [rewrite Hba; split; lia|split; lia|split; lia|rewrite Hba; lia|].
  rewrite Hba in Hrun. rewrite (bind_Ok _ _ _ _ _ Hrun), !u64_add_small, <- Hpf by lia.
  replace (Z.of_nat k + 1) with (Z.of_nat (S k)) by lia.
  destruct (IH w1 ix1 (S k)) as (w2 & ix2 & Hrun2 & Hr2 & Hp2 & Ht2 & Hb2 & Hi2);
    [by eapply touches_quiet|done|done|lia|congruence|done|done|done|done|lia|].
  exists w2, ix2. split; [done|]. split; [done|]. split; [done|].
  split; [|split; congruence]. rewrite Hi1 in Ht2. by eapply touches_trans.
Qed.

(** A read of the whole segment when one [read] call can transfer it. *)
Lemma read_whole_run w s data :
  quiet w -> Segment.rep w s data -> len data <= read_max w ->
  exists s', read_whole (w, s) = (Ok data, (w, s')) /\ Segment.rep w s' data
    /\ Segment.base_offset s' = Segment.base_offset s /\ seg_path s' = seg_path s.
Proof.
  intros Hq Hr Hm. unfold read_whole. rewrite bind_self. cbv zeta. pose proof (len_nonneg data).
  destruct (Segment.read_at_run w s data 0 (Segment.size s) Hq Hr ltac:(lia)) as (s' & Hrun & Hr' & ?).
  rewrite (Segment.rep_size _ _ _ Hr), Z.min_l, drop_0, take_ge in Hrun by (unfold len in *; lia).
  exists s'. rewrite (Segment.rep_size _ _ _ Hr), (bind_Ok _ _ _ _ _ Hrun).
  rewrite <- len_length, Nat.sub_diag. simpl. by rewrite app_nil_r.
Qed.

Lemma recovery_scan_run w s c t :
  quiet w -> Segment.rep w s (concat (frames c) ++ t) -> Forall decodes c -> torn t ->
  len (concat (frames c) ++ t) <= read_max w ->
  exists s', scan_for_last_valid_position (w, s) = (Ok (len (concat (frames c))), (w, s'))
    /\ Segment.rep w s' (concat (frames c) ++ t)
    /\ Segment.base_offset s' = Segment.base_offset s /\ seg_path s' = seg_path s.
Proof.
  intros Hq Hr Hd Ht Hm. unfold scan_for_last_valid_position. rewrite bind_self.
  pose proof (Segment.rep_bound _ _ _ Hr) as Hbd. pose proof (count_le_bytes c Hd) as Hcnt.
  rewrite (Segment.rep_size _ _ _ Hr). rewrite len_app in *.
  pose proof (len_nonneg t). pose proof (len_nonneg c).
  destruct (Z.eqb_spec (len (concat (frames c)) + len t) 0) as [Hz|Hz].
  { exists s. split; [|done]. unfold ret. do 2 f_equal. lia. }
  destruct (read_whole_run w s _ Hq Hr) as (s' & Hrun & Hr' & ?); [by rewrite len_app|].
  exists s'. rewrite (bind_Ok _ _ _ _ _ Hrun), scan_valid_run; try done.
  - rewrite length_app. unfold len in Hcnt. lia.
  - lia.
Qed.

Lemma replay_run w s base c :
  quiet w -> Segment.rep w (segment s) (concat (frames c)) -> SparseIndex.rep w (index s) ->
  entries (index s) = [] -> SparseIndex.base_offset (index s) = base ->
  0 <= base -> base + len c < 2 ^ 64 -> Forall decodes c ->
  len (concat (frames c)) <= seg_limit w -> idx_path (index s) <> seg_path (segment s) ->
  exists w' s',
    replay_records_to_index base (w, s) = (Ok (len c), (w', s'))
    /\ Segment.rep w' (segment s') (concat (frames c)) /\ SparseIndex.rep w' (index s')
    /\ positions (index s') (frames c) (length c) /\ touches [idx_path (index s)] w w'
    /\ Segment.base_offset (segment s') = Segment.base_offset (segment s)
    /\ seg_path (segment s') = seg_path (segment s)
    /\ SparseIndex.base_offset (index s') = base /\ idx_path (index s') = idx_path (index s).
Proof.
  intros Hq Hr Hi He Hb H0 Hbd Hd Hm Hne. unfold replay_records_to_index. rewrite bind_self.
  assert (Hpos0 : positions (index s) (frames c) 0).
  { split; rewrite He; [constructor|]. by intros i j x y _ Hx. }
  pose proof (count_le_bytes c Hd) as Hcnt. rewrite (Segment.rep_size _ _ _ Hr).
  destruct (Z.eqb_spec (len (concat (frames c))) 0) as [Hz|Hz].
  { pose proof (len_nonneg c). assert (c = []) as -> by (apply len_zero; lia).
    exists w, s. split; [done|]. split; [done|]. split; [done|]. split; [done|].
    split; [apply touches_refl|]. done. }
  unfold seg_limit in Hm.
  destruct (read_whole_run w (segment s) _ Hq Hr ltac:(lia)) as (sg & Hrun & Hr1 & Hb1 & Hp1).
  rewrite (bind_Ok _ _ _ _ _ (on_seg_run _ _ _ _ _ _ Hrun)).
  destruct (replay_loop_run w (index s) c 0 base (S (length (concat (frames c)))))
    as (w' & ix & Hrl & Hri & Hpi & Ht & Hbi & Hii);
    [done|done|done|lia|done|done|done|done|lia|unfold len in Hcnt; lia|].
  exists w', (mkIndexed sg ix). split.
  { unfold pos_of in Hrl. rewrite drop_0 in Hrl. by apply on_idx_run. }
  simpl. split_and!; try done.
  eapply Segment.rep_frame; [done|]. rewrite Hp1. eapply touches_lookup; [done|].
  intros E%list_elem_of_singleton. congruence.
Qed.

(** The torn tail is cut off. *)
Lemma cut_segment_run w s c t :
  quiet w -> Segment.rep w s (concat (frames c) ++ t) ->
  exists w2 s2,
    (if len (concat (frames c)) <? Segment.size s
     then with_local s (Segment.truncate (len (concat (frames c)))) else ret (tt, s)) w
      = (Ok (tt, s2), w2)
    /\ Segment.rep w2 s2 (concat (frames c)) /\ touches [seg_path s] w w2
    /\ Segment.base_offset s2 = Segment.base_offset s /\ seg_path s2 = seg_path s.
Proof.
  intros Hq Hr. rewrite (Segment.rep_size _ _ _ Hr), len_app. pose proof (len_nonneg (concat (frames c))).
  destruct (Z.ltb_spec (len (concat (frames c))) (len (concat (frames c)) + len t)) as [Hlt|Hge].
  - destruct (Segment.truncate_run w s _ (len (concat (frames c))) Hq Hr) as (s2 & Htr & Hr2 & ? & ?);
      [rewrite len_app; lia|].
    eexists _, s2. split; [by apply with_local_run|].
    rewrite <- len_length, take_app_length in Hr2 |- *. split; [done|]. split; [apply touches_insert|done].
  - assert (t = []) as -> by (apply len_zero; pose proof (len_nonneg t); lia).
    rewrite app_nil_r in Hr. exists w, s. do 2 (split; [done|]). split; [apply touches_refl|done].
Qed.

(** [recover_active_segment]: the records before the torn tail, the tail cut
    off, and an index rebuilt for them. *)
Lemma recover_active_run w dir base ivl c t f :
  quiet w -> nodes w !! segment_path dir base = Some (NFile f) ->
  f_data f = concat (frames c) ++ t -> Forall decodes c -> torn t ->
  len (f_data f) <= seg_limit w -> nodes w !! index_path dir base <> Some NDir ->
  nodes w !! dir = Some NDir -> 0 <= base -> base + len c < 2 ^ 64 ->
  exists w' sg ix,
    recover_active_segment dir base ivl w = (Ok (sg, ix, len c), w')
    /\ seg_ok w' dir base (mkIndexed sg ix) c /\ SparseIndex.rep w' ix
    /\ positions ix (frames c) (length c) /\ touches (seg_files dir base) w w'.
Proof.
  intros Hq Hf Hfd Hd Ht Hm Hnd Hdir H0 Hb. pose proof Hm as Hm'. rewrite Hfd in Hm'.
  unfold seg_limit, u32_max in Hm'. unfold recover_active_segment.
  destruct (segment_open_run w dir base f Hq Hf) as (s0 & Ho & Hr0 & Hb0 & Hp0); [rewrite Hfd; lia|].
  rewrite Hfd in Hr0. rewrite (bind_Ok _ _ _ _ _ Ho).
  destruct (recovery_scan_run w s0 c t Hq Hr0 Hd Ht ltac:(lia)) as (s1 & Hs & Hr1 & Hb1 & Hp1).
  rewrite (bind_Ok _ _ _ _ _ (with_local_run _ _ _ _ _ _ Hs)). cbv iota beta.
  destruct (cut_segment_run w s1 c t Hq Hr1) as (w2 & s2 & Htr & Hr2 & Ht2 & Hb2 & Hp2).
  rewrite Hp1, Hp0 in Ht2, Hp2. rewrite Hb1, Hb0 in Hb2.
  rewrite (bind_Ok _ _ _ _ _ Htr). cbn [snd].
  assert (Hidx : nodes w2 !! index_path dir base = nodes w !! index_path dir base).
  { eapply touches_lookup; [done|]. intros E%list_elem_of_singleton.
    symmetry in E. by apply segment_index_path_ne in E. }
  pose proof (touches_quiet _ _ _ Ht2 Hq) as Hq2.
  destruct (remove_file_if_present_run w2 (index_path dir base) Hq2) as (w3 & Hrm & Ht3 & Hnone);
    [by rewrite Hidx|].
  rewrite (bind_Ok _ _ _ _ _ Hrm). pose proof (touches_quiet _ _ _ Ht3 Hq2) as Hq3.
  assert (Hdir3 : nodes w3 !! dir = Some NDir).
  { erewrite touches_lookup; [erewrite touches_lookup; [done|exact Ht2|]|exact Ht3|];
      intros E%list_elem_of_singleton; by apply snoc_ne in E. }
  destruct (index_create_run w3 dir base ivl Hq3 Hnone (parent_index_path _ _ _ Hdir3))
    as (ix & Hci & Hri & He & Hbi & Hpi).
  set (w4 := set_nodes _ w3) in *.
  assert (Ht4 : touches [index_path dir base] w3 w4) by apply touches_insert.
  rewrite (bind_Ok _ _ _ _ _ Hci).
  assert (Ht24 : touches [index_path dir base] w2 w4) by by eapply touches_trans.
  assert (Htall : touches (seg_files dir base) w w4).
  { eapply touches_trans; [by apply touches_fst|by apply touches_snd]. }
  destruct (replay_run w4 (mkIndexed s2 ix) base c) as (w5 & s5 & Hrp & Hr5 & Hi5 & Hp5 & Ht5 & Hb5 & Hpp5 & Hbi5 & Hpi5);
    simpl; rewrite ?Hp2, ?Hpi; try done.
  { eapply Segment.rep_frame; [done|]. rewrite Hp2. eapply touches_lookup; [exact Ht24|].
    intros E%list_elem_of_singleton. by apply segment_index_path_ne in E. }
  { erewrite seg_limit_touches by exact Htall. rewrite Hfd, len_app in Hm. pose proof (len_nonneg t). lia. }
  { intros E. symmetry in E. by apply segment_index_path_ne in E. }
  simpl in *. rewrite (bind_Ok _ _ _ _ _ (with_local_run _ _ _ _ _ _ Hrp)). cbv iota beta.
  assert (Ht' : touches (seg_files dir base) w w5).
  { eapply touches_trans; [exact Htall|]. rewrite Hpi in Ht5. by apply touches_snd. }
  exists w5, (segment s5), (index s5). split; [done|]. split; [|done].
  split; simpl; rewrite ?Hpp5, ?Hpi5; try done; try congruence.
  erewrite seg_limit_touches by exact Ht'. rewrite Hfd, len_app in Hm. pose proof (len_nonneg t). lia.
Qed.

(** ** [create_dir_all] *)

(** Every directory on the way to [dir], [dir] included, can be entered or
    made. *)
Definition dirs_free w (dir : path) : Prop :=
  forall p, p `prefix_of` dir -> p <> [] -> nodes w !! p = Some NDir \/ nodes w !! p = None.

Lemma mkdirs_run w pre todo :
  (forall p, p `prefix_of` (pre ++ todo) -> (length pre < length p)%nat ->
     nodes w !! p = Some NDir \/ nodes w !! p = None) ->
  exists w', mkdirs pre todo w = (Ok tt, w')
    /\ faults w' = faults w /\ now_ms w' = now_ms w /\ read_max w' = read_max w
    /\ (forall p, p `prefix_of` (pre ++ todo) -> (length pre < length p)%nat ->
          nodes w' !! p = Some NDir)
    /\ (forall p, ~ (p `prefix_of` (pre ++ todo)) \/ (length p <= length pre)%nat ->
          nodes w' !! p = nodes w !! p).
Proof.
  revert w pre. induction todo as [|x todo IH]; intros w pre Hfree; simpl.
  { exists w. do 4 (split; [done|]). split; [|done]. rewrite app_nil_r.
    intros p Hp%prefix_length. lia. }
  replace (pre ++ x :: todo) with ((pre ++ [x]) ++ todo) in * by (by rewrite <- app_assoc).
  assert (Hx : (pre ++ [x]) `prefix_of` ((pre ++ [x]) ++ todo)) by by apply prefix_app_r.
  assert (Hone : forall p, p `prefix_of` ((pre ++ [x]) ++ todo) -> length p = S (length pre) ->
                 p = pre ++ [x]).
  { intros p [k E] Hl. symmetry in E. apply (app_inj_1 p (pre ++ [x])) in E as [? _]; [done|].
    rewrite length_app. simpl. lia. }
  assert (exists w1, mkdirs pre (x :: todo) w = mkdirs (pre ++ [x]) todo w1
    /\ faults w1 = faults w /\ now_ms w1 = now_ms w /\ read_max w1 = read_max w
    /\ nodes w1 !! (pre ++ [x]) = Some NDir
    /\ forall p, p <> pre ++ [x] -> nodes w1 !! p = nodes w !! p) as (w1 & Hm & F1 & F2 & F3 & Hd & Hoth).
  { simpl. unfold get_node. destruct (Hfree (pre ++ [x]) Hx) as [E|E];
      [rewrite length_app; simpl; lia|exists w; unfold bind; by rewrite E|].
    exists (set_nodes <[pre ++ [x] := NDir]> w). unfold bind. rewrite E. do 4 (split; [reflexivity|]).
    simpl. split; [apply lookup_insert_eq|]. intros p Hp. by rewrite lookup_insert_ne. }
  simpl in Hm. rewrite Hm.
  destruct (IH w1 (pre ++ [x])) as (w' & Hrun & G1 & G2 & G3 & Hmade & Hsame).
  { intros p Hp Hl. rewrite length_app in Hl. simpl in Hl. rewrite Hoth; [apply Hfree; [done|lia]|].
    intros ->. rewrite length_app in Hl. simpl in Hl. lia. }
  exists w'. split; [done|]. do 3 (split; [congruence|]). rewrite length_app in *. simpl in *. split.
  - intros p Hp Hl. destruct (decide (length p = S (length pre))) as [El|El].
    + rewrite (Hone p Hp El), Hsame; [done|]. right. rewrite length_app. simpl. lia.
    + apply Hmade; [done|lia].
  - intros p Hp. rewrite Hsame, Hoth; [done| |destruct Hp; [by left|right; lia]].
    intros ->. destruct Hp as [Hp|Hp]; [done|]. rewrite length_app in Hp. simpl in Hp. lia.
Qed.

Lemma create_dir_all_run w dir :
  quiet w -> dirs_free w dir ->
  exists w', create_dir_all dir w = (Ok tt, w') /\ quiet w' /\ read_max w' = read_max w
    /\ dirs_made w' dir /\ now_ms w' = now_ms w
    /\ (forall p, ~ (p `prefix_of` dir) \/ p = [] -> nodes w' !! p = nodes w !! p).
Proof.
  intros Hq Hf. unfold create_dir_all. rewrite syscall_quiet by done.
  destruct (mkdirs_run w [] dir) as (w' & Hrun & F1 & F2 & F3 & Hm & Hs).
  { intros p Hp Hl. apply Hf; [done|]. by intros ->; simpl in Hl; lia. }
  exists w'. split; [done|]. split; [unfold quiet; congruence|]. split; [done|]. split.
  - intros p Hp Hne. apply Hm; [done|]. destruct p; [done|]. simpl. lia.
  - split; [done|]. intros p [Hp| ->]; apply Hs; [by left|right; simpl; lia].
Qed.

Lemma mkdirs_made w pre todo :
  (forall p, p `prefix_of` (pre ++ todo) -> (length pre < length p)%nat -> nodes w !! p = Some NDir) ->
  mkdirs pre todo w = (Ok tt, w).
Proof.
  revert pre. induction todo as [|x todo IH]; intros pre Hm; simpl; [done|].
  replace (pre ++ x :: todo) with ((pre ++ [x]) ++ todo) in * by (by rewrite <- app_assoc).
  unfold bind, get_node. rewrite (Hm (pre ++ [x])).
  - apply IH. intros p Hp Hl. rewrite length_app in Hl. simpl in Hl. apply Hm; [done|lia].
  - by apply prefix_app_r.
  - rewrite length_app. simpl. lia.
Qed.

Lemma create_dir_all_made w dir :
  quiet w -> dirs_made w dir -> create_dir_all dir w = (Ok tt, w).
Proof.
  intros Hq Hm. unfold create_dir_all. rewrite syscall_quiet by done. apply mkdirs_made.
  intros p Hp Hl. apply Hm; [done|]. intros ->. simpl in Hl. lia.
Qed.

(** ** [open] *)

(** The files of a log, as a crash may leave them: the records of [cs] in
    sealed segments, those of [c] in the active one, then the bytes [t]. *)
Record disk w (dir : path) (start : Z) cs c (t : list byte) : Prop := {
  dk_dir : dir_ok w dir (all_bases start cs);
  dk_sealed : all_sealed w dir start cs;
  dk_active : exists f, nodes w !! segment_path dir (start + len (concat cs)) = Some (NFile f)
    /\ f_data f = concat (frames c) ++ t /\ len (f_data f) <= seg_limit w;
  dk_dec : Forall decodes c;
  dk_torn : torn t;
  dk_start : 0 <= start;
  dk_bound : start + len (concat cs) + len c < 2 ^ 64;
}.

Lemma log_open_run w dir config start cs c t :
  quiet w -> disk w dir start cs c t ->
  exists w' l, Log.open dir config w = (Ok l, w') /\ log_rep w' l start cs c
    /\ Log.dir l = dir /\ Log.config l = config /\ quiet w'
    /\ touches (seg_files dir (start + len (concat cs))) w w'.
Proof.
  intros Hq [Hdo Hse (f & Hf & Hfd & Hfm) Hdec Ht Hst Hb].
  destruct (bases_of_sorted w dir start cs Hse) as [Hso Hba].
  destruct (open_sealed_run w dir (index_interval config) start cs [] Hq Hse) as (ss & Hos & Hch).
  pose proof (len_nonneg (concat cs)). pose proof (len_nonneg c).
  destruct (recover_active_run w dir (start + len (concat cs)) (index_interval config) c t f)
    as (w' & sg & ix & Hrec & Hok & Hri & Hpi & Htc); try done;
    [by eapply do_nodir|by eapply do_dir|lia|].
  assert (Hdis : discover_segment_offsets dir w = (Ok (all_bases start cs), w)).
  { apply discover_run; [done|done| |done]. intros b Hin. rewrite Forall_forall in Hba.
    destruct (Hba b Hin) as [Hle Hex]. pose proof (all_bases_le _ _ _ Hin).
    split; [split; lia|]. destruct (decide (b = start + len (concat cs))) as [->|]; [by eexists|].
    destruct (Hex ltac:(lia)). by eexists. }
  set (base := start + len (concat cs)) in *.
  unfold Log.open. erewrite bind_Ok; [|apply io_Ok; by eapply create_dir_all_made, do_dirs].
  rewrite (bind_Ok _ _ _ _ _ Hdis). unfold all_bases. rewrite last_snoc, removelast_last. fold base.
  rewrite (bind_Ok _ _ _ _ _ Hos), (bind_Ok _ _ _ _ _ Hrec). cbv iota beta. simpl app.
  eexists w', _. split; [reflexivity|]. split; [|split; [done|split; [done|split]]].
  2: by eapply touches_quiet. 2: done.
  split; [|simpl; fold base; by rewrite u64_add_small by lia].
  exists ss, (mkIndexed sg ix). split; [done|]. simpl. fold base. split; try done.
  - eapply chain_seg_files; [done|split; lia|done|lia|right; lia|done].
  - eapply dir_ok_touches; [done|split; lia|apply all_bases_last| |done].
    destruct Hri as [_ (g & Hg & _)].
    pose proof (sk_ipath _ _ _ _ _ Hok) as Hip. simpl in Hip. rewrite Hip in Hg. by rewrite Hg.
Qed.

(** ** A directory without segments *)
Lemma log_create_run w dir config :
  quiet w -> dirs_made w dir -> nodes w !! dir = Some NDir -> 0 <= read_max w ->
  (forall name, nodes w !! (dir ++ [name]) = None) ->
  exists w' l, Log.create dir config w = (Ok l, w') /\ log_rep w' l 0 [] []
    /\ Log.dir l = dir /\ Log.config l = config /\ quiet w' /\ stays dir w w'.
Proof.
  intros Hq Hds Hd Hm Hnone. unfold Log.create.
  erewrite bind_Ok; [|apply io_Ok; by apply create_dir_all_made].
  destruct (create_pair_run w dir 0 (index_interval config) Hq Hd (Hnone _) (Hnone _))
    as (w1 & w2 & sg & ix & Hc1 & Hc2 & Hq2 & Ht & Hok & Hri & Hpi & Hnd); [unfold seg_limit, u32_max; lia|].
  rewrite (bind_Ok _ _ _ _ _ Hc1), (bind_Ok _ _ _ _ _ Hc2).
  eexists w2, _. split; [reflexivity|].
  split; [|do 3 (split; [done|]); by eapply seg_files_stays]. split; [|done].
  exists [], (mkIndexed sg ix). split; [done|]. simpl. split; simpl; try done.
  - change (all_bases 0 []) with [0].
    eapply dir_ok_touches; [exact Ht|by split|by apply list_elem_of_singleton|done|].
    split; try done; unfold index_path.
    + intros name n b Hn. by rewrite Hnone in Hn.
    + intros b _ _. apply Hnone.
    + intros b. by rewrite Hnone.
Qed.

(** [open] where there is no log: the directory is made and an empty log
    created. *)
Lemma open_fresh_run w dir config :
  quiet w -> dirs_free w dir -> dir <> [] -> 0 <= read_max w ->
  (forall name, nodes w !! (dir ++ [name]) = None) ->
  exists w' l, Log.open dir config w = (Ok l, w') /\ log_rep w' l 0 [] []
    /\ Log.dir l = dir /\ Log.config l = config /\ quiet w' /\ grows dir w w'.
Proof.
  intros Hq Hf Hne Hm Hnone.
  destruct (create_dir_all_run w dir Hq Hf) as (w1 & Hmk & Hq1 & Hm1 & Hd1 & Hnow & Hsame).
  assert (Hnone1 : forall name, nodes w1 !! (dir ++ [name]) = None).
  { intros name. rewrite Hsame; [done|]. left. intros Hp%prefix_length.
    rewrite length_app in Hp. simpl in Hp. lia. }
  assert (Hd : nodes w1 !! dir = Some NDir) by by apply Hd1.
  unfold Log.open. rewrite (bind_Ok _ _ _ _ _ (io_Ok _ _ _ _ Hmk)).
  assert (Hdis : discover_segment_offsets dir w1 = (Ok [], w1)).
  { unfold discover_segment_offsets.
    erewrite bind_Ok; [|apply io_Ok; unfold read_dir; by rewrite syscall_quiet, Hd].
    replace (children w1 dir) with (@nil (string * node)); [done|].
    destruct (children w1 dir) as [|[name n] ch] eqn:E; [done|exfalso].
    assert ((name, n) ∈ children w1 dir) as Hin by (rewrite E; by constructor).
    apply elem_of_children in Hin. by rewrite Hnone1 in Hin. }
  rewrite (bind_Ok _ _ _ _ _ Hdis). simpl.
  destruct (log_create_run w1 dir config) as (w2 & l & Hc & Hr & Hdl & Hcf & Hq2 & Hst); try done; [lia|].
  exists w2, l. do 5 (split; [done|]). destruct (stays_grows _ _ _ Hst Hd1) as (G1 & G2 & G3 & G4 & G5).
  split; [unfold quiet in *; congruence|]. do 2 (split; [congruence|]). split; [done|].
  intros p Hp Hx. by rewrite G5, Hsame.
Qed.

End recover.
