(* ===== verification/LogCrash.v ===== *)
(** * Crash and recovery

    A crash keeps of every file at least what was synced and at most what was
    written.  After it, [Log.open] finds every record of the sealed segments
    and a prefix of those of the active one - all of them, if the active
    segment was synced. *)

From S2P Require Import Prelude Bytes Error Compression LogRecord Fs Names Search.
From S2P Require Import Segment SparseIndex Log LogInv LogRetain LogRecover.

Definition survives (f f' : fnode) : Prop :=
  f_synced f `prefix_of` f_synced f' /\ f_synced f' `prefix_of` f_data f'
  /\ f_data f' `prefix_of` f_data f.

(** [crash w w']: [w'] is what a restart may find after the program was killed
    or the power went off in [w]. Files and directories keep their names; no
    call fails after the restart. *)
Record crash (w w' : World) : Prop := {
  cr_quiet : quiet w';
  cr_read_max : read_max w' = read_max w;
  cr_nodes : forall p,
    match nodes w !! p with
    | Some (NFile f) => exists f', nodes w' !! p = Some (NFile f') /\ survives f f'
    | n => nodes w' !! p = n
    end;
}.

Section crash.
Context {B : Buf} {H : Crc32} {C : Codecs}.
Implicit Types (w : World) (l : Log) (c : list erec) (cs : list (list erec)).

Lemma crash_file w w' p f :
  crash w w' -> nodes w !! p = Some (NFile f) -> exists f', nodes w' !! p = Some (NFile f') /\ survives f f'.
Proof. intros Hc Hf. pose proof (cr_nodes _ _ Hc p) as Hn. by rewrite Hf in Hn. Qed.

Lemma crash_none w w' p : crash w w' -> nodes w !! p = None -> nodes w' !! p = None.
Proof. intros Hc Hf. pose proof (cr_nodes _ _ Hc p) as Hn. by rewrite Hf in Hn. Qed.

Lemma crash_dir w w' p : crash w w' -> nodes w' !! p = Some NDir <-> nodes w !! p = Some NDir.
Proof.
  intros Hc. pose proof (cr_nodes _ _ Hc p) as Hn. destruct (nodes w !! p) as [[f|]|].
  - destruct Hn as (f' & -> & _). by split.
  - by rewrite Hn.
  - by rewrite Hn.
Qed.

(** A synced file comes back as it was. *)
Lemma crash_synced w w' p f :
  crash w w' -> nodes w !! p = Some (NFile f) -> f_synced f = f_data f ->
  exists f', nodes w' !! p = Some (NFile f') /\ f_data f' = f_data f /\ f_synced f' = f_data f'.
Proof.
  intros Hc Hf Hs. destruct (crash_file _ _ _ _ Hc Hf) as (f' & Hf' & Hp1 & Hp2 & Hp3).
  rewrite Hs in Hp1. assert (f_synced f' = f_data f').
  { apply (anti_symm prefix); [done|]. by etrans. }
  exists f'. split; [done|]. split; [|done]. apply (anti_symm prefix); [done|]. by etrans.
Qed.

(** What is left of encoded records cut at any byte. *)
Lemma prefix_frames c bs :
  Forall decodes c -> bs `prefix_of` concat (frames c) ->
  exists c1 t, c1 `prefix_of` c /\ bs = concat (frames c1) ++ t /\ torn t.
Proof.
  intros Hd. revert bs. induction Hd as [|[fr r] c (Hne & Hdec & Hcut) _ IH]; intros bs Hp; simpl in *.
  { exists [], []. apply prefix_nil_inv in Hp as ->. split; [done|]. split; [done|by left]. }
  destruct (decide (length fr <= length bs)%nat) as [Hle|Hlt].
  - destruct Hp as [k Hk].
    assert (exists bs', bs = fr ++ bs') as [bs' ->].
    { exists (drop (length fr) bs). rewrite <- (take_drop (length fr) bs) at 1. f_equal.
      apply (f_equal (take (length fr))) in Hk. rewrite take_app_length in Hk.
      by rewrite take_app_le in Hk. }
    rewrite <- app_assoc in Hk. apply app_inv_head in Hk.
    destruct (IH bs') as (c1 & t & Hc1 & -> & Ht); [by exists k|].
    exists ((fr, r) :: c1), t. split; [by apply prefix_cons|]. split; [|done].
    simpl. by rewrite app_assoc.
  - exists [], bs. split; [by exists ((fr, r) :: c)|]. split; [done|]. right.
    assert (bs = take (length bs) fr) as Hbs.
    { destruct Hp as [k Hk]. apply (f_equal (take (length bs))) in Hk.
      rewrite take_app_length, take_app_le in Hk by lia. done. }
    destruct (Hcut (length bs)) as (needed & s & E); [lia|]. rewrite <- Hbs in E. by eexists _, _.
Qed.

Lemma dir_ok_crash w w' dir bases : crash w w' -> dir_ok w dir bases -> dir_ok w' dir bases.
Proof.
  intros Hc [H1 H2 H3 H4 H5]. split.
  - intros p Hp Hne. apply (crash_dir _ _ _ Hc). by apply H1.
  - by apply (crash_dir _ _ _ Hc).
  - intros name n b Hn. destruct (nodes w !! (dir ++ [name])) as [n0|] eqn:E; [by eapply H3|].
    by rewrite (crash_none _ _ _ Hc E) in Hn.
  - intros b Hb Hlt. eapply crash_none; [done|]. by apply H4.
  - intros b Hb. apply (H5 b). by apply (crash_dir _ _ _ Hc).
Qed.

Lemma chain_all_sealed w dir base ss cs : chain w dir base ss cs -> all_sealed w dir base cs.
Proof.
  revert base ss. induction cs as [|c cs IH]; intros base [|s ss]; simpl; try done.
  intros ([Hr Hb Hp Hbi Hpi Hd Hm] & [(f & Hf & Hfs) (g & Hg & Hgs) [_ (g' & Hg' & Hpe & k & Hk)]]
          & [Hpt Hso] & Hne & Hch).
  split; [|by eapply IH]. rewrite Hg in Hg'. injection Hg' as <-. rewrite <- Hpe in Hpt, Hso.
  destruct (Segment.rep_node _ _ _ Hr) as (f2 & Hf2 & Hfd2). rewrite Hf in Hf2. injection Hf2 as <-.
  rewrite Hp in Hf. rewrite Hpi in Hg. split; try done.
  - by exists f.
  - by exists g, k.
Qed.

Lemma all_sealed_crash w w' dir base cs :
  crash w w' -> all_sealed w dir base cs -> all_sealed w' dir base cs.
Proof.
  intros Hc. revert base. induction cs as [|c cs IH]; intros base; simpl; [done|].
  intros [[(f & Hf & Hfd & Hfs) (g & k & Hg & Hgs & Hr) Hd Hm Hne] Ha]. split; [|by apply IH].
  destruct (crash_synced _ _ _ _ Hc Hf Hfs) as (f' & Hf' & Hfd' & Hfs').
  destruct (crash_synced _ _ _ _ Hc Hg Hgs) as (g' & Hg' & Hgd & Hgs').
  split; try done.
  - exists f'. split; [done|]. split; [congruence|done].
  - exists g', k. by rewrite Hgs', Hgd.
  - unfold seg_limit in *. by rewrite (cr_read_max _ _ Hc).
Qed.

(** ** The files of a log in use

    [stored w dir start cs c0 c]: the sealed segments hold [cs] and are on the
    device; the active one holds some bytes of [c0 ++ c], and [c0] is on the
    device. *)
Record stored w (dir : path) (start : Z) cs c0 c : Prop := {
  so_sealed : exists sealed, chain w dir start sealed cs;
  so_active : exists f, nodes w !! segment_path dir (start + len (concat cs)) = Some (NFile f)
    /\ f_data f `prefix_of` concat (frames (c0 ++ c));
  so_secured : secured w dir (start + len (concat cs)) (concat (frames c0));
  so_dec : Forall decodes (c0 ++ c);
  so_max : len (concat (frames (c0 ++ c))) <= seg_limit w;
  so_start : 0 <= start;
  so_bound : start + len (concat cs) + len (c0 ++ c) < 2 ^ 64;
  so_dir : dir_ok w dir (all_bases start cs);
}.

Lemma core_stored w l start cs c0 c k :
  log_core w l start cs (c0 ++ c) k ->
  secured w (dir l) (start + len (concat cs)) (concat (frames c0)) ->
  stored w (dir l) start cs c0 c.
Proof.
  intros (sealed & a & Hs & [Hch Ha Hix Hp Hk Hst Hb Hd]) Hse.
  destruct Ha as [Hr Hba Hpa Hbi Hpi Hdec Hm].
  destruct (Segment.rep_node _ _ _ Hr) as (f & Hf & Hfd). rewrite Hpa in Hf.
  split; try done.
  - by exists sealed.
  - exists f. by rewrite Hfd.
Qed.

(** Between two calls, either nothing is assumed to be on the device, or all
    of the active segment. *)
Lemma secured_nothing w l start cs c k :
  log_core w l start cs c k -> secured w (dir l) (start + len (concat cs)) [].
Proof.
  intros (sealed & a & Hs & Hco). destruct (co_active _ _ _ _ _ _ _ _ Hco) as [Hr _ Hpa _ _ _ _].
  destruct (Segment.rep_node _ _ _ Hr) as (f & Hf & _). rewrite Hpa in Hf.
  exists f. split; [done|]. apply prefix_nil.
Qed.

Lemma synced_secured w l start cs c k :
  log_core w l start cs c k -> synced w (segment_path (dir l) (start + len (concat cs))) ->
  secured w (dir l) (start + len (concat cs)) (concat (frames c)).
Proof.
  intros (sealed & a & Hs & Hco) (f & Hf & Hsy).
  destruct (co_active _ _ _ _ _ _ _ _ Hco) as [Hr _ Hpa _ _ _ _].
  destruct (Segment.rep_node _ _ _ Hr) as (f' & Hf' & Hd). rewrite Hpa, Hf in Hf'. injection Hf' as <-.
  exists f. by rewrite Hsy, Hd.
Qed.

(** A crash leaves a log with a torn tail. *)
Lemma stored_crash w w' dir start cs c0 c :
  stored w dir start cs c0 c -> crash w w' ->
  exists c1 t, disk w' dir start cs (c0 ++ c1) t /\ c1 `prefix_of` c.
Proof.
  intros [(sealed & Hch) (f & Hf & Hd) (f0 & Hf0 & Hs) Hdec Hm Hst Hb Hdir] Hc.
  rewrite Hf in Hf0. injection Hf0 as <-.
  destruct (crash_file _ _ _ _ Hc Hf) as (f' & Hf' & Hp0 & Hp1 & Hp2).
  assert (concat (frames c0) `prefix_of` f_data f') as [bs Hbs] by (by etrans; [|etrans]).
  rewrite frames_app, concat_app in Hd.
  assert (Hpre : bs `prefix_of` concat (frames c)).
  { eapply prefix_app_inv. rewrite <- Hbs. by etrans. }
  apply Forall_app in Hdec as [Hdec0 Hdec].
  destruct (prefix_frames c bs Hdec Hpre) as (c1 & t & Hc1 & -> & Ht).
  pose proof (prefix_length _ _ Hc1) as Hl1. pose proof (prefix_length _ _ Hpre) as Hl2.
  exists c1, t. split; [|done]. split; try done.
  - by eapply dir_ok_crash.
  - by eapply all_sealed_crash, chain_all_sealed.
  - exists f'. split; [done|]. split; [by rewrite frames_app, concat_app, <- app_assoc|].
    rewrite Hbs. unfold seg_limit in *. rewrite (cr_read_max _ _ Hc).
    rewrite frames_app, concat_app in Hm. unfold len in Hm |- *. rewrite length_app in Hm. rewrite (length_app (concat (frames c0))). lia.
  - apply Forall_app. split; [done|]. destruct Hc1 as [k ->]. by apply Forall_app in Hdec as [? _].
  - assert (len c1 <= len c) by (unfold len; lia). rewrite len_app in Hb |- *. lia.
Qed.

Lemma log_rep_disk w w' l start cs c :
  log_rep w l start cs c -> crash w w' ->
  exists c1 t, disk w' (dir l) start cs c1 t /\ c1 `prefix_of` c
    /\ (synced w (segment_path (dir l) (start + len (concat cs))) -> c1 = c).
Proof.
  intros [Hco _] Hc.
  assert (Hdec : synced w (segment_path (dir l) (start + len (concat cs)))
                 \/ ~ synced w (segment_path (dir l) (start + len (concat cs)))).
  { destruct (so_active _ _ _ _ _ _ (core_stored w l start cs [] c _ Hco (secured_nothing _ _ _ _ _ _ Hco)))
      as (f & Hf & _).
    destruct (decide (f_synced f = f_data f)) as [E|E]; [left; by exists f|right].
    intros (f2 & Hf2 & E2). rewrite Hf in Hf2. by injection Hf2 as <-. }
  destruct Hdec as [Hs|Hs].
  - assert (Hst : stored w (dir l) start cs c []).
    { eapply core_stored; [by rewrite app_nil_r|]. by eapply synced_secured. }
    destruct (stored_crash _ _ _ _ _ _ _ Hst Hc) as (c1 & t & Hd & ->%prefix_nil_inv).
    rewrite app_nil_r in Hd. by exists c, t.
  - destruct (stored_crash _ _ _ _ _ _ _ (core_stored w l start cs [] c _ Hco (secured_nothing _ _ _ _ _ _ Hco)) Hc)
      as (c1 & t & Hd & Hp). by exists c1, t.
Qed.

Lemma crash_recovery w w' l config start cs c :
  log_rep w l start cs c -> crash w w' ->
  exists c1 w'' l',
    Log.open (dir l) config w' = (Ok l', w'') /\ log_rep w'' l' start cs c1
    /\ Log.dir l' = dir l /\ Log.config l' = config /\ quiet w'' /\ seg_limit w'' = seg_limit w
    /\ c1 `prefix_of` c
    /\ (synced w (segment_path (dir l) (start + len (concat cs))) -> c1 = c).
Proof.
  intros Hrep Hc. destruct (log_rep_disk _ _ _ _ _ _ Hrep Hc) as (c1 & t & Hdk & Hpre & Hsy).
  destruct (log_open_run w' (dir l) config start cs c1 t (cr_quiet _ _ Hc) Hdk) as (w'' & l' & Ho & Hrep' & Hd & Hcf & Hq & Ht).
  exists c1, w'', l'. do 5 (split; [done|]). split; [|done].
  rewrite (seg_limit_touches _ _ _ Ht). unfold seg_limit. by rewrite (cr_read_max _ _ Hc).
Qed.

End crash.
