(* ===== verification/LogSpec.v ===== *)
(** * The log's contract

    What [Log] promises its clients: an append-only list of records that
    starts at some offset.  [LogContract] states the promise for a
    representation relation [R]; [kafko_log] proves it for [log_refines], so
    the clients' theorems (the partition writer, producers and consumers)
    need not look at segments, indexes or files. *)

From S2P Require Import Prelude Bytes Error Compression LogRecord Fs Names Search.
From S2P Require Import Segment SparseIndex Log LogInv LogOps LogRead LogRetain LogRecover LogCrash.

(** ** The abstract log *)
Record alog : Type := mkALog { a_start : Z; a_recs : list record }.

Definition a_next (a : alog) : Z := a_start a + len (a_recs a).
Definition a_append (rs : list record) (a : alog) : alog := mkALog (a_start a) (a_recs a ++ rs).
Definition a_read (off : Z) (a : alog) : option record :=
  if off <? a_start a then None else a_recs a !! Z.to_nat (off - a_start a).
(** The oldest [n] records are gone; the others keep their offsets. *)
Definition a_drop (n : nat) (a : alog) : alog :=
  mkALog (a_start a + Z.of_nat n) (drop n (a_recs a)).

(** What one run of retention may do: some of the oldest records go, and none
    where the configuration limits neither their age nor their size. *)
Definition may_drop (cfg : LogConfig) (n : nat) (a : alog) : Prop :=
  (n <= length (a_recs a))%nat
  /\ (max_segment_age cfg = None -> max_partition_bytes cfg = None -> n = 0%nat).

(** An operation changes neither the configuration nor the directory. *)
Definition keeps (w : World) (l : Log) (w' : World) (l' : Log) : Prop :=
  config l' = config l /\ dir l' = dir l /\ stays (dir l) w w'.

Lemma a_next_append rs a : a_next (a_append rs a) = a_next a + len rs.
Proof. unfold a_next. simpl. rewrite len_app. lia. Qed.

Lemma a_append_append rs1 rs2 a : a_append rs2 (a_append rs1 a) = a_append (rs1 ++ rs2) a.
Proof. unfold a_append. simpl. by rewrite app_assoc. Qed.

Lemma a_append_nil a : a_append [] a = a.
Proof. destruct a. unfold a_append. simpl. by rewrite app_nil_r. Qed.

(** A record read at an offset is the one appended there. *)
Lemma a_read_append rs a i :
  (i < length rs)%nat -> a_read (a_next a + Z.of_nat i) (a_append rs a) = rs !! i.
Proof.
  intros Hi. unfold a_read, a_next. simpl. pose proof (len_nonneg (a_recs a)).
  rewrite (proj2 (Z.ltb_ge _ _)) by lia.
  rewrite lookup_app_r by (unfold len; lia). f_equal. unfold len. lia.
Qed.

(** Appending changes no record that was there. *)
Lemma a_read_stable off rs a : off < a_next a -> a_read off (a_append rs a) = a_read off a.
Proof.
  intros Hlt. unfold a_read, a_next in *. simpl. destruct (Z.ltb_spec off (a_start a)); [done|].
  apply lookup_app_l. unfold len in Hlt. lia.
Qed.

(** Retention changes no record it keeps. *)
Lemma a_read_drop n off a :
  a_start a + Z.of_nat n <= off -> a_read off (a_drop n a) = a_read off a.
Proof.
  intros Hle. unfold a_read. simpl. rewrite !(proj2 (Z.ltb_ge _ _)) by lia.
  rewrite lookup_drop. f_equal. lia.
Qed.

Section contract.
Context {B : Buf} {H : Crc32} {C : Codecs}.

(** What a client may rely on. *)
Class LogContract (R : World -> Log -> alog -> Prop) : Prop := {
  lc_next w l a : R w l a -> next_offset l = a_next a;
  lc_bound w l a : R w l a -> 0 <= a_start a /\ a_next a < 2 ^ 64;
  lc_append w l a r :
    R w l a -> storable (compression (config l)) r -> room w (config l) [r] ->
    a_next a + 1 < 2 ^ 64 ->
    exists w' l', Log.append r (w, l) = (Ok (a_next a), (w', l'))
      /\ R w' l' (a_append [r] a) /\ keeps w l w' l';
  lc_append_batch w l a rs :
    R w l a -> Forall (storable (compression (config l))) rs -> room w (config l) rs ->
    a_next a + len rs < 2 ^ 64 ->
    exists w' l', Log.append_batch rs (w, l) = (Ok (offsets_from (a_next a) (length rs)), (w', l'))
      /\ R w' l' (a_append rs a) /\ keeps w l w' l';
  lc_read w l a off :
    R w l a -> 0 <= off ->
    exists w' l', Log.read_record_at off (w, l) = (Ok (a_read off a), (w', l'))
      /\ R w' l' a /\ keeps w l w' l';
  lc_sync w l a :
    R w l a -> exists w' l', Log.sync (w, l) = (Ok tt, (w', l')) /\ R w' l' a /\ keeps w l w' l';
  lc_retention w l a :
    R w l a -> exists k n w' l', Log.apply_retention (w, l) = (Ok k, (w', l'))
      /\ may_drop (config l) n a /\ R w' l' (a_drop n a) /\ keeps w l w' l';
  lc_durable w l w1 l1 w2 a cfg :
    R w l a -> Log.sync (w, l) = (Ok tt, (w1, l1)) -> crash w1 w2 ->
    exists w3 l3, Log.open (dir l) cfg w2 = (Ok l3, w3) /\ R w3 l3 a
      /\ Log.dir l3 = dir l /\ config l3 = cfg;
  lc_apart d w w' l a : stays d w w' -> apart d (dir l) -> R w l a -> R w' l a;
}.

(** The representation: some cut of the records into segments. *)
Definition log_refines (w : World) (l : Log) (a : alog) : Prop :=
  quiet w /\ exists cs c, log_rep w l (a_start a) cs c /\ a_recs a = records_of cs c.

Lemma len_records_of cs c : len (records_of cs c) = len (concat cs) + len c.
Proof. unfold records_of, len. rewrite length_map, length_app. lia. Qed.

Lemma log_refines_intro w l start cs c recs :
  quiet w -> log_rep w l start cs c -> recs = records_of cs c -> log_refines w l (mkALog start recs).
Proof. intros Hq Hr E. split; [done|]. by exists cs, c. Qed.

Lemma log_refines_next w l a : log_refines w l a -> next_offset l = a_next a.
Proof.
  intros (_ & cs & c & [_ Hn] & E). unfold a_next. rewrite E, len_records_of. lia.
Qed.

Lemma records_of_drop n cs c :
  (n <= length cs)%nat ->
  records_of (drop n cs) c = drop (length (concat (take n cs))) (records_of cs c).
Proof.
  intros Hn. unfold records_of. rewrite skipn_map. f_equal.
  rewrite <- (take_drop n cs) at 3. rewrite concat_app, <- app_assoc. by rewrite drop_app_length.
Qed.

End contract.

Section instance.
Context {B : Buf} {BL : BufLaws B} {H : Crc32} {HL : Crc32Laws H} {C : Codecs} {CL : CodecLaws C}.

Lemma append_batch_refines w l a rs :
  log_refines w l a -> Forall (storable (compression (config l))) rs -> room w (config l) rs ->
  a_next a + len rs < 2 ^ 64 ->
  exists w' l', Log.append_batch rs (w, l) = (Ok (offsets_from (a_next a) (length rs)), (w', l'))
    /\ log_refines w' l' (a_append rs a) /\ keeps w l w' l'.
Proof.
  intros Hr Hst Hroom Hb. pose proof (log_refines_next _ _ _ Hr) as Hn.
  destruct Hr as (Hq & cs & c & Hrep & E).
  destruct (log_append_batch_run w l _ cs c rs Hq Hrep Hst Hroom ltac:(lia))
    as (w' & l' & cs' & c' & Hrun & Hrep' & Hcat & Hc & Hd & Hq' & Hl').
  exists w', l'. rewrite <- Hn. split; [done|]. split; [|done].
  eapply log_refines_intro; [done|done|]. unfold records_of in *.
  by rewrite Hcat, app_assoc, map_app, snd_wires, E.
Qed.

Lemma append_refines w l a r :
  log_refines w l a -> storable (compression (config l)) r -> room w (config l) [r] ->
  a_next a + 1 < 2 ^ 64 ->
  exists w' l', Log.append r (w, l) = (Ok (a_next a), (w', l'))
    /\ log_refines w' l' (a_append [r] a) /\ keeps w l w' l'.
Proof.
  intros Hr Hst Hroom Hb. pose proof (log_refines_next _ _ _ Hr) as Hn.
  destruct Hr as (Hq & cs & c & Hrep & E).
  destruct (log_append_run w l _ cs c r Hq Hrep Hst Hroom ltac:(lia))
    as (w' & l' & cs' & c' & Hrun & Hrep' & Hcat & Hc & Hd & Hq' & Hl').
  exists w', l'. rewrite <- Hn. split; [done|]. split; [|done].
  eapply log_refines_intro; [done|done|]. unfold records_of in *.
  by rewrite Hcat, app_assoc, map_app, snd_wires, E.
Qed.

Lemma read_refines w l a off :
  log_refines w l a -> 0 <= off ->
  exists w' l', Log.read_record_at off (w, l) = (Ok (a_read off a), (w', l'))
    /\ log_refines w' l' a /\ keeps w l w' l'.
Proof.
  intros (Hq & cs & c & Hrep & E) H0.
  destruct (read_record_at_run w l _ cs c off Hq Hrep H0) as (l' & Hrun & Hrep' & Hd & Hc).
  exists w, l'. unfold a_read. rewrite E. split; [done|]. split; [|done]. split; [done|]. eauto.
Qed.

Lemma log_sync_run w l start cs c :
  quiet w -> log_rep w l start cs c ->
  exists w' l', Log.sync (w, l) = (Ok tt, (w', l')) /\ log_rep w' l' start cs c /\ quiet w'
    /\ keeps w l w' l' /\ synced w' (segment_path (dir l) (start + len (concat cs))).
Proof.
  intros Hq [Hcore Hn].
  destruct (core_sync w l _ cs c Hq Hcore) as (w' & segs' & sealed & act & Hrun & -> & Hco & Hs1 & Hs2 & Hq' & Hl').
  exists w', (set_segments (sealed ++ [act]) l). split; [done|]. split; [by split; [exists sealed, act|]|].
  split; [done|]. split; [done|].
  by rewrite (sk_path _ _ _ _ _ (co_active _ _ _ _ _ _ _ _ Hco)) in Hs1.
Qed.

Lemma sync_refines w l a :
  log_refines w l a ->
  exists w' l', Log.sync (w, l) = (Ok tt, (w', l')) /\ log_refines w' l' a /\ keeps w l w' l'.
Proof.
  intros (Hq & cs & c & Hrep & E).
  destruct (log_sync_run _ _ _ _ _ Hq Hrep) as (w' & l' & Hrun & Hrep' & Hq' & Hk & _).
  exists w', l'. split; [done|]. split; [|done]. split; [done|]. eauto.
Qed.

Lemma retention_refines w l a :
  log_refines w l a -> exists k n w' l', Log.apply_retention (w, l) = (Ok k, (w', l'))
    /\ may_drop (config l) n a /\ log_refines w' l' (a_drop n a) /\ keeps w l w' l'.
Proof.
  intros (Hq & cs & c & Hrep & E).
  destruct (apply_retention_run w l _ cs c Hq Hrep) as (w' & l' & Hrun & -> & Hrep' & Hq' & Hl').
  pose proof (deletes_le _ _ _ _ _ Hrep) as Hle. 
  assert (Hno : max_segment_age (config l) = None -> max_partition_bytes (config l) = None ->
    (age_deletes w l + size_deletes l (drop (age_deletes w l) (segments l)))%nat = 0%nat).
  { intros E1 E2. unfold age_deletes, size_deletes. by rewrite E1, E2. }
  set (n := (_ + _)%nat) in *.
  eexists _, (length (concat (take n cs))), w', _. split; [done|]. split; [|split; [|done]].
  - split; [|intros E1 E2; by rewrite (Hno E1 E2)]. rewrite E. unfold records_of. rewrite length_map, length_app.
    rewrite <- (take_drop n cs) at 2. rewrite concat_app, length_app. lia.
  - split; [done|]. exists (drop n cs), c. split; [done|]. simpl. by rewrite E, records_of_drop.
Qed.

(** ** Durability *)

(** A restart finds the records from the start of the log up to some point. *)
Lemma open_after_crash w w1 l a cfg :
  log_refines w l a -> crash w w1 ->
  exists w2 l2 n, Log.open (dir l) cfg w1 = (Ok l2, w2)
    /\ log_refines w2 l2 (mkALog (a_start a) (take n (a_recs a))) /\ Log.dir l2 = dir l
    /\ config l2 = cfg /\ seg_limit w2 = seg_limit w.
Proof.
  intros (Hq & cs & c & Hrep & E) Hc.
  destruct (crash_recovery _ _ _ cfg _ _ _ Hrep Hc)
    as (c1 & w2 & l2 & Ho & Hrep2 & Hd & Hcf & Hq2 & Hl & [k ->] & _).
  exists w2, l2, (length (concat cs) + length c1)%nat. split; [done|]. split; [|done].
  eapply log_refines_intro; [done|done|]. rewrite E. unfold records_of.
  rewrite <- length_app, app_assoc, map_app.
  rewrite <- (length_map snd (concat cs ++ c1)). by rewrite take_app_length.
Qed.

(** What was synced before it, a restart finds in full. *)
Lemma open_after_sync_and_crash w l w1 l1 w2 a cfg :
  log_refines w l a -> Log.sync (w, l) = (Ok tt, (w1, l1)) -> crash w1 w2 ->
  exists w3 l3, Log.open (dir l) cfg w2 = (Ok l3, w3) /\ log_refines w3 l3 a
    /\ Log.dir l3 = dir l /\ config l3 = cfg.
Proof.
  intros (Hq & cs & c & Hrep & E) Hs Hc.
  destruct (log_sync_run _ _ _ _ _ Hq Hrep) as (w1' & l1' & Hrun & Hrep1 & Hq1 & (Hc1 & Hd1 & _) & Hsy).
  rewrite Hs in Hrun. injection Hrun as <- <-. rewrite <- Hd1 in Hsy.
  destruct (crash_recovery _ _ _ cfg _ _ _ Hrep1 Hc)
    as (c1 & w3 & l3 & Ho & Hrep3 & Hd & Hcf & Hq3 & _ & _ & Hall).
  rewrite (Hall Hsy) in Hrep3. rewrite Hd1 in Ho, Hd.
  exists w3, l3. split; [done|]. split; [|done]. split; [done|]. eauto.
Qed.

#[export] Instance kafko_log : LogContract log_refines.
Proof.
  split.
  - apply log_refines_next.
  - intros w l a Hr. pose proof (log_refines_next _ _ _ Hr) as Hn.
    destruct Hr as (_ & cs & c & [(? & ? & _ & Hco) Hnx] & E). rewrite <- Hn, Hnx.
    split; [apply Hco|]. apply (co_bound _ _ _ _ _ _ _ _ Hco).
  - apply append_refines.
  - apply append_batch_refines.
  - apply read_refines.
  - apply sync_refines.
  - apply retention_refines.
  - apply open_after_sync_and_crash.
  - intros d w w' l a Hs Ha (Hq & cs & c & Hrep & E). split.
    + destruct Hs as [Hf _]. unfold quiet in *. congruence.
    + exists cs, c. split; [by eapply log_rep_apart|done].
Qed.

Lemma open_fresh w dir cfg :
  quiet w -> dirs_free w dir -> dir <> [] -> 0 <= read_max w ->
  (forall name, nodes w !! (dir ++ [name]) = None) ->
  exists w' l, Log.open dir cfg w = (Ok l, w') /\ log_refines w' l (mkALog 0 [])
    /\ Log.dir l = dir /\ config l = cfg.
Proof.
  intros Hq Hf Hne Hm Hn. destruct (open_fresh_run w dir cfg Hq Hf Hne Hm Hn)
    as (w' & l & Ho & Hrep & Hd & Hc & Hq' & Hg).
  exists w', l. split; [done|]. split; [|done]. by eapply log_refines_intro.
Qed.

End instance.
