(* ===== verification/LogFaults.v ===== *)
(** * Appends whose system calls fail

    A batch append under any failure script: it either does what it does when
    no call fails, or returns an error at the first call that fails - an
    fsync, a file creation, a seek, a short write - with the next offset as it
    was and files from which the next start recovers. *)

From S2P Require Import Prelude Bytes Error Compression LogRecord Fs Names Search.
From S2P Require Import Segment SparseIndex Faults Log LogInv LogOps LogRetain LogRecover LogCrash LogSpec.

Section lifts.
Implicit Types (w : World) (l : Log).

(** ** Calls on the active segment *)
Lemma set_segments_same l : set_segments (segments l) l = l.
Proof. by destruct l. Qed.

Lemma snoc_active l a : last (segments l) = Some a -> removelast (segments l) ++ [a] = segments l.
Proof.
  intros Hl. apply last_Some in Hl as [k Hk]. by rewrite Hk, removelast_last.
Qed.

Lemma runs_or_on_active {A} (m : KM (World * IndexedSegment) A) F w l a :
  last (segments l) = Some a -> runs_or Io m F w a ->
  runs_or Io (on_active m)
    (fun w' l' => exists a', l' = set_segments (removelast (segments l) ++ [a']) l /\ F w' a') w l.
Proof.
  unfold runs_or, on_active. simpl. intros ->. intros [[fs Hm]|(e & w' & a' & Hm & HF)].
  - left. exists fs. rewrite Hm. by destruct (m (calm w, a)) as [o []].
  - right. rewrite Hm. eauto 7.
Qed.

Lemma runs_or_on_seg {A} (m : KM (World * Segment.Segment) A) F w s :
  runs_or Io m F w (segment s) ->
  runs_or Io (on_seg m) (fun w' s' => exists t, s' = mkIndexed t (index s) /\ F w' t) w s.
Proof. apply (runs_or_zoom Io segment (fun t s => mkIndexed t (index s))). Qed.

Lemma runs_or_on_idx {A} (m : KM (World * SparseIndex.SparseIndex) A) F w s :
  runs_or Io m F w (index s) ->
  runs_or Io (on_idx m) (fun w' s' => exists t, s' = mkIndexed (segment s) t /\ F w' t) w s.
Proof. apply (runs_or_zoom Io index (fun t s => mkIndexed (segment s) t)). Qed.

Lemma one_call_on_active {A} (m : KM (World * IndexedSegment) A) :
  one_call Io m -> forall l, segments l <> [] -> forall w,
  match faults w with
  | Some f :: fs => on_active m (w, l) = (Err (Io (io_error_from (fault_kind f))), (with_faults fs w, l))
  | fs => on_active m (w, l) = resume (tail fs) (on_active m (calm w, l))
  end.
Proof.
  intros Hm l Hne w. unfold on_active.
  destruct (last (segments l)) as [a|] eqn:Ha; [|by apply last_None in Ha].
  specialize (Hm w a). destruct (faults w) as [|[f|] fs]; rewrite Hm; clear Hm.
  - by destruct (m (calm w, a)) as [o []].
  - by rewrite snoc_active, set_segments_same.
  - by destruct (m (calm w, a)) as [o []].
Qed.

Lemma one_call_on_active_runs {A} (m : KM (World * IndexedSegment) A) (F : World -> Log -> Prop) w l :
  one_call Io m -> segments l <> [] -> (forall fs, F (with_faults fs w) l) ->
  runs_or Io (on_active m) F w l.
Proof.
  intros Hm Hl HF. pose proof (one_call_on_active m Hm l Hl w) as Hc.
  destruct (faults w) as [|[f|] fs].
  - left. eauto.
  - right. eauto 6.
  - left. eauto.
Qed.

Lemma one_call_on_seg {A} (m : KM (World * Segment.Segment) A) : one_call Io m -> one_call Io (on_seg m).
Proof. apply (one_call_zoom Io segment (fun t s => mkIndexed t (index s))). by intros []. Qed.

Lemma one_call_on_idx {A} (m : KM (World * SparseIndex.SparseIndex) A) : one_call Io m -> one_call Io (on_idx m).
Proof. apply (one_call_zoom Io index (fun t s => mkIndexed (segment s) t)). by intros []. Qed.

End lifts.

(** ** The same files under another failure script *)
Section same.
Context {B : Buf} {H : Crc32} {C : Codecs}.
Implicit Types (w : World) (l : Log) (c : list erec) (cs : list (list erec)).

Lemma chain_same w w' dir base ss cs :
  nodes w' = nodes w -> read_max w' = read_max w -> chain w dir base ss cs -> chain w' dir base ss cs.
Proof.
  intros En Em. revert base ss. induction cs as [|c cs IH]; intros base [|s ss]; simpl; try done.
  intros ([Hr ? ? ? ? ? Hm] & [Hs Hx Hi] & ? & ? & Hc).
  split; [split; try done; [eapply rep_same_nodes; [exact Hr|done]|by unfold seg_limit; rewrite Em]|].
  split; [split; [unfold synced in *; by rewrite En..|by eapply SparseIndex.rep_touch; [|rewrite En]]|]. eauto.
Qed.

Lemma dir_ok_same w w' dir bases : nodes w' = nodes w -> dir_ok w dir bases -> dir_ok w' dir bases.
Proof. intros En [H1 H2 H3 H4 H5]. split; unfold dirs_made; rewrite En; done. Qed.

Lemma log_rep_faults fs w l start cs c : log_rep w l start cs c -> log_rep (with_faults fs w) l start cs c.
Proof.
  intros [(s & a & Hs & [Hch [Hr ? ? ? ? ? ?] Hix ? ? ? ? Hd]) ?]. split; [|done]. exists s, a. split; [done|].
  split; try done.
  - by apply (chain_same w).
  - split; try done. eapply rep_same_nodes; [exact Hr|done].
  - by eapply SparseIndex.rep_touch; [exact Hix|].
  - by apply (dir_ok_same w).
Qed.

Lemma stored_same w w' dir start cs c0 c :
  nodes w' = nodes w -> read_max w' = read_max w ->
  stored w dir start cs c0 c -> stored w' dir start cs c0 c.
Proof.
  intros En Em [(s & Hch) Ha Hs ? Hm ? ? Hd]. unfold secured in *. split; unfold secured; rewrite ?En; try done.
  - exists s. by apply (chain_same w).
  - unfold seg_limit. by rewrite Em.
  - by apply (dir_ok_same w).
Qed.

(** Changes to the files of the active segment. *)
Lemma stored_touches w w' dir start cs c0 c c' :
  stored w dir start cs c0 c ->
  touches (seg_files dir (start + len (concat cs))) w w' ->
  nodes w' !! index_path dir (start + len (concat cs)) <> Some NDir ->
  (exists f, nodes w' !! segment_path dir (start + len (concat cs)) = Some (NFile f)
     /\ f_data f `prefix_of` concat (frames (c0 ++ c'))) ->
  secured w' dir (start + len (concat cs)) (concat (frames c0)) -> Forall decodes (c0 ++ c') ->
  len (concat (frames (c0 ++ c'))) <= seg_limit w -> start + len (concat cs) + len (c0 ++ c') < 2 ^ 64 ->
  stored w' dir start cs c0 c'.
Proof.
  intros [(s & Hch) _ _ _ _ Hst Hb Hd] Ht Hi Ha Hs Hdec Hm Hb'.
  pose proof (len_nonneg (concat cs)). pose proof (len_nonneg (c0 ++ c)). split; try done.
  - exists s. eapply chain_seg_files; [done|split; lia|done|lia|by right; lia|done].
  - by erewrite seg_limit_touches.
  - eapply dir_ok_touches; [done|split; lia|apply all_bases_last|done|done].
Qed.

(** A change of one file, seen as a run without a failure script. *)
Lemma appended_touches p bytes w w' :
  appended p bytes w w' ->
  exists w1, touches [p] w w1 /\ nodes w' = nodes w1 /\ read_max w' = read_max w1.
Proof.
  intros (Hm & Hs & _). exists (mkWorld (nodes w') (now_ms w) (faults w) (read_max w)).
  split; [|done]. do 3 (split; [done|]). intros q Hq. apply Hs. intros ->. apply Hq, list_elem_of_here.
Qed.

(** A short write to the active segment. *)
Lemma core_appended w w' l start cs c0 c k ps :
  log_core w l start cs (c0 ++ c) k ->
  secured w (dir l) (start + len (concat cs)) (concat (frames c0)) ->
  Forall decodes ps -> len (concat (frames (c0 ++ c))) + len (concat (frames ps)) <= seg_limit w ->
  start + len (concat cs) + len (c0 ++ c) + len ps < 2 ^ 64 ->
  appended (segment_path (dir l) (start + len (concat cs))) (concat (frames ps)) w w' ->
  stored w' (dir l) start cs c0 (c ++ ps).
Proof.
  intros Hco Hs Hps Hm Hb Ha. pose proof (core_stored _ _ _ _ _ _ _ Hco Hs) as Hst.
  destruct (appended_touches _ _ _ _ Ha) as (w1 & Ht & En & Em).
  destruct Ha as (_ & _ & f & f' & n & Hf & Hf' & Hd & Hsy & _).
  assert (Hdata : f_data f = concat (frames (c0 ++ c))).
  { destruct Hco as (se & a & _ & Hco). destruct (co_active _ _ _ _ _ _ _ _ Hco) as [Hr _ Hp _ _ _ _].
    destruct (Segment.rep_node _ _ _ Hr) as (g & Hg & E). rewrite Hp, Hf in Hg. by injection Hg as <-. }
  eapply stored_same; [exact En|exact Em|]. rewrite En in Hf'.
  eapply stored_touches; [exact Hst|by apply touches_fst| |..].
  - erewrite touches_lookup; [by eapply do_nodir, so_dir|exact Ht|].
    intros E%list_elem_of_singleton. symmetry in E. by apply segment_index_path_ne in E.
  - exists f'. split; [done|]. rewrite Hd, Hdata, app_assoc, (frames_app (c0 ++ c)), concat_app.
    by apply prefix_app, prefix_take.
  - destruct Hs as (g & Hg & Hp). rewrite Hf in Hg. injection Hg as <-. exists f'. by rewrite Hsy.
  - rewrite app_assoc. apply Forall_app. split; [by eapply so_dec|done].
  - by rewrite app_assoc, (frames_app (c0 ++ c)), concat_app, len_app.
  - rewrite app_assoc, len_app. lia.
Qed.

(** A short write to its index. *)
Lemma stored_index_appended w w' dir start cs c0 c bytes :
  stored w dir start cs c0 c -> appended (index_path dir (start + len (concat cs))) bytes w w' ->
  stored w' dir start cs c0 c.
Proof.
  intros Hst Ha. destruct (appended_touches _ _ _ _ Ha) as (w1 & Ht & En & Em).
  destruct Ha as (_ & _ & f & f' & n & Hf & Hf' & _ & _).
  assert (E : nodes w1 !! segment_path dir (start + len (concat cs)) = nodes w !! segment_path dir (start + len (concat cs))).
  { eapply touches_lookup; [exact Ht|]. intros E%list_elem_of_singleton. by apply segment_index_path_ne in E. }
  eapply stored_same; [exact En|exact Em|]. rewrite En in Hf'.
  eapply stored_touches; [exact Hst|by apply touches_snd|by rewrite Hf'|..]; try apply Hst.
  - rewrite E. apply Hst.
  - apply (secures_same _ _ _ _ E), Hst.
Qed.

(** ** What a failing call leaves

    [recoverable w dir start recs n]: the next start will find the records of
    [recs] up to some point, and at least the first [n]. *)
Definition recoverable (w : World) (dir : path) (start : Z) (recs : list erec) (n : nat) : Prop :=
  exists cs c0 c1, stored w dir start cs c0 c1
    /\ (concat cs ++ c0 ++ c1) `prefix_of` recs /\ (n <= length (concat cs ++ c0))%nat.

Lemma recoverable_intro w dir start recs n cs c0 c1 :
  stored w dir start cs c0 c1 -> concat cs ++ c0 ++ c1 = recs -> (n <= length (concat cs ++ c0))%nat ->
  recoverable w dir start recs n.
Proof. intros Hs E Hn. exists cs, c0, c1. split; [done|]. by rewrite E. Qed.

Lemma recoverable_more w dir start recs recs' n n' :
  recoverable w dir start recs n -> recs `prefix_of` recs' -> (n' <= n)%nat ->
  recoverable w dir start recs' n'.
Proof.
  intros (cs & c0 & c1 & Hs & Hp & Hn) Hp' Hn'. exists cs, c0, c1. split; [done|].
  split; [by etrans|lia].
Qed.

Lemma recoverable_faults fs w dir start recs n :
  recoverable w dir start recs n -> recoverable (with_faults fs w) dir start recs n.
Proof.
  intros (cs & c0 & c1 & Hs & Hp). exists cs, c0, c1. split; [|done]. by eapply stored_same; [| |exact Hs].
Qed.

(** A segment file without an index, left by a rotation. *)
Lemma stored_leftover w dir start sealed a cs c n t :
  core w dir start sealed a cs c (length c) ->
  synced w (segment_path dir (start + len (concat cs))) ->
  synced w (index_path dir (start + len (concat cs))) ->
  c <> [] -> n = start + len (concat cs) + len c -> 0 <= read_max w ->
  stored (set_nodes <[segment_path dir n := NFile (FNode [] [] t)]> w) dir start (cs ++ [c]) [] [].
Proof.
  intros [Hch Ha Hix Hp _ Hst Hb Hd] Hs1 Hs2 Hne -> Hrm. set (n := start + _ + _).
  pose proof (len_nonneg (concat cs)). pose proof (len_pos c Hne).
  assert (Hcat : start + len (concat (cs ++ [c])) = n).
  { unfold n. rewrite concat_app, len_app. simpl. rewrite app_nil_r. lia. }
  set (w' := set_nodes _ w).
  assert (Ht : touches (seg_files dir n) w w') by apply touches_fst, touches_insert.
  assert (Hn : nodes w' !! segment_path dir n = Some (NFile (FNode [] [] t))) by apply lookup_insert_eq.
  assert (Hch' : chain w dir start (sealed ++ [a]) (cs ++ [c])).
  { apply chain_snoc; try done. split; [by rewrite (sk_path _ _ _ _ _ Ha)|by rewrite (sk_ipath _ _ _ _ _ Ha)|done]. }
  split; rewrite ?Hcat; try done.
  - exists (sealed ++ [a]). eapply chain_seg_files; [done|split; lia|lia|lia|right; lia|done].
  - by eexists.
  - eexists. split; [done|]. apply prefix_nil.
  - simpl. unfold seg_limit, u32_max, len. simpl. lia.
  - simpl. rewrite len_nil. lia.
  - eapply dir_ok_touches; [exact Ht|split; lia|rewrite <- Hcat; apply all_bases_last| |].
    + intros E. apply (do_nodir _ _ _ Hd n). rewrite <- E. symmetry. simpl. apply lookup_insert_ne.
      apply segment_index_path_ne.
    + eapply dir_ok_weaken; [|exact Hd]. unfold all_bases at 2. rewrite bases_of_snoc.
      by apply list_subseteq_app_l.
Qed.

(** ** Rotation *)
Lemma log_rep_nonempty w l start cs c : log_rep w l start cs c -> segments l <> [].
Proof. intros [(s & a & -> & _) _]. by destruct s. Qed.

Lemma core_read_max w l start cs c k : log_core w l start cs c k -> 0 <= read_max w.
Proof.
  intros (s & a & _ & Hco). pose proof (sk_max _ _ _ _ _ (co_active _ _ _ _ _ _ _ _ Hco)) as Hm.
  pose proof (len_nonneg (concat (frames c))). unfold seg_limit in Hm. lia.
Qed.

(** The two files of the new segment, once the old one is synced. *)
Lemma rotate_create_runs fs w l start sealed a cs c :
  quiet w -> segments l = sealed ++ [a] -> core w (dir l) start sealed a cs c (length c) -> c <> [] ->
  next_offset l = start + len (concat cs) + len c ->
  synced w (segment_path (dir l) (start + len (concat cs))) ->
  synced w (index_path (dir l) (start + len (concat cs))) ->
  runs_or Io
    (let* new_segment := in_world (Segment.create (dir l) (next_offset l)) in
     let* new_index :=
       in_world (SparseIndex.create (dir l) (next_offset l) (index_interval (config l))) in
     modify_self (fun l => set_segments (segments l ++ [mkIndexed new_segment new_index]) l))
    (fun w' l' => l' = l /\ recoverable w' (dir l) start (concat cs ++ c) (length (concat cs ++ c)))
    (with_faults fs w) l.
Proof.
  intros Hq Hs Hco Hne Hn Hs1 Hs2.
  assert (Hlc : log_core w l start cs c (length c)) by (exists sealed, a; done).
  assert (Hst : stored w (dir l) start cs c []).
  { eapply core_stored; [rewrite app_nil_r; exact Hlc|]. by eapply synced_secured. }
  pose proof (core_read_max _ _ _ _ _ _ Hlc) as Hrm. pose proof (len_pos c Hne) as Hpos.
  pose proof (len_nonneg (concat cs)) as Hnn.
  pose proof Hco as [_ _ _ _ _ Hst0 Hbd Hd]. pose proof (do_dir _ _ _ Hd) as Hdir.
  assert (Hlt : forall x, x ∈ all_bases start cs -> x < next_offset l) by (intros x Hx%all_bases_le; lia).
  destruct (segment_create_run w (dir l) (next_offset l) Hq) as (sg' & Hc & _);
    [eapply dir_ok_segment_fresh; [exact Hd|done|split; lia]|by apply parent_segment_path|].
  apply runs_or_bind.
  { apply one_call_runs; [apply one_call_create|]. intros fs'. split; [done|].
    apply recoverable_faults, recoverable_faults. eapply recoverable_intro; [exact Hst|by rewrite app_nil_r|done]. }
  intros sg w1 l1 H1. rewrite calm_with_faults, (calm_of_quiet _ Hq) in H1.
  rewrite (in_world_run _ _ _ l _ Hc) in H1. injection H1 as <- <- <-. split; [done|]. intros fs1.
  set (w1 := set_nodes _ w).
  apply runs_or_bind; [|intros ix w2 l2 H2; split; [|intros fs2; apply runs_or_update]].
  - apply one_call_runs; [apply one_call_create|]. intros fs'. split; [done|].
    apply recoverable_faults, recoverable_faults. eapply (recoverable_intro _ _ _ _ _ (cs ++ [c]) [] []).
    + by eapply stored_leftover.
    + rewrite concat_app. simpl. by rewrite !app_nil_r.
    + rewrite concat_app. simpl. by rewrite !app_nil_r.
  - rewrite calm_with_faults, (calm_of_quiet w1 Hq) in H2.
    destruct (index_create_run w1 (dir l) (next_offset l) (index_interval (config l)) Hq) as (ix' & Hci & _).
    + unfold w1. simpl. rewrite lookup_insert_ne by apply segment_index_path_ne.
      apply (do_fresh _ _ _ Hd); [done|lia].
    + apply parent_index_path. unfold w1. simpl. rewrite lookup_insert_ne; [done|].
      unfold segment_path. intros E. symmetry in E. by apply snoc_ne in E.
    + rewrite (in_world_run _ _ _ l _ Hci) in H2. by injection H2 as _ <- _.
Qed.

Lemma rotate_runs w l start cs c0 c1 :
  log_rep w l start cs (c0 ++ c1) -> c0 ++ c1 <> [] ->
  secured w (dir l) (start + len (concat cs)) (concat (frames c0)) ->
  runs_or Io rotate_active_segment
    (fun w' l' => next_offset l' = next_offset l
       /\ recoverable w' (dir l) start (concat cs ++ c0 ++ c1) (length (concat cs ++ c0))) w l.
Proof.
  intros Hr Hne Hse. pose proof (log_rep_nonempty _ _ _ _ _ Hr) as Hl.
  pose proof (core_stored _ _ _ _ _ _ _ (proj1 Hr) Hse) as Hst.
  destruct (log_rep_faults [] w l start cs _ Hr) as [Hco Hn]. change (with_faults [] w) with (calm w) in Hco.
  assert (Hle : (length (concat cs ++ c0) <= length (concat cs ++ c0 ++ c1))%nat).
  { rewrite app_assoc, (length_app (concat cs ++ c0)). lia. }
  unfold rotate_active_segment. apply runs_or_bind.
  { apply one_call_on_active_runs; [apply one_call_on_seg, one_call_segment_sync|done|].
    intros fs. split; [done|]. apply recoverable_faults. by eapply recoverable_intro. }
  intros [] w1 l1 H1.
  destruct (core_sync_segment (calm w) l start cs _ _ (calm_quiet w) Hco) as (w1' & segs1 & H1' & Hco1 & Hs1 & Hq1 & Hl1).
  rewrite H1 in H1'. injection H1' as -> ->. split; [done|]. intros fs1.
  apply runs_or_bind.
  { apply one_call_on_active_runs; [apply one_call_on_idx, one_call_index_sync| |].
    - destruct Hco1 as (s & a & E & _). rewrite E. by destruct s.
    - intros fs. split; [done|]. apply recoverable_faults, recoverable_faults.
      eapply (recoverable_intro _ _ _ _ _ cs (c0 ++ c1) []); [|by rewrite app_nil_r|exact Hle].
      eapply (core_stored w1' (set_segments segs1 l)); [rewrite app_nil_r; exact Hco1|].
      by eapply (synced_secured w1' (set_segments segs1 l)). }
  intros [] w2 l2 H2. rewrite calm_with_faults, (calm_of_quiet _ Hq1) in H2.
  destruct (core_sync_index w1' _ start cs _ _ Hq1 Hco1 Hs1) as (w2' & sealed & a & H2' & Hco2 & Hs2 & Hi2 & Hq2 & Hl2).
  rewrite H2 in H2'. injection H2' as -> ->. split; [done|]. intros fs2. apply runs_or_self.
  eapply runs_or_imp; [|by eapply rotate_create_runs].
  intros w' l' [-> Hrec]. split; [done|]. by eapply recoverable_more.
Qed.
End same.

Section append.
Context {B : Buf} {BL : BufLaws B} {H : Crc32} {HL : Crc32Laws H} {C : Codecs} {CL : CodecLaws C}.
Implicit Types (w : World) (l : Log) (c : list erec) (cs : list (list erec)).

(** ** Writing the records and their index entries *)
Lemma core_write_runs fs w l start cs c0 c1 k ps :
  log_core w l start cs (c0 ++ c1) k ->
  secured w (dir l) (start + len (concat cs)) (concat (frames c0)) -> Forall decodes ps ->
  len (concat (frames (c0 ++ c1))) + len (concat (frames ps)) <= seg_limit w ->
  start + len (concat cs) + len (c0 ++ c1) + len ps < 2 ^ 64 ->
  runs_or Io (on_active (on_seg (Segment.append (concat (frames ps)))))
    (fun w' l' => next_offset l' = next_offset l /\ stored w' (dir l) start cs c0 (c1 ++ ps))
    (with_faults fs w) l.
Proof.
  intros Hlc Hse Hps Hm Hb. pose proof Hlc as (sealed & a & Hs & Hco).
  destruct (co_active _ _ _ _ _ _ _ _ Hco) as [Hr _ Hp _ _ _ _].
  eapply runs_or_imp; [|eapply runs_or_on_active; [by rewrite Hs, last_snoc|apply runs_or_on_seg;
    apply (segment_append_runs _ _ _ (concat (frames ps)) (rep_same_nodes w (with_faults fs w) _ _ Hr eq_refl))]].
  intros w' l' (a' & -> & sg & _ & Ha). split; [done|]. eapply (core_appended w); try done. by rewrite <- Hp.
Qed.

Lemma core_track_runs fs w l start cs c0 c1 k off pos size :
  log_core w l start cs (c0 ++ c1) k ->
  secured w (dir l) (start + len (concat cs)) (concat (frames c0)) ->
  runs_or Io (on_active (on_idx (SparseIndex.track_append off pos size)))
    (fun w' l' => next_offset l' = next_offset l /\ stored w' (dir l) start cs c0 c1)
    (with_faults fs w) l.
Proof.
  intros Hlc Hse. pose proof Hlc as (sealed & a & Hs & Hco).
  destruct (co_index _ _ _ _ _ _ _ _ Hco) as [Hfd (f & Hf & _)].
  eapply runs_or_imp; [|eapply runs_or_on_active; [by rewrite Hs, last_snoc|apply runs_or_on_idx;
    apply (track_append_runs (with_faults fs w) (index a) off pos size f Hfd Hf)]].
  intros w' l' (a' & -> & ix & _ & bytes & Ha & _). split; [done|].
  eapply (stored_index_appended w); [by eapply core_stored|].
  by rewrite <- (sk_ipath _ _ _ _ _ (co_active _ _ _ _ _ _ _ _ Hco)).
Qed.

Lemma track_all_runs offs sizes i fs w l start cs c0 c1 k :
  quiet w -> log_core w l start cs (c0 ++ c1) k ->
  secured w (dir l) (start + len (concat cs)) (concat (frames c0)) ->
  sizes = map len (frames (drop k (c0 ++ c1))) ->
  (forall j, (j < length sizes)%nat ->
     offs !! (i + j)%nat = Some (start + len (concat cs) + Z.of_nat (k + j))) ->
  runs_or Io (track_all offs sizes i (pos_of (frames (c0 ++ c1)) k))
    (fun w' l' => next_offset l' = next_offset l /\ stored w' (dir l) start cs c0 c1)
    (with_faults fs w) l.
Proof.
  intros Hq Hco Hse Hsz Ho. revert w l i k fs Hq Hco Hse Hsz Ho.
  induction sizes as [|sz sizes IH]; intros w l i k fs Hq Hco Hse Hsz Ho; simpl; [apply runs_or_ret|].
  set (c := c0 ++ c1) in *.
  destruct (next_size c k sz sizes Hsz (core_bytes _ _ _ _ _ _ Hco)) as (Hk & Hsz' & HS).
  pose proof (Ho 0%nat ltac:(simpl; lia)) as Ho0. rewrite !Nat.add_0_r in Ho0. rewrite Ho0.
  apply runs_or_bind; [by eapply core_track_runs|].
  intros [] w1 l1 H1. rewrite calm_with_faults, (calm_of_quiet _ Hq) in H1.
  destruct (core_track w l start cs c k sz Hq Hco Hk) as (w1' & segs1 & Hr & Hco1 & Hq1 & Hl1 & Hsec).
  rewrite H1 in Hr. injection Hr as -> ->. split; [done|]. intros fs1. rewrite HS.
  apply (IH w1' (set_segments segs1 l) (S i) (S k) fs1 Hq1 Hco1 (Hsec _ Hse) Hsz').
  intros j Hj. replace (S i + j)%nat with (i + S j)%nat by lia. rewrite (Ho (S j)) by (simpl; lia).
  f_equal. lia.
Qed.
(** ** The whole batch

    What a failed batch leaves: the next offset, and files with the old records
    and perhaps the first of the new ones. *)
Definition batch_failed (l : Log) (start : Z) (recs : list erec) (n : nat) (w' : World) (l' : Log) : Prop :=
  next_offset l' = next_offset l /\ recoverable w' (dir l) start recs n.

(** Everything after the rotation. *)
Lemma batch_rest_runs fs w l start cs c0 c1 rs :
  let cmp := compression (config l) in
  quiet w -> log_rep w l start cs (c0 ++ c1) ->
  secured w (dir l) (start + len (concat cs)) (concat (frames c0)) -> Forall (storable cmp) rs ->
  len (concat (frames (c0 ++ c1))) + len (concat (frames (wires cmp rs))) <= seg_limit w ->
  next_offset l + len rs < 2 ^ 64 ->
  runs_or Io
    (let* l := self in
     let compression := compression (config l) in
     let* _ := modify_self (fun l => set_actual_sizes [] (set_encode_buf [] l)) in
     let* enc := encode_all compression rs [] (next_offset l) in
     let '(offsets, current_offset) := enc in
     let* l := self in
     let* file_pos := on_active (on_seg (Segment.append (encode_buf l))) in
     let* _ := track_all offsets (actual_sizes l) 0 file_pos in
     let* _ := modify_self (set_next_offset current_offset) in
     ret offsets)
    (batch_failed l start (concat cs ++ c0 ++ c1 ++ wires cmp rs) (length (concat cs ++ c0)))
    (with_faults fs w) l.
Proof.
  intros cmp Hq [Hco Hn] Hse Hst Hb Hn2. pose proof (wires_decode cmp rs Hst) as Hps.
  assert (Hlen : len (wires cmp rs) = len rs) by (unfold len; by rewrite length_wires).
  assert (H0 : 0 <= next_offset l).
  { rewrite Hn. destruct Hco as (? & ? & _ & []). pose proof (len_nonneg (concat cs)).
    pose proof (len_nonneg (c0 ++ c1)). lia. }
  apply runs_or_self. cbv zeta. apply runs_or_modify. apply runs_or_bind.
  { eapply runs_or_pure. intros w'. by apply encode_all_run. }
  intros [offs cur] w1 l1 H1. rewrite calm_with_faults, (calm_of_quiet _ Hq), encode_all_run in H1 by done.
  injection H1 as <- <- <- <-. split; [done|]. intros fs1. apply runs_or_self. simpl.
  set (l2 := set_actual_sizes _ _). fold cmp.
  assert (Hco2 : log_core w l2 start cs (c0 ++ c1) (length (c0 ++ c1))) by exact Hco.
  assert (Hfail : forall w' l', next_offset l' = next_offset l /\ stored w' (dir l) start cs c0 (c1 ++ wires cmp rs) ->
    batch_failed l start (concat cs ++ c0 ++ c1 ++ wires cmp rs) (length (concat cs ++ c0)) w' l').
  { intros w' l' [Hn' Hs']. split; [done|]. by eapply recoverable_intro. }
  apply runs_or_bind.
  { eapply runs_or_imp; [exact Hfail|]. eapply (core_write_runs fs1 w l2); try done. lia. }
  intros fpos w3 l3 H3. rewrite calm_with_faults, (calm_of_quiet _ Hq) in H3.
  destruct (core_write w l2 start cs (c0 ++ c1) (wires cmp rs) Hq Hco2 Hps) as (w3' & segs3 & H3' & Hco3 & Hq3 & _ & Hsec);
    [done|lia|].
  rewrite H3 in H3'. injection H3' as -> -> ->. split; [done|]. intros fs3. rewrite <- app_assoc in Hco3.
  assert (Hsz : map len (frames (wires cmp rs))
                = map len (frames (drop (length (c0 ++ c1)) (c0 ++ c1 ++ wires cmp rs)))).
  { by rewrite app_assoc, drop_app_length. }
  assert (Hoffs : forall j, (j < length (map len (frames (wires cmp rs))))%nat ->
    offsets_from (next_offset l) (length rs) !! (0 + j)%nat
      = Some (start + len (concat cs) + Z.of_nat (length (c0 ++ c1) + j))).
  { intros j Hj. rewrite length_map, length_frames, length_wires in Hj. simpl.
    rewrite offsets_from_lookup by done. f_equal. unfold len in Hn |- *. lia. }
  rewrite <- (pos_of_all (frames (c0 ++ c1))), length_frames,
    <- (pos_of_app_l _ (frames (wires cmp rs)) (length (c0 ++ c1))), <- frames_app, <- app_assoc
    by (by rewrite length_frames).
  apply runs_or_bind; [|intros [] w4 l4 H4; split; [|intros fs4; runs_pure]].
  - eapply runs_or_imp; [exact Hfail|].
    by apply (track_all_runs _ _ _ fs3 w3' (set_segments segs3 l2)); [| |apply Hsec| |].
  - rewrite calm_with_faults, (calm_of_quiet _ Hq3) in H4.
    destruct (track_all_run _ _ 0 w3' (set_segments segs3 l2) start cs _ _ Hq3 Hco3 Hsz Hoffs)
      as (w4' & segs4 & H4' & _ & Hq4 & _).
    rewrite H4 in H4'. by injection H4' as -> _.
Qed.

(** A batch under any failure script. *)
Lemma append_batch_runs w l start cs c0 c1 rs :
  let cmp := compression (config l) in
  log_rep w l start cs (c0 ++ c1) ->
  secured w (dir l) (start + len (concat cs)) (concat (frames c0)) -> Forall (storable cmp) rs ->
  room w (config l) rs -> next_offset l + len rs < 2 ^ 64 ->
  runs_or Io (Log.append_batch rs)
    (batch_failed l start (concat cs ++ c0 ++ c1 ++ wires cmp rs) (length (concat cs ++ c0))) w l.
Proof.
  intros cmp Hr Hse Hst Hroom Hb. pose proof (log_rep_faults [] w l start cs _ Hr) as Hrc.
  fold (calm w) in Hrc. set (c := c0 ++ c1) in *.
  unfold Log.append_batch. destruct rs as [|r0 rs0]; [apply runs_or_ret|].
  set (rs := r0 :: rs0) in *. cbv zeta. fold (total_wire_size rs). clearbody rs.
  set (rest := fun _ : unit => bind self _). pose proof (len_nonneg rs) as Hrs.
  pose proof (rm_wire _ _ _ Hroom) as Hws. pose proof (total_wire_size_nonneg rs) as Hws0.
  destruct (overflow_cases (calm w) l start cs c (total_wire_size rs) Hrc ltac:(lia)) as (ov & Ho & Hov).
  apply runs_or_bind; [eapply runs_or_pure; intros w'; by eapply overflow_any|].
  intros ov' w1 l1 H1. rewrite Ho in H1. injection H1 as <- <- <-. split; [done|]. intros fs1.
  pose proof (len_nonneg (concat cs)) as Hcs. pose proof (len_nonneg c) as Hcn.
  destruct ov.
  - apply runs_or_bind.
    { eapply runs_or_imp; [|eapply (rotate_runs (with_faults fs1 w)); [by apply log_rep_faults|done|exact Hse]].
      intros w' l' [Hn' Hrec]. split; [done|]. eapply recoverable_more; [exact Hrec| |done].
      rewrite !app_assoc. by apply prefix_app_r. }
    intros [] w2 l2 H2. change (calm (with_faults fs1 (calm w))) with (calm w) in H2.
    destruct (rotate_run (calm w) l start cs c (calm_quiet w) Hrc Hov ltac:(lia)) as (w2' & segs2 & H2' & Hr2 & Hq2 & Hl2).
    rewrite H2 in H2'. injection H2' as -> ->. split; [done|]. intros fs2.
    pose proof Hr2 as [Hco2 _].
    eapply runs_or_imp; [|apply (batch_rest_runs fs2 w2' (set_segments segs2 l) start (cs ++ [c]) [] [] rs);
      [done|exact Hr2|by eapply secured_nothing|done| |done]].
    + intros w' l' [Hn' Hrec]. split; [done|]. eapply recoverable_more; [exact Hrec| |].
      * rewrite concat_app. simpl. rewrite app_nil_r, <- !app_assoc. unfold c. by rewrite <- !app_assoc.
      * rewrite concat_app. simpl. rewrite !app_nil_r. unfold c. rewrite !length_app. lia.
    + simpl. rewrite (stays_limit _ _ _ Hl2). apply (room_active (calm w) (config l) rs []); [|by left].
      by destruct Hroom.
  - change (bind (if false then rotate_active_segment else ret tt) rest) with (rest tt).
    apply (batch_rest_runs fs1 (calm w) l start cs c0 c1 rs); try done.
    apply (room_active (calm w) (config l) rs c); [by destruct Hroom|done].
Qed.
End append.

(** ** The next start *)
Section restart.
Context {B : Buf} {BL : BufLaws B} {H : Crc32} {HL : Crc32Laws H} {C : Codecs} {CL : CodecLaws C}.
Implicit Types (w : World) (l : Log) (c : list erec) (cs : list (list erec)).

Lemma recoverable_open w w1 dir start recs n cfg :
  recoverable w dir start recs n -> crash w w1 ->
  exists w2 l2 m, Log.open dir cfg w1 = (Ok l2, w2)
    /\ log_refines w2 l2 (mkALog start (take m (map snd recs))) /\ (n <= m)%nat.
Proof.
  intros (cs & c0 & c1 & Hst & [k Hk] & Hn) Hc.
  destruct (stored_crash _ _ _ _ _ _ _ Hst Hc) as (c2 & t & Hd & [k' Hk']).
  destruct (log_open_run w1 dir cfg start cs (c0 ++ c2) t (cr_quiet _ _ Hc) Hd)
    as (w2 & l2 & Ho & Hrep & _ & _ & Hq & _).
  exists w2, l2, (length (concat cs ++ c0 ++ c2)). split; [done|]. split.
  - eapply log_refines_intro; [done|done|]. unfold records_of.
    rewrite Hk, Hk', !map_app, <- !app_assoc, !length_app.
    rewrite (app_assoc (map snd c0)), (app_assoc (map snd (concat cs))).
    rewrite take_app_le by (rewrite !length_app, !length_map; lia).
    rewrite take_ge by (rewrite !length_app, !length_map; lia). done.
  - rewrite !length_app in *. lia.
Qed.

Lemma batch_records cs c0 c1 cmp rs :
  map snd (concat cs ++ c0 ++ c1 ++ wires cmp rs) = records_of cs (c0 ++ c1) ++ rs.
Proof.
  unfold records_of. rewrite (app_assoc c0), (app_assoc (concat cs)), (map_app snd (_ ++ _)).
  by rewrite snd_wires.
Qed.

(** The batch when no call fails. *)
Lemma append_batch_calm w l start cs c rs :
  log_rep w l start cs c -> Forall (storable (compression (config l))) rs -> room w (config l) rs ->
  next_offset l + len rs < 2 ^ 64 ->
  exists w' l', Log.append_batch rs (calm w, l)
      = (Ok (offsets_from (next_offset l) (length rs)), (w', l'))
    /\ log_refines w' l' (mkALog start (records_of cs c ++ rs)).
Proof.
  intros Hr Hst Hroom Hb.
  destruct (log_append_batch_run (calm w) l start cs c rs (calm_quiet w) (log_rep_faults [] w l start cs c Hr) Hst)
    as (w' & l' & cs' & c' & Hrun & Hr' & Hcat & _ & _ & Hq & _); [by destruct Hroom|done|].
  exists w', l'. split; [done|]. eapply log_refines_intro; [done|exact Hr'|]. unfold records_of.
  by rewrite Hcat, app_assoc, (map_app snd (_ ++ _)), snd_wires.
Qed.

(** ** A rotation that fails half way *)
Lemma segment_sync_again w s data :
  quiet w -> Segment.rep w s data -> synced w (seg_path s) -> Segment.sync (w, s) = (Ok tt, (w, s)).
Proof.
  intros Hq Hr (f & Hf & Hs). pose proof (Segment.rep_path _ _ _ Hr) as Hp.
  unfold Segment.sync. destruct s as [b p [fp fpos] sz cur]. simpl in *. subst fp.
  erewrite segment_on_file_run; [|by apply sync_data_run]. unfold Segment.set_file. simpl. do 2 f_equal.
  destruct w as [ns t fs rm]. unfold set_nodes. simpl in *. f_equal. apply insert_id. rewrite Hf.
  destruct f. simpl in *. by subst.
Qed.

Lemma index_sync_again w s :
  quiet w -> SparseIndex.rep w s -> synced w (idx_path s) -> SparseIndex.sync (w, s) = (Ok tt, (w, s)).
Proof.
  intros Hq [Hp _] (f & Hf & Hs).
  unfold SparseIndex.sync. destruct s as [b p [fp fpos] es n iv]. simpl in *. subst fp.
  erewrite index_on_file_run; [|by apply sync_data_run]. unfold SparseIndex.set_file. simpl. do 2 f_equal.
  destruct w as [ns t fs rm]. unfold set_nodes. simpl in *. f_equal. apply insert_id. rewrite Hf.
  destruct f. simpl in *. by subst.
Qed.

(** With a file of the next segment's name in the way and the active segment
    synced, a rotation fails and changes nothing at all. *)
Lemma rotate_stuck w l sealed a data n :
  quiet w -> segments l = sealed ++ [a] -> Segment.rep w (segment a) data -> SparseIndex.rep w (index a) ->
  synced w (seg_path (segment a)) -> synced w (idx_path (index a)) ->
  nodes w !! segment_path (dir l) (next_offset l) = Some n ->
  rotate_active_segment (w, l) = (Err (Io (io_error_from AlreadyExists)), (w, l)).
Proof.
  intros Hq Hs Hr Hi Hs1 Hs2 Hn. unfold rotate_active_segment.
  assert (Hl : set_segments (sealed ++ [a]) l = l) by (rewrite <- Hs; apply set_segments_same).
  erewrite bind_Ok.
  2: { erewrite on_active_run; [|exact Hs|by apply on_seg_run, (segment_sync_again w _ data)].
       destruct a. simpl in *. by rewrite Hl. }
  erewrite bind_Ok.
  2: { erewrite on_active_run; [|exact Hs|by apply on_idx_run, index_sync_again].
       destruct a. simpl in *. by rewrite Hl. }
  rewrite bind_self. erewrite bind_Err; [reflexivity|]. apply in_world_run.
  unfold Segment.create. erewrite bind_Err; [reflexivity|]. apply io_Err. by eapply open_create_new_exists.
Qed.
(** One call of a run, let through by the script. *)
Lemma one_call_pass {S E A} inj (m : M (World * S) E A) fs w s o w' s' :
  one_call inj m -> quiet w -> m (w, s) = (o, (w', s')) ->
  m (with_faults (None :: fs) w, s) = (o, (with_faults fs w', s')).
Proof.
  intros Hm Hq E1. specialize (Hm (with_faults (None :: fs) w) s). simpl in Hm.
  rewrite Hm, calm_with_faults, calm_of_quiet, E1 by done. done.
Qed.

Lemma on_active_pass {A} (m : KM (World * IndexedSegment) A) fs w l o w' l' :
  one_call Io m -> segments l <> [] -> quiet w -> on_active m (w, l) = (o, (w', l')) ->
  on_active m (with_faults (None :: fs) w, l) = (o, (with_faults fs w', l')).
Proof.
  intros Hm Hl Hq E1. pose proof (one_call_on_active m Hm l Hl (with_faults (None :: fs) w)) as Hc.
  simpl in Hc. rewrite Hc, calm_with_faults, calm_of_quiet, E1 by done. done.
Qed.

Lemma one_call_fail {S E A} inj (m : M (World * S) E A) f fs w s :
  one_call inj m ->
  m (with_faults (Some f :: fs) w, s) = (Err (inj (io_error_from (fault_kind f))), (with_faults fs w, s)).
Proof. intros Hm. exact (Hm (with_faults (Some f :: fs) w) s). Qed.

(** The rotation stops between the two files of the new segment. *)
Lemma rotate_index_fails w l start cs c f :
  log_rep w l start cs c -> c <> [] -> next_offset l < 2 ^ 64 ->
  faults w = [None; None; None; Some f] ->
  exists w1 sealed a n,
    rotate_active_segment (w, l) = (Err (Io (io_error_from (fault_kind f))), (w1, set_segments (sealed ++ [a]) l))
    /\ quiet w1 /\ Segment.rep w1 (segment a) (concat (frames c)) /\ SparseIndex.rep w1 (index a)
    /\ synced w1 (seg_path (segment a)) /\ synced w1 (idx_path (index a))
    /\ nodes w1 !! segment_path (dir l) (next_offset l) = Some n
    /\ recoverable w1 (dir l) start (concat cs ++ c) (length (concat cs ++ c)).
Proof.
  intros Hr Hne Hnb Hf. pose proof (log_rep_nonempty _ _ _ _ _ Hr) as Hl.
  destruct (log_rep_faults [] w l start cs c Hr) as [Hco Hn]. change (with_faults [] w) with (calm w) in Hco.
  assert (Hw : w = with_faults [None; None; None; Some f] (calm w)) by (destruct w; simpl in *; by subst).
  destruct (core_sync_segment (calm w) l start cs c _ (calm_quiet w) Hco) as (w1 & segs1 & H1 & Hco1 & Hs1 & Hq1 & Hl1).
  assert (Hl2 : segments (set_segments segs1 l) <> []).
  { destruct Hco1 as (s & a & E & _). rewrite E. by destruct s. }
  destruct (core_sync_index w1 _ start cs c _ Hq1 Hco1 Hs1) as (w2 & sealed & a & H2 & Hco2 & Hs2 & Hi2 & Hq2 & Hl2').
  simpl dir in *. pose proof (len_pos c Hne) as Hpos. pose proof (len_nonneg (concat cs)) as Hnn.
  pose proof Hco2 as [_ Ha Hix _ _ Hst0 _ Hd]. pose proof (do_dir _ _ _ Hd) as Hdir.
  assert (Hlt : forall x, x ∈ all_bases start cs -> x < next_offset l) by (intros x Hx%all_bases_le; lia).
  destruct (segment_create_run w2 (dir l) (next_offset l) Hq2) as (sg & Hc & _);
    [eapply dir_ok_segment_fresh; [exact Hd|done|split; lia]|by apply parent_segment_path|].
  set (w3 := set_nodes _ w2) in *. set (l2 := set_segments (sealed ++ [a]) l).
  exists w3, sealed, a. eexists. split.
  { rewrite Hw at 1. unfold rotate_active_segment.
    rewrite (bind_Ok _ _ _ _ _ (on_active_pass _ _ _ _ _ _ _ (one_call_on_seg _ one_call_segment_sync) Hl (calm_quiet w) H1)).
    rewrite (bind_Ok _ _ _ _ _ (on_active_pass _ _ _ _ _ _ _ (one_call_on_idx _ one_call_index_sync) Hl2 Hq1 H2)).
    rewrite bind_self.
    rewrite (bind_Ok _ _ _ _ _ (one_call_pass Io _ _ _ _ _ _ _ (one_call_create _ _) Hq2 (in_world_run _ _ _ l2 _ Hc))).
    erewrite bind_Err; [reflexivity|].
    etrans; [apply one_call_fail, one_call_create|]. pose proof (calm_of_quiet w3 Hq2) as E3.
    unfold calm in E3. by rewrite E3. }
  assert (Hseg : segment_path (dir l) (next_offset l) <> seg_path (segment a)).
  { rewrite (sk_path _ _ _ _ _ Ha). intros E%segment_path_inj; [|split; lia..].
    specialize (Hlt _ (all_bases_last start cs)). lia. }
  assert (Hsame : forall p, p <> segment_path (dir l) (next_offset l) -> nodes w3 !! p = nodes w2 !! p).
  { intros p Hp. simpl. by rewrite lookup_insert_ne. }
  assert (Hidx : idx_path (index a) <> segment_path (dir l) (next_offset l)).
  { rewrite (sk_ipath _ _ _ _ _ Ha). intros E. symmetry in E. by apply segment_index_path_ne in E. }
  split; [done|]. split; [eapply Segment.rep_frame; [apply Ha|by apply Hsame]|].
  split; [eapply SparseIndex.rep_touch; [exact Hix|by apply Hsame]|].
  unfold synced in *. rewrite !Hsame by done.
  split; [by rewrite (sk_path _ _ _ _ _ Ha)|]. split; [by rewrite (sk_ipath _ _ _ _ _ Ha)|].
  split; [apply lookup_insert_eq|]. eapply (recoverable_intro _ _ _ _ _ (cs ++ [c]) [] []).
  - eapply stored_leftover; try done. apply (core_read_max w2 l2 start cs c (length c)). by exists sealed, a.
  - rewrite concat_app. simpl. by rewrite !app_nil_r.
  - rewrite concat_app. simpl. by rewrite !app_nil_r.
Qed.
(** [append_batch] up to its rotation. *)
Lemma append_batch_rotates w l rs :
  rs <> [] -> active_would_overflow (total_wire_size rs) (w, l) = (Ok true, (w, l)) ->
  forall e w' l', rotate_active_segment (w, l) = (Err e, (w', l')) ->
  Log.append_batch rs (w, l) = (Err e, (w', l')).
Proof.
  intros Hne Ho e w' l' Hr. unfold Log.append_batch. destruct rs; [done|]. cbv zeta.
  rewrite (bind_Ok _ _ _ _ _ Ho). by apply bind_Err.
Qed.

(** A batch that needs a rotation fails where the index is created; from then
    on every batch that needs one fails, and nothing changes any more. *)
Lemma failed_rotation_run w l start cs c rs f :
  log_rep w l start cs c -> next_offset l < 2 ^ 64 -> rs <> [] ->
  0 <= total_wire_size rs < 2 ^ 63 ->
  active_would_overflow (total_wire_size rs) (w, l) = (Ok true, (w, l)) ->
  faults w = [None; None; None; Some f] ->
  exists w1 l1,
    Log.append_batch rs (w, l) = (Err (Io (io_error_from (fault_kind f))), (w1, l1))
    /\ quiet w1 /\ next_offset l1 = next_offset l
    /\ (forall n, active_would_overflow n (w1, l1) = (fst (active_would_overflow n (w, l)), (w1, l1)))
    /\ (forall rs', rs' <> [] ->
         active_would_overflow (total_wire_size rs') (w1, l1) = (Ok true, (w1, l1)) ->
         Log.append_batch rs' (w1, l1) = (Err (Io (io_error_from AlreadyExists)), (w1, l1)))
    /\ recoverable w1 (dir l) start (concat cs ++ c) (length (concat cs ++ c)).
Proof.
  intros Hr Hnb Hne Hws Ho Hf.
  destruct (overflow_cases w l start cs c _ Hr Hws) as (b & Ho' & Hc). rewrite Ho in Ho'. injection Ho' as <-.
  destruct (rotate_index_fails w l start cs c f Hr Hc Hnb Hf)
    as (w1 & sealed & a & n & Hrot & Hq & Hrep & Hix & Hs1 & Hs2 & Hn & Hrec).
  exists w1, (set_segments (sealed ++ [a]) l). split; [by apply append_batch_rotates|].
  split; [done|]. split; [done|]. split; [|split; [|done]].
  - intros m. pose proof Hr as [(s0 & a0 & E0 & Hco) _]. unfold active_would_overflow.
    rewrite !bind_self, E0. simpl. rewrite !last_snoc. unfold ret. simpl. do 2 f_equal.
    unfold Segment.would_overflow.
    by rewrite (Segment.rep_size _ _ _ Hrep), (Segment.rep_size _ _ _ (sk_rep _ _ _ _ _ (co_active _ _ _ _ _ _ _ _ Hco))).
  - intros rs' Hne' Ho'. apply append_batch_rotates; [done|done|]. by eapply rotate_stuck.
Qed.
End restart.
