(* ===== verification/LogShift.v ===== *)
(** * An index entry that cannot be written

    When a record is in its segment but the write of its index entry fails,
    the append returns an error and keeps the next offset.  The next append is
    acknowledged with the same offset; when the log is opened again the record
    at that offset is the one that was refused. *)

From S2P Require Import Prelude Bytes Error Compression LogRecord Fs Names Search.
From S2P Require Import Segment SparseIndex Faults Log LogInv LogOps LogRetain LogRecover LogCrash LogSpec LogFaults.

Section shift.
Context {B : Buf} {BL : BufLaws B} {H : Crc32} {HL : Crc32Laws H} {C : Codecs} {CL : CodecLaws C}.
Implicit Types (w : World) (l : Log) (c : list erec) (cs : list (list erec)).

(** ** A log whose index is not to be trusted

    The segments hold [cs] and [c]; of the active index only its file is
    known. *)
Definition files_of w l start cs c sealed a : Prop :=
  segments l = sealed ++ [a] /\ chain w (dir l) start sealed cs
  /\ seg_ok w (dir l) (start + len (concat cs)) a c
  /\ fd_path (SparseIndex.file (index a)) = idx_path (index a)
  /\ (exists g, nodes w !! idx_path (index a) = Some (NFile g))
  /\ 0 <= start /\ start + len (concat cs) + len c < 2 ^ 64
  /\ dir_ok w (dir l) (all_bases start cs).

Lemma core_files_of w l start sealed a cs c k :
  segments l = sealed ++ [a] -> core w (dir l) start sealed a cs c k -> files_of w l start cs c sealed a.
Proof.
  intros Hs [Hch Ha [Hfd (g & Hg & _)] _ _ Hst Hb Hd]. split_and!; try done. by exists g.
Qed.

Lemma files_of_update w w' l start cs c c' sealed a a' :
  files_of w l start cs c sealed a ->
  touches [seg_path (segment a); idx_path (index a)] w w' ->
  seg_ok w' (dir l) (start + len (concat cs)) a' c' ->
  fd_path (SparseIndex.file (index a')) = idx_path (index a') ->
  (exists g, nodes w' !! idx_path (index a') = Some (NFile g)) ->
  start + len (concat cs) + len c' < 2 ^ 64 ->
  files_of w' (set_segments (sealed ++ [a']) l) start cs c' sealed a'.
Proof.
  intros (Hs & Hch & Ha & _ & _ & Hst & Hb & Hd) Ht Ha' Hfd (g & Hg) Hb'.
  pose proof (len_nonneg (concat cs)). pose proof (len_nonneg c).
  rewrite (sk_path _ _ _ _ _ Ha), (sk_ipath _ _ _ _ _ Ha) in Ht.
  fold (seg_files (dir l) (start + len (concat cs))) in Ht.
  split_and!; try done.
  - eapply chain_seg_files; [done|split; lia|done|lia|by right; lia|done].
  - by exists g.
  - eapply dir_ok_touches; [done|split; lia|apply all_bases_last| |done].
    rewrite (sk_ipath _ _ _ _ _ Ha') in Hg. change (nodes w' !! index_path (dir l) (start + len (concat cs)) <> Some NDir).
    by rewrite Hg.
Qed.

(** Another record in the segment. *)
Lemma files_of_write w l start cs c sealed a ps :
  quiet w -> files_of w l start cs c sealed a -> Forall decodes ps ->
  len (concat (frames c)) + len (concat (frames ps)) <= seg_limit w ->
  start + len (concat cs) + len c + len ps < 2 ^ 64 ->
  exists w' sg,
    Segment.append (concat (frames ps)) (w, segment a) = (Ok (len (concat (frames c))), (w', sg))
    /\ files_of w' (set_segments (sealed ++ [mkIndexed sg (index a)]) l) start cs (c ++ ps) sealed (mkIndexed sg (index a))
    /\ quiet w' /\ seg_limit w' = seg_limit w.
Proof.
  intros Hq Hf Hps Hm Hb. pose proof Hf as (_ & _ & [Hr Hba Hp Hbi Hpi Hdec Hmx] & Hfd & (g & Hg) & _).
  unfold seg_limit, u32_max in Hm.
  destruct (segment_append_run w (segment a) _ (concat (frames ps)) Hq Hr ltac:(lia))
    as (f & sg & Hfn & Hrun & Hrep & Hbase & Hpath).
  set (w' := set_nodes _ w) in *. rewrite <- concat_app, <- frames_app in Hrep.
  assert (Ht : touches [seg_path (segment a); idx_path (index a)] w w') by apply touches_fst, touches_insert.
  exists w', sg. split; [done|]. split; [|done].
  eapply files_of_update; [exact Hf|exact Ht|..]; simpl; try done.
  - split; simpl; try congruence; [by apply Forall_app|].
    rewrite frames_app, concat_app, len_app, (seg_limit_touches _ _ _ Ht). unfold seg_limit, u32_max. lia.
  - rewrite lookup_insert_ne; [by exists g|]. rewrite Hp, Hpi. apply segment_index_path_ne.
  - rewrite len_app. lia.
Qed.
(** ** The index file *)

(** An entry is due. *)
Definition entry_due (s : SparseIndex.SparseIndex) : Prop :=
  entries s = [] \/ interval s <= bytes_since_last_entry s.

(** What a call on the index leaves of it and its file. *)
Definition index_kept w (s : SparseIndex.SparseIndex) w' (s' : SparseIndex.SparseIndex) : Prop :=
  touches [idx_path s] w w' /\ idx_path s' = idx_path s
  /\ SparseIndex.base_offset s' = SparseIndex.base_offset s
  /\ fd_path (SparseIndex.file s') = idx_path s'
  /\ exists g, nodes w' !! idx_path s' = Some (NFile g).

Lemma track_append_any w s off pos sz g :
  quiet w -> fd_path (SparseIndex.file s) = idx_path s -> nodes w !! idx_path s = Some (NFile g) ->
  is_u32 (u64_sub off (SparseIndex.base_offset s)) -> is_u32 pos ->
  exists w' s', track_append off pos sz (w, s) = (Ok tt, (w', s')) /\ index_kept w s w' s'.
Proof.
  intros Hq Hp Hg H1 H2. unfold track_append. rewrite bind_self, !try_into_u32_Some by done. cbv zeta.
  destruct (match entries s with [] => true | _ => _ end).
  - destruct s as [b p [fp pos0] es n iv]. simpl in *. subst fp. rewrite bind_bind. unfold write_entry.
    erewrite bind_Ok; [|eapply index_on_file_run; by apply write_all_append_run].
    rewrite bind_bind, !bind_modify_self. do 2 eexists. split; [reflexivity|]. simpl.
    split; [apply touches_insert|]. do 3 (split; [done|]). eexists. apply lookup_insert_eq.
  - rewrite bind_ret. do 2 eexists. split; [reflexivity|]. split; [apply touches_refl|]. by eauto.
Qed.

#[local] Arguments do_write : simpl never.

Lemma track_append_fails w s off pos sz g f :
  fd_path (SparseIndex.file s) = idx_path s -> nodes w !! idx_path s = Some (NFile g) ->
  is_u32 (u64_sub off (SparseIndex.base_offset s)) -> is_u32 pos -> entry_due s ->
  exists w' s', track_append off pos sz (with_faults [Some f] w, s)
      = (Err (Io (io_error_from (fault_kind f))), (w', s')) /\ index_kept (calm w) s w' s'.
Proof.
  intros Hp Hg H1 H2 Hdue. unfold track_append. rewrite bind_self, !try_into_u32_Some by done. cbv zeta.
  assert ((match entries s with [] => true | _ => interval s <=? bytes_since_last_entry s end) = true) as ->.
  { destruct Hdue as [->|Hle]; [done|]. destruct (entries s); [done|]. by apply Z.leb_le. }
  destruct s as [b p [fp pos0] es n iv]. simpl in *. subst fp. rewrite bind_bind. unfold write_entry.
  set (e := mkEntry _ _). set (bytes := take (fault_written f) (entry_bytes e)).
  eexists _, _. split.
  { erewrite bind_Err; [reflexivity|]. unfold SparseIndex.on_file, zoom. simpl.
    erewrite io_Err; [reflexivity|]. unfold write_all_append. erewrite bind_Ok.
    2: { simpl. by rewrite (lookup_file_run (with_faults [Some f] w) p g Hg). }
    unfold write_all, on_world, zoom, bind, next_fault. simpl. fold bytes.
    change (mkWorld (nodes w) (now_ms w) [] (read_max w)) with (calm w).
    by rewrite (do_write_run bytes (calm w) p _ g Hg). }
  simpl. split; [apply touches_insert|]. do 3 (split; [done|]). eexists. apply lookup_insert_eq.
Qed.

Lemma files_of_index w w' l start cs c sealed a ix :
  files_of w l start cs c sealed a -> index_kept w (index a) w' ix ->
  files_of w' (set_segments (sealed ++ [mkIndexed (segment a) ix]) l) start cs c sealed
    (mkIndexed (segment a) ix).
Proof.
  intros Hf (Ht & Hi & Hb & Hfd & Hg). pose proof Hf as (_ & _ & Ha & _ & _ & _ & Hbd & _).
  eapply files_of_update; [exact Hf|by apply touches_snd|..]; simpl; try done.
  pose proof Ha as [_ _ _ Hbi Hpi _ _].
  assert (Hok : seg_ok w' (dir l) (start + len (concat cs)) a c).
  { eapply seg_ok_touches; [exact Ht| |exact Ha]. rewrite Hpi.
    intros E%list_elem_of_singleton. by apply segment_index_path_ne in E. }
  destruct Hok. split; simpl; congruence || done.
Qed.
Lemma track_all_any offs (bss : list (list byte)) i pos w l start cs c sealed a :
  quiet w -> files_of w l start cs c sealed a ->
  (forall j, (j < length bss)%nat -> exists o, offs !! (i + j)%nat = Some o
     /\ is_u32 (u64_sub o (start + len (concat cs)))) ->
  0 <= pos -> pos + len (concat bss) < 2 ^ 32 ->
  exists w' ix segs',
    track_all offs (map len bss) i pos (w, l) = (Ok tt, (w', set_segments segs' l))
    /\ files_of w' (set_segments segs' l) start cs c sealed (mkIndexed (segment a) ix) /\ quiet w'.
Proof.
  revert i pos w l a. induction bss as [|bs bss IH]; intros i pos w l a Hq Hf Ho Hp Hb; simpl.
  { exists w, (index a), (segments l). destruct l, a. done. }
  simpl in Hb. rewrite len_app in Hb. pose proof (len_nonneg bs). pose proof (len_nonneg (concat bss)).
  destruct (Ho 0%nat ltac:(simpl; lia)) as (o & Eo & Hu). rewrite Nat.add_0_r in Eo. rewrite Eo.
  pose proof Hf as (Hs & _ & [_ _ _ Hbi _ _ _] & Hfd & (g & Hg) & _).
  destruct (track_append_any w (index a) o pos (len bs) g Hq Hfd Hg) as (w1 & ix & Ht & Hk);
    [by rewrite Hbi|split; lia|].
  erewrite bind_Ok; [|eapply on_active_run; [exact Hs|by apply on_idx_run]].
  rewrite u64_add_small by lia.
  destruct (IH (S i) (pos + len bs) w1 (set_segments (sealed ++ [mkIndexed (segment a) ix]) l) (mkIndexed (segment a) ix))
    as (w2 & ix2 & segs2 & Hr2 & Hf2 & Hq2); [eapply touches_quiet; [apply Hk|done]|by eapply files_of_index| |lia|lia|].
  { intros j Hj. replace (S i + j)%nat with (i + S j)%nat by lia. apply Ho. simpl. lia. }
  by exists w2, ix2, segs2.
Qed.

(** ** A batch on such a log *)
Lemma append_batch_any w l start cs c sealed a rs :
  let cmp := compression (config l) in
  quiet w -> files_of w l start cs c sealed a -> rs <> [] -> Forall (storable cmp) rs ->
  active_would_overflow (total_wire_size rs) (w, l) = (Ok false, (w, l)) ->
  len (concat (frames c)) + len (concat (frames (wires cmp rs))) <= seg_limit w ->
  start + len (concat cs) <= next_offset l <= start + len (concat cs) + len c ->
  start + len (concat cs) + len c + len rs < 2 ^ 64 ->
  exists w' l' a',
    Log.append_batch rs (w, l) = (Ok (offsets_from (next_offset l) (length rs)), (w', l'))
    /\ files_of w' l' start cs (c ++ wires cmp rs) sealed a' /\ quiet w' /\ dir l' = dir l.
Proof.
  intros cmp Hq Hf Hne Hst Ho Hm Hn Hb. pose proof (wires_decode cmp rs Hst) as Hps.
  assert (Hlen : len (wires cmp rs) = len rs) by (unfold len; by rewrite length_wires).
  pose proof Hf as (Hs & _ & [_ _ _ _ _ Hdec _] & _ & _ & Hst0 & _ & _).
  pose proof (len_nonneg (concat cs)). pose proof (len_nonneg c). pose proof (len_nonneg rs).
  unfold Log.append_batch. destruct rs as [|r0 rs0]; [done|]. set (rs := r0 :: rs0) in *. cbv zeta.
  rewrite (bind_Ok _ _ _ _ _ Ho). cbn iota. rewrite bind_ret, bind_self, bind_modify_self.
  clearbody rs. fold cmp.
  erewrite bind_Ok; [|apply encode_all_run; [done|simpl; lia|simpl; lia]]. cbv iota beta.
  rewrite bind_self. simpl. set (l2 := set_actual_sizes _ _).
  assert (Hf2 : files_of w l2 start cs c sealed a) by exact Hf.
  destruct (files_of_write w l2 start cs c sealed a (wires cmp rs) Hq Hf2 Hps Hm) as (w3 & sg & H3 & Hf3 & Hq3 & _);
    [lia|].
  erewrite bind_Ok; [|eapply on_active_run; [exact Hs|by apply on_seg_run]].
  pose proof (count_le_bytes _ (proj2 (Forall_app _ _ _) (conj Hdec Hps))) as Hcnt.
  rewrite len_app, frames_app, concat_app, len_app in Hcnt. unfold seg_limit, u32_max in Hm.
  destruct (track_all_any (offsets_from (next_offset l) (length rs)) (frames (wires cmp rs)) 0
    (len (concat (frames c))) w3 _ start cs _ sealed _ Hq3 Hf3) as (w4 & ix & segs4 & H4 & Hf4 & Hq4).
  { intros j Hj. rewrite length_frames, length_wires in Hj. simpl. rewrite offsets_from_lookup by done.
    eexists. split; [done|]. assert (Z.of_nat j < len rs) by (unfold len; lia).
    rewrite u64_sub_small by lia. split; lia. }
  { apply len_nonneg. }
  { lia. }
  erewrite bind_Ok; [|exact H4]. rewrite bind_modify_self.
  do 3 eexists. split; [reflexivity|]. by split; [exact Hf4|].
Qed.
(** ** The batch whose index entry fails *)
Lemma segment_append_pass fs w s data bytes :
  quiet w -> Segment.rep w s data -> cursor s = Some (size s) ->
  Segment.append bytes (with_faults (None :: fs) w, s) = resume fs (Segment.append bytes (w, s)).
Proof.
  intros Hq Hr Hc. destruct (Segment.rep_node _ _ _ Hr) as (g & Hg & _).
  pose proof (Segment.rep_path _ _ _ Hr) as Hp. unfold Segment.append. rewrite !bind_self. cbv zeta.
  assert (He : forall w, ensure_cursor (size s) (w, s) = (Ok tt, (w, s))).
  { intros w'. unfold ensure_cursor. rewrite bind_self, decide_False; [done|]. rewrite Hc. by intros E. }
  rewrite !(bind_Ok _ _ _ _ _ (He _)). destruct s as [b p [fp pos] sz cur]. simpl in *. subst fp.
  pose proof (segment_on_file_run (write_all bytes) w (mkSegment b p (mkFile p pos) sz cur) _ _ _
    (write_all_run w Hq bytes p pos g Hg)) as H1.
  assert (H2 : write_all bytes (with_faults (None :: fs) w, mkFile p pos)
    = resume fs (write_all bytes (w, mkFile p pos))).
  { rewrite (write_all_run w Hq bytes p pos g Hg). unfold write_all.
    erewrite bind_Ok; [|reflexivity]. simpl.
    change (mkWorld (nodes w) (now_ms w) fs (read_max w)) with (with_faults fs w).
    by rewrite (do_write_run bytes (with_faults fs w) p _ g Hg). }
  rewrite (write_all_run w Hq bytes p pos g Hg) in H2.
  rewrite (bind_Ok _ _ _ _ _ H1).
  rewrite (bind_Ok _ _ _ _ _ (segment_on_file_run _ _ (mkSegment b p (mkFile p pos) sz cur) _ _ _ H2)).
  done.
Qed.

Lemma failed_entry_run w l start cs c sealed a rs f :
  let cmp := compression (config l) in
  quiet w -> files_of w l start cs c sealed a ->
  next_offset l = start + len (concat cs) + len c ->
  cursor (segment a) = Some (size (segment a)) -> entry_due (index a) ->
  rs <> [] -> Forall (storable cmp) rs ->
  active_would_overflow (total_wire_size rs) (w, l) = (Ok false, (w, l)) ->
  len (concat (frames c)) + len (concat (frames (wires cmp rs))) <= seg_limit w ->
  next_offset l + len rs < 2 ^ 64 ->
  exists w1 l1 a1,
    Log.append_batch rs (with_faults [None; Some f] w, l)
      = (Err (Io (io_error_from (fault_kind f))), (w1, l1))
    /\ files_of w1 l1 start cs (c ++ wires cmp rs) sealed a1 /\ quiet w1
    /\ next_offset l1 = next_offset l /\ config l1 = config l /\ dir l1 = dir l
    /\ seg_limit w1 = seg_limit w.
Proof.
  intros cmp Hq Hf Hn Hcur Hdue Hne Hst Ho Hm Hb. pose proof (wires_decode cmp rs Hst) as Hps.
  assert (Hlen : len (wires cmp rs) = len rs) by (unfold len; by rewrite length_wires).
  pose proof Hf as (Hs & _ & [Hr _ _ _ _ Hdec _] & _ & _ & Hst0 & _ & _).
  pose proof (len_nonneg (concat cs)) as Hcsn. pose proof (len_nonneg c) as Hcn. pose proof (len_nonneg rs) as Hrsn.
  unfold Log.append_batch. destruct rs as [|r0 rs0]; [done|]. set (rs := r0 :: rs0) in *. cbv zeta.
  rewrite (bind_Ok _ _ _ _ _ (overflow_any _ (with_faults [None; Some f] w) _ _ _ Ho)).
  cbn iota. rewrite bind_ret, bind_self, bind_modify_self.
  assert (Hpos : (0 < length rs)%nat) by (simpl; lia). clearbody rs. fold cmp.
  erewrite bind_Ok; [|apply encode_all_run; [done|simpl; lia|simpl; lia]]. cbv iota beta.
  rewrite bind_self. simpl. set (l2 := set_actual_sizes _ _).
  assert (Hf2 : files_of w l2 start cs c sealed a) by exact Hf.
  destruct (files_of_write w l2 start cs c sealed a (wires cmp rs) Hq Hf2 Hps Hm)
    as (w3 & sg & H3 & Hf3 & Hq3 & Hlim); [lia|].
  pose proof (segment_append_pass [Some f] w (segment a) _ (concat (frames (wires cmp rs))) Hq Hr Hcur) as H3'.
  rewrite H3 in H3'.
  erewrite bind_Ok; [|eapply on_active_run; [exact Hs|by apply on_seg_run]].
  simpl. pose proof Hf3 as (_ & _ & [_ _ _ Hbi _ _ _] & Hfd & (g & Hg) & _). simpl in *.
  pose proof (count_le_bytes c Hdec) as Hcnt. unfold seg_limit, u32_max in Hm.
  pose proof (len_nonneg (concat (frames (wires cmp rs)))). pose proof (len_nonneg (concat (frames c))).
  destruct (track_append_fails w3 (index a) (next_offset l) (len (concat (frames c)))
              (len (wire cmp (hd r0 rs))) g f Hfd Hg) as (w4 & ix & H4 & Hk4); [|split; lia|done|].
  { rewrite Hbi, u64_sub_small by lia. split; lia. }
  rewrite (calm_of_quiet w3 Hq3) in Hk4.
  assert (Ho0 : offsets_from (next_offset l) (length rs) !! 0%nat = Some (next_offset l)).
  { rewrite offsets_from_lookup by done. f_equal. lia. }
  set (offs := offsets_from _ _) in *. clearbody offs.
  destruct rs as [|r rs]; [simpl in Hpos; lia|]. simpl in H4 |- *. rewrite Ho0.
  eexists _, _, _. split.
  { erewrite bind_Err; [reflexivity|]. erewrite bind_Err; [reflexivity|].
    eapply on_active_run; [done|]. by apply on_idx_run. }
  split; [by eapply (files_of_index w3)|]. split; [eapply touches_quiet; [apply Hk4|done]|].
  do 3 (split; [done|]). by rewrite (seg_limit_touches _ _ _ (proj1 Hk4)).
Qed.
(** ** Opening it again *)
Lemma files_of_disk w l start cs c sealed a :
  files_of w l start cs c sealed a -> disk w (dir l) start cs c [].
Proof.
  intros (_ & Hch & [Hr _ Hp _ _ Hdec Hm] & _ & _ & Hst & Hb & Hd).
  destruct (Segment.rep_node _ _ _ Hr) as (g & Hg & E). rewrite Hp in Hg. split; try done.
  - by eapply chain_all_sealed.
  - exists g. rewrite app_nil_r, E. done.
  - by left.
Qed.

Lemma refused_batch_run w l start cs c a f r1 rs1 rs2 cfg :
  let cmp := compression (config l) in
  quiet w -> log_rep w l start cs c -> last (segments l) = Some a ->
  cursor (segment a) = Some (size (segment a)) -> entry_due (index a) ->
  Forall (storable cmp) (r1 :: rs1) -> Forall (storable cmp) rs2 -> rs2 <> [] ->
  active_would_overflow (total_wire_size (r1 :: rs1)) (w, l) = (Ok false, (w, l)) ->
  len (concat (frames (c ++ wires cmp (r1 :: rs1)))) + total_wire_size rs2
    <= segment_size_threshold (config l) < 2 ^ 63 ->
  len (concat (frames (c ++ wires cmp (r1 :: rs1 ++ rs2)))) <= seg_limit w ->
  next_offset l + len (r1 :: rs1 ++ rs2) < 2 ^ 64 ->
  exists w1 l1 w2 l2 w3 l3 w4 l4,
    Log.append_batch (r1 :: rs1) (with_faults [None; Some f] w, l)
      = (Err (Io (io_error_from (fault_kind f))), (w1, l1))
    /\ Log.append_batch rs2 (w1, l1) = (Ok (offsets_from (next_offset l) (length rs2)), (w2, l2))
    /\ Log.open (dir l) cfg w2 = (Ok l3, w3)
    /\ log_refines w3 l3 (mkALog start (records_of cs c ++ (r1 :: rs1) ++ rs2))
    /\ Log.read_record_at (next_offset l) (w3, l3) = (Ok (Some r1), (w4, l4)).
Proof.
  intros cmp Hq Hrep Ha Hcur Hdue Hst1 Hst2 Hne Ho Hth Hm Hb.
  pose proof Hrep as [(sealed & a' & Hs & Hco) Hn]. rewrite Hs, last_snoc in Ha. injection Ha as ->.
  pose proof (core_files_of w l start sealed a cs c _ Hs Hco) as Hf.
  set (rs := r1 :: rs1) in *. change (r1 :: rs1 ++ rs2) with (rs ++ rs2) in *.
  assert (Hwl : wires cmp (rs ++ rs2) = wires cmp rs ++ wires cmp rs2) by apply map_app.
  rewrite Hwl, app_assoc, frames_app, concat_app, len_app in Hm.
  pose proof (len_nonneg (concat (frames (wires cmp rs2)))) as Hwn. pose proof (len_nonneg rs2) as Hrn2.
  rewrite len_app in Hb.
  destruct (failed_entry_run w l start cs c sealed a rs f Hq Hf Hn Hcur Hdue ltac:(done) Hst1 Ho)
    as (w1 & l1 & a1 & H1 & Hf1 & Hq1 & Hn1 & Hc1 & Hd1 & Hl1).
  { rewrite frames_app, concat_app, len_app in Hm. fold cmp. lia. }
  { lia. }
  fold cmp in Hf1.
  assert (Ho2 : active_would_overflow (total_wire_size rs2) (w1, l1) = (Ok false, (w1, l1))).
  { pose proof Hf1 as (Hs1 & _ & [Hr1 _ _ _ _ _ _] & _). unfold active_would_overflow.
    rewrite bind_self, Hs1, last_snoc. unfold ret. do 2 f_equal. unfold Segment.would_overflow.
    rewrite (Segment.rep_size _ _ _ Hr1), Hc1. destruct (Z.eqb_spec (len (concat (frames (c ++ wires cmp rs)))) 0); [done|].
    pose proof (len_nonneg (concat (frames (c ++ wires cmp rs)))). pose proof (total_wire_size_nonneg rs2).
    rewrite u64_add_small by lia. apply Z.ltb_ge. lia. }
  assert (Hlen : len (wires cmp rs) = len rs) by (unfold len; by rewrite length_wires).
  pose proof (len_nonneg rs) as Hrn. pose proof (len_nonneg c) as Hcn.
  destruct (append_batch_any w1 l1 start cs _ sealed a1 rs2 Hq1 Hf1 Hne) as (w2 & l2 & a2 & H2 & Hf2 & Hq2 & Hd2);
    [by rewrite Hc1|done|by rewrite Hc1, Hl1|rewrite Hn1, len_app, Hlen; lia|rewrite len_app, Hlen; lia|].
  rewrite Hc1 in Hf2. fold cmp in Hf2. rewrite <- app_assoc, <- Hwl in Hf2.
  destruct (log_open_run w2 (dir l2) cfg start cs _ [] Hq2 (files_of_disk _ _ _ _ _ _ _ Hf2))
    as (w3 & l3 & Hop & Hrep3 & _ & _ & Hq3 & _).
  assert (Hr3 : log_refines w3 l3 (mkALog start (records_of cs c ++ rs ++ rs2))).
  { eapply log_refines_intro; [done|exact Hrep3|]. unfold records_of.
    by rewrite (app_assoc (concat cs)), (map_app snd (_ ++ _)), snd_wires. }
  pose proof (co_start _ _ _ _ _ _ _ _ Hco) as Hst0. pose proof (len_nonneg (concat cs)) as Hcsn.
  destruct (read_refines w3 l3 _ (next_offset l) Hr3 ltac:(lia)) as (w4 & l4 & Hrd & _).
  exists w1, l1, w2, l2, w3, l3, w4, l4. split; [done|]. split; [by rewrite H2, Hn1|].
  split; [by rewrite Hd2, Hd1 in Hop|]. split; [done|]. rewrite Hrd. do 2 f_equal.
  unfold a_read. simpl. rewrite (proj2 (Z.ltb_ge _ _)) by lia.
  assert (Hlr : length (records_of cs c) = Z.to_nat (next_offset l - start)).
  { pose proof (len_records_of cs c). unfold len in *. lia. }
  by rewrite <- Hlr, lookup_app_r, Nat.sub_diag.
Qed.
End shift.
