(* ===== verification/LogStore.v ===== *)
(** * Logs on disk

    The second half of the log's contract: what a directory holds before a log
    is opened in it and after it has been synced.  [LogStore] relates the open
    logs of [LogContract] to directories that a later [Log.open] finds them
    in, and says which changes elsewhere in the file system leave them alone.
    Topics and the broker, which open and close many logs, rely on it. *)

From S2P Require Import Prelude Bytes Error Compression LogRecord Fs Names Search.
From S2P Require Import Segment SparseIndex Log LogInv LogOps LogRetain LogRecover LogCrash LogSpec.

Section store.
Context {B : Buf} {H : Crc32} {C : Codecs}.

(** [S w l a]: the open log [l] holds [a] and all of it is on the device.
    [D w d a]: opening a log in directory [d] finds [a]. *)
Class LogStore (R S : World -> Log -> alog -> Prop) (D : World -> path -> alog -> Prop) : Prop := {
  ls_rep_unaffected w w' l a : unaffected (dir l) w w' -> R w l a -> R w' l a;
  ls_sync w l a :
    R w l a -> exists w' l', Log.sync (w, l) = (Ok tt, (w', l')) /\ S w' l' a /\ keeps w l w' l';
  ls_synced_unaffected w w' l a : unaffected (dir l) w w' -> S w l a -> S w' l a;
  ls_synced_rep w l a : S w l a -> R w l a;
  ls_made w l a : R w l a -> dirs_made w (dir l);
  ls_crash w w' l a : S w l a -> crash w w' -> D w' (dir l) a;
  ls_disk_unaffected w w' d a : unaffected d w w' -> D w d a -> D w' d a;
  ls_disk_grows d d' w w' a : grows d w w' -> apart d d' -> D w d' a -> D w' d' a;
  ls_fresh w d :
    quiet w -> d <> [] -> dirs_free w d -> 0 <= read_max w ->
    (forall x, nodes w !! (d ++ [x]) = None) -> D w d (mkALog 0 []);
  ls_open w d a cfg :
    D w d a -> exists w' l, Log.open d cfg w = (Ok l, w') /\ R w' l a
      /\ Log.dir l = d /\ config l = cfg /\ grows d w w';
}.

Lemma apart_nonnil d d' : apart d d' -> d' <> [].
Proof. intros [Hl Hne] ->. by destruct d. Qed.

Lemma ls_grows {R S D} {LS : LogStore R S D} d w w' l a :
  grows d w w' -> apart d (dir l) -> R w l a -> R w' l a.
Proof.
  intros Hg Ha Hr. eapply ls_rep_unaffected; [|done].
  eapply grows_unaffected; [done|done|by eapply apart_nonnil|by eapply ls_made].
Qed.

Lemma ls_synced_stays {R S D} {LS : LogStore R S D} d w w' l a :
  stays d w w' -> apart d (dir l) -> S w l a -> S w' l a.
Proof. intros Hs Ha. eapply ls_synced_unaffected. by eapply stays_unaffected. Qed.

(** ** The implementation *)
Definition log_synced (w : World) (l : Log) (a : alog) : Prop :=
  quiet w /\ exists cs c, log_rep w l (a_start a) cs c /\ a_recs a = records_of cs c
    /\ synced w (segment_path (dir l) (a_start a + len (concat cs))).

Definition fresh_dir (w : World) (d : path) : Prop :=
  d <> [] /\ dirs_free w d /\ 0 <= read_max w /\ forall x, nodes w !! (d ++ [x]) = None.

Lemma unaffected_quiet d w w' : unaffected d w w' -> quiet w -> quiet w'.
Proof. intros [Hf _]. unfold quiet. congruence. Qed.

Definition log_openable (w : World) (d : path) (a : alog) : Prop :=
  quiet w /\ ((exists cs c t, disk w d (a_start a) cs c t /\ a_recs a = records_of cs c)
              \/ (a = mkALog 0 [] /\ fresh_dir w d)).

Lemma all_sealed_unaffected w w' d base cs :
  unaffected d w w' -> all_sealed w d base cs -> all_sealed w' d base cs.
Proof.
  intros (_ & _ & Hm & _ & _ & Hc). revert base.
  induction cs as [|c cs IH]; intros base; simpl; [done|]. intros [[S1 S2 S3 S4 S5] Ha].
  split; [|by apply IH]. split; try done.
  - unfold segment_path. rewrite Hc. exact S1.
  - unfold index_path. rewrite Hc. exact S2.
  - unfold seg_limit. by rewrite Hm.
Qed.

Lemma disk_unaffected w w' d start cs c t :
  unaffected d w w' -> disk w d start cs c t -> disk w' d start cs c t.
Proof.
  intros Hu [D1 D2 D3 D4 D5 D6 D7]. pose proof Hu as (_ & _ & Hm & _ & _ & Hc). split; try done.
  - by eapply dir_ok_unaffected.
  - by eapply all_sealed_unaffected.
  - unfold seg_limit, segment_path. rewrite Hm, Hc. exact D3.
Qed.

Lemma fresh_dir_grows d d' w w' : grows d w w' -> apart d d' -> fresh_dir w d' -> fresh_dir w' d'.
Proof.
  intros Hg Ha (Hne & Hf & Hm & Hc). pose proof Hg as (_ & _ & G3 & G4 & G5). split; [done|].
  split; [|split; [by rewrite G3|intros x; by rewrite (grows_child d d' w w')]].
  intros p Hp Hnp. destruct (decide (p `prefix_of` d)) as [Hpd|Hpd]; [left; by apply G4|].
  rewrite G5; [by apply Hf|by left|]. intros x. by eapply apart_child.
Qed.

Context {BL : BufLaws B} {HL : Crc32Laws H} {CL : CodecLaws C}.

Lemma sync_synced w l a :
  log_refines w l a ->
  exists w' l', Log.sync (w, l) = (Ok tt, (w', l')) /\ log_synced w' l' a /\ keeps w l w' l'.
Proof.
  intros (Hq & cs & c & Hrep & E).
  destruct (log_sync_run _ _ _ _ _ Hq Hrep) as (w' & l' & Hrun & Hrep' & Hq' & Hk & Hsy).
  exists w', l'. split; [done|]. split; [|done]. split; [done|]. exists cs, c.
  destruct Hk as (_ & -> & _). done.
Qed.

#[export] Instance kafko_store : LogStore log_refines log_synced log_openable.
Proof.
  split.
  - intros w w' l a Hu (Hq & cs & c & Hrep & E). split; [by eapply unaffected_quiet|].
    exists cs, c. split; [|done]. by eapply log_rep_unaffected.
  - apply sync_synced.
  - intros w w' l a Hu (Hq & cs & c & Hrep & E & f & Hf & Hfs). split; [by eapply unaffected_quiet|].
    exists cs, c. split; [by eapply log_rep_unaffected|]. split; [done|].
    destruct Hu as (_ & _ & _ & _ & _ & Hc). exists f. unfold segment_path in *. by rewrite Hc.
  - intros w l a (Hq & cs & c & Hrep & E & _). split; [done|]. eauto.
  - intros w l a (_ & cs & c & Hrep & _).
    destruct Hrep as [(sealed & s & _ & Hco) _]. apply (co_dir _ _ _ _ _ _ _ _ Hco).
  - intros w w' l a (Hq & cs & c & Hrep & E & Hsy) Hc. split; [apply Hc|]. left.
    destruct (log_rep_disk _ _ _ _ _ _ Hrep Hc) as (c1 & t & Hd & _ & Hall).
    rewrite (Hall Hsy) in Hd. by exists cs, c, t.
  - intros w w' d a Hu [Hq Hcase]. split; [by eapply unaffected_quiet|].
    destruct Hcase as [(cs & c & t & Hd & E)|[-> (Hne & Hf & Hm & Hx)]].
    + left. exists cs, c, t. split; [|done]. by eapply disk_unaffected.
    + right. split; [done|]. destruct Hu as (_ & _ & U3 & U4 & _ & U6). split; [done|]. split; [|split].
      * intros p Hp Hnp. rewrite U4 by done. by apply Hf.
      * by rewrite U3.
      * intros x. by rewrite U6.
  - intros d d' w w' a Hg Ha [Hq Hcase]. pose proof Hg as (Hfa & _).
    split; [unfold quiet in *; congruence|]. destruct Hcase as [(cs & c & t & Hd & E)|[-> Hf]].
    + left. exists cs, c, t. split; [|done]. eapply disk_unaffected; [|done].
      eapply grows_unaffected; [done|done|by eapply apart_nonnil|]. apply (dk_dir _ _ _ _ _ _ Hd).
    + right. split; [done|]. by eapply fresh_dir_grows.
  - intros w d Hq Hne Hf Hm Hc. split; [done|]. by right.
  - intros w d a cfg [Hq [(cs & c & t & Hd & E)|[-> (Hne & Hf & Hm & Hc)]]].
    + destruct (log_open_run w d cfg (a_start a) cs c t Hq Hd) as (w' & l & Ho & Hr & Hdl & Hcf & Hq' & Ht).
      exists w', l. split; [done|]. split; [by split; [|eauto]|]. do 2 (split; [done|]).
      apply stays_grows; [by eapply seg_files_stays|]. apply (dk_dir _ _ _ _ _ _ Hd).
    + destruct (open_fresh_run w d cfg Hq Hf Hne Hm Hc) as (w' & l & Ho & Hr & Hdl & Hcf & Hq' & Hg).
      exists w', l. split; [done|]. split; [|done]. split; [done|]. by exists [], [].
Qed.

End store.
