(* ===== verification/LogOpenFaults.v ===== *)
(** * Failing system calls while a log is opened

    [Log.open] under any failure script: either it does what it does when no
    call fails, or it returns an I/O error and leaves the directory such that
    opening it again finds the same records. *)

From S2P Require Import Prelude Bytes Error Compression LogRecord Fs Names Search.
From S2P Require Import Segment SparseIndex Faults Log LogInv LogOps LogRetain LogRecover LogCrash LogSpec LogFaults LogStore.

(** ** Runs on the world alone *)
Definition wruns {A} (m : KM World A) (F : World -> Prop) (w : World) : Prop :=
  (exists fs, m w = (fst (m (calm w)), with_faults fs (snd (m (calm w)))))
  \/ (exists e w', m w = (Err (Io e), w') /\ F w').

Section wruns.
Context {A : Type}.
Implicit Types (m : KM World A) (F : World -> Prop).

Lemma wruns_imp m F F' w : (forall w', F w' -> F' w') -> wruns m F w -> wruns m F' w.
Proof. intros HF [Hr|(e & w' & Hr & Hw)]; [by left|right; eauto]. Qed.

Lemma wruns_ret (a : A) F w : wruns (ret a) F w.
Proof. left. exists (faults w). unfold ret, with_faults. simpl. by destruct w. Qed.

Lemma wruns_throw e F w : wruns (A := A) (throw e) F w.
Proof. left. exists (faults w). unfold throw, with_faults. simpl. by destruct w. Qed.

Lemma wruns_ext m m' F w : (forall w, m' w = m w) -> wruns m F w -> wruns m' F w.
Proof. intros Hm Hr. unfold wruns. rewrite !Hm. exact Hr. Qed.

Lemma wruns_bind {X} (m : KM World X) (k : X -> KM World A) F w :
  wruns m F w ->
  (forall a w1, m (calm w) = (Ok a, w1) -> quiet w1 /\ forall fs, wruns (k a) F (with_faults fs w1)) ->
  wruns (bind m k) F w.
Proof.
  intros [[fs Hm]|(e & w' & Hm & HF)] Hk.
  2: { right. exists e, w'. split; [|done]. by apply bind_Err. }
  unfold wruns, bind. rewrite Hm. destruct (m (calm w)) as [[a|e|p|] w1] eqn:E1; simpl.
  - destruct (Hk a w1 eq_refl) as [Hq Hr]. destruct (Hr fs) as [[fs' Hk']|Hk'].
    + left. exists fs'. rewrite Hk', calm_with_faults. by rewrite calm_of_quiet.
    + by right.
  - left. by exists fs.
  - left. by exists fs.
  - left. by exists fs.
Qed.

(** One system call. *)
Lemma wruns_call (m : IO A) F w :
  silent m -> (forall fs, F (with_faults fs w)) -> wruns (io (syscall m)) F w.
Proof.
  intros Hm HF. unfold wruns, io, map_err, syscall, bind, next_fault.
  destruct (faults w) as [|[f|] fs] eqn:E; simpl.
  - left. exists []. pose proof (Hm [] w) as H0. change (with_faults [] w) with (calm w) in *.
    assert (w = calm w) as Hw by (unfold calm, with_faults; rewrite <- E; by destruct w).
    rewrite Hw at 1. rewrite H0 at 1. by destruct (m (calm w)) as [[] ?].
  - right. do 2 eexists. split; [reflexivity|]. apply HF.
  - left. exists fs. change (mkWorld (nodes w) (now_ms w) fs (read_max w)) with (with_faults fs w).
    rewrite (Hm fs w) at 1. by destruct (m (calm w)) as [[] ?].
Qed.

(** A call on a local value. *)
Lemma wruns_with_local {T} (t : T) (m : KM (World * T) A) F w :
  runs_or Io m (fun w' _ => F w') w t -> wruns (with_local t m) F w.
Proof.
  intros [[fs Hm]|(e & w' & t' & Hm & HF)]; unfold wruns, with_local; rewrite Hm.
  - left. exists fs. by destruct (m (calm w, t)) as [[] []].
  - right. eauto.
Qed.

End wruns.

(** A call that only looks at the files. *)
Lemma silent_lookup {A} p (f : fnode -> A) : silent (let* x := lookup_file p in ret (f x)).
Proof. apply silent_bind; [apply silent_lookup_file|]. done. Qed.

Lemma silent_mkdirs pre todo : silent (mkdirs pre todo).
Proof.
  revert pre. induction todo as [|x todo IH]; intros pre; [done|]. cbn [mkdirs].
  apply silent_bind; [done|]. intros [[f|]|]; [done|apply IH|]. apply silent_bind; [done|]. intros _. apply IH.
Qed.

Lemma silent_read_dir p :
  silent (fun w => match nodes w !! p with
                   | Some NDir => (Ok (children w p), w)
                   | Some (NFile _) => (Err (io_error_from NotADirectory), w)
                   | None => (Err (io_error_from NotFound), w)
                   end).
Proof. intros fs w. simpl. by destruct (nodes w !! p) as [[]|]. Qed.

(** ** Code that only reads *)
Definition reads {A} (m : KM World A) : Prop :=
  forall w, snd (m (calm w)) = calm w /\ forall F, (forall fs, F (with_faults fs w)) -> wruns m F w.

Lemma reads_ret {A} (a : A) : reads (ret a).
Proof. intros w. split; [done|]. intros. apply wruns_ret. Qed.

Lemma reads_bind {A X} (m : KM World X) (k : X -> KM World A) :
  reads m -> (forall x, reads (k x)) -> reads (bind m k).
Proof.
  intros Hm Hk w. destruct (Hm w) as [Hs Hr]. split.
  - unfold bind. destruct (m (calm w)) as [[x|e|p|] w1]; simpl in Hs; subst w1; try done. by destruct (Hk x w).
  - intros F HF. apply wruns_bind; [by apply Hr|]. intros x w1 E. rewrite E in Hs. simpl in Hs. subst w1.
    split; [done|]. intros fs. destruct (Hk x (with_faults fs w)) as [_ Hk']. by apply Hk'.
Qed.

Lemma reads_lookup {A} p (f : fnode -> A) : reads (io (syscall (let* x := lookup_file p in ret (f x)))).
Proof.
  intros w. split; [|intros F HF; apply wruns_call; [apply silent_lookup|done]].
  unfold io, map_err, syscall, next_fault, lookup_file, get_node, bind. simpl.
  by destruct (nodes w !! p) as [[]|].
Qed.

Lemma reads_read_dir p : reads (io (read_dir p)).
Proof.
  intros w. split; [|intros F HF; apply wruns_call; [apply silent_read_dir|done]].
  unfold io, map_err, read_dir, syscall, next_fault, bind. simpl. by destruct (nodes w !! p) as [[]|].
Qed.

Lemma reads_segment_open dir base : reads (Segment.open dir base).
Proof.
  apply reads_bind; [apply reads_lookup|]. intros md. apply reads_bind; [apply reads_lookup|]. intros _. apply reads_ret.
Qed.

Lemma reads_index_open dir base ivl : reads (SparseIndex.open dir base ivl).
Proof.
  apply reads_bind; [apply reads_lookup|]. intros bs. apply reads_bind; [apply reads_lookup|]. intros _. apply reads_ret.
Qed.

Lemma reads_open_sealed dir ivl bases acc : reads (open_sealed dir ivl bases acc).
Proof.
  revert acc. induction bases as [|b bases IH]; intros acc; [apply reads_ret|]. cbn [open_sealed].
  apply reads_bind; [apply reads_segment_open|]. intros s. apply reads_bind; [apply reads_index_open|]. intros i. apply IH.
Qed.

Lemma reads_discover dir : reads (discover_segment_offsets dir).
Proof. apply reads_bind; [apply reads_read_dir|]. intros es. apply reads_ret. Qed.

(** The same of code with a local state. *)
Definition lreads {S E A} (inj : io_error -> E) (m : M (World * S) E A) : Prop :=
  forall w s, fst (snd (m (calm w, s))) = calm w
    /\ forall F : World -> Prop, (forall fs, F (with_faults fs w)) -> runs_or inj m (fun w' _ => F w') w s.

Section lreads.
Context {S E : Type} (inj : io_error -> E).

Lemma lreads_pure {A} (m : M (World * S) E A) (f : S -> outcome E A * S) :
  (forall w s, m (w, s) = (fst (f s), (w, snd (f s)))) -> lreads inj m.
Proof. intros Hm w s. split; [by rewrite Hm|]. intros F _. by eapply runs_or_pure. Qed.

Lemma lreads_ret {A} (a : A) : lreads inj (ret a : M (World * S) E A).
Proof. by apply (lreads_pure _ (fun s => (Ok a, s))). Qed.

Lemma lreads_modify f : lreads inj (modify_self f : M (World * S) E unit).
Proof. by apply (lreads_pure _ (fun s => (Ok tt, f s))). Qed.

Lemma lreads_self : lreads inj (self : M (World * S) E S).
Proof. by apply (lreads_pure _ (fun s => (Ok s, s))). Qed.

Lemma lreads_bind {A X} (m : M (World * S) E X) (k : X -> M (World * S) E A) :
  lreads inj m -> (forall x, lreads inj (k x)) -> lreads inj (bind m k).
Proof.
  intros Hm Hk w s. destruct (Hm w s) as [Hs Hr]. split.
  - unfold bind. destruct (m (calm w, s)) as [[x|e|p|] [w1 s1]]; simpl in Hs; subst w1; try done. by destruct (Hk x w s1).
  - intros F HF. apply runs_or_bind; [by apply Hr|]. intros x w1 s1 Hm1. rewrite Hm1 in Hs. simpl in Hs. subst w1.
    split; [done|]. intros fs. destruct (Hk x (with_faults fs w) s1) as [_ Hk']. by apply Hk'.
Qed.

Lemma lreads_call {A} (m : M (World * S) E A) :
  one_call inj m -> (forall w s, fst (snd (m (calm w, s))) = calm w) -> lreads inj m.
Proof. intros Hm Hs w s. split; [done|]. intros F HF. by apply one_call_runs. Qed.
End lreads.

Lemma lreads_io {S A} (m : M (World * S) io_error A) : lreads (fun e => e) m -> lreads Io (io m).
Proof.
  intros Hm w s. destruct (Hm w s) as [Hs Hr]. split; [|intros F HF; by apply runs_or_io, Hr].
  unfold io, map_err. by destruct (m (calm w, s)) as [[] []].
Qed.

Lemma lreads_zoom {S T E A} (inj : io_error -> E) (get : S -> T) (set : T -> S -> S) (m : M (World * T) E A) :
  lreads inj m -> lreads inj (zoom (fun s => (fst s, get (snd s))) (fun t s => (fst t, set (snd t) (snd s))) m).
Proof.
  intros Hm w s. destruct (Hm w (get s)) as [Hs Hr]. split.
  - unfold zoom. simpl. by destruct (m (calm w, get s)) as [o []].
  - intros F HF. eapply runs_or_imp; [|apply runs_or_zoom, (Hr F HF)]. by intros w' s' (t & _ & Ht).
Qed.

Lemma lreads_seek pos : lreads (fun e => e) (seek pos).
Proof. apply lreads_call; [apply one_call_seek|]. done. Qed.

Lemma lreads_read n : lreads (fun e => e) (read n).
Proof.
  apply lreads_call.
  - intros [ns t fs rm] fd. unfold read, on_world, zoom, syscall, next_fault, lookup_file, get_node, bind. simpl.
    destruct fs as [|[f|] fs]; simpl; try done; by destruct (ns !! fd_path fd) as [[]|].
  - intros [ns t fs rm] fd. unfold read, on_world, zoom, syscall, next_fault, lookup_file, get_node, bind. simpl.
    by destruct (ns !! fd_path fd) as [[]|].
Qed.

Lemma lreads_on_file {A} (m : FileIO A) : lreads (fun e => e) m -> lreads Io (Segment.on_file m).
Proof. intros Hm. apply (lreads_zoom Io Segment.file Segment.set_file). by apply lreads_io. Qed.

Lemma lreads_ensure_cursor pos : lreads Io (ensure_cursor pos).
Proof.
  apply lreads_bind; [apply lreads_self|]. intros s. case_decide; [|apply lreads_ret].
  apply lreads_bind; [apply lreads_on_file, lreads_seek|]. intros _. apply lreads_modify.
Qed.

Lemma lreads_read_at pos n : lreads Io (Segment.read_at pos n).
Proof.
  apply lreads_bind; [apply lreads_ensure_cursor|]. intros _.
  apply lreads_bind; [apply lreads_on_file, lreads_read|]. intros got.
  apply lreads_bind; [apply lreads_modify|]. intros _. apply lreads_ret.
Qed.

Lemma lreads_read_whole : lreads Io read_whole.
Proof.
  apply lreads_bind; [apply lreads_self|]. intros s. cbv zeta.
  apply lreads_bind; [apply lreads_read_at|]. intros got. apply lreads_ret.
Qed.

Lemma lreads_scan `{Buf} `{Crc32} `{Codecs} : lreads Io scan_for_last_valid_position.
Proof.
  apply lreads_bind; [apply lreads_self|]. intros s. destruct (Segment.size s =? 0); [apply lreads_ret|].
  apply lreads_bind; [apply lreads_read_whole|]. intros buf.
  by apply (lreads_pure _ _ (fun st => (scan_valid (S (length buf)) 0 buf, st))).
Qed.

(** Creating a file of a segment: without a failing call it is there, or it
    was there before. *)
Lemma file_create_wruns {A} p (f : unit -> A) F w :
  (forall fs, F (with_faults fs w)) -> wruns (let* u := io (open_create_new p) in ret (f u)) F w.
Proof.
  intros HF. apply wruns_bind; [apply wruns_call; [apply silent_create_new|exact HF]|].
  intros [] w1 E. split; [|intros; apply wruns_ret].
  unfold open_create_new, io, map_err, syscall, next_fault, get_node, bind in E. simpl in E.
  destruct (nodes w !! _); [done|]. destruct (parent_is_dir _ _); [|done]. injection E as <-. done.
Qed.

Lemma index_create_wruns dir b ivl F w :
  (forall fs, F (with_faults fs w)) -> wruns (SparseIndex.create dir b ivl) F w.
Proof. apply (file_create_wruns (index_path dir b)). Qed.

Lemma segment_create_wruns dir b F w :
  (forall fs, F (with_faults fs w)) -> wruns (Segment.create dir b) F w.
Proof. apply (file_create_wruns (segment_path dir b)). Qed.

(** The outcomes of the removal: done, nothing to do, an error - or the error
    that says there is nothing to remove although there is. *)
Lemma remove_cases p w :
  nodes w !! p <> Some NDir ->
  exists fs, remove_file_if_present p w
      = (Ok tt, with_faults fs (snd (remove_file_if_present p (calm w))))
    \/ remove_file_if_present p w = (Ok tt, with_faults fs w)
    \/ exists e, remove_file_if_present p w = (Err (Io e), with_faults fs w).
Proof.
  intros Hn. unfold remove_file_if_present, attempt, remove_file, lookup_file, syscall, next_fault, get_node, bind.
  destruct (faults w) as [|[f|] fs] eqn:E; simpl.
  - exists []. left. destruct (nodes w !! p) as [[g|]|] eqn:Ew; try done; simpl;
      unfold set_nodes, with_faults, calm; simpl; rewrite ?E; by destruct w; simpl in *; subst.
  - exists fs. right. change (mkWorld (nodes w) (now_ms w) fs (read_max w)) with (with_faults fs w).
    case_decide; [by left|right]. by eexists.
  - exists fs. left. by destruct (nodes w !! p) as [[g|]|] eqn:Ew.
Qed.

(** ** A recovery that is interrupted

    [w0] is the world in which [Log.open] starts.  [midway w]: of the files of
    the log only those of the active segment differ from [w0], the torn tail
    of the segment is there or cut off, and its index is whatever it is. *)
Section recovery.
Context {B : Buf} {H : Crc32} {C : Codecs}.
Context (w0 : World) (dir : path) (start : Z) (cs : list (list erec)) (c : list erec) (t : list byte).
Context (Hd0 : disk (calm w0) dir start cs c t).

Abbreviation base := (start + len (concat cs)).

Definition midway (w : World) : Prop :=
  touches (seg_files dir base) (calm w0) (calm w)
  /\ (exists f t1, nodes w !! segment_path dir base = Some (NFile f)
        /\ f_data f = concat (frames c) ++ t1 /\ (t1 = t \/ t1 = []))
  /\ nodes w !! index_path dir base <> Some NDir.

Lemma midway_faults fs w : midway w -> midway (with_faults fs w).
Proof. done. Qed.

Lemma midway_start : midway w0.
Proof.
  destruct Hd0 as [Hdo _ (f & Hf & Hfd & _) _ _ _ _]. split; [apply touches_refl|]. split; [exists f, t; auto|].
  by apply (do_nodir _ _ _ Hdo).
Qed.

Lemma midway_index w w' :
  midway w -> touches [index_path dir base] (calm w) (calm w') ->
  nodes w' !! index_path dir base <> Some NDir -> midway w'.
Proof.
  intros (Ht & (f & t1 & Hf & Hx) & _) Ht' Hn. split; [|split; [|done]].
  - eapply touches_trans; [exact Ht|]. by apply touches_snd.
  - exists f, t1. split; [|done]. rewrite <- Hf. apply (touches_lookup _ _ _ _ Ht').
    intros E%list_elem_of_singleton. by apply segment_index_path_ne in E.
Qed.

Lemma midway_segment w w' f :
  midway w -> touches [segment_path dir base] (calm w) (calm w') ->
  nodes w' !! segment_path dir base = Some (NFile f) -> f_data f = concat (frames c) -> midway w'.
Proof.
  intros (Ht & _ & Hn) Ht' Hf Hd. split; [|split].
  - eapply touches_trans; [exact Ht|]. by apply touches_fst.
  - exists f, []. by rewrite app_nil_r; auto.
  - intros E. apply Hn. rewrite <- E. symmetry. apply (touches_lookup _ _ _ _ Ht').
    intros E'%list_elem_of_singleton. symmetry in E'. by apply segment_index_path_ne in E'.
Qed.

Lemma all_sealed_touches w w' n b l :
  all_sealed w dir b l -> touches (seg_files dir n) w w' -> is_u64 n -> 0 <= b -> b + len (concat l) <= n ->
  all_sealed w' dir b l.
Proof.
  intros Ha Ht Hn. revert b Ha. induction l as [|x l IH]; intros b; simpl; [done|].
  intros [[S1 S2 S3 S4 S5] Ha] Hb Hle. rewrite len_app in Hle. pose proof (len_pos _ S5).
  pose proof (len_nonneg (concat l)). pose proof (len_nonneg x). unfold is_u64 in Hn.
  destruct (seg_files_other dir b n) as [Ho1 Ho2]; [split; lia|done|lia|].
  split; [|by apply IH; [done|lia|lia]]. split; try done.
  - by rewrite (touches_lookup _ _ _ _ Ht Ho1).
  - by rewrite (touches_lookup _ _ _ _ Ht Ho2).
  - by rewrite (seg_limit_touches _ _ _ Ht).
Qed.

Lemma torn_midway t1 : t1 = t \/ t1 = [] -> torn t1 /\ len t1 <= len t.
Proof.
  intros [->| ->]; split; try done; [apply (dk_torn _ _ _ _ _ _ Hd0)|by left|apply len_nonneg].
Qed.

Lemma base_u64 : is_u64 base.
Proof.
  destruct Hd0. pose proof (len_nonneg (concat cs)). pose proof (len_nonneg c). split; lia.
Qed.

(** Opening the log again finds what was there. *)
Lemma midway_disk w : midway w -> exists t1, disk (calm w) dir start cs c t1.
Proof.
  intros (Ht & (f & t1 & Hf & Hfd & Ht1) & Hn). destruct (torn_midway t1 Ht1) as [Htorn Hlen].
  destruct Hd0 as [Hdo Hse (f0 & Hf0 & Hfd0 & Hm) Hdec _ Hst Hb]. exists t1.
  pose proof (len_nonneg (concat cs)). pose proof (len_nonneg c). split; try done.
  - eapply dir_ok_touches; [exact Ht|apply base_u64|apply all_bases_last|exact Hn|exact Hdo].
  - eapply all_sealed_touches; [exact Hse|exact Ht|apply base_u64|done|lia].
  - exists f. split; [exact Hf|]. split; [exact Hfd|]. rewrite (seg_limit_touches _ _ _ Ht).
    rewrite Hfd0 in Hm. rewrite Hfd. rewrite len_app in *. lia.
Qed.

(** *** Cutting the tail off *)
Lemma silent_set_len p n :
  silent (let* f := lookup_file p in
          fun w => put_file p (FNode (resize n x00 (f_data f)) (f_synced f) (now_ms w)) w).
Proof. apply silent_bind; [apply silent_lookup_file|]. done. Qed.

Lemma one_call_set_len n : one_call (fun e => e) (set_len n).
Proof.
  intros w fd. exact (one_call_syscall (S := File) _ (silent_set_len (fd_path fd) (Z.to_nat n)) w fd).
Qed.

Lemma truncate_runs w s t1 :
  midway w -> Segment.rep w s (concat (frames c) ++ t1) -> seg_path s = segment_path dir base ->
  runs_or Io (Segment.truncate (len (concat (frames c)))) (fun w' _ => midway w') w s.
Proof.
  intros Hm Hr Hp. destruct (Segment.rep_node _ _ _ Hr) as (f & Hf & Hfd).
  pose proof (Segment.rep_path _ _ _ Hr) as Hfp. destruct (Segment.file s) as [fp pos] eqn:Efile. simpl in Hfp. subst fp.
  unfold Segment.truncate. apply runs_or_bind.
  { apply one_call_runs; [|done]. apply (one_call_zoom Io Segment.file Segment.set_file); [by intros []|].
    apply one_call_io, one_call_set_len. }
  intros [] w1 s1 E1. pose proof (set_len_run (calm w) (calm_quiet w) (len (concat (frames c))) _ pos f Hf) as R1.
  rewrite <- Efile in R1. unfold Segment.on_file, zoom in E1. cbn [fst snd] in E1. rewrite (io_Ok _ _ _ _ R1) in E1.
  injection E1 as <- <-. split; [done|]. intros fs.
  assert (Ez : resize (Z.to_nat (len (concat (frames c)))) x00 (f_data f) = concat (frames c)).
  { rewrite Hfd, <- len_length, resize_le by (rewrite length_app; lia). apply take_app_length. }
  rewrite Ez, Hp.
  assert (Hmid : forall fs n, f_data n = concat (frames c) ->
    midway (with_faults fs (set_nodes <[segment_path dir base := NFile n]> (calm w)))).
  { intros fs' n Hn. eapply (midway_segment w); [exact Hm|exact (touches_insert _ _ (calm w))|apply lookup_insert_eq|exact Hn]. }
  apply runs_or_bind.
  { apply one_call_runs; [apply one_call_segment_sync|]. intros fs'. by apply Hmid. }
  intros [] w2 s2 E2. unfold Segment.on_file, zoom, Segment.set_file in E2. cbn [fst snd Segment.file] in E2. rewrite Efile, Hp in E2.
  rewrite (io_Ok _ _ _ _ (sync_data_run _ (calm_quiet _) _ _ _ (lookup_insert_eq _ _ _))) in E2.
  injection E2 as <- <-. split; [done|]. intros fs'. runs_pure.
Qed.

(** *** Replacing the index *)
Lemma with_faults_eta w : with_faults (faults w) w = w.
Proof. by destruct w. Qed.

(** A file in the way: whatever fails, it is an I/O error. *)
Lemma index_create_blocked ivl w n :
  nodes w !! index_path dir base = Some n ->
  exists e fs, SparseIndex.create dir base ivl w = (Err (Io e), with_faults fs w).
Proof.
  intros Hn. unfold SparseIndex.create, open_create_new, io, map_err, syscall, next_fault, get_node, bind.
  destruct (faults w) as [|[f|] fs] eqn:E; simpl; rewrite ?Hn; do 2 eexists; [|reflexivity..].
  rewrite <- (with_faults_eta w) at 1. rewrite E. reflexivity.
Qed.

Lemma replace_index_wruns ivl w :
  midway w ->
  wruns (let* _ := remove_file_if_present (index_path dir base) in SparseIndex.create dir base ivl) midway w.
Proof.
  intros Hm. pose proof Hm as (_ & _ & Hn). set (p := index_path dir base) in *.
  destruct (remove_file_if_present_run (calm w) p (calm_quiet w) Hn) as (w1 & Hrm & Ht & Hnone).
  pose proof (touches_quiet _ _ _ Ht (calm_quiet w)) as Hq1.
  assert (Hm1 : forall fs, midway (with_faults fs w1)).
  { intros fs. apply (midway_index w); [exact Hm| |intros E; change (nodes w1 !! p = Some NDir) in E; congruence].
    change (calm (with_faults fs w1)) with (calm w1). by rewrite (calm_of_quiet w1). }
  assert (Hcalm : (let* _ := remove_file_if_present p in SparseIndex.create dir base ivl) (calm w)
    = SparseIndex.create dir base ivl (calm w1)).
  { rewrite (bind_Ok _ _ _ _ _ Hrm). by rewrite calm_of_quiet. }
  unfold wruns. rewrite Hcalm. destruct (remove_cases _ w Hn) as (fs & [E|[E|[e E]]]).
  - rewrite (bind_Ok _ _ _ _ _ E). fold p. rewrite Hrm. cbn [snd].
    apply (index_create_wruns dir base ivl midway (with_faults fs w1)). done.
  - rewrite (bind_Ok _ _ _ _ _ E). destruct (nodes w !! p) as [n|] eqn:Ep.
    + right. destruct (index_create_blocked ivl (with_faults fs w) n Ep) as (e & fs' & ->). by do 2 eexists.
    + assert (w1 = calm w) as ->.
      { unfold remove_file_if_present, attempt in Hrm.
        unfold bind in Hrm at 1. rewrite (remove_file_missing (calm w) (calm_quiet w) p Ep) in Hrm. by injection Hrm. }
      apply (index_create_wruns dir base ivl midway (with_faults fs w)). done.
  - right. rewrite (bind_Err _ _ _ _ _ E). by do 2 eexists.
Qed.

(** *** Rebuilding it *)
Lemma appended_calm p bytes w w' :
  appended p bytes w w' -> touches [p] (calm w) (calm w') /\ exists g, nodes w' !! p = Some (NFile g).
Proof.
  intros (Hm & Hs & f & f' & k & _ & Hf' & _ & _ & Hn). split; [|by exists f'].
  do 3 (split; [done|]). intros q Hq. apply Hs. intros ->. apply Hq. by left.
Qed.

Lemma replay_loop_runs ix w k b fuel :
  midway w -> idx_path ix = index_path dir base ->
  SparseIndex.rep w ix -> positions ix (frames c) k -> (k <= length c)%nat ->
  SparseIndex.base_offset ix = b -> 0 <= b -> b + len c < 2 ^ 64 ->
  Forall decodes c -> len (concat (frames c)) <= u32_max ->
  runs_or Io (replay_loop fuel b (pos_of (frames c) k) (Z.of_nat k) (concat (frames (drop k c))))
    (fun w' _ => midway w') w ix.
Proof.
  revert w ix k. induction fuel as [|fuel IH]; intros w ix k Hmid Hip Hr Hp Hk Hba Hb0 Hb Hd Hm.
  { by apply (runs_or_pure _ _ _ w ix NoFuel ix). }
  unfold len in Hb. destruct (decide (k = length c)) as [->|Hne].
  { rewrite drop_ge by done. apply runs_or_ret. }
  cbn [replay_loop].
  destruct (lookup_lt_is_Some_2 c k ltac:(lia)) as [[fr r] Hfr].
  pose proof Hd as Hd'. rewrite Forall_lookup in Hd'. destruct (Hd' _ _ Hfr) as (Hfne & Hdec & _).
  simpl in Hfne, Hdec. rewrite (drop_S _ _ _ Hfr). cbn [frames map concat]. simpl fst.
  destruct (fr ++ concat (frames (drop (S k) c))) as [|b0 bs] eqn:E.
  { apply app_eq_nil in E as [-> _]. done. }
  rewrite <- E. eapply runs_or_ext; [intros st; by apply (bind_Ok (local _ decode) _ st (r, concat (frames (drop (S k) c))) st); unfold local; rewrite Hdec|].
  cbn [snd]. rewrite len_app, Z.add_simpl_r.
  pose proof (pos_of_nonneg (frames c) k). pose proof (pos_of_le (frames c) (S k)).
  assert (Hpf : pos_of (frames c) (S k) = pos_of (frames c) k + len fr).
  { apply pos_of_S. by rewrite list_lookup_fmap, Hfr. }
  pose proof (len_nonneg fr). pose proof (count_le_bytes c Hd) as Hcnt.
  unfold len in Hcnt at 1. unfold u32_max in Hm.
  rewrite (u64_add_small b) by lia.
  pose proof Hr as [Hrp (g & Hg & _)].
  assert (Hrc : SparseIndex.rep (calm w) ix) by by eapply SparseIndex.rep_touch.
  destruct (track_append_run (calm w) ix (frames c) k (len fr) (calm_quiet w) Hrc Hp)
    as (w1 & ix1 & Hrun & Hr1 & Hp1 & Ht1 & Hb1 & Hi1);
    [rewrite Hba; split; lia|split; lia|split; lia|rewrite Hba; lia|].
  rewrite Hba in Hrun. apply runs_or_bind.
  - eapply runs_or_imp; [|exact (track_append_runs w ix _ _ _ g Hrp Hg)].
    intros w' s' (bytes & Ha & _). rewrite Hip in Ha. destruct (appended_calm _ _ _ _ Ha) as [Hta [g' Hg']].
    eapply midway_index; [exact Hmid|exact Hta|by rewrite Hg'].
  - intros [] w2 ix2 E2. rewrite Hrun in E2. injection E2 as <- <-.
    pose proof (touches_quiet _ _ _ Ht1 (calm_quiet w)) as Hq1. split; [exact Hq1|]. intros fs.
    rewrite !u64_add_small, <- Hpf by lia. replace (Z.of_nat k + 1) with (Z.of_nat (S k)) by lia.
    apply IH; try done; try lia.
    + apply midway_faults. pose proof Hr1 as [_ (g1 & Hg1 & _)]. rewrite Hi1, Hip in Hg1. rewrite Hip in Ht1.
      eapply midway_index; [exact Hmid|by rewrite (calm_of_quiet w1)|by rewrite Hg1].
    + congruence.
    + by eapply SparseIndex.rep_touch.
Qed.

Lemma active_bounds : 0 <= base /\ base + len c < 2 ^ 64 /\ Forall decodes c
  /\ len (concat (frames c) ++ t) <= seg_limit w0.
Proof.
  destruct Hd0 as [_ _ (f & _ & Hfd & Hm) Hdec _ Hst Hb]. pose proof (len_nonneg (concat cs)).
  split; [lia|]. do 2 (split; [done|]). by rewrite <- Hfd.
Qed.

Lemma replay_runs w s :
  midway w -> Segment.rep w (segment s) (concat (frames c)) -> SparseIndex.rep w (index s) ->
  entries (index s) = [] -> SparseIndex.base_offset (index s) = base -> idx_path (index s) = index_path dir base ->
  runs_or Io (replay_records_to_index base) (fun w' _ => midway w') w s.
Proof.
  intros Hmid Hr Hi He Hb Hip. destruct active_bounds as (B0 & B1 & B2 & B3). unfold seg_limit in B3.
  rewrite len_app in B3. pose proof (len_nonneg t). pose proof Hmid as ((_ & _ & Hrm & _) & _). simpl in Hrm.
  unfold replay_records_to_index. apply runs_or_self.
  destruct (Z.eqb_spec (Segment.size (segment s)) 0); [apply runs_or_ret|].
  assert (Hrc : Segment.rep (calm w) (segment s) (concat (frames c))) by by eapply rep_same_nodes.
  destruct (read_whole_run (calm w) (segment s) _ (calm_quiet w) Hrc) as (sg & Hrun & Hr1 & _); [simpl; lia|].
  pose proof (lreads_zoom Io Log.segment (fun t s => mkIndexed t (index s)) _ lreads_read_whole) as Hl.
  apply runs_or_bind; [by apply Hl|]. intros buf w1 s1 E. pose proof (on_seg_run _ _ _ _ _ _ Hrun) as R. rewrite E in R.
  injection R as -> -> ->. split; [done|]. intros fs.
  assert (Hpos0 : positions (index s) (frames c) 0).
  { split; rewrite He; [constructor|]. by intros i j x y _ Hx. }
  eapply runs_or_imp; [|apply (runs_or_zoom Io Log.index (fun t s => mkIndexed (Log.segment s) t));
    pose proof (replay_loop_runs (index s) (with_faults fs (calm w)) 0 base (S (length (concat (frames c))))) as Hloop;
    unfold pos_of in Hloop; rewrite drop_0 in Hloop; apply Hloop; try done; unfold u32_max in *; try lia].
  - by intros w' s' (x & _ & Hx).
  - by eapply SparseIndex.rep_touch.
Qed.

Lemma replace_index_run ivl w ix w' :
  quiet w -> touches (seg_files dir base) (calm w0) (calm w) -> nodes w !! index_path dir base <> Some NDir ->
  (let* _ := remove_file_if_present (index_path dir base) in SparseIndex.create dir base ivl) w = (Ok ix, w') ->
  touches [index_path dir base] w w' /\ SparseIndex.rep w' ix /\ entries ix = []
  /\ SparseIndex.base_offset ix = base /\ idx_path ix = index_path dir base.
Proof.
  intros Hq Ht Hn. destruct (remove_file_if_present_run w (index_path dir base) Hq Hn) as (w1 & Hrm & Ht1 & Hnone).
  rewrite (bind_Ok _ _ _ _ _ Hrm). pose proof (touches_quiet _ _ _ Ht1 Hq) as Hq1.
  assert (Hdir : nodes w1 !! dir = Some NDir).
  { rewrite (touches_lookup _ _ _ _ Ht1) by (intros E%list_elem_of_singleton; by apply snoc_ne in E).
    change (nodes (calm w) !! dir = Some NDir).
    rewrite (touches_lookup _ _ _ _ Ht) by apply seg_files_not_dir. apply (do_dir _ _ _ (dk_dir _ _ _ _ _ _ Hd0)). }
  destruct (index_create_run w1 dir base ivl Hq1 Hnone (parent_index_path _ _ _ Hdir)) as (ix' & Hci & Hri & He & Hb & Hp).
  rewrite Hci. intros [= <- <-]. split; [|done]. eapply touches_trans; [exact Ht1|apply touches_insert].
Qed.

(** The cut, without failures. *)
Lemma cut_calm_run s u s2 w3 :
  Segment.rep (calm w0) s (concat (frames c) ++ t) -> seg_path s = segment_path dir base ->
  (if len (concat (frames c)) <? Segment.size s then with_local s (Segment.truncate (len (concat (frames c))))
   else ret (tt, s)) (calm w0) = (Ok (u, s2), w3) ->
  quiet w3 /\ Segment.rep w3 s2 (concat (frames c)) /\ seg_path s2 = segment_path dir base
  /\ touches [segment_path dir base] (calm w0) w3.
Proof.
  intros Hr Hp E. destruct (cut_segment_run (calm w0) s c t (calm_quiet w0) Hr) as (w2 & s2' & Hc & Hr2 & Ht2 & _ & Hp2).
  rewrite Hc in E. injection E as <- <- <-. rewrite Hp in Ht2, Hp2. split; [|done].
  by eapply touches_quiet.
Qed.

(** The last part of the recovery, once the segment is its records. *)
Lemma reindex_wruns {A} ivl w s2 fs (k : IndexedSegment -> Z -> A) :
  quiet w -> midway w -> Segment.rep w s2 (concat (frames c)) -> seg_path s2 = segment_path dir base ->
  wruns (let* ix := (let* _ := remove_file_if_present (index_path dir base) in SparseIndex.create dir base ivl) in
         let* replayed := with_local (mkIndexed s2 ix) (replay_records_to_index base) in
         let '(n, s) := replayed in ret (k s n)) midway (with_faults fs w).
Proof.
  intros Hq3 Hmid3 Hr2 Hp2. destruct active_bounds as (B0 & B1 & Hdec & Hm).
  apply wruns_bind; [by apply replace_index_wruns|]. intros ix w4 E4. rewrite calm_with_faults, calm_of_quiet in E4 by done.
  destruct (replace_index_run ivl w ix w4 Hq3) as (Ht4 & Hi4 & He4 & Hb4 & Hp4); [apply Hmid3|apply Hmid3|done|].
  pose proof (touches_quiet _ _ _ Ht4 Hq3) as Hq4. split; [done|]. intros fs4.
  assert (Hmid4 : forall fs, midway (with_faults fs w4)).
  { intros fs'. destruct Hi4 as [_ (g & Hg & _)]. rewrite Hp4 in Hg. eapply (midway_index w); [done| |].
    2: { intros Ex. change (nodes w4 !! index_path dir base = Some NDir) in Ex. congruence. }
    rewrite calm_with_faults. by rewrite !calm_of_quiet. }
  assert (Hr4 : Segment.rep w4 s2 (concat (frames c))).
  { eapply Segment.rep_frame; [exact Hr2|]. rewrite Hp2.
    apply (touches_lookup _ _ _ _ Ht4). intros E'%list_elem_of_singleton. by apply segment_index_path_ne in E'. }
  apply wruns_bind; [apply wruns_with_local, replay_runs; try done|].
  - by apply (rep_same_nodes w4).
  - by eapply SparseIndex.rep_touch.
  - intros [n s5] w5 E5. split; [|intros; apply wruns_ret]. rewrite calm_with_faults, calm_of_quiet in E5 by done.
    destruct (replay_run w4 (mkIndexed s2 ix) base c) as (w' & s' & Hrp & _ & _ & _ & Ht5 & _); simpl; try done.
    + rewrite (seg_limit_touches _ _ _ Ht4). destruct Hmid3 as ((_ & _ & Hrm & _) & _).
      unfold seg_limit in *. simpl in Hrm. rewrite Hrm. rewrite len_app in Hm. pose proof (len_nonneg t). lia.
    + rewrite Hp2, Hp4. intros E'. symmetry in E'. by apply segment_index_path_ne in E'.
    + rewrite (with_local_run _ _ _ _ _ _ Hrp) in E5. injection E5 as <- <- <-. by eapply touches_quiet.
Qed.

Lemma recover_wruns ivl : wruns (recover_active_segment dir base ivl) midway w0.
Proof.
  destruct Hd0 as [Hdo Hse (f & Hf & Hfd & Hm) Hdec Ht Hst Hb].
  pose proof midway_start as Hmid. rewrite Hfd in Hm. unfold seg_limit, u32_max in Hm. simpl in Hm.
  unfold recover_active_segment. destruct (reads_segment_open dir base w0) as [_ Hopen].
  apply wruns_bind; [by apply Hopen|]. intros s0 w1 E.
  destruct (segment_open_run (calm w0) dir base f (calm_quiet w0) Hf) as (s & Ho & Hr0 & _ & Hp0); [rewrite Hfd; lia|].
  rewrite Ho in E. injection E as <- <-. split; [done|]. intros fs1. rewrite Hfd in Hr0.
  apply wruns_bind; [by apply wruns_with_local, lreads_scan|]. intros [pos s1] w2 E.
  destruct (recovery_scan_run (calm w0) s c t (calm_quiet w0) Hr0 Hdec Ht ltac:(simpl; lia)) as (s1' & Hs & Hr1 & _ & Hp1).
  rewrite calm_with_faults, (calm_of_quiet (calm w0)), (with_local_run _ _ _ _ _ _ Hs) in E by done.
  injection E as <- <- <-. split; [done|]. intros fs2. cbv iota beta. rewrite Hp0 in Hp1.
  apply wruns_bind.
  { destruct (_ <? _); [|apply wruns_ret]. apply wruns_with_local.
    apply (truncate_runs _ _ t); [done|by eapply rep_same_nodes|done]. }
  intros [u s2] w3 E. destruct (cut_calm_run s1' u s2 w3 Hr1 Hp1 E) as (Hq3 & Hr2 & Hp2 & Ht3). split; [exact Hq3|]. intros fs3. cbn [snd].
  assert (Hmid3 : midway w3).
  { destruct (Segment.rep_node _ _ _ Hr2) as (f3 & Hf3 & Hfd3). rewrite Hp2 in Hf3.
    eapply (midway_segment w0); [done| |exact Hf3|exact Hfd3]. by rewrite (calm_of_quiet w3). }
  eapply wruns_ext; [intros w; symmetry; apply bind_bind|].
  by apply (reindex_wruns ivl w3 s2 fs3 (fun s n => (Log.segment s, Log.index s, n))).
Qed.

End recovery.

(** ** [open] where there is a log *)
Section open.
Context {B : Buf} {H : Crc32} {C : Codecs}.

Lemma log_open_wruns w0 dir start cs c t cfg :
  disk (calm w0) dir start cs c t -> wruns (Log.open dir cfg) (midway w0 dir start cs c t) w0.
Proof.
  intros Hd0. pose proof (midway_start _ _ _ _ _ _ Hd0) as Hmid.
  pose proof Hd0 as [Hdo Hse (f & Hf & Hfd & Hm) Hdec Ht Hst Hb].
  destruct (bases_of_sorted (calm w0) dir start cs Hse) as [Hso Hba].
  pose proof (len_nonneg (concat cs)). pose proof (len_nonneg c). set (base := start + len (concat cs)) in *.
  assert (Hdis : discover_segment_offsets dir (calm w0) = (Ok (all_bases start cs), calm w0)).
  { apply discover_run; [done|done| |done]. intros b Hin. rewrite Forall_forall in Hba.
    destruct (Hba b Hin) as [Hle Hex]. pose proof (all_bases_le _ _ _ Hin).
    split; [split; lia|]. destruct (decide (b = base)) as [->|]; [by eexists|].
    destruct (Hex ltac:(lia)). by eexists. }
  unfold Log.open. apply wruns_bind; [apply wruns_call; [apply silent_mkdirs|done]|].
  intros [] w1 E. rewrite (io_Ok _ _ _ _ (create_dir_all_made (calm w0) dir (calm_quiet w0) (do_dirs _ _ _ Hdo))) in E.
  injection E as <-. split; [done|]. intros fs1.
  apply wruns_bind; [by apply (reads_discover dir (with_faults fs1 (calm w0)))|]. intros bs w2 E.
  change (calm (with_faults fs1 (calm w0))) with (calm w0) in E. rewrite Hdis in E. injection E as <- <-.
  split; [done|]. intros fs2. unfold all_bases. rewrite last_snoc, removelast_last. fold base.
  destruct (open_sealed_run (calm w0) dir (index_interval cfg) start cs [] (calm_quiet w0) Hse) as (ss & Hos & _).
  apply wruns_bind; [by apply (reads_open_sealed dir _ _ _ (with_faults fs2 (calm w0)))|]. intros ss' w3 E.
  change (calm (with_faults fs2 (calm w0))) with (calm w0) in E. rewrite Hos in E. injection E as <- <-.
  split; [done|]. intros fs3.
  apply wruns_bind; [exact (recover_wruns (with_faults fs3 (calm w0)) dir start cs c t Hd0 (index_interval cfg))|].
  intros [[sg ix] n] w4 E. change (calm (with_faults fs3 (calm w0))) with (calm w0) in E. split; [|intros; apply wruns_ret].
  destruct (recover_active_run (calm w0) dir base (index_interval cfg) c t f) as (w' & sg' & ix' & Hrec & _ & _ & _ & Htc);
    try done; [by eapply do_nodir|by eapply do_dir|lia|].
  rewrite Hrec in E. injection E as <- <- <- <-. by eapply touches_quiet.
Qed.

End open.
