(* ===== verification/LogReadFaults.v ===== *)
(** * Reads that fail

    A read whose system calls fail returns the error and leaves the log as it
    was, the cached file positions included: reading again finds the record. *)

From S2P Require Import Prelude Bytes Error Compression LogRecord Fs Names Search.
From S2P Require Import Segment SparseIndex Faults Log LogInv LogOps LogRead LogRetain LogRecover LogCrash LogSpec LogFaults LogStore.
From S2P Require Import LogOpenFaults.

(** ** A segment *)
Definition cursor_moved (w : World) (s : Segment.Segment) (data : list byte) (w' : World) (s' : Segment.Segment) : Prop :=
  calm w' = calm w /\ Segment.rep (calm w) s' data
  /\ Segment.base_offset s' = Segment.base_offset s /\ seg_path s' = seg_path s.

Lemma one_call_read n : one_call (fun e => e) (read n).
Proof.
  intros [ns t fs rm] fd. unfold read, on_world, zoom, syscall, next_fault, lookup_file, get_node, bind. simpl.
  destruct fs as [|[f|] fs]; simpl; try done; by destruct (ns !! fd_path fd) as [[]|].
Qed.

Lemma one_call_on_file {A} (m : FileIO A) : one_call (fun e => e) m -> one_call Io (Segment.on_file m).
Proof. intros Hm. apply (one_call_zoom Io Segment.file Segment.set_file); [by intros []|]. by apply one_call_io. Qed.

Lemma ensure_cursor_keeps w s data pos :
  Segment.rep (calm w) s data -> runs_or Io (ensure_cursor pos) (cursor_moved w s data) w s.
Proof.
  intros Hr. unfold ensure_cursor. apply runs_or_self. case_decide; [|apply runs_or_ret].
  apply runs_or_bind.
  - apply one_call_runs; [apply one_call_on_file, one_call_seek|]. by intros fs.
  - intros [] w1 s1 E. split; [|intros fs; apply runs_or_update].
    unfold Segment.on_file, seek, io, map_err, on_world, zoom, syscall, next_fault, bind in E. simpl in E.
    by injection E as <- _.
Qed.

Lemma read_at_runs w s data pos n :
  Segment.rep (calm w) s data -> runs_or Io (Segment.read_at pos n) (cursor_moved w s data) w s.
Proof.
  intros Hr. destruct (ensure_cursor_run (calm w) s data pos (calm_quiet w) Hr) as (s1 & He & Hr1 & _ & _ & Hb1 & Hp1 & _).
  apply runs_or_bind; [by apply ensure_cursor_keeps|]. intros [] w1 s1' E. rewrite He in E. injection E as <- <-.
  split; [done|]. intros fs. apply runs_or_bind.
  - apply one_call_runs; [apply one_call_on_file, one_call_read|]. by intros fs'.
  - intros got w2 s2 E. destruct (lreads_on_file _ (lreads_read n) (calm w) s1) as [Hs _].
    rewrite calm_with_faults, (calm_of_quiet (calm w)) in E by done. change (calm (calm w)) with (calm w) in Hs.
    rewrite E in Hs. simpl in Hs. subst w2. split; [done|]. intros fs'.
    apply (runs_or_pure _ _ _ _ s2 (Ok got) (set_cursor (Some (u64_add pos (len got))) s2)). done.
Qed.

(** ** The log *)
Section log.
Context {B : Buf} {H : Crc32} {C : Codecs}.

Lemma runs_or_on_nth {A} i (m : KM (World * IndexedSegment) A) F w l s :
  segments l !! i = Some s -> runs_or Io m F w s ->
  runs_or Io (on_nth i m) (fun w' l' => exists s', l' = set_segments (<[i := s']> (segments l)) l /\ F w' s') w l.
Proof.
  unfold runs_or, on_nth. simpl. intros ->. intros [[fs Hm]|(e & w' & s' & Hm & HF)].
  - left. exists fs. rewrite Hm. by destruct (m (calm w, s)) as [o []].
  - right. rewrite Hm. eauto 7.
Qed.

Lemma read_record_at_runs w l start cs c off :
  log_rep (calm w) l start cs c ->
  runs_or Io (Log.read_record_at off)
    (fun w' l' => calm w' = calm w /\ log_rep (calm w) l' start cs c /\ Log.dir l' = Log.dir l /\ config l' = config l) w l.
Proof.
  intros Hrep. unfold Log.read_record_at. apply runs_or_self. destruct (_ <=? _); [apply runs_or_ret|]. cbv zeta.
  set (i := find_segment_index l off). destruct (segments l !! i) as [s|] eqn:Hi; [|apply runs_or_panic].
  destruct (lookup_total (index s) off) as [[pos cur] Hlk]. eapply runs_or_bind_pure; [intros w'; apply Hlk|]. cbv iota beta.
  destruct (_ =? 0); [apply runs_or_ret|].
  destruct (log_rep_seg _ _ _ _ _ _ _ Hrep Hi) as (ci & _ & [Hr Hb Hp Hb2 Hp2 Hdec Hmax] & _).
  apply runs_or_bind.
  - eapply runs_or_imp; [|apply (runs_or_on_nth i _ (fun w' s' => calm w' = calm w /\ index s' = index s
      /\ Segment.rep (calm w) (segment s') (concat (frames ci))
      /\ Segment.base_offset (segment s') = Segment.base_offset (segment s) /\ seg_path (segment s') = seg_path (segment s)) w l s Hi)].
    + intros w' l' (s' & -> & Hw & Hix & Hr' & Hb' & Hp'). split; [done|]. split; [|done].
      destruct s' as [sg ix]. cbn [index] in Hix. subst ix. by eapply log_rep_moved.
    + eapply runs_or_imp; [|apply (runs_or_zoom Io Log.segment (fun t s => mkIndexed t (index s))), read_at_runs, Hr].
      intros w' s' (t & -> & Hw & Hr' & Hb' & Hp'). by split_and!.
  - intros slice w1 l1 E. unfold on_nth in E. rewrite Hi in E.
    destruct (lreads_zoom Io Log.segment (fun t s => mkIndexed t (index s)) _
      (lreads_read_at pos (u64_saturating_sub (Segment.size (segment s)) pos)) (calm w) s) as [Hs _].
    change (calm (calm w)) with (calm w) in Hs. unfold on_seg in E. destruct (zoom _ _ _ (calm w, s)) as [o [w2 s2]].
    simpl in Hs. subst w2. injection E as -> <- <-. split; [done|]. intros fs.
    by eapply (runs_or_pure _ _ _ _ _ (scan_to (S (length slice)) off cur slice)).
Qed.

(** Reading under any failure script: the answer of a world in which nothing
    fails, or an I/O error; and the log is what it was. *)
Lemma read_runs w l a off :
  log_refines (calm w) l a -> 0 <= off ->
  exists o w' l', Log.read_record_at off (w, l) = (o, (w', l')) /\ log_refines (calm w') l' a
    /\ calm w' = calm w /\ Log.dir l' = Log.dir l /\ (o = Ok (a_read off a) \/ exists e, o = Err (Io e)).
Proof.
  intros (Hq & cs & c & Hrep & E) H0.
  destruct (read_record_at_runs w l _ _ _ off Hrep) as [[fs Hr]|(e & w' & l' & Hr & Hw & Hrep' & Hd & _)].
  - destruct (read_record_at_run (calm w) l _ cs c off Hq Hrep H0) as (l' & Hrun & Hrep' & Hd & _).
    rewrite Hrun in Hr. unfold resume in Hr. simpl in Hr. eexists _, _, _. split; [exact Hr|].
    change (calm (with_faults fs (calm w))) with (calm w). split; [split; [done|]; by exists cs, c|].
    do 2 (split; [done|]). left. unfold a_read. by rewrite E.
  - exists (Err (Io e)), w', l'. split; [done|]. rewrite Hw. split; [split; [done|]; by exists cs, c|].
    do 2 (split; [done|]). right. by eexists.
Qed.

(** Reads one after another, whatever each of them answers. *)
Fixpoint read_each (offs : list Z) : KM (World * Log) (list (option record + KafkoError)) :=
  match offs with
  | [] => ret []
  | off :: offs =>
      let* r := attempt (Log.read_record_at off) in
      let* rs := read_each offs in
      ret (r :: rs)
  end.

Definition right_or_failed (a : alog) (off : Z) (r : option record + KafkoError) : Prop :=
  r = inl (a_read off a) \/ exists e, r = inr (Io e).

Lemma read_each_runs w l a offs :
  log_refines (calm w) l a -> Forall (fun off => 0 <= off) offs ->
  exists rs w' l', read_each offs (w, l) = (Ok rs, (w', l')) /\ Forall2 (right_or_failed a) offs rs
    /\ log_refines (calm w') l' a /\ calm w' = calm w.
Proof.
  intros Hr Ho. revert w l Hr. induction Ho as [|off offs H0 _ IH]; intros w l Hr.
  { exists [], w, l. split; [done|]. by split; [constructor|]. }
  destruct (read_runs w l a off Hr H0) as (o & w1 & l1 & Hrun & Hr1 & Hw1 & _ & Ho).
  destruct (IH w1 l1 Hr1) as (rs & w2 & l2 & Hrs & Hf & Hr2 & Hw2).
  exists (match o with Ok r => inl r | Err e => inr e | _ => inl None end :: rs), w2, l2.
  split; [|split; [constructor; [|done]|split; [done|congruence]]].
  - cbn [read_each]. unfold bind at 1, attempt. rewrite Hrun.
    destruct Ho as [->|[e ->]]; by rewrite (bind_Ok _ _ _ _ _ Hrs).
  - destruct Ho as [->|[e ->]]; [by left|right; by eexists].
Qed.

End log.
