(* ===== verification/LogReopen.v ===== *)
(** * Logs that are opened again

    [Log.open] may fail half way, and a log may be dropped without a sync: the
    directory still holds what it held.  [LogReopen] is that part of the log's
    contract, on which restarting a topic or the broker relies. *)

From S2P Require Import Prelude Bytes Error Compression LogRecord Fs Names Search.
From S2P Require Import Segment SparseIndex Faults Log LogInv LogOps LogRetain LogRecover LogCrash LogSpec LogFaults LogStore.
From S2P Require Import LogOpenFaults.

Section reopen.
Context {B : Buf} {H : Crc32} {C : Codecs}.

(** The directories up to [d] were made, and files in it changed - or nothing
    happened at all. *)
Definition may_grow (d : path) (w w' : World) : Prop := w' = w \/ grows d w w'.

Class LogReopen (R : World -> Log -> alog -> Prop) (D : World -> path -> alog -> Prop) : Prop := {
  lr_abandon w l a : R w l a -> D w (dir l) a;
  lr_open w d a cfg :
    D (calm w) d a ->
    wruns (Log.open d cfg) (fun w' => D (calm w') d a /\ may_grow d (calm w) (calm w')) w;
  lr_crash w w' l a :
    R w l a -> crash w w' -> exists n, D w' (dir l) (mkALog (a_start a) (take n (a_recs a)));
}.

(** ** A directory without a log *)
Lemma empty_dir_ok w d :
  dirs_made w d -> nodes w !! d = Some NDir -> (forall x, nodes w !! (d ++ [x]) = None) ->
  dir_ok w d (all_bases 0 []).
Proof.
  intros Hds Hd Hn. change (all_bases 0 []) with [0]. split; try done; unfold index_path.
  - intros name n b E. by rewrite Hn in E.
  - intros b _ _. apply Hn.
  - intros b. by rewrite Hn.
Qed.

(** Its first segment is there, the index of it may be or not. *)
Lemma first_segment_disk w d :
  quiet w -> dirs_made w d -> nodes w !! d = Some NDir -> 0 <= read_max w ->
  (forall x, nodes w !! (d ++ [x]) = None) ->
  disk (set_nodes <[segment_path d 0 := NFile (FNode [] [] (now_ms w))]> w) d 0 [] [] [].
Proof.
  intros Hq Hds Hd Hm Hn. set (w1 := set_nodes _ w).
  assert (Ht : touches [segment_path d 0] w w1) by apply touches_insert. split; try done.
  - change (all_bases 0 []) with [0].
    eapply (dir_ok_touches w _ d [0] 0); [by apply touches_fst|by split|by left| |by apply empty_dir_ok].
    rewrite (touches_lookup _ _ _ _ Ht); [unfold index_path; by rewrite Hn|].
    intros E%list_elem_of_singleton. symmetry in E. by apply segment_index_path_ne in E.
  - eexists. split; [apply lookup_insert_eq|]. split; [done|]. unfold seg_limit, u32_max, len. simpl. lia.
  - by left.
Qed.

Lemma log_create_wruns w d cfg (F : World -> Prop) :
  dirs_made w d -> nodes w !! d = Some NDir -> 0 <= read_max w -> (forall x, nodes w !! (d ++ [x]) = None) ->
  (forall fs, F (with_faults fs w)) ->
  (forall w' fs, quiet w' -> touches [segment_path d 0] (calm w) w' -> disk w' d 0 [] [] [] -> F (with_faults fs w')) ->
  wruns (Log.create d cfg) F w.
Proof.
  intros Hds Hd Hm Hn HF0 HF1. unfold Log.create.
  apply wruns_bind; [apply wruns_call; [apply silent_mkdirs|done]|]. intros [] w1 E.
  rewrite (io_Ok _ _ _ _ (create_dir_all_made (calm w) d (calm_quiet w) Hds)) in E. injection E as <-.
  split; [done|]. intros fs1. apply wruns_bind; [by apply segment_create_wruns|]. intros sg w2 E.
  destruct (segment_create_run (calm w) d 0 (calm_quiet w) (Hn _) (parent_segment_path _ _ _ Hd)) as (sg' & Hc & _).
  change (calm (with_faults fs1 (calm w))) with (calm w) in E. rewrite Hc in E. injection E as <- <-.
  split; [done|]. intros fs2. apply wruns_bind.
  - apply index_create_wruns. intros fs. apply (HF1 (set_nodes _ (calm w))); [done|apply touches_insert|].
    exact (first_segment_disk (calm w) d (calm_quiet w) Hds Hd Hm Hn).
  - intros ix w3 E. split; [|intros; apply wruns_ret].
    unfold SparseIndex.create, open_create_new, io, map_err, syscall, next_fault, get_node, bind in E. simpl in E.
    destruct (insert _ _ _ !! index_path d 0); [done|]. destruct (parent_is_dir _ _); [|done]. by injection E as _ <-.
Qed.

Lemma silent_create_dir_all d F w : (forall fs, F (with_faults fs w)) -> wruns (io (create_dir_all d)) F w.
Proof. intros HF. apply wruns_call; [apply silent_mkdirs|done]. Qed.

Lemma log_open_fresh_wruns w d cfg :
  fresh_dir (calm w) d ->
  wruns (Log.open d cfg)
    (fun w' => log_openable (calm w') d (mkALog 0 []) /\ may_grow d (calm w) (calm w')) w.
Proof.
  intros Hfr. pose proof Hfr as (Hne & Hf & Hm & Hn). unfold Log.open.
  apply wruns_bind; [apply silent_create_dir_all; intros fs; split; [split; [done|by right]|by left]|].
  intros [] w1 E.
  destruct (create_dir_all_run (calm w) d (calm_quiet w) Hf) as (w1' & Hmk & Hq1 & Hm1 & Hd1 & Hnow & Hsame).
  rewrite (io_Ok _ _ _ _ Hmk) in E. injection E as ->. split; [done|]. intros fs1.
  assert (Hn1 : forall x, nodes w1 !! (d ++ [x]) = None).
  { intros x. rewrite Hsame; [apply Hn|]. left. apply snoc_not_prefix. }
  assert (Hnd : nodes w1 !! d = Some NDir) by by apply Hd1.
  assert (Hg1 : grows d (calm w) w1).
  { split; [exact Hq1|]. do 3 (split; [done|]). intros p Hp _. by apply Hsame. }
  assert (HF1 : forall fs, log_openable (calm (with_faults fs w1)) d (mkALog 0 []) /\ may_grow d (calm w) (calm (with_faults fs w1))).
  { intros fs. change (calm (with_faults fs w1)) with (calm w1). rewrite (calm_of_quiet w1) by done.
    split; [|by right]. split; [done|]. right. split; [done|]. split; [done|]. split; [|split; [by rewrite Hm1|done]].
    intros p Hp Hp'. left. by apply Hd1. }
  apply wruns_bind; [by apply (reads_discover d (with_faults fs1 w1))|]. intros bs w2 E.
  change (calm (with_faults fs1 w1)) with (calm w1) in E. rewrite (calm_of_quiet w1) in E by done.
  assert (bs = [] /\ w2 = w1) as [-> ->].
  { unfold discover_segment_offsets in E. erewrite bind_Ok in E; [|apply io_Ok; unfold read_dir; by rewrite syscall_quiet, Hnd].
    replace (children w1 d) with (@nil (string * node)) in E; [by injection E|].
    destruct (children w1 d) as [|[x n] ch] eqn:Ec; [done|exfalso].
    assert ((x, n) ∈ children w1 d) as Hin%elem_of_children by (rewrite Ec; by left). by rewrite Hn1 in Hin. }
  split; [done|]. intros fs2. cbn [last].
  apply log_create_wruns; try done; [simpl in *; lia|].
  intros w' fs Hq' Ht Hdk. change (calm (with_faults fs w')) with (calm w'). rewrite (calm_of_quiet w') by done.
  change (calm (with_faults fs2 w1)) with (calm w1) in Ht. rewrite (calm_of_quiet w1) in Ht by done.
  split; [split; [done|]; left; by exists [], [], []|]. right.
  destruct Hg1 as (G1 & G2 & G3 & G4 & G5).
  assert (Hs : stays d w1 w') by (apply (seg_files_stays _ 0); by apply touches_fst).
  destruct (stays_grows d w1 w' Hs G4) as (K1 & K2 & K3 & K4 & K5).
  do 3 (split; [congruence|]). split; [done|]. intros p Hp Hx. by rewrite K5, G5.
Qed.

(** ** The implementation *)
(** What a crash leaves, as a directory to open. *)
Lemma crashed_openable w w1 l a :
  log_refines w l a -> crash w w1 ->
  exists n, log_openable w1 (dir l) (mkALog (a_start a) (take n (a_recs a))).
Proof.
  intros (Hq & cs & c & Hrep & E) Hc. destruct (log_rep_disk _ _ _ _ _ _ Hrep Hc) as (c1 & t & Hd & [k ->] & _).
  exists (length (concat cs) + length c1)%nat. split; [apply Hc|]. left. exists cs, c1, t. split; [done|]. simpl.
  rewrite E. unfold records_of. rewrite <- length_app, app_assoc, map_app.
  rewrite <- (length_map snd (concat cs ++ c1)). by rewrite take_app_length.
Qed.

#[export] Instance kafko_reopen : LogReopen log_refines log_openable.
Proof.
  split.
  - intros w l a (Hq & cs & c & [Hco _] & E). split; [done|]. left. exists cs, c, []. split; [|done].
    destruct Hco as (sealed & s & _ & [K1 [Hr Hb Hp Hbi Hpi Hd Hm] _ _ _ K6 K7 K8]).
    split; try done; [by eapply chain_all_sealed| |by left].
    destruct (Segment.rep_node _ _ _ Hr) as (f & Hf & Hfd). rewrite Hp in Hf. exists f.
    rewrite app_nil_r, Hfd. done.
  - intros w d a cfg [Hq [(cs & c & t & Hd & E)|[-> Hf]]].
    + eapply wruns_imp; [|by apply log_open_wruns]. intros w' Hmid. cbv beta.
      destruct (midway_disk _ _ _ _ _ _ Hd _ Hmid) as (t1 & Hd1).
      split; [split; [apply calm_quiet|]; left; by exists cs, c, t1|]. right.
      apply stays_grows; [|by apply (dk_dir _ _ _ _ _ _ Hd)]. eapply seg_files_stays. apply Hmid.
    + by apply log_open_fresh_wruns.
  - intros w w' l a. apply crashed_openable.
Qed.

(** ** Starts that fail *)

(** An attempt to open the log that ends in an error, whatever failed. *)
Definition failed_open (d : path) (w w' : World) : Prop :=
  exists cfg fs e, Log.open d cfg (with_faults fs w) = (Err e, w').

Lemma failed_opens_keep {R S : World -> Log -> alog -> Prop} {D : World -> path -> alog -> Prop}
    {LS : LogStore R S D} {LR : LogReopen R D} d w w' a :
  D (calm w) d a -> rtc (failed_open d) w w' -> D (calm w') d a.
Proof.
  intros Hd Hr. induction Hr as [w|w w1 w2 (cfg & fs & e & Ho) _ IH]; [done|]. apply IH.
  destruct (lr_open (with_faults fs w) d a cfg Hd) as [[fs' Hw]|(e' & w' & Hw & Hd' & _)].
  - destruct (ls_open (calm w) d a cfg Hd) as (w' & l & Hrun & _).
    change (calm (with_faults fs w)) with (calm w) in Hw. rewrite Hrun, Ho in Hw. done.
  - rewrite Ho in Hw. by injection Hw as _ <-.
Qed.

End reopen.
