(* ===== verification/LogRetainFaults.v ===== *)
(** * Retention whose system calls fail

    [apply_retention] under any failure script.  [delete_oldest_segment] takes
    the segment out of the log before it removes its files: a removal that
    fails leaves a segment that the log no longer reads, and that the next
    [Log.open] finds again. *)

From S2P Require Import Prelude Bytes Error Compression LogRecord Fs Names Search.
From S2P Require Import Segment SparseIndex Faults Log LogInv LogOps LogRead LogRetain LogRecover LogCrash LogSpec LogFaults LogStore.
From S2P Require Import LogOpenFaults LogReadFaults LogReopen.

Section retain_faults.
Context {B : Buf} {H : Crc32} {C : Codecs}.
Implicit Types (w : World) (l : Log) (s : IndexedSegment) (c : list erec) (cs : list (list erec)).

Definition ok_or_io {A} (o : outcome KafkoError A) (a : A) : Prop := o = Ok a \/ exists e, o = Err (Io e).

(** ** One segment *)
Lemma remove_file_cases w p f :
  nodes w !! p = Some (NFile f) ->
  exists fs,
    io (remove_file p) w = (Ok tt, with_faults fs (set_nodes (delete p) w))
    \/ exists e, io (remove_file p) w = (Err (Io e), with_faults fs w).
Proof.
  intros Hf. unfold io, map_err, remove_file, lookup_file, syscall, next_fault, get_node, bind.
  destruct (faults w) as [|[fl|] fs] eqn:E; simpl.
  - exists []. left. rewrite Hf. simpl. unfold set_nodes, with_faults. simpl. by rewrite E.
  - exists fs. right. by eexists.
  - exists fs. left. rewrite Hf. by destruct w.
Qed.

(** Whatever the calls answer, the first segment is gone from the log; its
    file is gone too, or the call has failed and the files are as they were. *)
Lemma delete_oldest_any w l start cs c c0 :
  log_rep (calm w) l start (c0 :: cs) c ->
  exists o w' s ss,
    segments l = s :: ss
    /\ delete_oldest_segment (w, l) = (o, (w', set_segments ss l)) /\ stays (dir l) (calm w) (calm w')
    /\ (ok_or_io o tt /\ log_rep (calm w') (set_segments ss l) (start + len c0) cs c
          /\ touches (seg_files (dir l) start) (calm w) (calm w')
        \/ (exists e, o = Err (Io e)) /\ calm w' = calm w).
Proof.
  intros Hrep. destruct (log_rep_first _ _ _ _ _ _ Hrep) as (s & ss & f & Hs & Hps & Hf & Hnd).
  assert (Hrun : delete_oldest_segment (w, l) =
    bind (in_world (io (remove_file (segment_path (dir l) start))))
      (fun _ => in_world (remove_file_if_present (index_path (dir l) start))) (w, set_segments ss l)).
  { unfold delete_oldest_segment. rewrite bind_self, Hs. cbv iota beta zeta.
    by rewrite bind_modify_self, Hps, with_extension_segment_path. }
  destruct (remove_file_cases w _ f Hf) as (fs & [Hrm|[e Hrm]]).
  2: { exists (Err (Io e)), (with_faults fs w), s, ss. split; [done|]. rewrite Hrun. split.
    { by apply bind_Err, in_world_run. }
    split; [done|]. right. split; [by eexists|done]. }
  set (w1 := with_faults fs (set_nodes (delete (segment_path (dir l) start)) w)) in *.
  rewrite (bind_Ok _ _ _ _ _ (in_world_run _ _ _ _ _ Hrm)) in Hrun.
  assert (Hnd1 : nodes w1 !! index_path (dir l) start <> Some NDir).
  { simpl. by rewrite lookup_delete_ne by apply segment_index_path_ne. }
  destruct (remove_file_if_present_run (calm w1) _ (calm_quiet w1) Hnd1) as (w2 & Hrun2 & Ht2 & Hnone).
  assert (Hend : forall o w', remove_file_if_present (index_path (dir l) start) w1 = (o, w') -> ok_or_io o tt ->
    touches [index_path (dir l) start] (calm w1) (calm w') ->
    nodes w' !! index_path (dir l) start = None \/ nodes w' !! index_path (dir l) start = nodes w1 !! index_path (dir l) start ->
    exists o w' s ss, segments l = s :: ss
      /\ delete_oldest_segment (w, l) = (o, (w', set_segments ss l)) /\ stays (dir l) (calm w) (calm w')
      /\ (ok_or_io o tt /\ log_rep (calm w') (set_segments ss l) (start + len c0) cs c
            /\ touches (seg_files (dir l) start) (calm w) (calm w')
          \/ (exists e, o = Err (Io e)) /\ calm w' = calm w)).
  { intros o w' Ho Hio Ht Hi. exists o, w', s, ss. split; [done|]. rewrite Hrun. split; [by apply in_world_run|].
    assert (Ht' : touches (seg_files (dir l) start) (calm w) (calm w')).
    { eapply touches_trans; [apply touches_fst|by apply touches_snd]. apply (touches_delete _ (calm w)). }
    split; [by eapply seg_files_stays|]. left. split; [done|]. split; [|done].
    eapply log_rep_behead; [done|done|done| |].
    - rewrite (touches_lookup _ _ _ _ Ht); [simpl; apply lookup_delete_eq|].
      intros E%list_elem_of_singleton. by apply segment_index_path_ne in E.
    - simpl in Hi |- *. rewrite lookup_delete_ne in Hi by apply segment_index_path_ne. exact Hi. }
  destruct (remove_cases _ w1 Hnd1) as (fs' & [E|[E|[e E]]]).
  - rewrite Hrun2 in E. eapply Hend; [exact E|by left| |by left].
    change (calm (with_faults fs' (snd (Ok tt, w2)))) with (calm w2).
    by rewrite (calm_of_quiet w2) by by eapply touches_quiet.
  - eapply Hend; [exact E|by left| |by right]. apply touches_refl.
  - eapply Hend; [exact E|right; by eexists| |by right]. apply touches_refl.
Qed.

(** ** A run of retention

    [n] segments are gone from the log and from the disk; one more may be gone
    from the log only. *)
Definition retained (w : World) (l : Log) (start : Z) cs c (count : nat) (d : Z)
    (o : outcome KafkoError Z) (w' : World) (l' : Log) : Prop :=
  exists n k : nat,
    l' = set_segments (drop k (segments l)) l /\ (k = n \/ k = S n) /\ (k <= count)%nat
    /\ log_rep (calm w') (set_segments (drop n (segments l)) l) (start + len (concat (take n cs))) (drop n cs) c
    /\ stays (dir l) (calm w) (calm w')
    /\ (o = Ok (d + Z.of_nat count) /\ n = count /\ k = n \/ exists e, o = Err (Io e)).

Lemma retained_none w l start cs c d fs :
  log_rep (calm w) l start cs c -> retained w l start cs c 0 d (Ok d) (with_faults fs w) l.
Proof.
  intros Hr. exists 0%nat, 0%nat. rewrite drop_0, set_segments_same. split; [done|]. split; [by left|]. split; [lia|].
  simpl. rewrite (len_nil (A := erec)), Z.add_0_r, drop_0. split; [done|]. split; [done|]. left.
  by rewrite Z.add_0_r.
Qed.

Lemma retained_stop w l start cs c count d e w' :
  log_rep (calm w) l start cs c -> calm w' = calm w -> retained w l start cs c count d (Err (Io e)) w' l.
Proof.
  intros Hr Hw. exists 0%nat, 0%nat. rewrite drop_0, set_segments_same. split; [done|]. split; [by left|]. split; [lia|].
  simpl. rewrite (len_nil (A := erec)), Z.add_0_r, drop_0, Hw. do 2 (split; [done|]). right. by eexists.
Qed.

Lemma retained_next w l start c0 cs c count d o w1 w' l' s ss :
  segments l = s :: ss -> stays (dir l) (calm w) (calm w1) ->
  retained w1 (set_segments ss l) (start + len c0) cs c count (d + 1) o w' l' ->
  retained w l start (c0 :: cs) c (S count) d o w' l'.
Proof.
  intros Hs Hst (n & k & -> & Hk & Hc & Hr & Hst' & Ho). exists (S n), (S k). rewrite Hs. split; [done|].
  split; [destruct Hk; [left|right]; lia|]. split; [lia|]. split.
  { simpl. rewrite len_app, Z.add_assoc. exact Hr. }
  split; [by eapply stays_trans|]. destruct Ho as [(-> & -> & ->)|Ho]; [left|by right].
  split; [f_equal; lia|done].
Qed.

Section loops.
Context (body : Z -> KM (World * Log) (Z + Z)) (more : list Z -> bool) (count : list Z -> nat)
  (measure : World -> IndexedSegment -> Z).
Context (body_one : forall d w l s, segments l = [s] -> body d (w, l) = (Ok (inr d), (w, l))).
Context (body_more : forall d w l start cs c, log_rep (calm w) l start cs c -> cs <> [] ->
  exists fs, body d (w, l) = (if more (map (measure (calm w)) (segments l))
                   then bind delete_oldest_segment (fun _ => ret (inl (d + 1)))
                   else ret (inr d)) (with_faults fs w, l)
    \/ exists e, body d (w, l) = (Err (Io e), (with_faults fs w, l))).
Context (count_one : forall x, count [x] = 0%nat).
Context (count_more : forall x y r,
  count (x :: y :: r) = if more (x :: y :: r) then S (count (y :: r)) else 0%nat).
Context (measure_touches : forall w w' l start cs c n,
  log_rep w' l start cs c -> touches (seg_files (dir l) n) w w' -> 0 <= n < start ->
  map (measure w') (segments l) = map (measure w) (segments l)).

Lemma retain_loop_any w l start cs c d fuel :
  log_rep (calm w) l start cs c -> (length cs < fuel)%nat ->
  exists o w' l', loop fuel body d (w, l) = (o, (w', l'))
    /\ retained w l start cs c (count (map (measure (calm w)) (segments l))) d o w' l'.
Proof using All.
  revert w l start d fuel. induction cs as [|c0 cs IH]; intros w l start d fuel Hrep Hf.
  { destruct (segments_one _ _ _ _ Hrep) as [s Hs]. destruct fuel as [|fuel]; [lia|].
    exists (Ok d), w, l. split; [by eapply loop_exit, body_one|]. rewrite Hs. simpl map. rewrite count_one.
    rewrite <- (with_faults_eta w) at 2. by apply retained_none. }
  destruct (segments_two _ _ _ _ _ _ Hrep) as (s & s' & ss & Hs). destruct fuel as [|fuel]; [lia|]. simpl in Hf.
  destruct (body_more d w l start (c0 :: cs) c Hrep ltac:(done)) as (fs & [Hbody|[e Hbody]]).
  2: { exists (Err (Io e)), (with_faults fs w), l. split; [|by apply retained_stop].
    cbn [loop]. by apply bind_Err. }
  rewrite Hs in *. cbn [map] in *. rewrite count_more. destruct (more _) eqn:Hm.
  2: { exists (Ok d), (with_faults fs w), l. split; [by apply loop_exit|by apply retained_none]. }
  destruct (delete_oldest_any (with_faults fs w) l start cs c c0 Hrep)
    as (o & w1 & s1 & ss1 & Hs1 & Hdel & Hst & Hcase). rewrite Hs in Hs1. injection Hs1 as <- <-.
  change (calm (with_faults fs w)) with (calm w) in *.
  destruct Hcase as [([->|[e ->]] & Hrep1 & Ht1)|([e ->] & Hw1)].
  - destruct (IH w1 _ (start + len c0) (d + 1) fuel Hrep1 ltac:(lia)) as (o & w2 & l2 & Hrun & Hret).
    exists o, w2, l2. split.
    { rewrite (loop_next _ _ _ (d + 1) _ (w1, set_segments (s' :: ss) l)); [done|].
      by rewrite Hbody, (bind_Ok _ _ _ _ _ Hdel). }
    eapply retained_next; [done|done|].
    by rewrite (measure_touches _ _ _ _ _ _ start Hrep1 Ht1 (log_rep_starts _ _ _ _ _ _ Hrep)) in Hret.
  - exists (Err (Io e)), w1, (set_segments (s' :: ss) l). split.
    { cbn [loop]. apply bind_Err. rewrite Hbody. by apply bind_Err. }
    eapply (retained_next w l start c0 cs c _ d _ w1); [done|done|]. by apply retained_stop.
  - exists (Err (Io e)), w1, (set_segments (s' :: ss) l). split.
    { cbn [loop]. apply bind_Err. rewrite Hbody. by apply bind_Err. }
    exists 0%nat, 1%nat. rewrite Hs, Hw1. split; [done|]. split; [by right|]. split; [lia|].
    rewrite !drop_0, <- Hs, set_segments_same. simpl. rewrite (len_nil (A := erec)), Z.add_0_r.
    do 2 (split; [done|]). right. by eexists.
Qed.
End loops.

Lemma mtime_any w l start cs c s ss :
  log_rep (calm w) l start cs c -> segments l = s :: ss ->
  exists fs, on_nth 0 (on_seg Segment.last_modified_ms) (w, l) = (Ok (mtime_of (calm w) s), (with_faults fs w, l))
    \/ exists e, on_nth 0 (on_seg Segment.last_modified_ms) (w, l) = (Err (Io e), (with_faults fs w, l)).
Proof.
  intros Hrep Hs. assert (segments l !! 0%nat = Some s) as Hi by by rewrite Hs.
  destruct (log_rep_seg _ _ _ _ _ _ _ Hrep Hi) as (ci & _ & [Hr _ _ _ _ _ _] & _).
  destruct (Segment.rep_node _ _ _ Hr) as (f & Hf & _). change (nodes w !! seg_path (segment s) = Some (NFile f)) in Hf.
  assert (Hsame : set_segments (<[0%nat := s]> (segments l)) l = l) by (rewrite list_insert_id by done; by destruct l).
  assert (Hmd : exists fs, io (metadata (seg_path (segment s))) w = (Ok (len (f_data f), f_mtime f), with_faults fs w)
    \/ exists e, io (metadata (seg_path (segment s))) w = (Err (Io e), with_faults fs w)).
  { unfold io, map_err, metadata, lookup_file, syscall, next_fault, get_node, bind.
    destruct (faults w) as [|[fl|] fs] eqn:E; simpl.
    - exists []. left. rewrite Hf. simpl. by rewrite <- E, with_faults_eta.
    - exists fs. right. by eexists.
    - exists fs. left. by rewrite Hf. }
  assert (Hon : forall o w', Segment.last_modified_ms (w, segment s) = (o, (w', segment s)) ->
            on_nth 0 (on_seg Segment.last_modified_ms) (w, l) = (o, (w', l))).
  { intros o w' Hm. assert (on_seg Segment.last_modified_ms (w, s) = (o, (w', s))) as Hm' by (destruct s; by apply on_seg_run).
    pose proof (on_nth_run _ _ _ l 0 s s o Hi Hm') as E. by rewrite Hsame in E. }
  destruct Hmd as (fs & [Hmd|[e Hmd]]); exists fs; [left|right; exists e]; apply Hon; unfold Segment.last_modified_ms; rewrite bind_self.
  - erewrite bind_Ok; [|by apply in_world_run]. unfold mtime_of. change (nodes (calm w)) with (nodes w). by rewrite Hf.
  - by apply bind_Err, in_world_run.
Qed.

Lemma retain_by_age_any cutoff w l start cs c d fuel :
  log_rep (calm w) l start cs c -> (length cs < fuel)%nat ->
  exists o w' l', loop fuel (retain_by_age cutoff) d (w, l) = (o, (w', l'))
    /\ retained w l start cs c (age_count cutoff (map (mtime_of (calm w)) (segments l))) d o w' l'.
Proof.
  apply (retain_loop_any (retain_by_age cutoff)
           (fun ms => match ms with m :: _ => m <? cutoff | [] => false end)
           (age_count cutoff) mtime_of); try done.
  - intros d' w' l' s Hs. unfold retain_by_age. by rewrite bind_self, Hs.
  - intros d' w' l' start' cs' c' Hrep Hne. destruct cs' as [|c0 cs']; [done|].
    destruct (segments_two _ _ _ _ _ _ Hrep) as (s & s' & ss & Hs).
    destruct (mtime_any w' l' start' _ c' s _ Hrep Hs) as (fs & Hm). exists fs.
    unfold retain_by_age. rewrite bind_self, Hs, !len_cons.
    rewrite (proj2 (Z.ltb_lt _ _)) by (pose proof (len_nonneg ss); lia).
    destruct Hm as [Hm|[e Hm]]; [left|right; exists e; by apply bind_Err].
    rewrite (bind_Ok _ _ _ _ _ Hm). simpl. by destruct (_ <? _).
  - intros. by eapply mtime_of_touches.
Qed.

Lemma retain_by_size_any mx w l start cs c d fuel :
  log_rep (calm w) l start cs c -> (length cs < fuel)%nat ->
  exists o w' l', loop fuel (retain_by_size mx) d (w, l) = (o, (w', l'))
    /\ retained w l start cs c (size_count u64_sum mx (map seg_size (segments l))) d o w' l'.
Proof.
  apply (retain_loop_any (retain_by_size mx) (fun ss => mx <? u64_sum ss)
           (size_count u64_sum mx) (fun _ => seg_size)); try done.
  - intros d' w' l' s Hs. unfold retain_by_size. by rewrite bind_self, Hs.
  - intros d' w' l' start' cs' c' Hrep Hne. destruct cs' as [|c0 cs']; [done|].
    destruct (segments_two _ _ _ _ _ _ Hrep) as (s & s' & ss & Hs). exists (faults w'). left.
    unfold retain_by_size. rewrite bind_self, total_size_sizes, Hs, !len_cons.
    rewrite (proj2 (Z.ltb_lt _ _)) by (pose proof (len_nonneg ss); lia). simpl andb.
    rewrite with_faults_eta. by destruct (_ <? _).
Qed.

(** The size policy follows the age policy. *)
Lemma retained_then w l start cs c a b w1 l1 o w' l' :
  retained w l start cs c a 0 (Ok (Z.of_nat a)) w1 l1 ->
  retained w1 l1 (start + len (concat (take a cs))) (drop a cs) c b (Z.of_nat a) o w' l' ->
  retained w l start cs c (a + b) 0 o w' l'.
Proof.
  intros (n & k & -> & _ & _ & Hr1 & Hs1 & [(_ & -> & ->)|[e He]]); [|done].
  intros (n & k & -> & Hk & Hc & Hr & Hs & Ho). cbn [segments set_segments] in *.
  exists (a + n)%nat, (a + k)%nat. rewrite !drop_drop in *. split; [done|].
  split; [destruct Hk; [left|right]; lia|]. split; [lia|].
  split; [by rewrite <- take_take_drop, concat_app, len_app, Z.add_assoc|].
  split; [by eapply stays_trans|]. destruct Ho as [(-> & -> & ->)|Ho]; [left|by right].
  by rewrite Nat2Z.inj_add.
Qed.

Lemma apply_retention_any w l start cs c :
  log_rep (calm w) l start cs c ->
  let a := age_deletes (calm w) l in
  exists o w' l', apply_retention (w, l) = (o, (w', l'))
    /\ retained w l start cs c (a + size_deletes l (drop a (segments l))) 0 o w' l'.
Proof.
  intros Hrep. cbn zeta. set (a := age_deletes (calm w) l).
  pose proof (log_rep_segments_length _ _ _ _ _ Hrep) as Hlen. rewrite length_app in Hlen. simpl in Hlen.
  assert (exists o w1 l1,
    match max_segment_age (config l) with
     | Some max_age =>
         let max_age_ms := as_i64 (as_millis max_age) in
         let cutoff := i64_saturating_sub (as_i64 (Z.max 0 (now_ms w))) max_age_ms in
         loop (S (length (segments l))) (retain_by_age cutoff) 0
     | None => ret 0
     end (w, l) = (o, (w1, l1)) /\ retained w l start cs c a 0 o w1 l1)
    as (o1 & w1 & l1 & Hrun1 & Hret1).
  { unfold a, age_deletes. destruct (max_segment_age (config l)) as [age|].
    - apply retain_by_age_any; [done|lia].
    - exists (Ok 0), w, l. split; [done|]. rewrite <- (with_faults_eta w) at 2. by apply retained_none. }
  unfold apply_retention. rewrite (bind_Ok _ _ _ (as_i64 (Z.max 0 (now_ms w))) (w, l)) by done. rewrite bind_self.
  pose proof Hret1 as (n & k & El & Hk & Hc & Hr1 & Hs1 & [(-> & -> & ->)|[e ->]]).
  2: { erewrite bind_Err by exact Hrun1. exists (Err (Io e)), w1, l1. split; [done|].
       exists n, k. split; [done|]. split; [done|]. split; [lia|]. do 2 (split; [done|]). right. by eexists. }
  erewrite bind_Ok by exact Hrun1. unfold size_deletes.
  rewrite El in *. cbn [config set_segments segments] in *.
  destruct (max_partition_bytes (config l)) as [mx|].
  - edestruct (retain_by_size_any mx w1 _ _ _ _ (Z.of_nat a) (S (length (segments l))) Hr1) as (o & w2 & l2 & Hrun2 & Hret2).
    { rewrite length_drop. lia. }
    exists o, w2, l2. split; [exact Hrun2|]. by eapply retained_then.
  - exists (Ok (Z.of_nat a)), w1. eexists. split; [done|]. by rewrite Nat.add_0_r.
Qed.

(** ** Reading while a forgotten segment lies in the directory *)
Lemma read_at_local w w0 (sg : Segment.Segment) pos n :
  quiet w -> quiet w0 -> read_max w0 = read_max w ->
  nodes w0 !! fd_path (Segment.file sg) = nodes w !! fd_path (Segment.file sg) ->
  exists o sg', Segment.read_at pos n (w0, sg) = (o, (w0, sg')) /\ Segment.read_at pos n (w, sg) = (o, (w, sg')).
Proof.
  destruct w as [ns t fs rm], w0 as [ns0 t0 fs0 rm0]. unfold quiet. simpl. intros -> -> -> Hn.
  unfold Segment.read_at, ensure_cursor, Segment.on_file, seek, read, on_world, zoom, io, map_err, syscall, next_fault,
    lookup_file, get_node, modify_self, self, bind. simpl.
  case_decide; simpl; rewrite Hn; destruct (ns !! _) as [[]|]; simpl; eauto.
Qed.

Lemma read_record_at_local w w0 l off :
  quiet w -> quiet w0 -> read_max w0 = read_max w ->
  (forall i s, segments l !! i = Some s -> nodes w0 !! fd_path (Segment.file (segment s)) = nodes w !! fd_path (Segment.file (segment s))) ->
  exists o l', Log.read_record_at off (w0, l) = (o, (w0, l')) /\ Log.read_record_at off (w, l) = (o, (w, l')).
Proof.
  intros Hq Hq0 Hm Hn. unfold Log.read_record_at. rewrite !bind_self. destruct (_ <=? _); [by eauto|]. cbv zeta.
  destruct (segments l !! _) as [s|] eqn:Hi; [|by eauto]. destruct (lookup_total (index s) off) as [[pos cur] Hlk].
  rewrite !(bind_Ok _ _ _ _ _ (Hlk _ _)). cbv iota beta.
  destruct (_ =? 0); [by eauto|].
  destruct (read_at_local w w0 (segment s) pos (u64_saturating_sub (Segment.size (segment s)) pos)) as (o & sg & H0 & H1); try done.
  { by eapply Hn. }
  pose proof (on_nth_run _ _ _ _ _ _ _ _ Hi (on_seg_run _ _ _ _ _ _ H0)) as K0.
  pose proof (on_nth_run _ _ _ _ _ _ _ _ Hi (on_seg_run _ _ _ _ _ _ H1)) as K1.
  unfold bind. rewrite K0, K1. destruct o; by eauto.
Qed.

Lemma behead_reads w l start c0 cs c s ss off :
  quiet w -> log_rep w l start (c0 :: cs) c -> segments l = s :: ss -> 0 <= off ->
  exists l', Log.read_record_at off (w, set_segments ss l)
    = (Ok (a_read off (mkALog (start + len c0) (records_of cs c))), (w, l')).
Proof.
  intros Hq Hrep Hs H0. destruct (delete_oldest_run _ _ _ _ _ _ Hq Hrep) as (w0 & l0 & s0 & ss0 & _ & Hs0 & -> & Hrep0 & Hq0 & Ht).
  rewrite Hs in Hs0. injection Hs0 as <- <-.
  destruct (read_record_at_run w0 _ _ _ _ off Hq0 Hrep0 H0) as (l1 & Hrun & _).
  destruct (read_record_at_local w w0 (set_segments ss l) off Hq Hq0) as (o & l2 & R0 & R1).
  - apply Ht.
  - intros i t Hi. destruct (log_rep_seg _ _ _ _ _ _ _ Hrep0 Hi) as (ci & _ & [Hr _ _ _ _ _ _] & _).
    eapply touches_lookup; [exact Ht|]. rewrite (Segment.rep_path _ _ _ Hr).
    change (dir l) with (dir (set_segments ss l)). eapply log_rep_above; [exact Hrep0| |exact Hi]. by eapply log_rep_starts.
  - rewrite Hrun in R0. injection R0 as <- <-. by exists l1.
Qed.

(** What a run leaves: the log reads its records from the segment it is at, a
    new [Log.open] those from the first segment that is on the disk. *)
Lemma records_from w l start cs c n :
  log_rep w (set_segments (drop n (segments l)) l) (start + len (concat (take n cs))) (drop n cs) c -> quiet w ->
  (n <= length cs)%nat ->
  log_refines w (set_segments (drop n (segments l)) l)
    (a_drop (length (concat (take n cs))) (mkALog start (records_of cs c))).
Proof. intros Hr Hq Hn. split; [done|]. exists (drop n cs), c. split; [exact Hr|]. symmetry. by apply records_of_drop. Qed.

Lemma retained_reads w l start cs c count d o w' l' :
  retained w l start cs c count d o w' l' -> (count <= length cs)%nat ->
  exists n k : nat, (n <= k <= count)%nat /\ (k <= S n)%nat
    /\ (o = Ok (d + Z.of_nat count) /\ n = count \/ exists e, o = Err (Io e))
    /\ (k = n -> log_rep (calm w') l' (start + len (concat (take n cs))) (drop n cs) c)
    /\ (forall off, 0 <= off -> exists r, Log.read_record_at off (calm w', l')
          = (Ok (a_read off (a_drop (length (concat (take k cs))) (mkALog start (records_of cs c)))), r))
    /\ log_refines (calm w') (set_segments (drop n (segments l)) l)
         (a_drop (length (concat (take n cs))) (mkALog start (records_of cs c))).
Proof.
  intros (n & k & -> & Hk & Hc & Hr & _ & Ho) Hle. exists n, k.
  split; [destruct Hk; lia|]. split; [destruct Hk; lia|]. split; [destruct Ho as [(? & ? & _)|?]; [by left|by right]|].
  split; [by intros ->|]. pose proof (records_from _ _ _ _ _ _ Hr (calm_quiet w') ltac:(destruct Hk; lia)) as Href.
  split; [|done]. intros off H0. destruct Hk as [->| ->].
  - destruct (read_refines _ _ _ off Href H0) as (w2 & l2 & Hrd & _). by eexists.
  - destruct (drop n cs) as [|c0 cs'] eqn:E.
    { apply (f_equal length) in E. rewrite length_drop in E. simpl in E. lia. }
    destruct (log_rep_first _ _ _ _ _ _ Hr) as (s & ss & _ & Hs & _).
    cbn [segments set_segments] in Hs.
    destruct (behead_reads _ _ _ _ _ _ _ _ off (calm_quiet w') Hr Hs H0) as (l2 & Hrun).
    exists (calm w', l2). cbn [segments set_segments] in Hrun.
    assert (drop (S n) cs = cs') as E1 by (replace (S n) with (n + 1)%nat by lia; by rewrite <- drop_drop, E).
    assert (ss = drop (S n) (segments l)) as -> by (replace (S n) with (n + 1)%nat by lia; by rewrite <- drop_drop, Hs).
    assert (Hcat : start + len (concat (take n cs)) + len c0 = start + len (concat (take (S n) cs))).
    { erewrite take_S_r; [|by rewrite <- (Nat.add_0_r n), <- lookup_drop, E].
      rewrite concat_app, len_app. simpl. rewrite app_nil_r. lia. }
    rewrite Hcat, <- E1, records_of_drop in Hrun by lia. exact Hrun.
Qed.

End retain_faults.
