(* ===== verification/LogBytes.v ===== *)
(** * Recovery of any bytes

    [LogRecover] follows [Log.open] on the files a log left behind.  Here the
    one segment of a directory holds any bytes at all - frames the encoder
    never wrote included, such as one whose length field claims bytes behind
    its value.  [Log.open] returns an error or a log whose every offset below
    [next_offset] reads back; it does not panic. *)

From S2P Require Import Prelude Bytes Error Compression LogRecord Fs Names Search.
From S2P Require Import Segment SparseIndex Log LogInv LogRead LogRetain LogRecover.

(** Decoding [c]'s bytes from the left gives [c]'s records and leaves nothing.
    Unlike [decodes], a frame may look at the bytes behind it. *)
Section reads_as.
Context {B : Buf} {H : Crc32} {C : Codecs}.

Fixpoint reads_as (c : list erec) : Prop :=
  match c with
  | [] => True
  | (fr, r) :: c' =>
      (25 <= length fr)%nat /\ decode (fr ++ concat (frames c')) = (Ok r, concat (frames c')) /\ reads_as c'
  end.

Lemma reads_as_drop i c : reads_as c -> reads_as (drop i c).
Proof.
  revert c. induction i as [|i IH]; intros c Hc; [by rewrite drop_0|].
  destruct c as [|[fr r] c]; [done|]. simpl. by apply IH, Hc.
Qed.

Lemma reads_as_count c : reads_as c -> 25 * len c <= len (concat (frames c)).
Proof.
  induction c as [|[fr r] c IH]; [done|]. intros (Hl & _ & Hc). simpl. rewrite len_cons, len_app.
  specialize (IH Hc). unfold len in *. lia.
Qed.

Lemma reads_as_cons fr r c :
  reads_as ((fr, r) :: c) -> exists b bs, fr ++ concat (frames c) = b :: bs.
Proof. intros (Hl & _). destruct fr; [simpl in Hl; lia|]. by do 2 eexists. Qed.

(** The scan of [read_record_at] from the start of a record. *)
Lemma scan_to_any c off cur fuel :
  reads_as c -> (length c < fuel)%nat -> 0 <= cur -> cur + len c < 2 ^ 64 ->
  scan_to fuel off cur (concat (frames c)) =
    Ok (if off <? cur then None else snd <$> c !! Z.to_nat (off - cur)).
Proof.
  revert off cur fuel. induction c as [|[fr r] c IH]; intros off cur fuel Hd Hf H0 Hb;
    (destruct fuel as [|fuel]; [simpl in Hf; lia|]).
  { simpl. by destruct (off <? cur). }
  destruct (reads_as_cons _ _ _ Hd) as (b & bs & E). destruct Hd as (_ & Hdec & Hc).
  rewrite len_cons in Hb. simpl in Hf. pose proof (len_nonneg c). simpl.
  rewrite E, <- E, Hdec. destruct (Z.eqb_spec cur off) as [->|Hco].
  { by rewrite Z.ltb_irrefl, Z.sub_diag. }
  rewrite u64_add_small, IH by (done || lia).
  destruct (Z.ltb_spec off cur).
  { by rewrite (proj2 (Z.ltb_lt _ _)) by lia. }
  rewrite (proj2 (Z.ltb_ge _ _)) by lia.
  by replace (Z.to_nat (off - cur)) with (S (Z.to_nat (off - (cur + 1)))) by lia.
Qed.

End reads_as.

Section scan.
Context {B : Buf} {BL : BufLaws B} {H : Crc32} {HL : Crc32Laws H} {C : Codecs}.

(** What decoding any bytes gives. *)
Lemma decode_cases bs :
  (exists fr r rest, decode bs = (Ok r, rest) /\ bs = fr ++ rest /\ (25 <= length fr)%nat)
  \/ (exists e s, decode bs = (Err e, s)).
Proof.
  pose proof (record_decode_total bs) as Ht. destruct (decode bs) as [[r|e| |] rest]; simpl in Ht; [left|right|done..].
  - destruct Ht as (n & -> & Hn). exists (take n bs), r, (drop n bs). split; [done|]. split; [by rewrite take_drop|].
    rewrite length_take. unfold len in Hn. lia.
  - by eexists _, _.
Qed.

Lemma scan_valid_any fuel pos bs :
  (length bs < fuel)%nat -> 0 <= pos -> pos + len bs < 2 ^ 64 ->
  (exists p, scan_valid fuel pos bs = Ok p /\ pos <= p <= pos + len bs)
  \/ (exists e, scan_valid fuel pos bs = Err e).
Proof.
  revert pos bs. induction fuel as [|fuel IH]; intros pos bs Hf H0 Hb; [lia|]. pose proof (len_nonneg bs).
  cbn [scan_valid]. destruct bs as [|b0 bs]; [left; exists pos; split; [done|lia]|].
  destruct (decode_cases (b0 :: bs)) as [(fr & r & rest & -> & E & Hl)|(e & s & ->)].
  - rewrite E in *. rewrite length_app in Hf. rewrite len_app in *. rewrite Z.add_simpl_r.
    assert (25 <= len fr) by (unfold len; lia). pose proof (len_nonneg rest). rewrite u64_add_small by lia.
    destruct (IH (pos + len fr) rest) as [(p & -> & Hp)|(e & ->)]; [lia|lia|lia|left|right; by eexists].
    exists p. split; [done|lia].
  - destruct e; solve [left; eexists; split; [reflexivity|lia] | right; by eexists].
Qed.

End scan.

Lemma positions_frame s fs fr :
  positions s fs (S (length fs)) -> positions s (fs ++ [fr]) (length (fs ++ [fr])).
Proof.
  intros [Hf Hs]. split; [|done]. rewrite length_app, Nat.add_1_r. eapply Forall_impl; [exact Hf|].
  intros e (i & Hi & Hr & Hp). exists i. by rewrite pos_of_app_l by lia.
Qed.

Section recover.
Context {B : Buf} {BL : BufLaws B} {H : Crc32} {HL : Crc32Laws H} {C : Codecs}.

(** The replay, [fs] being the frames it has gone through. *)
Lemma replay_loop_any w ix fs base fuel bs :
  quiet w -> SparseIndex.rep w ix -> positions ix fs (length fs) -> SparseIndex.base_offset ix = base ->
  0 <= base -> len fs <= len (concat fs) -> base + len (concat fs) + len bs < 2 ^ 64 ->
  len (concat fs) + len bs <= u32_max -> (length bs < fuel)%nat ->
  exists w' ix', touches [idx_path ix] w w' /\
  ((exists e, replay_loop fuel base (len (concat fs)) (len fs) bs (w, ix) = (Err e, (w', ix')))
   \/ exists c, replay_loop fuel base (len (concat fs)) (len fs) bs (w, ix) = (Ok (len fs + len c), (w', ix'))
      /\ bs = concat (frames c) /\ reads_as c /\ SparseIndex.rep w' ix'
      /\ positions ix' (fs ++ frames c) (length (fs ++ frames c))
      /\ SparseIndex.base_offset ix' = base /\ idx_path ix' = idx_path ix).
Proof.
  revert w ix fs bs. induction fuel as [|fuel IH]; intros w ix fs bs Hq Hr Hp Hb H0 Hle H64 H32 Hf; [lia|].
  pose proof (len_nonneg fs). pose proof (len_nonneg bs). unfold u32_max in H32. cbn [replay_loop].
  destruct bs as [|b0 bs].
  { exists w, ix. split; [apply touches_refl|]. right. exists []. simpl. by rewrite Z.add_0_r, app_nil_r. }
  destruct (decode_cases (b0 :: bs)) as [(fr & r & rest & Hd & E & Hl)|(e & s & Hd)].
  2: { exists w, ix. split; [apply touches_refl|]. left. exists e. unfold bind, local. by rewrite Hd. }
  erewrite bind_Ok; [|unfold local; by rewrite Hd]. cbn [snd].
  rewrite E in *. rewrite length_app in Hf. rewrite len_app in *. rewrite Z.add_simpl_r.
  assert (25 <= len fr) by (unfold len; lia). pose proof (len_nonneg rest). rewrite (u64_add_small base) by lia.
  destruct (track_append_run w ix fs (length fs) (len fr) Hq Hr Hp)
    as (w1 & ix1 & Hrun & Hr1 & Hp1 & Ht1 & Hb1 & Hi1);
    rewrite ?pos_of_all, ?Hb; [split; lia|unfold len in *; split; lia|split; lia|unfold len in *; lia|].
  rewrite pos_of_all, Hb in Hrun. change (Z.of_nat (length fs)) with (len fs) in Hrun.
  rewrite (bind_Ok _ _ _ _ _ Hrun), !u64_add_small by lia.
  assert (E1 : len (concat (fs ++ [fr])) = len (concat fs) + len fr)
    by (rewrite concat_app, len_app; simpl; by rewrite app_nil_r).
  assert (E2 : len (fs ++ [fr]) = len fs + 1) by by rewrite len_app.
  destruct (IH w1 ix1 (fs ++ [fr]) rest) as (w2 & ix2 & Ht2 & Hcase); rewrite ?E1, ?E2.
  { by eapply touches_quiet. } { done. } { by apply positions_frame. } { congruence. } { done. }
  { lia. } { lia. } { unfold u32_max. lia. } { lia. }
  rewrite E1, E2 in Hcase. rewrite Hi1 in Ht2. exists w2, ix2. split; [by eapply touches_trans|].
  destruct Hcase as [Herr|(c & Hrun2 & -> & Hc & Hr2 & Hp2 & Hb2 & Hi2)]; [by left|right].
  exists ((fr, r) :: c). rewrite Hrun2, len_cons. simpl. rewrite <- app_assoc in Hp2.
  split; [do 2 f_equal; lia|]. split; [done|]. split; [by split_and!|]. split_and!; try done. congruence.
Qed.

Lemma replay_any w s base bs :
  quiet w -> Segment.rep w (segment s) bs -> SparseIndex.rep w (index s) ->
  entries (index s) = [] -> SparseIndex.base_offset (index s) = base ->
  0 <= base -> base + len bs < 2 ^ 64 -> len bs <= seg_limit w ->
  idx_path (index s) <> seg_path (segment s) ->
  exists w' s', touches [idx_path (index s)] w w' /\
  ((exists e, replay_records_to_index base (w, s) = (Err e, (w', s')))
   \/ exists c, replay_records_to_index base (w, s) = (Ok (len c), (w', s'))
      /\ bs = concat (frames c) /\ reads_as c /\ Segment.rep w' (segment s') bs
      /\ positions (index s') (frames c) (length c) /\ SparseIndex.rep w' (index s')
      /\ Segment.base_offset (segment s') = Segment.base_offset (segment s)
      /\ seg_path (segment s') = seg_path (segment s)
      /\ SparseIndex.base_offset (index s') = base /\ idx_path (index s') = idx_path (index s)).
Proof.
  intros Hq Hr Hi He Hb H0 Hbd Hm Hne. unfold replay_records_to_index. rewrite bind_self.
  assert (Hpos0 : positions (index s) [] 0).
  { split; rewrite He; [constructor|]. by intros i j x y _ Hx. }
  rewrite (Segment.rep_size _ _ _ Hr). pose proof (len_nonneg bs).
  destruct (Z.eqb_spec (len bs) 0) as [Hz|Hz].
  { assert (bs = []) as -> by (apply len_zero; lia). exists w, s. split; [apply touches_refl|]. right.
    exists []. by split_and!. }
  unfold seg_limit in Hm. assert (Hm2 : len bs <= read_max w) by lia.
  destruct (read_whole_run w (segment s) _ Hq Hr Hm2) as (sg & Hrun & Hr1 & Hb1 & Hp1).
  rewrite (bind_Ok _ _ _ _ _ (on_seg_run _ _ _ _ _ _ Hrun)).
  destruct (replay_loop_any w (index s) [] base (S (length bs)) bs) as (w' & ix & Ht & Hcase);
    [done|done|done|done|done|done|cbn [concat]; rewrite len_nil; unfold seg_limit in *; lia..|lia|].
  exists w', (mkIndexed sg ix). split; [done|]. change (len (concat [])) with 0 in Hcase. change (len []) with 0 in Hcase.
  destruct Hcase as [(e & Hl)|(c & Hl & -> & Hc & Hri & Hpi & Hbi & Hii)].
  - left. exists e. by apply on_idx_run.
  - right. exists c. split; [by apply on_idx_run|]. simpl in *. rewrite length_map in Hpi.
    do 2 (split; [done|]). split; [|by split_and!].
    eapply Segment.rep_frame; [done|]. rewrite Hp1. eapply touches_lookup; [done|].
    intros E%list_elem_of_singleton. congruence.
Qed.

(** The log [recover_active_segment] leaves: one segment that reads as [c]. *)
Record scanned_seg (w : World) (dir : path) (base : Z) (s : IndexedSegment) (c : list erec) : Prop := {
  ss_rep : Segment.rep w (segment s) (concat (frames c));
  ss_reads : reads_as c;
  ss_pos : positions (index s) (frames c) (length c);
  ss_base : Segment.base_offset (segment s) = base;
  ss_ibase : SparseIndex.base_offset (index s) = base;
  ss_path : seg_path (segment s) = segment_path dir base;
  ss_max : len (concat (frames c)) <= seg_limit w;
}.

(** The bytes the scan vouches for, the rest cut off. *)
Lemma cut_run w s bs p :
  quiet w -> Segment.rep w s bs -> 0 <= p <= len bs ->
  exists w' s', (if p <? Segment.size s then with_local s (Segment.truncate p) else ret (tt, s)) w = (Ok (tt, s'), w')
    /\ Segment.rep w' s' (take (Z.to_nat p) bs) /\ touches [seg_path s] w w'
    /\ Segment.base_offset s' = Segment.base_offset s /\ seg_path s' = seg_path s.
Proof.
  intros Hq Hr Hp. rewrite (Segment.rep_size _ _ _ Hr). destruct (Z.ltb_spec p (len bs)) as [Hlt|Hge].
  - destruct (Segment.truncate_run w s bs p Hq Hr Hp) as (s' & Htr & Hr' & Hb & Hpa).
    eexists _, s'. split; [by apply with_local_run|]. split; [done|]. split; [apply touches_insert|done].
  - exists w, s. split; [done|]. rewrite take_ge by (unfold len in *; lia). split; [done|]. split; [apply touches_refl|done].
Qed.

Lemma with_local_Err {T A} (m : KM (World * T) A) w t e w' t' :
  m (w, t) = (Err e, (w', t')) -> with_local t m w = (Err e, w').
Proof. intros Hm. unfold with_local. by rewrite Hm. Qed.

(** The scan on any bytes: an error, or how many of them to keep. *)
Lemma recovery_scan_any w s bs :
  quiet w -> Segment.rep w s bs -> len bs <= read_max w ->
  exists s', Segment.rep w s' bs /\ Segment.base_offset s' = Segment.base_offset s /\ seg_path s' = seg_path s /\
  ((exists e, scan_for_last_valid_position (w, s) = (Err e, (w, s')))
   \/ exists p, scan_for_last_valid_position (w, s) = (Ok p, (w, s')) /\ 0 <= p <= len bs).
Proof.
  intros Hq Hr Hm. unfold scan_for_last_valid_position. rewrite bind_self.
  pose proof (Segment.rep_bound _ _ _ Hr) as Hbd. pose proof (len_nonneg bs). rewrite (Segment.rep_size _ _ _ Hr).
  destruct (Z.eqb_spec (len bs) 0) as [Hz|Hz].
  { exists s. do 3 (split; [done|]). right. exists 0. split; [done|lia]. }
  destruct (read_whole_run w s _ Hq Hr Hm) as (s' & Hrun & Hr' & Hb & Hp).
  exists s'. do 3 (split; [done|]). rewrite (bind_Ok _ _ _ _ _ Hrun).
  destruct (scan_valid_any (S (length bs)) 0 bs) as [(p & E & Hp')|(e & E)]; [lia|lia|lia|right; exists p|left; exists e].
  - rewrite E. split; [done|lia].
  - by rewrite E.
Qed.

Lemma recover_active_any w dir base ivl f :
  quiet w -> nodes w !! segment_path dir base = Some (NFile f) -> len (f_data f) <= seg_limit w ->
  nodes w !! index_path dir base <> Some NDir -> nodes w !! dir = Some NDir ->
  0 <= base -> base + len (f_data f) < 2 ^ 64 ->
  exists w', touches (seg_files dir base) w w' /\
  ((exists e, recover_active_segment dir base ivl w = (Err e, w'))
   \/ exists c sg ix, recover_active_segment dir base ivl w = (Ok (sg, ix, len c), w')
      /\ scanned_seg w' dir base (mkIndexed sg ix) c).
Proof.
  intros Hq Hf Hm Hnd Hdir H0 Hb. pose proof (len_nonneg (f_data f)). unfold recover_active_segment.
  destruct (segment_open_run w dir base f Hq Hf) as (s0 & Ho & Hr0 & Hb0 & Hp0); [unfold seg_limit, u32_max in Hm; lia|].
  rewrite (bind_Ok _ _ _ _ _ Ho).
  destruct (recovery_scan_any w s0 _ Hq Hr0 ltac:(unfold seg_limit in Hm; lia)) as (s1 & Hr1 & Hb1 & Hp1 & Hcase).
  destruct Hcase as [(e & Hs)|(p & Hs & Hp)].
  { exists w. split; [apply touches_refl|]. left. exists e. by rewrite (bind_Err _ _ _ _ _ (with_local_Err _ _ _ _ _ _ Hs)). }
  rewrite (bind_Ok _ _ _ _ _ (with_local_run _ _ _ _ _ _ Hs)). cbv iota beta.
  destruct (cut_run w s1 _ p Hq Hr1 Hp) as (w2 & s2 & Htr & Hr2 & Ht2 & Hb2 & Hp2).
  rewrite (bind_Ok _ _ _ _ _ Htr). cbn [snd]. set (bs := take (Z.to_nat p) (f_data f)) in *.
  assert (Hbs : len bs <= len (f_data f)) by (unfold bs, len; rewrite length_take; lia).
  rewrite Hp1, Hp0 in Ht2, Hp2. rewrite Hb1, Hb0 in Hb2.
  assert (Hidx : nodes w2 !! index_path dir base = nodes w !! index_path dir base).
  { eapply touches_lookup; [done|]. intros E%list_elem_of_singleton.
    symmetry in E. by apply segment_index_path_ne in E. }
  pose proof (touches_quiet _ _ _ Ht2 Hq) as Hq2.
  destruct (remove_file_if_present_run w2 (index_path dir base) Hq2) as (w3 & Hrm & Ht3 & Hnone);
    [by rewrite Hidx|].
  rewrite (bind_Ok _ _ _ _ _ Hrm). pose proof (touches_quiet _ _ _ Ht3 Hq2) as Hq3.
  assert (Hdir3 : nodes w3 !! dir = Some NDir).
  { erewrite touches_lookup; [erewrite touches_lookup; [done|exact Ht2|]|exact Ht3|];
      intros E%list_elem_of_singleton; by apply snoc_ne in E. }
  destruct (index_create_run w3 dir base ivl Hq3 Hnone (parent_index_path _ _ _ Hdir3))
    as (ix & Hci & Hri & He & Hbi & Hpi).
  set (w4 := set_nodes _ w3) in *.
  assert (Ht24 : touches [index_path dir base] w2 w4).
  { eapply touches_trans; [done|]. unfold w4. apply touches_insert. }
  assert (Htall : touches (seg_files dir base) w w4).
  { eapply touches_trans; [by apply touches_fst|by apply touches_snd]. }
  rewrite (bind_Ok _ _ _ _ _ Hci).
  destruct (replay_any w4 (mkIndexed s2 ix) base bs) as (w5 & s5 & Ht5 & Hcase);
    simpl; rewrite ?Hp2, ?Hpi; try done; try lia.
  { eapply Segment.rep_frame; [done|]. rewrite Hp2. eapply touches_lookup; [exact Ht24|].
    intros E%list_elem_of_singleton. by apply segment_index_path_ne in E. }
  { erewrite seg_limit_touches by exact Htall. lia. }
  { intros E. symmetry in E. by apply segment_index_path_ne in E. }
  simpl in Ht5, Hcase. rewrite Hpi in Ht5.
  assert (Ht' : touches (seg_files dir base) w w5) by (eapply touches_trans; [exact Htall|by apply touches_snd]).
  exists w5. split; [done|]. destruct Hcase as [(e & Hrp)|(c & Hrp & Ebs & Hc & Hr5 & Hp5 & _ & Hb5 & Hpp5 & Hbi5 & _)].
  { left. exists e. by rewrite (bind_Err _ _ _ _ _ (with_local_Err _ _ _ _ _ _ Hrp)). }
  right. exists c, (segment s5), (index s5).
  rewrite (bind_Ok _ _ _ _ _ (with_local_run _ _ _ _ _ _ Hrp)). split; [done|]. rewrite Ebs in Hr5, Hbs.
  split; simpl; try done; try congruence. erewrite seg_limit_touches by exact Ht'. lia.
Qed.

End recover.

Section log.
Context {B : Buf} {BL : BufLaws B} {H : Crc32} {HL : Crc32Laws H} {C : Codecs}.

(** A directory whose only entry is the segment of offset 0. *)
Record one_segment (w : World) (dir : path) (f : fnode) : Prop := {
  os_made : dirs_made w dir;
  os_dir : nodes w !! dir = Some NDir;
  os_only : forall name n, nodes w !! (dir ++ [name]) = Some n -> dir ++ [name] = segment_path dir 0;
  os_seg : nodes w !! segment_path dir 0 = Some (NFile f);
  os_max : len (f_data f) <= seg_limit w;
}.

(** An open log of one segment that reads as [c]. *)
Record scanned (w : World) (l : Log) (c : list erec) : Prop := {
  sl_seg : exists s, segments l = [s] /\ scanned_seg w (dir l) 0 s c;
  sl_next : next_offset l = len c;
}.

Lemma one_segment_index w dir f b : one_segment w dir f -> nodes w !! index_path dir b = None.
Proof.
  intros Hs. destruct (nodes w !! index_path dir b) as [n|] eqn:E; [exfalso|done]. unfold index_path in E.
  apply (os_only _ _ _ Hs) in E. symmetry in E. fold (index_path dir b) in E. by apply segment_index_path_ne in E.
Qed.

Lemma one_segment_dir_ok w dir f : one_segment w dir f -> dir_ok w dir [0].
Proof.
  intros Hs. split; [exact (os_made _ _ _ Hs)|exact (os_dir _ _ _ Hs)|..].
  - intros name n b Hn Hb. apply (os_only _ _ _ Hs) in Hn. unfold segment_path in Hn. apply snoc_inj in Hn as [_ ->].
    rewrite segment_offset_of_segment_name in Hb by done. injection Hb as <-. split; [done|by left].
  - intros b _ _. by eapply one_segment_index.
  - intros b. by rewrite (one_segment_index _ _ _ _ Hs).
Qed.

Lemma open_any w dir cfg f :
  quiet w -> one_segment w dir f ->
  exists w', touches (seg_files dir 0) w w' /\
  ((exists e, Log.open dir cfg w = (Err e, w'))
   \/ exists c l, Log.open dir cfg w = (Ok l, w') /\ scanned w' l c /\ Log.dir l = dir).
Proof.
  intros Hq Hs. pose proof (one_segment_dir_ok _ _ _ Hs) as Hdo. pose proof (os_max _ _ _ Hs) as Hm.
  pose proof (len_nonneg (f_data f)). unfold Log.open.
  erewrite bind_Ok; [|apply io_Ok; by apply create_dir_all_made, Hs].
  erewrite bind_Ok; [|apply (discover_run w dir [0]); [done|done| |by repeat constructor]].
  2: { intros b ->%list_elem_of_singleton. split; [done|]. rewrite (os_seg _ _ _ Hs). by eexists. }
  simpl. rewrite bind_ret.
  destruct (recover_active_any w dir 0 (index_interval cfg) f) as (w' & Ht & Hcase); try done.
  { exact (os_seg _ _ _ Hs). }
  { by rewrite (one_segment_index _ _ _ _ Hs). }
  { exact (os_dir _ _ _ Hs). }
  { unfold seg_limit, u32_max in Hm. lia. }
  exists w'. split; [done|]. destruct Hcase as [(e & Hr)|(c & sg & ix & Hr & Hss)].
  { left. exists e. by rewrite (bind_Err _ _ _ _ _ Hr). }
  right. rewrite (bind_Ok _ _ _ _ _ Hr). eexists c, _. split; [reflexivity|]. split; [|done].
  pose proof (reads_as_count c (ss_reads _ _ _ _ _ Hss)). pose proof (ss_max _ _ _ _ _ Hss) as Hm'.
  unfold seg_limit, u32_max in Hm'. pose proof (len_nonneg c).
  split; simpl; [by eexists|]. rewrite u64_add_small; lia.
Qed.

(** Every offset below [next_offset] reads back. *)
Lemma scanned_read w l c off :
  quiet w -> scanned w l c -> 0 <= off ->
  exists l', Log.read_record_at off (w, l) = (Ok (snd <$> c !! Z.to_nat off), (w, l'))
    /\ scanned w l' c /\ dir l' = dir l.
Proof.
  intros Hq [(s & Hs & Hss) Hn] H0. pose proof Hss as [Hr Hc Hp Hb Hib Hpa Hm].
  pose proof (reads_as_count c Hc). pose proof (len_nonneg c). unfold Log.read_record_at. rewrite bind_self, Hn.
  assert (Hc32 : len c <= u32_max) by (unfold seg_limit in Hm; lia). unfold u32_max in Hc32.
  destruct (Z.leb_spec (len c) off) as [Hge|Hlt].
  { exists l. rewrite lookup_ge_None_2 by (unfold len in *; lia). split; [done|]. split; [|done]. split; [by exists s|done]. }
  assert (Hfi : find_segment_index l off = 0%nat).
  { unfold find_segment_index. rewrite Hs.
    pose proof (binary_search_spec (fun s => Segment.base_offset (segment s)) [s] off) as Hbs.
    destruct binary_search_by_key as [k|[|m]]; [|done|].
    - destruct Hbs as (x & Hx & _); [|apply lookup_lt_Some in Hx; simpl in Hx; lia].
      intros i j x y _ Hx Hy. apply list_lookup_singleton_Some in Hx as [_ <-], Hy as [_ <-]. lia.
    - destruct Hbs as (Hlen & _); [|simpl in Hlen; lia].
      intros i j x y _ Hx Hy. apply list_lookup_singleton_Some in Hx as [_ <-], Hy as [_ <-]. lia. }
  rewrite Hfi, Hs. change ([s] !! 0%nat) with (Some s). cbv iota.
  destruct (lookup_spec (index s) (frames c) (length c) off (w, l)) as (k & Hk & Hlk & Hle); rewrite ?Hib;
    [done|split; lia|lia|split; lia|unfold len in *; lia|].
  rewrite Hib in Hlk, Hle. rewrite (bind_Ok _ _ _ _ _ Hlk). cbv zeta beta iota. rewrite (Segment.rep_size _ _ _ Hr).
  pose proof (pos_of_le (frames c) k). pose proof (pos_of_nonneg (frames c) k).
  pose proof (drop_pos_of (frames c) k) as Hd. apply (f_equal len) in Hd. rewrite len_drop in Hd by lia.
  rewrite skipn_map in Hd. pose proof (reads_as_drop k c Hc) as Hck. pose proof (reads_as_count _ Hck) as Hcnt.
  assert (Hlk' : len (drop k c) = len c - Z.of_nat k) by (rewrite len_drop by (unfold len; lia); lia).
  unfold u64_saturating_sub. destruct (Z.eqb_spec (Z.max 0 (len (concat (frames c)) - pos_of (frames c) k)) 0) as [Hz|Hz]; [lia|].
  rewrite Z.max_r in Hz |- * by lia.
  destruct (Segment.read_at_run w (segment s) _ (pos_of (frames c) k)
    (len (concat (frames c)) - pos_of (frames c) k) Hq Hr ltac:(lia)) as (sg & Hrun & Hr' & Hb' & Hp').
  unfold seg_limit in Hm. rewrite drop_pos_of, skipn_map, Z.min_l, take_ge in Hrun by (unfold len in *; lia).
  erewrite bind_Ok; [|eapply on_nth_run; [by rewrite Hs|by apply on_seg_run]].
  exists (set_segments (<[0%nat := mkIndexed sg (index s)]> (segments l)) l). split; [|split; [|done]].
  - rewrite scan_to_any; [| done | unfold len in *; lia | lia | lia]. rewrite (proj2 (Z.ltb_ge _ _)) by lia.
    rewrite lookup_drop. by replace (k + Z.to_nat (off - (0 + Z.of_nat k)))%nat with (Z.to_nat off) by lia.
  - split; [|done]. exists (mkIndexed sg (index s)). simpl. rewrite Hs. split; [done|].
    split; simpl; try done; congruence.
Qed.

(** Changes elsewhere leave the log alone. *)
Lemma scanned_stays d w w' l c : stays d w w' -> apart d (dir l) -> scanned w l c -> scanned w' l c.
Proof.
  intros (_ & _ & Hm & Hst) [Hl Hne] [(s & Hs & [Hr Hc Hp Hb Hib Hpa Hmx]) Hn].
  split; [|done]. exists s. split; [done|]. split; try done.
  - eapply Segment.rep_frame; [done|]. rewrite Hpa. apply Hst. intros x E. unfold segment_path in E.
    apply snoc_inj in E as [E _]. congruence.
  - unfold seg_limit. by rewrite Hm.
Qed.

End log.
