(* ===== verification/Examples.v ===== *)
(** * A concrete machine for the examples

    An empty file system with a working clock, one log directory in it, and a
    few records: the inputs on which the theorems are run. *)

From S2P Require Import Prelude Bytes Error Compression LogRecord Fs Names Search.
From S2P Require Import Segment SparseIndex Log LogInv LogOps LogRead LogRecover LogCrash LogSpec.

Definition ex_world : World := mkWorld ∅ 1700000000000 [] 2147479552.
Definition ex_dir : path := ["data"; "orders"; "0"].
Definition ex_cfg : LogConfig := default_config.
Definition ex_rec1 : record := new 1700000000000 (Some [x61; x62]) [x68; x69].
Definition ex_rec2 : record := new 1700000000001 None [x21].

Definition ex_opened := Log.open ex_dir ex_cfg ex_world.
Definition ex_w : World := snd ex_opened.
Definition ex_l : Log :=
  match fst ex_opened with
  | Ok l => l
  | _ => mkLog [] ex_cfg [] 0 [] []
  end.

#[global] Opaque ex_opened ex_w ex_l.

Lemma ex_open : Log.open ex_dir ex_cfg ex_world = (Ok ex_l, ex_w).
Proof. vm_compute. reflexivity. Qed.

Lemma Ok_pair_inj {A S E} (a b : A) (s t : S) :
  (Ok (E := E) a, s) = (Ok b, t) -> a = b /\ s = t.
Proof. by intros [= -> ->]. Qed.

Lemma ex_dirs_free d : dirs_free ex_world d.
Proof. intros p _ _. right. apply lookup_empty. Qed.

Lemma ex_refines : log_refines ex_w ex_l (mkALog 0 []).
Proof.
  destruct (open_fresh ex_world ex_dir ex_cfg eq_refl (ex_dirs_free _)) as (w & l & Ho & Hr & _);
    [done|done|intros; apply lookup_empty|].
  rewrite ex_open in Ho. by apply Ok_pair_inj in Ho as [<- <-].
Qed.

Lemma ex_rep0 : log_rep ex_w ex_l 0 [] [] /\ quiet ex_w.
Proof.
  destruct ex_refines as (Hq & cs & c & Hr & E). split; [|exact Hq].
  assert (Hl : length (segments ex_l) = 1%nat) by (vm_compute; reflexivity).
  rewrite (log_rep_segments_length _ _ _ _ _ Hr), length_app in Hl. destruct cs; [|simpl in Hl; lia].
  symmetry in E. apply map_eq_nil in E. simpl in E. by subst c.
Qed.

Lemma ex_config : Log.config ex_l = ex_cfg.
Proof. vm_compute. reflexivity. Qed.

Lemma ex_storable c : Forall (storable c) [ex_rec1; ex_rec2].
Proof.
  destruct c; (apply Forall_cons; split; [|apply Forall_singleton]);
    (split; [vm_compute; split; congruence|]); (split; [reflexivity|]);
    (split; [right; vm_compute; congruence|]); vm_compute; reflexivity.
Qed.

Lemma ex_room w : seg_limit w = 2147479552 -> room w ex_cfg [ex_rec1; ex_rec2].
Proof. intros E. split; rewrite ?E; vm_compute; congruence. Qed.

Lemma ex_room_one w : seg_limit w = 2147479552 -> room w ex_cfg [ex_rec1].
Proof. intros E. split; rewrite ?E; vm_compute; congruence. Qed.

Lemma ex_room_nil w : seg_limit w = 2147479552 -> room w ex_cfg [].
Proof. intros E. split; rewrite ?E; vm_compute; congruence. Qed.

(** ** Two records in one segment, then torn *)
Definition result_or {S A} (d : A) (r : outcome KafkoError A * S) : A :=
  match fst r with
  | Ok a => a
  | _ => d
  end.

Definition ex_appended := Log.append_batch [ex_rec1; ex_rec2] (ex_w, ex_l).
Definition ex_w1 : World := fst (snd ex_appended).
Definition ex_l1 : Log := snd (snd ex_appended).

#[global] Opaque ex_appended ex_w1 ex_l1.

Lemma ex_append : Log.append_batch [ex_rec1; ex_rec2] (ex_w, ex_l) = (Ok [0; 1], (ex_w1, ex_l1)).
Proof. vm_compute. reflexivity. Qed.

Lemma ex_limit : seg_limit ex_w = 2147479552 /\ seg_limit ex_w1 = 2147479552.
Proof. split; vm_compute; reflexivity. Qed.

Lemma ex_refines1 : log_refines ex_w1 ex_l1 (mkALog 0 [ex_rec1; ex_rec2]).
Proof.
  destruct (append_batch_refines ex_w ex_l _ [ex_rec1; ex_rec2] ex_refines)
    as (w' & l' & Ha & Hr & _); [apply ex_storable|apply ex_room, ex_limit|vm_compute; reflexivity|].
  rewrite ex_append in Ha. apply Ok_pair_inj in Ha as [_ E]. by apply pair_eq in E as [<- <-].
Qed.

Definition ex_segment : path := segment_path ex_dir 0.

(** The power goes off with [n] bytes of the segment on the device. *)
Definition ex_torn (n : nat) : World :=
  set_nodes <[ex_segment := NFile (FNode (take n (f_data (result_or (FNode [] [] 0)
    (io (lookup_file ex_segment) ex_w1)))) [] 0)]> ex_w1.

Definition unsynced_prefix (n : node) : bool :=
  match n with
  | NFile f => bool_decide (f_synced f `prefix_of` f_data f)
  | NDir => true
  end.

Lemma crash_cut w p n f :
  quiet w -> nodes w !! p = Some (NFile f) -> f_synced f = [] ->
  (forall q, q <> p -> match nodes w !! q with Some x => unsynced_prefix x = true | None => True end) ->
  crash w (set_nodes <[p := NFile (FNode (take n (f_data f)) [] 0)]> w).
Proof.
  intros Hq Hf Hs Ho. split; [done|done|]. intros q. simpl. destruct (decide (q = p)) as [->|Hne].
  - rewrite Hf, lookup_insert_eq. eexists. split; [done|]. unfold survives. simpl. rewrite Hs.
    split; [done|]. split; [apply prefix_nil|]. exists (drop n (f_data f)). by rewrite take_drop.
  - rewrite lookup_insert_ne by done. specialize (Ho q Hne). destruct (nodes w !! q) as [[g|]|]; try done.
    exists g. split; [done|]. apply bool_decide_eq_true in Ho. by split.
Qed.

Lemma all_nodes (f : node -> bool) (m : gmap path node) q :
  forallb (fun x => f (snd x)) (map_to_list m) = true ->
  match m !! q with Some x => f x = true | None => True end.
Proof.
  intros Hall. destruct (m !! q) as [x|] eqn:Eq; [|done].
  apply (proj1 (forallb_forall _ _) Hall (q, x)). apply list_elem_of_In. by apply elem_of_map_to_list.
Qed.

Lemma ex_crash n : crash ex_w1 (ex_torn n).
Proof.
  assert (Hf : exists f, nodes ex_w1 !! ex_segment = Some (NFile f) /\ f_synced f = []
    /\ result_or (FNode [] [] 0) (io (lookup_file ex_segment) ex_w1) = f).
  { eexists. vm_compute. split; [reflexivity|]. split; reflexivity. }
  destruct Hf as (f & Hf & Hs & E). unfold ex_torn. rewrite E. apply crash_cut; [reflexivity|done|done|].
  intros q _. apply all_nodes. vm_compute. reflexivity.
Qed.

(** ** A sealed segment and an empty one, under a size limit *)
Definition ex_cfg2 : LogConfig := {|
  segment_size_threshold := 10; index_interval := 0; max_segment_age := Some 1;
  max_partition_bytes := Some 0; retention_check_interval := 1; batch_max_records := 1;
  batch_max_bytes := 1; compression := Zstd;
|}.

Definition ex_build : KM World Log :=
  let* l := Log.open ex_dir ex_cfg2 in
  fun w =>
    let '(o, (w', l')) := Log.append ex_rec1 (w, l) in
    match o with
    | Ok _ => (Ok l', w')
    | _ => (Ok l, w)
    end.

Definition ex_l2 : Log := result_or ex_l (ex_build ex_world).
Definition ex_w2 : World := snd (ex_build ex_world).

Lemma ex_rep2 : log_rep ex_w2 ex_l2 0 [] (wires Zstd [ex_rec1]) /\ quiet ex_w2.
Proof.
  destruct (open_fresh_run ex_world ex_dir ex_cfg2 eq_refl (ex_dirs_free _)) as (w & l & Ho & Hr & Hd & Hc & Hq & _);
    [done|done|intros; apply lookup_empty|].
  assert (Hlim : seg_limit w = 2147479552).
  { transitivity (seg_limit (snd (Log.open ex_dir ex_cfg2 ex_world))); [by rewrite Ho|]. vm_compute. reflexivity. }
  assert (Hn : next_offset l = 0).
  { transitivity (next_offset (result_or ex_l (Log.open ex_dir ex_cfg2 ex_world))); [by rewrite Ho|].
    vm_compute. reflexivity. }
  destruct (log_append_run w l 0 [] [] ex_rec1 Hq Hr) as (w' & l' & cs & c & Ha & Hr' & Hcat & _ & _ & Hq' & _).
  { rewrite Hc. pose proof (ex_storable Zstd) as Hst. by apply Forall_cons in Hst as [Hst _]. }
  { rewrite Hc. split; rewrite ?Hlim; vm_compute; congruence. }
  { by rewrite Hn. }
  assert (E : ex_build ex_world = (Ok l', w')).
  { unfold ex_build. rewrite (bind_Ok _ _ _ _ _ Ho). by rewrite Ha. }
  assert (Hl : length (segments ex_l2) = 1%nat) by (vm_compute; reflexivity).
  assert (ex_l2 = l' /\ ex_w2 = w') as [E1 E2] by (split; [unfold ex_l2|unfold ex_w2]; rewrite E; reflexivity).
  rewrite E1, E2. rewrite E1 in Hl. rewrite (log_rep_segments_length _ _ _ _ _ Hr'), length_app in Hl. destruct cs as [|? ?]; [|simpl in Hl; lia].
  rewrite Hc in Hcat. change (c = wires Zstd [ex_rec1]) in Hcat. rewrite Hcat in Hr'. exact (conj Hr' Hq').
Qed.

Definition ex_rotated := rotate_active_segment (ex_w2, ex_l2).
Definition ex_w3 : World := fst (snd ex_rotated).
Definition ex_l3 : Log := snd (snd ex_rotated).

Lemma ex_rep3 : log_rep ex_w3 ex_l3 0 [wires Zstd [ex_rec1]] [] /\ quiet ex_w3.
Proof.
  destruct ex_rep2 as [Hr Hq].
  destruct (rotate_run ex_w2 ex_l2 0 [] _ Hq Hr) as (w' & segs' & Hrun & Hr' & Hq' & _);
    [discriminate|vm_compute; reflexivity|].
  unfold ex_w3, ex_l3, ex_rotated. rewrite Hrun. exact (conj Hr' Hq').
Qed.

#[global] Opaque ex_build ex_l2 ex_w2 ex_rotated ex_w3 ex_l3.

(** ** A segment on its own *)
Definition ex_seg_world (data : list byte) (fs : list (option fault)) : World :=
  mkWorld {[ ["s"] := NFile (FNode data [] 0) ]} 0 fs 100.
Definition ex_seg (data : list byte) : Segment :=
  mkSegment 0 ["s"] (mkFile ["s"] (len data)) (len data) (Some (len data)).

Lemma ex_seg_rep data fs : len data < 2 ^ 64 -> Segment.rep (ex_seg_world data fs) (ex_seg data) data.
Proof.
  intros Hl. split; simpl; try done.
  - eexists. by rewrite lookup_singleton_eq.
  - by intros p [= <-].
Qed.
