(* ===== verification/CodecTheorems.v ===== *)
(** * Theorems: the record format and the files of a segment

    What the encoder, the decoder, the codecs, the file names, the segment
    file and the sparse index promise. *)

From S2P Require Import Prelude Bytes Error Compression LogRecord Fs Names Search.
From S2P Require Import Segment SegmentSpec SparseIndex Log LogInv LogOps LogSpec Examples.

Section codec.
Context {B : Buf} {BL : BufLaws B} {H : Crc32} {HL : Crc32Laws H} {C : Codecs} {CL : CodecLaws C}.

(** C22: encoding then decoding a record returns it, under every codec, for
    any buffer the encoding is appended to and any bytes that follow it; the
    decoder consumes exactly the encoding. *)
Theorem record_round_trip c r out :
  storable c r ->
  exists enc, encode_with r c out = (Ok (len enc), out ++ enc)
    /\ forall rest, decode (enc ++ rest) = (Ok r, rest).
Proof.
  intros Hs. exists (wire c r). split; [by apply storable_encode|].
  apply (storable_decodes c r Hs).
Qed.

(** C23: an encoding cut at any byte decodes to [Truncated], with a positive
    count of missing bytes - never to a record and never to another error, so
    a reader can tell a torn tail from damage. *)
Theorem torn_record_is_truncated c stored r (n : nat) :
  stores c r stored -> fits stored r -> (n < length (frame c stored r))%nat ->
  encode_with r c [] = (Ok (len (frame c stored r)), frame c stored r)
  /\ exists needed s, decode (take n (frame c stored r)) = (Err (Truncated needed), s) /\ 0 < needed.
Proof.
  intros Hst Hf Hn. split; [apply (encode_with_run r c stored []); [apply Hf|done]|].
  apply decode_frame_prefix; [done|]. unfold len. lia.
Qed.

(** On any bytes whatever the decoder returns a record or one of its
    documented errors - it never panics or reads out of bounds - and with a
    record it has consumed at least 25 bytes and at most the buffer, so the
    scans that call it make progress. *)
Theorem decode_never_panics buf :
  (exists r (n : nat), decode buf = (Ok r, drop n buf) /\ 25 <= Z.of_nat n <= len buf)
  \/ (exists e s, decode buf = (Err e, s) /\ decode_error e).
Proof.
  pose proof (record_decode_total buf) as Ht. unfold decode_post in Ht.
  destruct (decode buf) as [[r|e|p|] s]; try done; [left|right; by exists e, s].
  destruct Ht as (n & -> & Hn). by exists r, n.
Qed.

(** A record is returned only if the checksum stored in the frame is the
    CRC-32 of the payload the length field delimits: no damaged payload is
    ever handed out (up to CRC collisions). *)
Theorem decode_checks_crc buf r rest :
  decode buf = (Ok r, rest) ->
  let total_len := from_be_bytes (take 4 buf) in
  from_be_bytes (take 4 (drop 4 buf)) = crc32 (take (Z.to_nat (total_len - 4)) (drop 8 buf)).
Proof. apply decode_Ok_crc. Qed.

(** C25: whatever bytes it comes from, a decoded record is a value of the Rust
    types - an [i64] timestamp, a key and a value whose lengths are [u32]s - and
    encoding it again, when the frame fits its length field, gives bytes that
    decode to the same record. *)
Theorem decode_yields_typed_record buf r rest :
  decode buf = (Ok r, rest) ->
  typed r /\ (wire_size r < 2 ^ 32 -> exists enc, encode r [] = (Ok (wire_size r), enc)
                /\ forall rest', decode (enc ++ rest') = (Ok r, rest')).
Proof.
  intros Hd. apply decode_typed in Hd as Ht. split; [done|]. intros Hw.
  exists (frame CNone (value r) r). split.
  - unfold encode. rewrite (encode_inner_run r CNone None [] (proj1 Ht)). by rewrite len_frame.
  - intros rest'. apply decode_frame_Ok; [split; [apply Ht|unfold wire_size in Hw; lia]|done].
Qed.

(** Without compression a record takes exactly [wire_size] bytes, the
    estimate that batching and rotation go by. *)
Theorem wire_size_exact r out :
  is_i64 (timestamp_ms r) ->
  exists enc, encode_with r CNone out = (Ok (wire_size r), out ++ enc) /\ len enc = wire_size r.
Proof.
  intros Hts. exists (frame CNone (value r) r).
  assert (E : len (frame CNone (value r) r) = wire_size r) by (rewrite len_frame; unfold wire_size; lia).
  split; [|done]. rewrite <- E. by apply (encode_with_run r CNone (value r) out).
Qed.

(** What [compress] produces, [decompress] restores, for every codec of
    the build and every value within the decompression cap, whatever was in
    the scratch buffer. *)
Theorem compression_round_trip {S} c raw scratch (s : S) :
  is_available c = true -> len raw <= DECOMPRESS_MAX_SIZE ->
  exists out, compress c raw scratch = (Ok tt, out) /\ decompress c out s = (Ok raw, s).
Proof.
  intros Ha Hl. destruct (compress_available c raw scratch Ha) as [out Ho].
  exists out. split; [done|]. eapply decompress_compress; [done|by right].
Qed.

(** C33: an LZ4 value above the cap is encoded and acknowledged like any
    other, but its frame - whole, with a good checksum - never decodes again. *)
Theorem oversized_lz4_is_unreadable r out rest :
  is_i64 (timestamp_ms r) -> compression_lz4 = true ->
  DECOMPRESS_MAX_SIZE < len (value r) < 2 ^ 32 -> len (wire Lz4 r) < 2 ^ 32 + 4 ->
  exists enc s, encode_with r Lz4 out = (Ok (len enc), out ++ enc)
    /\ decode (enc ++ rest) = (Err DecompressionFailed, s).
Proof.
  intros Hts Hlz Hv Hlen. destruct (storable_frame Lz4 r Hts Hlz) as (stored & Hs & Hw & Henc).
  exists (wire Lz4 r). eexists. split; [apply Henc|]. rewrite Hw in *. rewrite len_frame in Hlen.
  apply decode_frame_Err; [split; [done|lia]|]. intros s. by apply (lz4_decompress_oversized (value r) []).
Qed.

(** A zstd frame, whatever it claims about itself, yields a value within
    the cap or an error. *)
Theorem zstd_value_within_cap {S} compressed v (s : S) :
  decompress Zstd compressed s = (Ok v, s) -> len v <= DECOMPRESS_MAX_SIZE.
Proof. apply zstd_value_capped. Qed.

End codec.

(** ** Witnesses *)
Lemma record_round_trip_witness :
  exists enc, encode_with ex_rec1 Lz4 [x00] = (Ok (len enc), [x00] ++ enc)
    /\ forall rest, decode (enc ++ rest) = (Ok ex_rec1, rest).
Proof.
  apply (record_round_trip Lz4 ex_rec1 [x00]).
  pose proof (ex_storable Lz4) as Hs. by apply Forall_cons in Hs as [Hs _].
Defined.

Lemma torn_record_is_truncated_witness :
  exists needed s, decode (take 5 (frame CNone [x68; x69] ex_rec1)) = (Err (Truncated needed), s) /\ 0 < needed.
Proof.
  apply (torn_record_is_truncated CNone [x68; x69] ex_rec1 5).
  - reflexivity.
  - split; vm_compute; [split; congruence|reflexivity].
  - vm_compute. lia.
Defined.

Lemma decode_never_panics_witness :
  (exists r (n : nat), decode [x00; x00; x00; x15; xff] = (Ok r, drop n [x00; x00; x00; x15; xff])
     /\ 25 <= Z.of_nat n <= 5)
  \/ (exists e s, decode [x00; x00; x00; x15; xff] = (Err e, s) /\ decode_error e).
Proof. exact (decode_never_panics [x00; x00; x00; x15; xff]). Defined.

Lemma decode_checks_crc_witness :
  decode (frame CNone [x68; x69] ex_rec1) = (Ok ex_rec1, [])
  /\ from_be_bytes (take 4 (drop 4 (frame CNone [x68; x69] ex_rec1)))
     = crc32 (take 23 (drop 8 (frame CNone [x68; x69] ex_rec1))).
Proof.
  assert (E : decode (frame CNone [x68; x69] ex_rec1) = (Ok ex_rec1, [])) by (vm_compute; reflexivity).
  split; [exact E|]. exact (decode_checks_crc _ _ _ E).
Defined.

Lemma decode_yields_typed_record_witness :
  typed ex_rec1 /\ exists enc, encode ex_rec1 [] = (Ok (wire_size ex_rec1), enc).
Proof.
  assert (E : decode (frame CNone [x68; x69] ex_rec1) = (Ok ex_rec1, [])) by (vm_compute; reflexivity).
  destruct (decode_yields_typed_record _ _ _ E) as [Ht He].
  destruct (He ltac:(vm_compute; reflexivity)) as (enc & Hr & _). split; [exact Ht|]. exists enc. exact Hr.
Defined.

Lemma wire_size_exact_witness :
  exists enc, encode_with ex_rec1 CNone [] = (Ok 29, [] ++ enc) /\ len enc = 29.
Proof. apply (wire_size_exact ex_rec1 []). vm_compute. split; congruence. Defined.

Lemma compression_round_trip_witness :
  exists out, compress Zstd [x68; x69] [x00] = (Ok tt, out) /\ decompress Zstd out tt = (Ok [x68; x69], tt).
Proof. apply (compression_round_trip Zstd [x68; x69] [x00] tt); vm_compute; congruence. Defined.

Lemma len_replicate_Z (n : Z) (b : byte) : 0 <= n -> len (replicate (Z.to_nat n) b) = n.
Proof. intros Hn. unfold len. rewrite length_replicate. lia. Qed.

(** A value of one byte more than the cap: built, never enumerated. *)
Definition ex_big : list byte := replicate (Z.to_nat (2 ^ 24 + 1)) x00.

Lemma len_ex_big : len ex_big = 2 ^ 24 + 1.
Proof. apply len_replicate_Z. lia. Qed.

#[global] Opaque ex_big.

Lemma oversized_lz4_is_unreadable_witness :
  let r := new 0 None ex_big in
  exists enc s, encode_with r Lz4 [] = (Ok (len enc), [] ++ enc)
    /\ decode (enc ++ []) = (Err DecompressionFailed, s).
Proof.
  intros r. assert (Hl : len (value r) = 2 ^ 24 + 1) by exact len_ex_big.
  apply (oversized_lz4_is_unreadable r [] []).
  - change (is_i64 0). split; vm_compute; congruence.
  - reflexivity.
  - rewrite Hl. split; reflexivity.
  - destruct (storable_frame Lz4 r) as (stored & Hs & -> & _); [change (is_i64 0); split; vm_compute; congruence|reflexivity|].
    rewrite len_frame. simpl key. destruct (lz4_compress_run (C := stored_codecs) (value r) eq_refl) as (block & Hb & Hc).
    unfold stores, compress in Hs. rewrite Hc in Hs. injection Hs as <-.
    rewrite len_app. unfold len at 1. rewrite length_to_le_bytes.
    change (lz4_get_maximum_output_size (len (value r))) with (len (value r)) in Hb.
    destruct (lz4_compress_fits (value r)) as (block' & Hb' & Hle).
    change (lz4_get_maximum_output_size (len (value r))) with (len (value r)) in Hb', Hle.
    assert (block' = block) as -> by congruence. unfold key_part. rewrite Hl in Hle. lia.
Defined.

Lemma zstd_value_within_cap_witness :
  decompress Zstd [x68] tt = (Ok [x68], tt) /\ len [x68] <= DECOMPRESS_MAX_SIZE.
Proof. split; [reflexivity|]. exact (zstd_value_within_cap [x68] [x68] tt eq_refl). Defined.
