(* ===== verification/LogTheorems.v ===== *)
(** * Theorems: segments, indexes and the log

    The log against the list of records it stands for, through appends,
    reads, rotation, retention, crashes and restarts; and the segment and the
    index below it. *)

From S2P Require Import Prelude Bytes Error Compression LogRecord Fs Names Search.
From S2P Require Import Segment SegmentSpec SparseIndex Log LogInv LogOps LogRead LogRetain.
From S2P Require Import LogRecover LogCrash LogSpec Faults LogFaults LogShift Examples.

(** ** Segments and indexes *)

(** Any sequence of appends, reads, truncations and syncs of a segment
    behaves as on a byte string: appends go to its end and return the position
    they start at, reads return the bytes they ask for, and the cached file
    position never shows. *)
Theorem segment_refines_bytes w s data os :
  quiet w -> Segment.rep w s data -> calls_fit (read_max w) data os ->
  exists w' s', seg_calls os (w, s) = (Ok (snd (spec_calls (read_max w) data os)), (w', s'))
    /\ Segment.rep w' s' (fst (spec_calls (read_max w) data os)).
Proof.
  intros Hq Hr Hf. pose proof (seg_calls_run w s data os Hq Hr Hf) as Hc.
  destruct (spec_calls _ data os) as [data' rs]. destruct Hc as (w' & s' & Hrun & Hr' & _). eauto.
Qed.

(** C32: a write that fails after [k > 0] bytes breaks the segment: the next
    append succeeds and reports the old end as its position, but its bytes are
    [k] further on, behind the stray ones. *)
Theorem failed_append_misplaces_next w s data bytes1 bytes2 f :
  Segment.rep w s data -> cursor s = Some (len data) -> faults w = [Some f] ->
  (0 < fault_written f <= length bytes1)%nat -> len data + len bytes1 + len bytes2 < 2 ^ 64 ->
  exists w1 s1 w2 s2 fl,
    Segment.append bytes1 (w, s) = (Err (Io (io_error_from (fault_kind f))), (w1, s1))
    /\ Segment.append bytes2 (w1, s1) = (Ok (len data), (w2, s2))
    /\ nodes w2 !! seg_path s = Some (NFile fl)
    /\ f_data fl = data ++ take (fault_written f) bytes1 ++ bytes2.
Proof.
  intros Hr Hc Hf Hk Hl. destruct (failed_append_run w s data bytes1 bytes2 f Hr Hc Hf Hk Hl)
    as (w1 & s1 & w2 & s2 & fl & H1 & H2 & _ & H4 & H5).
  exists w1, s1, w2, s2, fl. eauto.
Qed.

(** For an index whose entries name records of a segment, a lookup lands
    on the start of a record at or before the one asked for, with that
    record's offset, so a forward scan from there cannot miss it. *)
Theorem index_lookup_lands_before {S} s frames k off (st : S) :
  positions s frames k -> is_u64 off -> SparseIndex.base_offset s <= off ->
  is_u64 (SparseIndex.base_offset s) -> SparseIndex.base_offset s + Z.of_nat k < 2 ^ 64 ->
  exists i : nat, (i <= k)%nat
    /\ lookup s off st = (Ok (pos_of frames i, SparseIndex.base_offset s + Z.of_nat i), st)
    /\ SparseIndex.base_offset s + Z.of_nat i <= off.
Proof. apply lookup_spec. Qed.

(** An index file holds its entries exactly: opening it yields the
    entries that were written, in order, and bytes of a torn last entry are
    ignored. *)
Theorem index_file_round_trip w dir base ivl es torn sy t :
  quiet w -> Forall (fun e => is_u32 (relative_offset e) /\ is_u32 (file_position e)) es ->
  (length torn < 8)%nat ->
  nodes w !! index_path dir base = Some (NFile (FNode (concat (map entry_bytes es) ++ torn) sy t)) ->
  exists s, SparseIndex.open dir base ivl w = (Ok s, w) /\ entries s = es
    /\ SparseIndex.base_offset s = base.
Proof.
  intros Hq He Ht Hn. destruct (index_open_run w dir base ivl _ Hq Hn) as (s & Ho & E & Hb & _).
  exists s. split; [done|]. split; [|done]. rewrite E. by apply parse_entries_concat.
Qed.

(** A segment's file name determines its base offset and is read back by
    the directory scan: distinct offsets have distinct files. *)
Theorem segment_names_round_trip dir a b :
  is_u64 a -> is_u64 b ->
  segment_offset_of_name (fmt020 a +:+ ".log") = Some a
  /\ (segment_path dir a = segment_path dir b -> a = b)
  /\ segment_path dir a <> index_path dir b.
Proof.
  intros Ha Hb. split; [by apply segment_offset_of_segment_name|].
  split; [by apply segment_path_inj|]. apply segment_index_path_ne.
Qed.

(** ** The log *)
Section log.
Context {B : Buf} {BL : BufLaws B} {H : Crc32} {HL : Crc32Laws H} {C : Codecs} {CL : CodecLaws C}.

(** C1: a batch append adds its records, in order, at the end of the log and
    returns their consecutive offsets - through any rotation it causes. *)
Theorem log_append_batch w l a rs :
  log_refines w l a -> Forall (storable (compression (config l))) rs -> room w (config l) rs ->
  a_next a + len rs < 2 ^ 64 ->
  exists w' l', Log.append_batch rs (w, l) = (Ok (offsets_from (a_next a) (length rs)), (w', l'))
    /\ log_refines w' l' (a_append rs a) /\ keeps w l w' l'.
Proof. apply append_batch_refines. Qed.

(** A single append does the same with one record. *)
Theorem log_append w l a r :
  log_refines w l a -> storable (compression (config l)) r -> room w (config l) [r] ->
  a_next a + 1 < 2 ^ 64 ->
  exists w' l', Log.append r (w, l) = (Ok (a_next a), (w', l'))
    /\ log_refines w' l' (a_append [r] a) /\ keeps w l w' l'.
Proof. apply append_refines. Qed.

(** C2: reading any offset of any log returns the record there, whichever
    segment holds it, and nothing below the start or past the end. *)
Theorem log_read w l a off :
  log_refines w l a -> 0 <= off ->
  exists w' l', Log.read_record_at off (w, l) = (Ok (a_read off a), (w', l'))
    /\ log_refines w' l' a /\ keeps w l w' l'.
Proof. apply read_refines. Qed.

(** After a batch append, reading the offset of its [i]-th record returns
    that record. *)
Theorem log_reads_its_appends w l a rs i r :
  log_refines w l a -> Forall (storable (compression (config l))) rs -> room w (config l) rs ->
  a_next a + len rs < 2 ^ 64 -> rs !! i = Some r ->
  exists w1 l1 offs off w2 l2,
    Log.append_batch rs (w, l) = (Ok offs, (w1, l1)) /\ offs !! i = Some off
    /\ Log.read_record_at off (w1, l1) = (Ok (Some r), (w2, l2)).
Proof.
  intros Hr Hs Hro Hb Hi. pose proof (lookup_lt_Some _ _ _ Hi) as Hlt.
  destruct (append_batch_refines w l a rs Hr Hs Hro Hb) as (w1 & l1 & Ha & Hr1 & _).
  destruct (lc_bound _ _ _ Hr) as [Hst _].
  assert (0 <= a_next a) by (unfold a_next; pose proof (len_nonneg (a_recs a)); lia).
  destruct (read_refines w1 l1 _ (a_next a + Z.of_nat i) Hr1 ltac:(lia)) as (w2 & l2 & Hrd & _).
  exists w1, l1, (offsets_from (a_next a) (length rs)), (a_next a + Z.of_nat i), w2, l2. split; [exact Ha|].
  split; [by apply offsets_from_lookup|]. by rewrite Hrd, a_read_append, Hi.
Qed.

(** Whatever a crash leaves of the unsynced bytes, the next start opens
    the log with the records from its first offset up to some point, each at
    its old offset: a torn batch loses a suffix, nothing else. *)
Theorem log_recovers_prefix w w1 l a cfg :
  log_refines w l a -> crash w w1 ->
  exists w2 l2 n, Log.open (dir l) cfg w1 = (Ok l2, w2)
    /\ log_refines w2 l2 (mkALog (a_start a) (take n (a_recs a))).
Proof.
  intros Hr Hc. destruct (open_after_crash w w1 l a cfg Hr Hc) as (w2 & l2 & n & Ho & Hr2 & _). eauto.
Qed.

(** C4: [sync] succeeds, and once it has returned a crash loses nothing: the
    next start finds every record. *)
Theorem log_sync_is_durable w l a cfg :
  log_refines w l a ->
  exists w1 l1, Log.sync (w, l) = (Ok tt, (w1, l1)) /\ log_refines w1 l1 a
    /\ forall w2, crash w1 w2 ->
         exists w3 l3, Log.open (dir l) cfg w2 = (Ok l3, w3) /\ log_refines w3 l3 a.
Proof.
  intros Hr. destruct (sync_refines w l a Hr) as (w1 & l1 & Hs & Hr1 & _). exists w1, l1.
  split; [done|]. split; [done|]. intros w2 Hc.
  destruct (open_after_sync_and_crash w l w1 l1 w2 a cfg Hr Hs Hc) as (w3 & l3 & Ho & Hr3 & _). eauto.
Qed.

(** Retention without failing calls deletes exactly the oldest sealed segments its policies
    name - by age, then by size from the rest - and never the active one; the
    records left keep their offsets, and the count returned is the number of
    segments deleted. *)
Theorem retention_deletes_oldest w l start cs c :
  quiet w -> log_rep w l start cs c ->
  let n := (age_deletes w l + size_deletes l (drop (age_deletes w l) (segments l)))%nat in
  exists w' l',
    apply_retention (w, l) = (Ok (Z.of_nat n), (w', l')) /\ (n <= length cs)%nat
    /\ log_rep w' l' (start + len (concat (take n cs))) (drop n cs) c
    /\ records_of (drop n cs) c = drop (length (concat (take n cs))) (records_of cs c).
Proof.
  intros Hq Hr n. destruct (apply_retention_run w l start cs c Hq Hr) as (w' & l' & Hrun & _ & Hr' & _).
  pose proof (deletes_le w l start cs c Hr) as Hle. exists w', l'. split; [done|]. split; [done|].
  split; [done|]. by apply records_of_drop.
Qed.

(** C29: retention by size. After [apply_retention] the segments of the log
    are within the limit, or only the active one is left; and of the segments
    the age policy kept no more are deleted than that takes: with the last of
    them the log was above the limit. *)
Theorem size_retention_reaches_limit w l start cs c mx :
  quiet w -> log_rep w l start cs c -> max_partition_bytes (config l) = Some mx ->
  sum (map seg_size (segments l)) < 2 ^ 64 ->
  exists n w' l', apply_retention (w, l) = (Ok (Z.of_nat n), (w', l')) /\ segments l' = drop n (segments l)
    /\ total_size l' = sum (map seg_size (segments l'))
    /\ (length (segments l') = 1%nat \/ total_size l' <= mx)
    /\ ((age_deletes w l < n)%nat -> mx < sum (map seg_size (drop (n - 1) (segments l)))).
Proof.
  intros Hq Hr Hmx Hb. destruct (apply_retention_run w l start cs c Hq Hr) as (w' & l' & Hrun & -> & _).
  pose proof (seg_size_nonneg w l start cs c Hr) as Hnn. pose proof (deletes_le w l start cs c Hr) as Hle.
  pose proof (log_rep_segments_length _ _ _ _ _ Hr) as Hlen. rewrite length_app in Hlen. simpl in Hlen.
  set (a := age_deletes w l) in *. set (rest := drop a (segments l)) in *.
  assert (Hrest : Forall (fun x => 0 <= x) (map seg_size rest) /\ sum (map seg_size rest) < 2 ^ 64).
  { unfold rest. rewrite <- skipn_map. split; [by apply Forall_drop|].
    pose proof (drop_nonneg_sum (map seg_size (segments l)) a Hnn). lia. }
  assert (Hsd : size_deletes l rest = size_count sum mx (map seg_size rest)).
  { unfold size_deletes. rewrite Hmx. apply size_count_u64; apply Hrest. }
  set (k := size_deletes l rest) in *. exists (a + k)%nat, w'. eexists. split; [exact Hrun|]. split; [done|].
  cbn [segments set_segments]. replace (drop (a + k) (segments l)) with (drop k rest) by (unfold rest; apply drop_drop).
  assert (Hts : total_size (set_segments (drop k rest) l) = sum (map seg_size (drop k rest))).
  { apply total_size_sum; rewrite <- skipn_map; [apply Forall_drop, Hrest|].
    pose proof (drop_nonneg_sum (map seg_size rest) k (proj1 Hrest)). lia. }
  rewrite Hts. split; [done|]. split.
  - assert (Hne : map seg_size rest <> []).
    { intros E%map_eq_nil%(f_equal length). unfold rest in E. rewrite length_drop in E. simpl in E. lia. }
    pose proof (size_count_enough mx _ Hne) as E. cbv zeta in E. rewrite <- Hsd, skipn_map, length_map in E. exact E.
  - intros Hk. destruct k as [|k']; [lia|]. replace (a + S k' - 1)%nat with (a + k')%nat by lia.
    rewrite <- drop_drop. change (drop a (segments l)) with rest. rewrite <- skipn_map. by apply size_count_needed.
Qed.

(** C28: rotation seals the active segment with both its files on the device,
    and opens an empty one at the next offset; no record moves. *)
Theorem rotation_seals w l start cs c :
  quiet w -> log_rep w l start cs c -> c <> [] -> next_offset l < 2 ^ 64 ->
  exists w' segs',
    rotate_active_segment (w, l) = (Ok tt, (w', set_segments segs' l))
    /\ log_rep w' (set_segments segs' l) start (cs ++ [c]) []
    /\ records_of (cs ++ [c]) [] = records_of cs c.
Proof.
  intros Hq Hr Hc Hn. destruct (rotate_run w l start cs c Hq Hr Hc Hn) as (w' & segs' & Hrun & Hr' & _).
  exists w', segs'. split; [done|]. split; [done|]. unfold records_of.
  by rewrite concat_app, app_nil_r; simpl; rewrite app_nil_r.
Qed.

(** Opening a directory whose active segment ends in a torn record drops
    exactly the torn bytes; the index file of the active segment is rebuilt
    whatever it held. *)
Theorem recovery_cuts_torn_tail w dir cfg start cs c t :
  quiet w -> disk w dir start cs c t ->
  exists w' l, Log.open dir cfg w = (Ok l, w') /\ log_rep w' l start cs c
    /\ next_offset l = start + len (concat cs) + len c.
Proof.
  intros Hq Hd. destruct (log_open_run w dir cfg start cs c t Hq Hd) as (w' & l & Ho & Hr & _).
  exists w', l. split; [done|]. split; [done|]. apply Hr.
Qed.

(** ** Failing system calls *)

(** C5: a batch append keeps what is on the device, whichever of its system
    calls fails and however much a failing write wrote: it does what it does
    when no call fails, or it returns an I/O error with the next offset as it
    was, and after a crash the next start finds the old records - at least
    those that were on the device - and at most the first records of the
    batch after them, each at its offset. *)
Theorem failed_batch_keeps_synced w l start cs c0 c1 rs :
  log_rep w l start cs (c0 ++ c1) ->
  secured w (dir l) (start + len (concat cs)) (concat (frames c0)) ->
  Forall (storable (compression (config l))) rs -> room w (config l) rs ->
  next_offset l + len rs < 2 ^ 64 ->
  (exists fs w' l', Log.append_batch rs (w, l)
       = (Ok (offsets_from (next_offset l) (length rs)), (with_faults fs w', l'))
     /\ log_refines w' l' (mkALog start (records_of cs (c0 ++ c1) ++ rs)))
  \/ (exists e w' l', Log.append_batch rs (w, l) = (Err (Io e), (w', l'))
     /\ next_offset l' = next_offset l
     /\ forall cfg w1, crash w' w1 ->
          exists w2 l2 m, Log.open (dir l) cfg w1 = (Ok l2, w2)
            /\ log_refines w2 l2 (mkALog start (take m (records_of cs (c0 ++ c1) ++ rs)))
            /\ (length (concat cs ++ c0) <= m)%nat).
Proof.
  intros Hr Hse Hst Hroom Hb.
  destruct (append_batch_runs w l start cs c0 c1 rs Hr Hse Hst Hroom Hb) as [[fs E]|(e & w' & l' & E & Hn & Hrec)].
  - left. destruct (append_batch_calm w l start cs (c0 ++ c1) rs Hr Hst Hroom Hb) as (w' & l' & Hrun & Hr').
    exists fs, w', l'. by rewrite E, Hrun.
  - right. exists e, w', l'. split; [done|]. split; [done|]. intros cfg w1 Hc.
    destruct (recoverable_open w' w1 _ _ _ _ cfg Hrec Hc) as (w2 & l2 & m & Ho & Hr2 & Hm).
    exists w2, l2, m. split; [done|]. by rewrite batch_records in Hr2.
Qed.

(** C30: a rotation that fails between the two files of the new segment blocks
    the log: every later batch that needs a rotation - the one that failed
    among them - fails with [AlreadyExists] and changes nothing. A restart
    cures it, and has every record. *)
Theorem failed_rotation_blocks_log w l start cs c rs f :
  log_rep w l start cs c -> next_offset l < 2 ^ 64 -> rs <> [] ->
  0 <= total_wire_size rs < 2 ^ 63 ->
  active_would_overflow (total_wire_size rs) (w, l) = (Ok true, (w, l)) ->
  faults w = [None; None; None; Some f] ->
  exists w1 l1,
    Log.append_batch rs (w, l) = (Err (Io (io_error_from (fault_kind f))), (w1, l1)) /\ quiet w1
    /\ (forall n, active_would_overflow n (w1, l1) = (fst (active_would_overflow n (w, l)), (w1, l1)))
    /\ (forall rs', rs' <> [] ->
         active_would_overflow (total_wire_size rs') (w1, l1) = (Ok true, (w1, l1)) ->
         Log.append_batch rs' (w1, l1) = (Err (Io (io_error_from AlreadyExists)), (w1, l1)))
    /\ (forall cfg w2, crash w1 w2 -> exists w3 l3, Log.open (dir l) cfg w2 = (Ok l3, w3)
         /\ log_refines w3 l3 (mkALog start (records_of cs c))).
Proof.
  intros Hr Hn Hne Hws Ho Hf.
  destruct (failed_rotation_run w l start cs c rs f Hr Hn Hne Hws Ho Hf)
    as (w1 & l1 & Ha & Hq & _ & Hov & Hall & Hrec).
  exists w1, l1. do 4 (split; [done|]). intros cfg w2 Hc.
  destruct (recoverable_open w1 w2 _ _ _ _ cfg Hrec Hc) as (w3 & l3 & m & Hop & Hr3 & Hm).
  exists w3, l3. split; [done|]. unfold records_of. rewrite take_ge in Hr3 by (by rewrite length_map).
  done.
Qed.

(** C31: a batch whose index entry cannot be written is refused, but its
    records stay in the segment: the next batch is acknowledged with the same
    offsets, and once the log is opened again a read of the first of them
    returns the refused record. *)
Theorem refused_batch_takes_its_offset w l start cs c a f r1 rs1 rs2 cfg :
  quiet w -> log_rep w l start cs c -> last (segments l) = Some a ->
  cursor (segment a) = Some (Segment.size (segment a)) -> entry_due (index a) ->
  Forall (storable (compression (config l))) (r1 :: rs1) ->
  Forall (storable (compression (config l))) rs2 -> rs2 <> [] ->
  active_would_overflow (total_wire_size (r1 :: rs1)) (w, l) = (Ok false, (w, l)) ->
  len (concat (frames (c ++ wires (compression (config l)) (r1 :: rs1)))) + total_wire_size rs2
    <= segment_size_threshold (config l) < 2 ^ 63 ->
  len (concat (frames (c ++ wires (compression (config l)) (r1 :: rs1 ++ rs2)))) <= seg_limit w ->
  next_offset l + len (r1 :: rs1 ++ rs2) < 2 ^ 64 ->
  exists w1 l1 w2 l2 w3 l3 w4 l4,
    Log.append_batch (r1 :: rs1) (with_faults [None; Some f] w, l)
      = (Err (Io (io_error_from (fault_kind f))), (w1, l1))
    /\ Log.append_batch rs2 (w1, l1) = (Ok (offsets_from (next_offset l) (length rs2)), (w2, l2))
    /\ Log.open (dir l) cfg w2 = (Ok l3, w3)
    /\ log_refines w3 l3 (mkALog start (records_of cs c ++ (r1 :: rs1) ++ rs2))
    /\ Log.read_record_at (next_offset l) (w3, l3) = (Ok (Some r1), (w4, l4)).
Proof. apply refused_batch_run. Qed.

End log.

(** ** Witnesses *)
Lemma segment_refines_bytes_witness :
  exists w' s', seg_calls [ORead 0 1; OAppend [x62]; ORead 0 9; OTruncate 1; OAppend [x63]; ORead 0 9]
      (ex_seg_world [x61] [], ex_seg [x61])
    = (Ok [RBytes [x61]; RPos 1; RBytes [x61; x62]; RDone; RPos 1; RBytes [x61; x63]], (w', s'))
    /\ Segment.rep w' s' [x61; x63].
Proof.
  apply (segment_refines_bytes (ex_seg_world [x61] []) (ex_seg [x61]) [x61]
    [ORead 0 1; OAppend [x62]; ORead 0 9; OTruncate 1; OAppend [x63]; ORead 0 9]).
  - reflexivity.
  - by apply ex_seg_rep.
  - vm_compute. intuition congruence.
Defined.

Lemma failed_append_misplaces_next_witness :
  exists w1 s1 w2 s2 fl,
    let w := ex_seg_world [x61] [Some (Fault StorageFull 2)] in
    Segment.append [x62; x63; x64] (w, ex_seg [x61]) = (Err (Io (io_error_from StorageFull)), (w1, s1))
    /\ Segment.append [x65] (w1, s1) = (Ok 1, (w2, s2))
    /\ nodes w2 !! ["s"] = Some (NFile fl) /\ f_data fl = [x61; x62; x63; x65].
Proof.
  apply (failed_append_misplaces_next (ex_seg_world [x61] [Some (Fault StorageFull 2)]) (ex_seg [x61])
    [x61] [x62; x63; x64] [x65] (Fault StorageFull 2)).
  - by apply ex_seg_rep.
  - reflexivity.
  - reflexivity.
  - simpl. lia.
  - vm_compute. reflexivity.
Defined.

Lemma index_lookup_lands_before_witness :
  let s := mkIndex 7 ["i"] (mkFile ["i"] 0) [mkEntry 0 0; mkEntry 2 3] 0 0 in
  exists i : nat, (i <= 3)%nat /\ lookup s 8 tt = (Ok (pos_of [[x01]; [x02; x03]; [x04]] i, 7 + Z.of_nat i), tt)
    /\ 7 + Z.of_nat i <= 8.
Proof.
  apply (index_lookup_lands_before (mkIndex 7 ["i"] (mkFile ["i"] 0) [mkEntry 0 0; mkEntry 2 3] 0 0)
    [[x01]; [x02; x03]; [x04]] 3 8).
  - split.
    + apply Forall_cons; split; [exists 0%nat|apply Forall_singleton; exists 2%nat]; (split; [lia|by split]).
    + intros [|[|i]] [|[|j]] x y Hij; simpl; try (by intros); try lia; intros [= <-] [= <-]; simpl; lia.
  - split; reflexivity || (vm_compute; congruence).
  - simpl. lia.
  - split; reflexivity || (vm_compute; congruence).
  - reflexivity.
Defined.

Lemma index_file_round_trip_witness :
  let w := mkWorld {[ index_path ["d"] 3 :=
    NFile (FNode (concat (map entry_bytes [mkEntry 0 0; mkEntry 5 900]) ++ [x00; x00]) [] 0) ]} 0 [] 100 in
  exists s, SparseIndex.open ["d"] 3 4096 w = (Ok s, w) /\ entries s = [mkEntry 0 0; mkEntry 5 900]
    /\ SparseIndex.base_offset s = 3.
Proof.
  intros w. apply (index_file_round_trip w ["d"] 3 4096 [mkEntry 0 0; mkEntry 5 900] [x00; x00] [] 0).
  - reflexivity.
  - repeat constructor; simpl; lia.
  - simpl. lia.
  - apply lookup_singleton_eq.
Defined.

Lemma segment_names_round_trip_witness :
  segment_offset_of_name (fmt020 7 +:+ ".log") = Some 7
  /\ (segment_path ["d"] 7 = segment_path ["d"] 8 -> 7 = 8)
  /\ segment_path ["d"] 7 <> index_path ["d"] 8.
Proof. apply (segment_names_round_trip ["d"] 7 8); split; vm_compute; congruence. Defined.

Lemma log_append_batch_witness :
  exists w' l', Log.append_batch [ex_rec1; ex_rec2] (ex_w, ex_l) = (Ok [0; 1], (w', l'))
    /\ log_refines w' l' (mkALog 0 [ex_rec1; ex_rec2]) /\ keeps ex_w ex_l w' l'.
Proof.
  apply (log_append_batch ex_w ex_l (mkALog 0 []) [ex_rec1; ex_rec2] ex_refines).
  - apply ex_storable.
  - apply ex_room, ex_limit.
  - reflexivity.
Defined.

Lemma log_append_witness :
  exists w' l', Log.append ex_rec1 (ex_w, ex_l) = (Ok 0, (w', l'))
    /\ log_refines w' l' (mkALog 0 [ex_rec1]) /\ keeps ex_w ex_l w' l'.
Proof.
  apply (log_append ex_w ex_l (mkALog 0 []) ex_rec1 ex_refines).
  - pose proof (ex_storable CNone) as Hs. apply Forall_cons in Hs as [Hs _]. exact Hs.
  - apply ex_room_one, ex_limit.
  - reflexivity.
Defined.

Lemma log_read_witness :
  exists w' l', Log.read_record_at 1 (ex_w1, ex_l1) = (Ok (Some ex_rec2), (w', l'))
    /\ log_refines w' l' (mkALog 0 [ex_rec1; ex_rec2]) /\ keeps ex_w1 ex_l1 w' l'.
Proof. apply (log_read ex_w1 ex_l1 _ 1 ex_refines1). lia. Defined.

Lemma log_reads_its_appends_witness :
  exists w1 l1 offs off w2 l2,
    Log.append_batch [ex_rec1; ex_rec2] (ex_w, ex_l) = (Ok offs, (w1, l1)) /\ offs !! 1%nat = Some off
    /\ Log.read_record_at off (w1, l1) = (Ok (Some ex_rec2), (w2, l2)).
Proof.
  apply (log_reads_its_appends ex_w ex_l (mkALog 0 []) [ex_rec1; ex_rec2] 1 ex_rec2 ex_refines).
  - apply ex_storable.
  - apply ex_room, ex_limit.
  - reflexivity.
  - reflexivity.
Defined.

(** Half of the segment's bytes survive. *)
Lemma log_recovers_prefix_witness :
  exists w2 l2 n, Log.open (dir ex_l1) ex_cfg (ex_torn 35) = (Ok l2, w2)
    /\ log_refines w2 l2 (mkALog 0 (take n [ex_rec1; ex_rec2])).
Proof. apply (log_recovers_prefix ex_w1 (ex_torn 35) ex_l1 _ ex_cfg ex_refines1 (ex_crash 35)). Defined.

Lemma log_sync_is_durable_witness :
  exists w1 l1, Log.sync (ex_w1, ex_l1) = (Ok tt, (w1, l1))
    /\ log_refines w1 l1 (mkALog 0 [ex_rec1; ex_rec2])
    /\ forall w2, crash w1 w2 -> exists w3 l3, Log.open (dir ex_l1) ex_cfg w2 = (Ok l3, w3)
         /\ log_refines w3 l3 (mkALog 0 [ex_rec1; ex_rec2]).
Proof. apply (log_sync_is_durable ex_w1 ex_l1 _ ex_cfg ex_refines1). Defined.

Lemma retention_deletes_oldest_witness :
  exists w' l', apply_retention (ex_w3, ex_l3) = (Ok 1, (w', l')) /\ (1 <= 1)%nat
    /\ log_rep w' l' 1 [] [] /\ records_of [] [] = [].
Proof.
  destruct ex_rep3 as [Hr Hq].
  assert (Hn : (age_deletes ex_w3 ex_l3 + size_deletes ex_l3 (drop (age_deletes ex_w3 ex_l3) (segments ex_l3)))%nat = 1%nat)
    by (vm_compute; reflexivity).
  pose proof (retention_deletes_oldest ex_w3 ex_l3 0 [wires Zstd [ex_rec1]] [] Hq Hr) as Hp.
  cbv zeta in Hp. rewrite Hn in Hp. exact Hp.
Defined.

Lemma size_retention_reaches_limit_witness :
  exists n w' l', apply_retention (ex_w3, ex_l3) = (Ok (Z.of_nat n), (w', l'))
    /\ (length (segments l') = 1%nat \/ total_size l' <= 0).
Proof.
  destruct ex_rep3 as [Hr Hq].
  destruct (size_retention_reaches_limit ex_w3 ex_l3 0 [wires Zstd [ex_rec1]] [] 0 Hq Hr) as (n & w' & l' & Hrun & _ & _ & Hl & _);
    [vm_compute; reflexivity..|].
  exists n, w', l'. exact (conj Hrun Hl).
Defined.

Lemma rotation_seals_witness :
  exists w' segs',
    rotate_active_segment (ex_w2, ex_l2) = (Ok tt, (w', set_segments segs' ex_l2))
    /\ log_rep w' (set_segments segs' ex_l2) 0 [wires Zstd [ex_rec1]] []
    /\ records_of [wires Zstd [ex_rec1]] [] = records_of [] (wires Zstd [ex_rec1]).
Proof.
  destruct ex_rep2 as [Hr Hq].
  apply (rotation_seals ex_w2 ex_l2 0 [] (wires Zstd [ex_rec1]) Hq Hr); [discriminate|vm_compute; reflexivity].
Defined.

Lemma recovery_cuts_torn_tail_witness :
  exists cs c t w' l,
    disk (ex_torn 35) (dir ex_l1) 0 cs c t
    /\ Log.open (dir ex_l1) ex_cfg (ex_torn 35) = (Ok l, w') /\ log_rep w' l 0 cs c
    /\ next_offset l = 0 + len (concat cs) + len c.
Proof.
  destruct ex_refines1 as (Hq & cs & c & Hr & _).
  destruct (log_rep_disk _ _ _ _ _ _ Hr (ex_crash 35)) as (c1 & t & Hd & _).
  destruct (recovery_cuts_torn_tail (ex_torn 35) (dir ex_l1) ex_cfg 0 cs c1 t (cr_quiet _ _ (ex_crash 35)) Hd)
    as (w' & l & Ho & Hrep & Hn).
  exists cs, c1, t, w', l. split; [exact Hd|]. split; [exact Ho|]. split; [exact Hrep|exact Hn].
Defined.


Lemma ex_config2 : config ex_l2 = ex_cfg2.
Proof. vm_compute. reflexivity. Qed.

Lemma ex_storable2 : Forall (storable (compression (config ex_l2))) [ex_rec2].
Proof. rewrite ex_config2. pose proof (ex_storable Zstd) as Hs. by apply Forall_cons in Hs as [_ Hs]. Qed.

(** The disk is full after five bytes of the new record. *)
Definition ex_full_disk : World := with_faults [None; None; None; None; None; Some (Fault StorageFull 5)] ex_w2.

Lemma failed_batch_keeps_synced_witness :
  (exists fs w' l', Log.append_batch [ex_rec2] (ex_full_disk, ex_l2) = (Ok [1], (with_faults fs w', l'))
     /\ log_refines w' l' (mkALog 0 [ex_rec1; ex_rec2]))
  \/ (exists e w' l', Log.append_batch [ex_rec2] (ex_full_disk, ex_l2) = (Err (Io e), (w', l'))
     /\ next_offset l' = next_offset ex_l2
     /\ forall cfg w1, crash w' w1 ->
          exists w2 l2 m, Log.open (dir ex_l2) cfg w1 = (Ok l2, w2)
            /\ log_refines w2 l2 (mkALog 0 (take m [ex_rec1; ex_rec2]))
            /\ (length (A := erec) [] <= m)%nat).
Proof.
  destruct ex_rep2 as [Hr Hq].
  apply (failed_batch_keeps_synced ex_full_disk ex_l2 0 [] [] (wires Zstd [ex_rec1]) [ex_rec2]).
  - by apply log_rep_faults.
  - apply (secured_nothing ex_full_disk ex_l2 0 [] (wires Zstd [ex_rec1]) 1). by apply log_rep_faults.
  - apply ex_storable2.
  - rewrite ex_config2. split; vm_compute; congruence.
  - vm_compute. reflexivity.
Defined.

Definition ex_no_index : World := with_faults [None; None; None; Some (Fault StorageFull 0)] ex_w2.

Lemma failed_rotation_blocks_log_witness :
  exists w1 l1,
    Log.append_batch [ex_rec2] (ex_no_index, ex_l2) = (Err (Io (io_error_from StorageFull)), (w1, l1)) /\ quiet w1
    /\ (forall n, active_would_overflow n (w1, l1) = (fst (active_would_overflow n (ex_no_index, ex_l2)), (w1, l1)))
    /\ (forall rs', rs' <> [] ->
         active_would_overflow (total_wire_size rs') (w1, l1) = (Ok true, (w1, l1)) ->
         Log.append_batch rs' (w1, l1) = (Err (Io (io_error_from AlreadyExists)), (w1, l1)))
    /\ (forall cfg w2, crash w1 w2 -> exists w3 l3, Log.open (dir ex_l2) cfg w2 = (Ok l3, w3)
         /\ log_refines w3 l3 (mkALog 0 [ex_rec1])).
Proof.
  destruct ex_rep2 as [Hr Hq].
  apply (failed_rotation_blocks_log ex_no_index ex_l2 0 [] (wires Zstd [ex_rec1]) [ex_rec2] (Fault StorageFull 0)).
  - by apply log_rep_faults.
  - vm_compute. reflexivity.
  - discriminate.
  - split; [apply total_wire_size_nonneg|vm_compute; reflexivity].
  - vm_compute. reflexivity.
  - reflexivity.
Defined.

Lemma refused_batch_takes_its_offset_witness :
  exists w1 l1 w2 l2 w3 l3 w4 l4,
    Log.append_batch [ex_rec1] (with_faults [None; Some (Fault StorageFull 3)] ex_w, ex_l)
      = (Err (Io (io_error_from StorageFull)), (w1, l1))
    /\ Log.append_batch [ex_rec2] (w1, l1) = (Ok [0], (w2, l2))
    /\ Log.open (dir ex_l) ex_cfg w2 = (Ok l3, w3)
    /\ log_refines w3 l3 (mkALog 0 [ex_rec1; ex_rec2])
    /\ Log.read_record_at 0 (w3, l3) = (Ok (Some ex_rec1), (w4, l4)).
Proof.
  destruct ex_rep0 as [Hr Hq]. pose proof (ex_storable (compression (config ex_l))) as Hs.
  destruct (last (segments ex_l)) as [a|] eqn:Ha; [|vm_compute in Ha; discriminate].
  apply (refused_batch_takes_its_offset ex_w ex_l 0 [] [] a (Fault StorageFull 3) ex_rec1 [] [ex_rec2] ex_cfg Hq Hr Ha).
  - vm_compute in Ha. injection Ha as <-. reflexivity.
  - left. vm_compute in Ha. injection Ha as <-. reflexivity.
  - apply Forall_cons in Hs as [Hs _]. by apply Forall_singleton.
  - by apply Forall_cons in Hs as [_ Hs].
  - discriminate.
  - vm_compute. reflexivity.
  - vm_compute. split; congruence.
  - vm_compute. congruence.
  - vm_compute. reflexivity.
Defined.
