(* ===== verification/OffsetStore.v ===== *)
(** * Committed offsets of a consumer group (offset_store.rs)

    One file per group, CRC-framed and little-endian, replaced atomically.
    [decode] degrades to zeros on any damage and never fails. *)

From Stdlib Require Import Ascii.
From S2P Require Import Prelude Bytes Error Fs Names LogInv LogRecover LogCrash.

Definition TEMP_SUFFIX : string := ".tmp".

Record OffsetStore : Type := mkStore {
  file_path : path;
  temp_path : path;
  group : string;
  committed : list Z;
}.

Definition set_committed (l : list Z) (s : OffsetStore) : OffsetStore :=
  mkStore (file_path s) (temp_path s) (group s) l.

(** ** Group names *)
Definition is_ascii_alphanumeric (c : ascii) : bool :=
  let n := Z.of_nat (nat_of_ascii c) in
  ((48 <=? n) && (n <=? 57)) || ((65 <=? n) && (n <=? 90)) || ((97 <=? n) && (n <=? 122)).

Fixpoint all_chars (f : ascii -> bool) (s : string) : bool :=
  match s with
  | EmptyString => true
  | String c s' => f c && all_chars f s'
  end.

Definition group_char (c : ascii) : bool :=
  is_ascii_alphanumeric c || Ascii.eqb c "." || Ascii.eqb c "_" || Ascii.eqb c "-".

Definition validate_group_name {S} (group : string) : KM S unit :=
  let invalid :=
    String.eqb group "" || String.eqb group "." || String.eqb group ".."
    || negb (all_chars group_char group) in
  if invalid then throw (InvalidGroupName group) else ret tt.

(** [&bytes[lo..hi]]. *)
Definition slice {S} (lo hi : nat) (bytes : list byte) : KM S (list byte) :=
  if (lo <=? hi)%nat && (hi <=? length bytes)%nat then ret (take (hi - lo) (drop lo bytes))
  else panic "range end index out of range for slice".

Section store.
Context {H : Crc32}.

(** ** The file format *)
Definition entry (partition : nat) (offset : Z) : list byte :=
  to_le_bytes 4 (as_u32 (Z.of_nat partition)) ++ to_le_bytes 8 offset.

(** [for (partition, &offset) in offsets.iter().enumerate()]. *)
Fixpoint entries_from (partition : nat) (offsets : list Z) : list byte :=
  match offsets with
  | [] => []
  | offset :: offsets' => entry partition offset ++ entries_from (S partition) offsets'
  end.

Definition encode (offsets : list Z) : list byte :=
  let body := to_le_bytes 4 (as_u32 (len offsets)) ++ entries_from 0 offsets in
  let crc := crc32 body in
  to_le_bytes 4 crc ++ body.

(** [for i in 0..count]. *)
Fixpoint decode_entries {S} (idxs : list nat) (partition_count : nat) (body : list byte)
    (result : list Z) : KM S (list Z) :=
  match idxs with
  | [] => ret result
  | i :: idxs' =>
      let base := (4 + i * 12)%nat in
      let* p := slice base (base + 4) body in
      let partition := from_le_bytes p in
      let* o := slice (base + 4) (base + 12) body in
      let offset := from_le_bytes o in
      let result :=
        if partition <? Z.of_nat partition_count then <[Z.to_nat partition := offset]> result
        else result in
      decode_entries idxs' partition_count body result
  end.

Definition decode {S} (bytes : list byte) (partition_count : nat) : KM S (list Z) :=
  let result := replicate partition_count 0 in
  if len bytes <? 8 then ret result
  else
    let* c := slice 0 4 bytes in
    let crc := from_le_bytes c in
    let* body := slice 4 (length bytes) bytes in
    if negb (crc32 body =? crc) then ret result
    else
      let* n := slice 0 4 body in
      let count := from_le_bytes n in
      if len body <? 4 + count * 12 then ret result
      else decode_entries (seq 0 (Z.to_nat count)) partition_count body result.

(** ** Opening and committing *)
Definition open (offsets_dir : path) (group : string) (partition_count : Z) : KM World OffsetStore :=
  let* _ := validate_group_name group in
  let* _ := io (create_dir_all offsets_dir) in
  let file_path := offsets_dir ++ [group] in
  let temp_path := offsets_dir ++ [group +:+ TEMP_SUFFIX] in
  let n := Z.to_nat partition_count in
  let* bytes := attempt (read_file file_path) in
  let* committed :=
    (match bytes with
     | inl bytes => decode bytes n
     | inr e => if decide (kind e = NotFound) then ret (replicate n 0) else throw (Io e)
     end) in
  ret (mkStore file_path temp_path group committed).

Definition commit (offsets : list Z) : KM (World * OffsetStore) unit :=
  let encoded := encode offsets in
  let* s := self in
  let* _ := in_world (io (create_file (temp_path s))) in
  let* _ := in_world (with_local (mkFile (temp_path s) 0)
              (io (let* _ := write_all encoded in sync_data))) in
  let* _ := in_world (io (rename (temp_path s) (file_path s))) in
  modify_self (set_committed offsets).

(** ** Decoding never fails *)
Lemma slice_run {S} lo hi bytes (s : S) :
  (lo <= hi)%nat -> (hi <= length bytes)%nat ->
  slice lo hi bytes s = (Ok (take (hi - lo) (drop lo bytes)), s).
Proof.
  intros H1 H2. unfold slice.
  by rewrite (proj2 (Nat.leb_le _ _) H1), (proj2 (Nat.leb_le _ _) H2).
Qed.

Lemma from_le_bytes_u64 lo l : is_u64 (from_le_bytes (take (lo + 12 - (lo + 4)) l)).
Proof.
  pose proof (from_le_bytes_range (take (lo + 12 - (lo + 4)) l)) as Hr. split; [lia|].
  eapply Z.lt_le_trans; [apply Hr|]. change (2 ^ 64) with (256 ^ 8). apply Z.pow_le_mono_r; [lia|].
  unfold len. rewrite length_take. lia.
Qed.

Lemma zeros_u64 n : Forall is_u64 (replicate n 0).
Proof. apply Forall_replicate. by split. Qed.
#[local] Hint Resolve zeros_u64 : core.

Lemma decode_entries_total {S} idxs n body result (s : S) :
  Forall (fun i => 4 + i * 12 + 12 <= length body)%nat idxs ->
  exists l, decode_entries idxs n body result s = (Ok l, s) /\ length l = length result
    /\ (Forall is_u64 result -> Forall is_u64 l).
Proof.
  intros Hi. revert result. induction Hi as [|i idxs Hi _ IH]; intros result; [by eexists|]. cbn [decode_entries].
  erewrite bind_Ok; [|apply slice_run; lia].
  erewrite bind_Ok; [|apply slice_run; lia].
  destruct (IH (if from_le_bytes (take (4 + i * 12 + 4 - (4 + i * 12)) (drop (4 + i * 12) body)) <? Z.of_nat n
    then <[Z.to_nat (from_le_bytes (take (4 + i * 12 + 4 - (4 + i * 12)) (drop (4 + i * 12) body))) :=
           from_le_bytes (take (4 + i * 12 + 12 - (4 + i * 12 + 4)) (drop (4 + i * 12 + 4) body))]> result
    else result)) as (l & Hrun & Hl & Hu).
  exists l. split; [exact Hrun|]. destruct (_ <? _); [|done]. split; [by rewrite Hl, length_insert|].
  intros Hr. by apply Hu, Forall_insert, from_le_bytes_u64.
Qed.

Lemma offsets_decode_total {S} bytes n (s : S) :
  exists l, decode bytes n s = (Ok l, s) /\ length l = n /\ Forall is_u64 l.
Proof.
  unfold decode. destruct (Z.ltb_spec (len bytes) 8) as [|H8].
  { eexists. split; [done|]. by rewrite length_replicate. }
  unfold len in H8. rewrite (bind_Ok _ _ _ _ _ (slice_run 0 4 bytes s ltac:(lia) ltac:(lia))).
  rewrite (bind_Ok _ _ _ _ _ (slice_run 4 (length bytes) bytes s ltac:(lia) ltac:(lia))). cbv zeta.
  set (body := take (length bytes - 4) (drop 4 bytes)).
  assert (length body = (length bytes - 4)%nat) as Hb by (unfold body; rewrite length_take, length_drop; lia).
  destruct (negb _). { eexists. split; [done|]. by rewrite length_replicate. }
  rewrite (bind_Ok _ _ _ _ _ (slice_run 0 4 body s ltac:(lia) ltac:(lia))).
  set (count := from_le_bytes _). destruct (Z.ltb_spec (len body) (4 + count * 12)) as [|Hc].
  { eexists. split; [done|]. by rewrite length_replicate. }
  pose proof (from_le_bytes_range (take (4 - 0) (drop 0 body))) as Hr. fold count in Hr.
  destruct (decode_entries_total (seq 0 (Z.to_nat count)) n body (replicate n 0) s) as (l & Hrun & Hl & Hu).
  { apply Forall_seq. intros i Hi. unfold len in Hc. lia. }
  exists l. split; [done|]. rewrite length_replicate in Hl. by auto.
Qed.

(** Bytes whose checksum is wrong count as no offsets. *)
Lemma decode_damaged {S} bytes n (s : S) :
  from_le_bytes (take 4 bytes) <> crc32 (drop 4 bytes) -> decode bytes n s = (Ok (replicate n 0), s).
Proof.
  intros Hne. unfold decode. destruct (Z.ltb_spec (len bytes) 8) as [|H8]; [done|].
  unfold len in H8. rewrite (bind_Ok _ _ _ _ _ (slice_run 0 4 bytes s ltac:(lia) ltac:(lia))).
  rewrite (bind_Ok _ _ _ _ _ (slice_run 4 (length bytes) bytes s ltac:(lia) ltac:(lia))). cbv zeta.
  rewrite drop_0. change (4 - 0)%nat with 4%nat.
  rewrite (take_ge (drop 4 bytes)) by (rewrite length_drop; lia).
  by rewrite (proj2 (Z.eqb_neq _ _)) by congruence.
Qed.

(** ** Round trip *)
Lemma length_entry p o : length (entry p o) = 12%nat.
Proof. unfold entry. by rewrite length_app, !length_to_le_bytes. Qed.

Lemma length_entries p os : length (entries_from p os) = (12 * length os)%nat.
Proof. revert p. induction os as [|o os IH]; intros p; simpl; [done|]. rewrite length_app, length_entry, IH. lia. Qed.

Definition fill (n p : nat) (os result : list Z) : list Z :=
  imap (fun i x => if (p <=? i)%nat then default x (os !! (i - p)%nat) else x) result.

Lemma fill_nil n p result : fill n p [] result = result.
Proof.
  unfold fill. apply list_eq. intros i. rewrite list_lookup_imap.
  destruct (result !! i); simpl; [|done]. by destruct (_ <=? _)%nat.
Qed.

#[local] Arguments Nat.leb : simpl never.

Lemma fill_cons n p o os result :
  n = length result ->
  fill n p (o :: os) result =
  fill n (S p) os (if Z.of_nat p <? Z.of_nat n then <[p := o]> result else result).
Proof.
  intros Hn. unfold fill. apply list_eq. intros i. rewrite !list_lookup_imap.
  destruct (Z.ltb_spec (Z.of_nat p) (Z.of_nat n)).
  - destruct (decide (i = p)) as [->|Hne].
    + rewrite list_lookup_insert_eq by lia. simpl.
      destruct (lookup_lt_is_Some_2 result p ltac:(lia)) as [x ->]. simpl.
      rewrite Nat.leb_refl, Nat.sub_diag. rewrite (proj2 (Nat.leb_gt _ _)) by lia. done.
    + rewrite list_lookup_insert_ne by done. destruct (result !! i) as [x|]; [|done]. simpl. f_equal.
      destruct (Nat.leb_spec p i); [|by rewrite (proj2 (Nat.leb_gt _ _)) by lia].
      rewrite (proj2 (Nat.leb_le _ _)) by lia. by replace (i - p)%nat with (S (i - S p)) by lia.
  - destruct (result !! i) as [x|] eqn:E; [|done]. apply lookup_lt_Some in E. simpl. f_equal.
    rewrite !(proj2 (Nat.leb_gt _ _)) by lia. done.
Qed.

Lemma decode_entries_run {S} os p n pre result (s : S) :
  length pre = (4 + p * 12)%nat -> length result = n -> Forall is_u64 os ->
  Z.of_nat (p + length os) < 2 ^ 32 ->
  decode_entries (seq p (length os)) n (pre ++ entries_from p os) result s = (Ok (fill n p os result), s).
Proof.
  revert p pre result. induction os as [|o os IH]; intros p pre result Hp Hr Hu Hb.
  { simpl. by rewrite fill_nil. }
  apply Forall_cons in Hu as [Ho Hu]. simpl in Hb. cbn [length seq decode_entries entries_from].
  assert (Hlen : length (pre ++ entry p o ++ entries_from (Datatypes.S p) os) = (4 + p * 12 + 12 + 12 * length os)%nat).
  { rewrite !length_app, length_entry, length_entries. lia. }
  erewrite bind_Ok; [|apply slice_run; lia].
  erewrite bind_Ok; [|apply slice_run; lia]. cbv zeta.
  rewrite <- Hp.
  assert (E1 : take (length pre + 4 - length pre) (drop (length pre) (pre ++ entry p o ++ entries_from (Datatypes.S p) os))
               = to_le_bytes 4 (as_u32 (Z.of_nat p))).
  { rewrite drop_app_length. replace (length pre + 4 - length pre)%nat with 4%nat by lia.
    unfold entry. rewrite <- app_assoc. rewrite take_app_le, take_ge; rewrite ?length_to_le_bytes; done || lia. }
  assert (E2 : take (length pre + 12 - (length pre + 4))
                 (drop (length pre + 4) (pre ++ entry p o ++ entries_from (Datatypes.S p) os))
               = to_le_bytes 8 o).
  { rewrite drop_app_ge by lia. replace (length pre + 4 - length pre)%nat with 4%nat by lia.
    replace (length pre + 12 - (length pre + 4))%nat with 8%nat by lia.
    unfold entry. rewrite <- app_assoc. rewrite drop_app_ge by (rewrite length_to_le_bytes; lia).
    rewrite length_to_le_bytes, Nat.sub_diag, drop_0.
    rewrite take_app_le, take_ge; rewrite ?length_to_le_bytes; done || lia. }
  rewrite E1, E2, !from_to_le_bytes.
  rewrite as_u32_small by (split; lia).
  rewrite (Z.mod_small (Z.of_nat p)) by (change (256 ^ Z.of_nat 4) with (2 ^ 32); lia).
  rewrite (Z.mod_small o) by exact Ho. rewrite Nat2Z.id, app_assoc.
  rewrite IH.
  - rewrite (fill_cons n p o os result) by done. done.
  - rewrite length_app, length_entry. lia.
  - destruct (_ <? _); [by rewrite length_insert|done].
  - done.
  - lia.
Qed.

(** What a store with [n] partitions reads of committed offsets: one offset per
    partition, zero where there was none. *)
Definition padded (n : nat) (os : list Z) : list Z := take n (os ++ replicate (n - length os) 0).

Lemma fill_padded n os : fill n 0 os (replicate n 0) = padded n os.
Proof.
  unfold fill, padded. apply list_eq. intros i. rewrite list_lookup_imap.
  destruct (decide (i < n)%nat) as [Hi|Hi].
  - rewrite lookup_replicate_2, lookup_take_lt by lia. simpl. rewrite Nat.sub_0_r.
    destruct (os !! i) as [x|] eqn:E; simpl.
    + by rewrite (lookup_app_l_Some _ _ _ _ E).
    + apply lookup_ge_None in E. by rewrite lookup_app_r, lookup_replicate_2 by lia.
  - rewrite (lookup_ge_None_2 (replicate n 0)) by (rewrite length_replicate; lia).
    by rewrite lookup_take_ge by lia.
Qed.

Lemma decode_encode {S} {HL : Crc32Laws H} os n (s : S) :
  Forall is_u64 os -> len os < 2 ^ 32 -> decode (encode os) n s = (Ok (padded n os), s).
Proof.
  intros Hu Hlen. unfold decode, encode. unfold len in Hlen.
  set (body := to_le_bytes 4 (as_u32 (len os)) ++ entries_from 0 os).
  assert (Hb : length body = (4 + 12 * length os)%nat).
  { unfold body. by rewrite length_app, length_to_le_bytes, length_entries. }
  set (bytes := to_le_bytes 4 (crc32 body) ++ body).
  assert (Hbs : length bytes = (4 + length body)%nat).
  { unfold bytes. by rewrite length_app, length_to_le_bytes. }
  rewrite (proj2 (Z.ltb_ge _ _)) by (unfold len; lia).
  rewrite (bind_Ok _ _ _ _ _ (slice_run 0 4 bytes s ltac:(lia) ltac:(lia))).
  rewrite (bind_Ok _ _ _ _ _ (slice_run 4 (length bytes) bytes s ltac:(lia) ltac:(lia))). cbv zeta.
  assert (E1 : take (4 - 0) (drop 0 bytes) = to_le_bytes 4 (crc32 body)).
  { unfold bytes. rewrite drop_0. rewrite take_app_le, take_ge; rewrite ?length_to_le_bytes; done || lia. }
  assert (E2 : take (length bytes - 4) (drop 4 bytes) = body).
  { unfold bytes. rewrite drop_app_ge by (rewrite length_to_le_bytes; lia).
    rewrite length_to_le_bytes, Nat.sub_diag, drop_0, take_ge; [done|]. fold bytes. lia. }
  rewrite E1, E2, from_to_le_bytes, Z.mod_small by apply crc32_range.
  rewrite Z.eqb_refl. change (negb true) with false. cbv iota.
  rewrite (bind_Ok _ _ _ _ _ (slice_run 0 4 body s ltac:(lia) ltac:(lia))).
  assert (E3 : take (4 - 0) (drop 0 body) = to_le_bytes 4 (len os)).
  { unfold body. rewrite drop_0, as_u32_small by (split; unfold len; lia).
    rewrite take_app_le, take_ge; rewrite ?length_to_le_bytes; done || lia. }
  rewrite E3, from_to_le_bytes, Z.mod_small by (unfold len; change (256 ^ Z.of_nat 4) with (2 ^ 32); lia).
  rewrite (proj2 (Z.ltb_ge _ _)) by (unfold len; lia).
  unfold len. rewrite Nat2Z.id. unfold body. rewrite decode_entries_run.
  - by rewrite fill_padded.
  - by rewrite length_to_le_bytes.
  - apply length_replicate.
  - done.
  - simpl. lia.
Qed.

(** ** Commits are atomic

    Whatever calls fail, the group's file holds the offsets committed before
    or those committed now, synced; no other file but the temporary one
    changes. *)
Lemma commit_cases offsets w s :
  temp_path s <> file_path s ->
  match commit offsets (w, s) with
  | (Ok _, (w', s')) =>
      s' = set_committed offsets s
      /\ (exists t, nodes w' = <[file_path s := NFile (FNode (encode offsets) (encode offsets) t)]>
                               (delete (temp_path s) (nodes w)))
  | (Err _, (w', s')) =>
      s' = s /\ (nodes w' = nodes w \/ exists n, nodes w' = <[temp_path s := n]> (nodes w))
  | _ => False
  end.
Proof.
  intros Hne. unfold commit. rewrite bind_self.
  pose proof (create_file_cases (temp_path s) w) as H1.
  unfold bind at 1. unfold in_world at 1, zoom, io, map_err. simpl fst.
  destruct (create_file (temp_path s) w) as [[] w1]; try done; [|by split; [|left]].
  destruct H1 as [t1 H1]. simpl snd.
  assert (Hp1 : nodes w1 !! temp_path s = Some (NFile (FNode [] [] t1))) by (rewrite H1; apply lookup_insert_eq).
  pose proof (write_sync_cases (encode offsets) w1 _ _ _ Hp1) as H2.
  unfold bind at 1. unfold in_world at 1, with_local, zoom, map_err. simpl fst.
  destruct (bind (write_all (encode offsets)) _ _) as [[] [w2 fd]]; try done.
  2: { destruct H2 as [n H2]. split; [done|]. right. exists n. by rewrite H2, H1, insert_insert_eq. }
  destruct H2 as [t2 H2]. simpl snd.
  assert (Hp2 : nodes w2 !! temp_path s = Some (NFile (FNode (encode offsets) (encode offsets) t2)))
    by (rewrite H2; apply lookup_insert_eq).
  pose proof (rename_cases (temp_path s) (file_path s) w2 _ Hp2) as H3.
  unfold bind, in_world, zoom, map_err. simpl fst.
  destruct (rename _ _ w2) as [[] w3]; try done; simpl.
  - split; [done|]. exists t2. by rewrite H3, H2, H1, insert_insert_eq, delete_insert_eq.
  - split; [done|]. right. eexists. by rewrite H3, H2, H1, insert_insert_eq.
Qed.

Lemma open_cases dir g n w s w' :
  open dir g n w = (Ok s, w') ->
  file_path s = dir ++ [g] /\ temp_path s = dir ++ [g +:+ TEMP_SUFFIX] /\ group s = g
  /\ temp_path s <> file_path s.
Proof.
  unfold open. intros Ho.
  do 4 (apply bind_Ok_inv in Ho as (? & ? & _ & Ho)). injection Ho as <- <-. simpl.
  do 3 (split; [done|]). intros E. apply snoc_inj in E as [_ E].
  apply (f_equal String.length) in E. rewrite string_length_app in E. simpl in E. lia.
Qed.

(** ** Reopening a store *)
Record store_ok (w : World) (dir : path) (s : OffsetStore) : Prop := {
  so_quiet : quiet w;
  so_dirs : dirs_made w dir;
  so_dir : nodes w !! dir = Some NDir;
  so_valid : validate_group_name (S := World) (group s) w = (Ok tt, w);
  so_file : file_path s = dir ++ [group s];
  so_temp : temp_path s = dir ++ [group s +:+ TEMP_SUFFIX];
  so_file_free : nodes w !! file_path s <> Some NDir;
  so_temp_free : nodes w !! temp_path s <> Some NDir;
}.

Lemma temp_file_ne (dir : path) g : dir ++ [g +:+ TEMP_SUFFIX] <> dir ++ [g].
Proof.
  intros E. apply snoc_inj in E as [_ E].
  apply (f_equal String.length) in E. rewrite string_length_app in E. simpl in E. lia.
Qed.

(** With no failing call a commit succeeds. *)
Lemma commit_run w dir s offsets :
  store_ok w dir s ->
  exists w', commit offsets (w, s) = (Ok tt, (w', set_committed offsets s))
    /\ (quiet w' /\ now_ms w' = now_ms w /\ read_max w' = read_max w)
    /\ exists t, nodes w' = <[file_path s := NFile (FNode (encode offsets) (encode offsets) t)]>
                           (delete (temp_path s) (nodes w)).
Proof.
  intros [Hq Hds Hd Hv Hf Ht Hff Htf].
  assert (Hne : temp_path s <> file_path s) by (rewrite Hf, Ht; apply temp_file_ne).
  pose proof (commit_cases offsets w s Hne) as Hc. unfold commit in *. rewrite bind_self in *.
  assert (H1 : create_file (temp_path s) w
    = (Ok tt, set_nodes <[temp_path s := NFile (FNode [] [] (now_ms w))]> w)).
  { unfold create_file. rewrite syscall_quiet by done. unfold bind, get_node.
    destruct (nodes w !! temp_path s) as [[f|]|] eqn:E; [done|done|].
    assert (parent_is_dir (temp_path s) w = true) as ->; [|done].
    unfold parent_is_dir. rewrite Ht, removelast_last. destruct dir; [done|]. by rewrite Hd. }
  set (w1 := set_nodes _ w) in H1.
  rewrite (bind_Ok _ _ _ _ _ (in_world_run _ _ _ _ _ (io_Ok _ _ _ _ H1))) in *.
  assert (Hp1 : nodes w1 !! temp_path s = Some (NFile (FNode [] [] (now_ms w)))) by apply lookup_insert_eq.
  pose proof (write_all_run w1 Hq (encode offsets) (temp_path s) 0 _ Hp1) as H2.
  unfold write_at in H2. simpl f_data in H2. rewrite drop_nil, !app_nil_r in H2. simpl in H2.
  set (w2 := set_nodes _ w1) in H2.
  assert (Hp2 : nodes w2 !! temp_path s = Some (NFile (FNode (encode offsets) [] (now_ms w))))
    by apply lookup_insert_eq.
  pose proof (sync_data_run w2 Hq (temp_path s) (len (encode offsets)) _ Hp2) as H3. simpl in H3.
  set (w3 := set_nodes _ w2) in H3.
  assert (H23 : (let* _ := write_all (encode offsets) in sync_data) (w1, mkFile (temp_path s) 0)
    = (Ok tt, (w3, mkFile (temp_path s) (len (encode offsets))))).
  { rewrite (bind_Ok _ _ _ _ _ H2). exact H3. }
  rewrite (bind_Ok _ _ _ _ _ (in_world_run _ _ _ _ _ (with_local_run _ _ _ _ _ _ (io_Ok _ _ _ _ H23)))) in *.
  assert (Hp3 : nodes w3 !! temp_path s = Some (NFile (FNode (encode offsets) (encode offsets) (now_ms w))))
    by apply lookup_insert_eq.
  assert (Hp4 : nodes w3 !! file_path s = nodes w !! file_path s).
  { simpl. by rewrite !lookup_insert_ne by done. }
  assert (H4 : exists w4, rename (temp_path s) (file_path s) w3 = (Ok tt, w4)
    /\ quiet w4 /\ now_ms w4 = now_ms w /\ read_max w4 = read_max w).
  { unfold rename. rewrite syscall_quiet by done.
    rewrite (bind_Ok _ _ _ _ _ (lookup_file_run w3 _ _ Hp3)). unfold bind, get_node. rewrite Hp4.
    destruct (nodes w !! file_path s) as [[f|]|]; [by eexists|done|by eexists]. }
  destruct H4 as (w4 & H4 & Hq4).
  rewrite (bind_Ok _ _ _ _ _ (in_world_run _ _ _ _ _ (io_Ok _ _ _ _ H4))) in *.
  unfold modify_self in *. simpl in *. exists w4. split; [done|]. split; [done|]. apply Hc.
Qed.

(** A start reads the group's file, if there is one. *)
Lemma open_file_run w dir g n f :
  quiet w -> dirs_made w dir -> validate_group_name (S := World) g w = (Ok tt, w) ->
  nodes w !! (dir ++ [g]) = Some (NFile f) ->
  exists os, decode (f_data f) (Z.to_nat n) w = (Ok os, w)
    /\ open dir g n w = (Ok (mkStore (dir ++ [g]) (dir ++ [g +:+ TEMP_SUFFIX]) g os), w).
Proof.
  intros Hq Hd Hv Hf. destruct (offsets_decode_total (f_data f) (Z.to_nat n) w) as (os & Hdec & _).
  exists os. split; [done|]. unfold open.
  rewrite (bind_Ok _ _ _ _ _ Hv), (bind_Ok _ _ _ _ _ (io_Ok _ _ _ _ (create_dir_all_made _ _ Hq Hd))).
  cbv zeta. rewrite (bind_Ok _ _ _ _ _ (attempt_Ok _ _ _ _ (read_file_run w Hq _ _ Hf))). cbv iota.
  by rewrite (bind_Ok _ _ _ _ _ Hdec).
Qed.

Lemma open_missing_run w dir g n :
  quiet w -> dirs_made w dir -> validate_group_name (S := World) g w = (Ok tt, w) ->
  nodes w !! (dir ++ [g]) = None ->
  open dir g n w = (Ok (mkStore (dir ++ [g]) (dir ++ [g +:+ TEMP_SUFFIX]) g (replicate (Z.to_nat n) 0)), w).
Proof.
  intros Hq Hd Hv Hf. unfold open.
  rewrite (bind_Ok _ _ _ _ _ Hv), (bind_Ok _ _ _ _ _ (io_Ok _ _ _ _ (create_dir_all_made _ _ Hq Hd))).
  cbv zeta. by rewrite (bind_Ok _ _ _ _ _ (attempt_Err _ _ _ _ (read_file_missing w Hq _ Hf))).
Qed.

Lemma validate_group_name_world g (w w' : World) :
  validate_group_name (S := World) g w = (Ok tt, w) -> validate_group_name (S := World) g w' = (Ok tt, w').
Proof. unfold validate_group_name. by destruct (_ || _). Qed.

(** Committed offsets survive a crash: a later store of the group starts from
    them. *)
Lemma commit_open w dir s offsets w1 s1 w2 n {HL : Crc32Laws H} :
  store_ok w dir s -> Forall is_u64 offsets -> len offsets < 2 ^ 32 ->
  commit offsets (w, s) = (Ok tt, (w1, s1)) -> crash w1 w2 ->
  open dir (group s) n w2 =
    (Ok (mkStore (file_path s) (temp_path s) (group s) (padded (Z.to_nat n) offsets)), w2).
Proof.
  intros Hok Hu Hl Hc Hcr. destruct (commit_run w dir s offsets Hok) as (w' & Hrun & Hq & t & Hn).
  rewrite Hc in Hrun. injection Hrun as <- ->. pose proof Hok as [_ Hds _ Hv Hf Ht Hff Htf].
  assert (Hfile : nodes w1 !! (dir ++ [group s]) = Some (NFile (FNode (encode offsets) (encode offsets) t)))
    by (rewrite Hn, Hf; apply lookup_insert_eq).
  destruct (crash_synced _ _ _ _ Hcr Hfile eq_refl) as (f' & Hf' & Hfd & _). simpl in Hfd.
  assert (Hds2 : dirs_made w2 dir).
  { intros p Hp Hne. apply (crash_dir _ _ _ Hcr).
    assert (length p <= length dir)%nat by by apply prefix_length.
    rewrite Hn, lookup_insert_ne, lookup_delete_ne; [by apply Hds| |].
    - rewrite Ht. intros <-. rewrite length_app in *. simpl in *. lia.
    - rewrite Hf. intros <-. rewrite length_app in *. simpl in *. lia. }
  destruct (open_file_run w2 dir (group s) n f' (cr_quiet _ _ Hcr) Hds2
    (validate_group_name_world _ _ _ Hv) Hf') as (os & Hdec & Ho).
  rewrite Hfd, decode_encode in Hdec by done. injection Hdec as <-. by rewrite Ho, Hf, Ht.
Qed.

(** A commit of one group changes no other file of the directory but its
    temporary one. *)
Lemma commit_other w dir s offsets w1 s1 g :
  store_ok w dir s -> commit offsets (w, s) = (Ok tt, (w1, s1)) ->
  g <> group s -> g <> group s +:+ TEMP_SUFFIX ->
  nodes w1 !! (dir ++ [g]) = nodes w !! (dir ++ [g]).
Proof.
  intros Hok Hc Hg Hgt. destruct (commit_run w dir s offsets Hok) as (w' & Hrun & Hq & t & Hn).
  rewrite Hc in Hrun. injection Hrun as <- ->. pose proof Hok as [_ _ _ _ Hf Ht _ _].
  rewrite Hn, lookup_insert_ne, lookup_delete_ne; [done| |].
  - rewrite Ht. intros E%snoc_inj. by destruct E.
  - rewrite Hf. intros E%snoc_inj. by destruct E.
Qed.

(** The name of a group's temporary file is a valid group name. *)
Lemma all_chars_app f s t : all_chars f (s +:+ t) = all_chars f s && all_chars f t.
Proof. induction s as [|c s IH]; simpl; [done|]. by rewrite IH, andb_assoc. Qed.

Lemma validate_temp_name g (w : World) :
  validate_group_name (S := World) g w = (Ok tt, w) ->
  validate_group_name (S := World) (g +:+ TEMP_SUFFIX) w = (Ok tt, w).
Proof.
  unfold validate_group_name. rewrite all_chars_app. change (all_chars group_char TEMP_SUFFIX) with true.
  destruct (all_chars group_char g); rewrite ?orb_true_r; [|done]. intros _.
  assert (Hne : forall s, (String.length s < 4)%nat -> String.eqb (g +:+ TEMP_SUFFIX) s = false).
  { intros s Hs. apply String.eqb_neq. intros E. apply (f_equal String.length) in E.
    rewrite string_length_app in E. simpl in E. lia. }
  by rewrite !Hne by (simpl; lia).
Qed.

Lemma temp_group_reset w dir s offsets n :
  store_ok w dir s ->
  exists w1, commit offsets (w, s) = (Ok tt, (w1, set_committed offsets s))
    /\ exists s2, open dir (group s +:+ TEMP_SUFFIX) n w1 = (Ok s2, w1)
         /\ committed s2 = replicate (Z.to_nat n) 0.
Proof.
  intros Hok. destruct (commit_run w dir s offsets Hok) as (w1 & Hrun & (Hq1 & _) & t & Hn).
  pose proof Hok as [_ Hds _ Hv Hf Ht _ _]. exists w1. split; [done|]. eexists. split; [apply open_missing_run|done].
  - done.
  - intros p Hp Hne. rewrite Hn, lookup_insert_ne, lookup_delete_ne; [by apply Hds| |].
    + rewrite Ht. intros <-. by apply snoc_not_prefix in Hp.
    + rewrite Hf. intros <-. by apply snoc_not_prefix in Hp.
  - apply validate_temp_name. by eapply validate_group_name_world.
  - rewrite Hn, lookup_insert_ne, <- Ht, lookup_delete_eq; [done|].
    rewrite Hf. intros E. symmetry in E. by apply temp_file_ne in E.
Qed.

End store.
