(* ===== verification/Partition.v ===== *)
(** * The partition and its writer task (partition.rs)

    One writer task owns the log and serves a queue of commands; replies go
    back over one-shot channels, named here by number.  [Writer] is the task's
    state.  The queue holds every command the task will receive, in order,
    before its senders hang up; how much of it has arrived by the time the task
    looks is a parameter of each turn ([Recv available]), so the theorems hold
    for every timing of the senders. *)

From S2P Require Import Prelude Bytes Error Compression LogRecord Fs Names Search.
From S2P Require Import Segment SparseIndex Log.

Definition INBOX_CAPACITY : Z := 1024.

Inductive PartitionCommand : Type :=
| Append (record : record) (reply : nat)
| AppendBatch (records : list record) (reply : nat)
| ReadAt (offset : Z) (reply : nat)
| Sync (reply : nat)
| Poison
| FailNextAppend (kind : ErrorKind).

(** What is sent over a reply channel: a [Result] of the command's type. *)
Inductive Reply : Type :=
| ROffset (r : Z + KafkoError)
| ROffsets (r : list Z + KafkoError)
| RRecord (r : option record + KafkoError)
| RUnit (r : unit + KafkoError).

(** What the task puts on the channels that its callers watch: a high-water
    mark, or an answer. *)
Inductive effect : Type :=
| Marked (v : Z)
| Replied (reply : nat) (r : Reply).

(** [hwm] and [sent] are what is on the channels, [published] all that was put
    on them, in order; [pulses] counts the calls of [wake.signal()]. *)
Record Writer : Type := mkWriter {
  log : Log;
  hwm : Z;
  inbox : list PartitionCommand;
  sent : list (nat * Reply);
  published : list effect;
  fail_next_kind : option ErrorKind;
  pulses : nat;
}.

Definition set_log (x : Log) (s : Writer) : Writer :=
  mkWriter x (hwm s) (inbox s) (sent s) (published s) (fail_next_kind s) (pulses s).
Definition set_hwm (x : Z) (s : Writer) : Writer :=
  mkWriter (log s) x (inbox s) (sent s) (published s) (fail_next_kind s) (pulses s).
Definition set_inbox (x : list PartitionCommand) (s : Writer) : Writer :=
  mkWriter (log s) (hwm s) x (sent s) (published s) (fail_next_kind s) (pulses s).
Definition set_sent (x : list (nat * Reply)) (s : Writer) : Writer :=
  mkWriter (log s) (hwm s) (inbox s) x (published s) (fail_next_kind s) (pulses s).
Definition set_published (x : list effect) (s : Writer) : Writer :=
  mkWriter (log s) (hwm s) (inbox s) (sent s) x (fail_next_kind s) (pulses s).
Definition set_fail (x : option ErrorKind) (s : Writer) : Writer :=
  mkWriter (log s) (hwm s) (inbox s) (sent s) (published s) x (pulses s).
Definition set_pulses (x : nat) (s : Writer) : Writer :=
  mkWriter (log s) (hwm s) (inbox s) (sent s) (published s) (fail_next_kind s) x.

(** A call on the log, its [Result] handed to the caller. *)
Definition on_log {A} (m : KM (World * Log) A) : KM (World * Writer) (A + KafkoError) :=
  attempt (zoom (fun s => (fst s, log (snd s))) (fun t s => (fst t, set_log (snd t) (snd s))) m).

Definition publish (e : effect) : KM (World * Writer) unit :=
  modify_self (fun s => set_published (published s ++ [e]) s).

Definition reply_send (reply : nat) (r : Reply) : KM (World * Writer) unit :=
  let* _ := modify_self (fun s => set_sent (sent s ++ [(reply, r)]) s) in
  publish (Replied reply r).

Definition hwm_send (x : Z) : KM (World * Writer) unit :=
  let* _ := modify_self (set_hwm x) in
  publish (Marked x).

(** [w.signal()] on the shared wakeup. *)
Definition signal : KM (World * Writer) unit := modify_self (fun s => set_pulses (S (pulses s)) s).

(** [fail_next_kind.take()]. *)
Definition take_fail : KM (World * Writer) (option ErrorKind) :=
  let* s := self in
  let* _ := modify_self (set_fail None) in
  ret (fail_next_kind s).

Section partition.
Context {B : Buf} {H : Crc32} {C : Codecs}.

Definition flush_append_batch (records : list record) (replies : list nat) : KM (World * Writer) unit :=
  match records with
  | [] => ret tt
  | _ =>
      let* f := take_fail in
      match f with
      | Some kind =>
          let synth := Io (io_error_from kind) in
          for_each replies (fun reply => reply_send reply (ROffset (inr (clone synth))))
      | None =>
          let* res := on_log (Log.append_batch records) in
          match res with
          | inl offsets =>
              let* _ := (match last offsets with Some x => hwm_send (u64_add x 1) | None => ret tt end) in
              for_each (combine offsets replies) (fun p => reply_send (snd p) (ROffset (inl (fst p))))
          | inr e => for_each replies (fun reply => reply_send reply (ROffset (inr (clone e))))
          end
      end
  end.

Definition flush_explicit_batch (records : list record) (reply : nat) : KM (World * Writer) unit :=
  let* f := take_fail in
  match f with
  | Some kind => reply_send reply (ROffsets (inr (Io (io_error_from kind))))
  | None =>
      let* result := on_log (Log.append_batch records) in
      let* _ :=
        (match result with
         | inl offsets =>
             match last offsets with Some x => hwm_send (u64_add x 1) | None => ret tt end
         | inr _ => ret tt
         end) in
      reply_send reply (ROffsets result)
  end.

Definition handle_single_command (cmd : PartitionCommand) : KM (World * Writer) unit :=
  match cmd with
  | Append record reply =>
      let* f := take_fail in
      match f with
      | Some kind => reply_send reply (ROffset (inr (Io (io_error_from kind))))
      | None =>
          let* result := on_log (Log.append record) in
          let* _ :=
            (match result with
             | inl offset => hwm_send (u64_add offset 1)
             | inr _ => ret tt
             end) in
          reply_send reply (ROffset result)
      end
  | AppendBatch records reply => flush_explicit_batch records reply
  | ReadAt offset reply =>
      let* result := on_log (Log.read_record_at offset) in
      reply_send reply (RRecord result)
  | Sync reply =>
      let* result := on_log Log.sync in
      reply_send reply (RUnit result)
  | Poison => panic "intentional panic from poison command (test-only)"
  | FailNextAppend kind => modify_self (set_fail (Some kind))
  end.

(** The [while] loop of [process_with_batching] on the commands that have
    arrived: the batch, the command that ended it and what is left. *)
Fixpoint batch_loop (max_records max_bytes : Z) (arrived : list PartitionCommand)
    (records : list record) (replies : list nat) (batch_bytes : Z)
    : list record * list nat * option PartitionCommand * list PartitionCommand :=
  if (len records <? max_records) && (batch_bytes <? max_bytes) then
    match arrived with
    | [] => (records, replies, None, [])
    | Append record reply :: arrived' =>
        batch_loop max_records max_bytes arrived' (records ++ [record]) (replies ++ [reply])
          (u64_add batch_bytes (wire_size record))
    | other :: arrived' => (records, replies, Some other, arrived')
    end
  else (records, replies, None, arrived).

(** [available]: how many of the queued commands [try_recv] can see. *)
Definition process_with_batching (first : PartitionCommand) (available : nat)
    (batch_max_records batch_max_bytes : Z) : KM (World * Writer) unit :=
  match first with
  | Append record reply =>
      let* s := self in
      let '(records, replies, ended, rest) :=
        batch_loop batch_max_records batch_max_bytes (take available (inbox s))
          [record] [reply] (wire_size record) in
      let* _ := modify_self (set_inbox (rest ++ drop available (inbox s))) in
      let* _ := flush_append_batch records replies in
      match ended with
      | Some other => handle_single_command other
      | None => ret tt
      end
  | other => handle_single_command other
  end.

(** One turn of [select!]: a command has been received, or the retention timer
    fired. *)
Inductive choice : Type := Recv (available : nat) | RetentionTick.

(** [true] when [recv] found the queue closed and empty. *)
Definition writer_turn (c : choice) : KM (World * Writer) bool :=
  match c with
  | Recv available =>
      let* s := self in
      match inbox s with
      | [] => ret true
      | cmd :: rest =>
          let* _ := modify_self (set_inbox rest) in
          let* _ := process_with_batching cmd available
                      (batch_max_records (config (log s))) (batch_max_bytes (config (log s))) in
          let* _ := signal in
          ret false
      end
  | RetentionTick =>
      let* _ := on_log Log.apply_retention in
      ret false
  end.

(** The [loop] and what follows it. *)
Fixpoint serve (choices : list choice) : KM (World * Writer) unit :=
  match choices with
  | [] => no_fuel
  | c :: choices' =>
      let* closed := writer_turn c in
      if closed then
        let* _ := on_log Log.sync in
        signal
      else serve choices'
  end.

(** [tokio::time::interval(period)] panics if the period is zero; its first
    tick completes at once. *)
Definition interval_message : string := "`period` must be non-zero.".

Definition interval (period : Z) : KM (World * Writer) unit :=
  if period =? 0 then panic interval_message else ret tt.

Definition partition_writer_loop (choices : list choice) : KM (World * Writer) unit :=
  let* s := self in
  let* _ := interval (retention_check_interval (config (log s))) in
  serve choices.

(** ** The handle

    A caller sends a command and waits for its reply.  Between its calls the
    queue is empty; [status] is what the supervisor knows about the task.  A
    task whose timer cannot be made is dead before it takes a command: every
    call waits for the supervisor and reports the panic. *)
Inductive Status : Type := Running | Exited (panic_info : option string).

Record Partition : Type := mkPartition {
  writer : Writer;
  status : Status;
  next_reply : nat;
}.

Definition open (dir : path) (config : LogConfig) : KM World Partition :=
  let* log := Log.open dir config in
  let initial_hwm := next_offset log in
  let status := if retention_check_interval config =? 0 then Exited (Some interval_message) else Running in
  ret (mkPartition (mkWriter log initial_hwm [] [] [] None 0) status 0).

Definition writer_death_error (panic_info : option string) : KafkoError :=
  match panic_info with
  | Some payload => PartitionPanicked payload
  | None => Closed
  end.

Fixpoint find_reply (id : nat) (l : list (nat * Reply)) : option Reply :=
  match l with
  | [] => None
  | (i, r) :: l' => if (i =? id)%nat then Some r else find_reply id l'
  end.

(** Send a command, let the task take its turn, and await the reply. A reply
    that never comes is [NoFuel]. *)
Definition call (cmd : nat -> PartitionCommand) : KM (World * Partition) Reply :=
  fun '(w, p) =>
    match status p with
    | Exited info => (Err (writer_death_error info), (w, p))
    | Running =>
        let id := next_reply p in
        match writer_turn (Recv 0) (w, set_inbox [cmd id] (writer p)) with
        | (Ok _, (w', wr)) =>
            let p' := mkPartition wr Running (S id) in
            match find_reply id (sent wr) with
            | Some r => (Ok r, (w', p'))
            | None => (NoFuel, (w', p'))
            end
        | (Panic msg, (w', wr)) =>
            (Err (writer_death_error (Some msg)), (w', mkPartition wr (Exited (Some msg)) (S id)))
        | (Err e, (w', wr)) => (NoFuel, (w', mkPartition wr Running (S id)))
        | (NoFuel, (w', wr)) => (NoFuel, (w', mkPartition wr Running (S id)))
        end
    end.

Definition of_sum {S A} (r : A + KafkoError) : KM S A :=
  match r with inl a => ret a | inr e => throw e end.

Definition append (record : record) : KM (World * Partition) Z :=
  let* r := call (Append record) in
  match r with ROffset r => of_sum r | _ => panic "reply of the wrong type" end.

Definition append_batch (records : list record) : KM (World * Partition) (list Z) :=
  match records with
  | [] => ret []
  | _ =>
      let* r := call (AppendBatch records) in
      match r with ROffsets r => of_sum r | _ => panic "reply of the wrong type" end
  end.

Definition read_record_at (offset : Z) : KM (World * Partition) (option record) :=
  let* r := call (ReadAt offset) in
  match r with RRecord r => of_sum r | _ => panic "reply of the wrong type" end.

Definition sync : KM (World * Partition) unit :=
  let* r := call Sync in
  match r with RUnit r => of_sum r | _ => panic "reply of the wrong type" end.

(** A command without an answer: the task takes its turn. *)
Definition post (cmd : PartitionCommand) : KM (World * Partition) unit :=
  fun '(w, p) =>
    match status p with
    | Exited _ => (Err Closed, (w, p))
    | Running =>
        match writer_turn (Recv 0) (w, set_inbox [cmd] (writer p)) with
        | (Ok _, (w', wr)) => (Ok tt, (w', mkPartition wr Running (next_reply p)))
        | (Panic msg, (w', wr)) => (Ok tt, (w', mkPartition wr (Exited (Some msg)) (next_reply p)))
        | (_, (w', wr)) => (NoFuel, (w', mkPartition wr Running (next_reply p)))
        end
    end.

Definition poison_for_test : KM (World * Partition) unit := post Poison.

Definition fail_next_append_for_test (kind : ErrorKind) : KM (World * Partition) unit :=
  post (FailNextAppend kind).

(** The retention timer fires while no command waits. *)
Definition retention_tick : KM (World * Partition) unit :=
  fun '(w, p) =>
    match status p with
    | Exited _ => (Ok tt, (w, p))
    | Running =>
        match writer_turn RetentionTick (w, writer p) with
        | (Ok _, (w', wr)) => (Ok tt, (w', mkPartition wr Running (next_reply p)))
        | (Panic msg, (w', wr)) => (Ok tt, (w', mkPartition wr (Exited (Some msg)) (next_reply p)))
        | (_, (w', wr)) => (NoFuel, (w', mkPartition wr Running (next_reply p)))
        end
    end.

Definition high_water_mark (self : Partition) : Z := hwm (writer self).

(** [shutdown]: the queue closes; the task drains it, syncs and exits. *)
Definition shutdown : KM (World * Partition) unit :=
  fun '(w, p) =>
    match status p with
    | Exited _ => (Ok tt, (w, p))
    | Running =>
        match serve [Recv 0] (w, set_inbox [] (writer p)) with
        | (Panic msg, (w', wr)) => (Ok tt, (w', mkPartition wr (Exited (Some msg)) (next_reply p)))
        | (NoFuel, (w', wr)) => (NoFuel, (w', mkPartition wr Running (next_reply p)))
        | (_, (w', wr)) => (Ok tt, (w', mkPartition wr (Exited None) (next_reply p)))
        end
    end.

End partition.
