(* ===== verification/PartitionSpec.v ===== *)
(** * What the partition's writer does

    The writer task refines a sequential machine on the abstract log: however
    the commands arrive, however the task groups appends into batches and
    whenever retention runs, every command gets the reply it would get if the
    commands were executed one by one. *)

From S2P Require Import Prelude Bytes Error Compression LogRecord Fs Names Search.
From S2P Require Import Segment SparseIndex Log LogInv LogOps LogCrash LogSpec Partition.

(** ** The sequential machine *)
Record pspec : Type := mkP { p_log : alog; p_fail : option ErrorKind }.

Definition spec_cmd (p : pspec) (cmd : PartitionCommand) : pspec * list (nat * Reply) :=
  let failed k := Io (io_error_from k) in
  match cmd, p_fail p with
  | Append r id, None =>
      (mkP (a_append [r] (p_log p)) None, [(id, ROffset (inl (a_next (p_log p))))])
  | Append r id, Some k => (mkP (p_log p) None, [(id, ROffset (inr (failed k)))])
  | AppendBatch rs id, None =>
      (mkP (a_append rs (p_log p)) None,
       [(id, ROffsets (inl (offsets_from (a_next (p_log p)) (length rs))))])
  | AppendBatch rs id, Some k => (mkP (p_log p) None, [(id, ROffsets (inr (failed k)))])
  | ReadAt off id, _ => (p, [(id, RRecord (inl (a_read off (p_log p))))])
  | Sync id, _ => (p, [(id, RUnit (inl tt))])
  | Poison, _ => (p, [])
  | FailNextAppend k, _ => (mkP (p_log p) (Some k), [])
  end.

Definition appends (rs : list record) (ids : list nat) : list PartitionCommand := zip_with Append rs ids.

(** Runs of the machine: a command, or the retention policy dropping the
    oldest records.  An injected failure takes down the whole batch it hits. *)
Inductive pruns : pspec -> list PartitionCommand -> pspec -> list (nat * Reply) -> Prop :=
| pr_nil p : pruns p [] p []
| pr_cmd p c p1 rep cs p2 reps :
    spec_cmd p c = (p1, rep) -> pruns p1 cs p2 reps -> pruns p (c :: cs) p2 (rep ++ reps)
| pr_retain p n cs p2 reps :
    (n <= length (a_recs (p_log p)))%nat ->
    pruns (mkP (a_drop n (p_log p)) (p_fail p)) cs p2 reps -> pruns p cs p2 reps
| pr_fail_batch p k rs ids cs p2 reps :
    p_fail p = Some k -> length rs = length ids -> rs <> [] ->
    pruns (mkP (p_log p) None) cs p2 reps ->
    pruns p (appends rs ids ++ cs) p2
      (map (fun id => (id, ROffset (inr (Io (io_error_from k))))) ids ++ reps).

(** What callers can see while the machine runs: part by part, the new
    high-water mark of a part before its answers. *)
Inductive shows : pspec -> list PartitionCommand -> pspec -> list effect -> Prop :=
| sh_nil p : shows p [] p []
| sh_part p cs p1 reps marks rest p2 effs :
    pruns p cs p1 reps ->
    marks = [Marked (a_next (p_log p1))] \/ marks = [] /\ a_next (p_log p1) = a_next (p_log p) ->
    shows p1 rest p2 effs -> shows p (cs ++ rest) p2 (marks ++ map (uncurry Replied) reps ++ effs).

Lemma shows_app p cs1 p1 e1 cs2 p2 e2 :
  shows p cs1 p1 e1 -> shows p1 cs2 p2 e2 -> shows p (cs1 ++ cs2) p2 (e1 ++ e2).
Proof.
  induction 1 as [|p cs p1 reps marks rest p3 effs Hp Hm _ IH]; intros Hs; [done|].
  rewrite <- !app_assoc. eapply sh_part; [exact Hp|exact Hm|by apply IH].
Qed.

(** A configuration with which the writer task can make its timer. *)
Definition usable (cfg : LogConfig) : Prop := retention_check_interval cfg <> 0.

#[export] Instance usable_dec cfg : Decision (usable cfg).
Proof. unfold usable. apply _. Defined.

Lemma default_usable : usable default_config.
Proof. discriminate. Qed.

(** The records a queue asks to append. *)
Definition cmd_records (c : PartitionCommand) : list record :=
  match c with Append r _ => [r] | AppendBatch rs _ => rs | _ => [] end.
Definition queue_records (cs : list PartitionCommand) : list record := concat (map cmd_records cs).

Definition cmd_fine (c : PartitionCommand) : Prop :=
  match c with Poison => False | ReadAt off _ => 0 <= off | _ => True end.

Lemma queue_records_app c1 c2 : queue_records (c1 ++ c2) = queue_records c1 ++ queue_records c2.
Proof. unfold queue_records. by rewrite map_app, concat_app. Qed.

Lemma queue_records_appends rs ids : length rs = length ids -> queue_records (appends rs ids) = rs.
Proof.
  revert ids. induction rs as [|r rs IH]; intros [|id ids] E; try done. unfold queue_records in *.
  simpl in *. by rewrite IH by lia.
Qed.

Section spec.
Context {B : Buf} {H : Crc32} {C : Codecs}.

(** A queue the log has room for. *)
Record queue_ok (w : World) (cfg : LogConfig) (next : Z) (cs : list PartitionCommand) : Prop := {
  qo_storable : Forall (storable (compression cfg)) (queue_records cs);
  qo_room : room w cfg (queue_records cs);
  qo_next : next + len (queue_records cs) < 2 ^ 64;
  qo_fine : Forall cmd_fine cs;
}.

Lemma total_wire_size_app rs1 rs2 : total_wire_size (rs1 ++ rs2) = total_wire_size rs1 + total_wire_size rs2.
Proof. induction rs1 as [|r rs1 IH]; simpl; [lia|]. rewrite IH. lia. Qed.

Lemma frames_wires_app cmp rs1 rs2 :
  concat (frames (wires cmp (rs1 ++ rs2))) = concat (frames (wires cmp rs1)) ++ concat (frames (wires cmp rs2)).
Proof. unfold wires. by rewrite !map_app, concat_app. Qed.

Lemma room_app w cfg rs1 rs2 : room w cfg (rs1 ++ rs2) -> room w cfg rs1 /\ room w cfg rs2.
Proof.
  intros [Ht Hb Hw]. rewrite frames_wires_app, len_app in Hb. rewrite total_wire_size_app in Hw.
  pose proof (total_wire_size_nonneg rs1). pose proof (total_wire_size_nonneg rs2).
  pose proof (len_nonneg (concat (frames (wires (compression cfg) rs1)))).
  pose proof (len_nonneg (concat (frames (wires (compression cfg) rs2)))).
  split; split; try done; lia.
Qed.

Lemma queue_ok_app w cfg next c1 c2 :
  queue_ok w cfg next (c1 ++ c2) ->
  queue_ok w cfg next c1 /\ queue_ok w cfg (next + len (queue_records c1)) c2.
Proof.
  intros [Hs Hr Hn Hf]. rewrite queue_records_app in Hs, Hr, Hn. rewrite len_app in Hn.
  apply Forall_app in Hs as [Hs1 Hs2], Hf as [Hf1 Hf2]. apply room_app in Hr as [Hr1 Hr2].
  pose proof (len_nonneg (queue_records c2)). split; split; try done; lia.
Qed.

Lemma queue_ok_le w cfg next next' cs : next' <= next -> queue_ok w cfg next cs -> queue_ok w cfg next' cs.
Proof. intros Hle [? ? ? ?]. split; try done. lia. Qed.

Lemma queue_ok_world w w' cfg next cs :
  seg_limit w' = seg_limit w -> queue_ok w cfg next cs -> queue_ok w' cfg next cs.
Proof. intros E [? [? ? ?] ? ?]. split; try done. split; try done. by rewrite E. Qed.

(** ** The simulation *)
Section sim.
Context {R : World -> Log -> alog -> Prop} {LC : LogContract R}.

Record wrep (w : World) (wr : Writer) (p : pspec) : Prop := {
  wr_log : R w (log wr) (p_log p);
  wr_hwm : hwm wr = a_next (p_log p);
  wr_fail : fail_next_kind wr = p_fail p;
}.

(** [wr'] differs from [wr] by the log's state, the replies [reps] and the
    queue. *)
Record wstep (w : World) (wr : Writer) (w' : World) (wr' : Writer) (reps : list (nat * Reply)) : Prop := {
  ws_sent : sent wr' = sent wr ++ reps;
  ws_keeps : keeps w (log wr) w' (log wr');
}.

Lemma keeps_refl w l : keeps w l w l.
Proof. done. Qed.

Lemma keeps_trans w1 l1 w2 l2 w3 l3 : keeps w1 l1 w2 l2 -> keeps w2 l2 w3 l3 -> keeps w1 l1 w3 l3.
Proof.
  intros (C1 & D1 & S1) (C2 & D2 & S2). rewrite D1 in S2. do 2 (split; [congruence|]).
  by eapply stays_trans.
Qed.

Lemma wstep_trans w1 s1 w2 s2 w3 s3 r1 r2 :
  wstep w1 s1 w2 s2 r1 -> wstep w2 s2 w3 s3 r2 -> wstep w1 s1 w3 s3 (r1 ++ r2).
Proof.
  intros [E1 K1] [E2 K2]. split; [by rewrite E2, E1, app_assoc|]. by eapply keeps_trans.
Qed.

Lemma on_log_Ok {A} (m : KM (World * Log) A) w wr w' l' a :
  m (w, log wr) = (Ok a, (w', l')) -> on_log m (w, wr) = (Ok (inl a), (w', set_log l' wr)).
Proof. intros Hm. unfold on_log, attempt, zoom. simpl. by rewrite Hm. Qed.

Lemma for_each_reply_run {A} (f : A -> nat) (g : A -> Reply) (xs : list A) w wr :
  for_each xs (fun x => reply_send (f x) (g x)) (w, wr) =
  (Ok tt, (w, set_published (published wr ++ map (fun x => Replied (f x) (g x)) xs)
                (set_sent (sent wr ++ map (fun x => (f x, g x)) xs) wr))).
Proof.
  revert wr. induction xs as [|x xs IH]; intros wr; simpl.
  - rewrite !app_nil_r. by destruct wr.
  - unfold bind, reply_send at 1, publish, modify_self, bind. simpl. rewrite IH. simpl. by rewrite <- !app_assoc.
Qed.

Lemma last_offsets_from from n : last (offsets_from from (S n)) = Some (from + Z.of_nat n).
Proof. unfold offsets_from. rewrite seq_S, map_app. simpl. by rewrite last_snoc. Qed.

(** The high-water mark after a batch. *)
Lemma hwm_after_batch w wr p rs w1 l1 :
  wrep w wr p -> R w1 l1 (a_append rs (p_log p)) -> a_next (p_log p) + len rs < 2 ^ 64 ->
  exists pub, (match last (offsets_from (a_next (p_log p)) (length rs)) with
   | Some x => hwm_send (u64_add x 1) | None => ret tt end) (w1, set_log l1 wr) =
  (Ok tt, (w1, set_hwm (a_next (a_append rs (p_log p))) (set_published pub (set_log l1 wr)))).
Proof.
  intros Hw Hr Hb. rewrite a_next_append. destruct rs as [|r rs].
  - exists (published wr). simpl. rewrite len_nil, Z.add_0_r. unfold ret. rewrite <- (wr_hwm _ _ _ Hw). by destruct wr.
  - eexists. cbn [length]. rewrite last_offsets_from. unfold hwm_send, publish, modify_self, bind. simpl.
    destruct (lc_bound _ _ _ (wr_log _ _ _ Hw)) as [Hs _].
    assert (0 <= a_next (p_log p)) by (unfold a_next; pose proof (len_nonneg (a_recs (p_log p))); lia).
    rewrite len_cons in *. unfold len in *. rewrite u64_add_small by lia.
    by replace (a_next (p_log p) + Z.of_nat (length rs) + 1)
      with (a_next (p_log p) + (1 + Z.of_nat (length rs))) by lia.
Qed.

Lemma handle_single_run w wr p cmd next :
  wrep w wr p -> queue_ok w (config (log wr)) (a_next (p_log p)) [cmd] -> next = fst (spec_cmd p cmd) ->
  exists w' wr', handle_single_command cmd (w, wr) = (Ok tt, (w', wr'))
    /\ wrep w' wr' next /\ wstep w wr w' wr' (snd (spec_cmd p cmd))
    /\ inbox wr' = inbox wr /\ pulses wr' = pulses wr.
Proof.
  intros Hw [Hst Hro Hnx Hfi] ->. pose proof Hw as [Hr Hh Hf].
  unfold queue_records in Hst, Hro, Hnx. simpl in Hst, Hro, Hnx. rewrite app_nil_r in Hst, Hro, Hnx.
  apply Forall_inv in Hfi.
  destruct cmd as [r id|rs id|off id|id| |k]; simpl handle_single_command; unfold spec_cmd.
  - simpl in Hst, Hro, Hnx. unfold take_fail. rewrite bind_bind, bind_self, bind_bind, bind_modify_self, bind_ret.
    rewrite Hf. destruct (p_fail p) as [k|].
    + eexists w, _. split; [done|]. split; [by split|]. by split; [split; [done|apply keeps_refl]|].
    + apply Forall_inv in Hst. change (len [r]) with 1 in Hnx.
      destruct (lc_append w (log wr) (p_log p) r Hr Hst Hro Hnx) as (w' & l' & Hrun & Hr' & Hk).
      rewrite (bind_Ok _ _ _ _ _ (on_log_Ok _ w (set_fail None wr) _ _ _ Hrun)). cbv iota beta.
      eexists w', _. split; [reflexivity|]. split; [|split; [|done]].
      * split; [done| |done]. simpl. rewrite a_next_append. apply u64_add_small.
        destruct (lc_bound _ _ _ Hr). change (len [r]) with 1.
        assert (0 <= a_next (p_log p)) by (unfold a_next; pose proof (len_nonneg (a_recs (p_log p))); lia). lia.
      * by split.
  - simpl in Hst, Hro, Hnx. unfold flush_explicit_batch, take_fail.
    rewrite bind_bind, bind_self, bind_bind, bind_modify_self, bind_ret.
    rewrite Hf. destruct (p_fail p) as [k|] eqn:Hpf.
    + eexists w, _. split; [done|]. split; [by split|]. by split; [split; [done|apply keeps_refl]|].
    + destruct (lc_append_batch w (log wr) (p_log p) rs Hr Hst Hro Hnx) as (w' & l' & Hrun & Hr' & Hk).
      rewrite (bind_Ok _ _ _ _ _ (on_log_Ok _ w (set_fail None wr) _ _ _ Hrun)). cbv iota beta.
      assert (Hw0 : wrep w (set_fail None wr) p) by (split; simpl; congruence).
      destruct (hwm_after_batch w (set_fail None wr) p rs w' l' Hw0 Hr' Hnx) as [pub Hpub].
      rewrite (bind_Ok _ _ _ _ _ Hpub). eexists w', _. split; [reflexivity|]. split; [by split|]. by split; [split|].
  - destruct (lc_read w (log wr) (p_log p) off Hr Hfi) as (w' & l' & Hrun & Hr' & Hk).
    rewrite (bind_Ok _ _ _ _ _ (on_log_Ok _ w wr _ _ _ Hrun)).
    eexists w', _. split; [reflexivity|]. split; [by split|]. by split; [split|].
  - destruct (lc_sync w (log wr) (p_log p) Hr) as (w' & l' & Hrun & Hr' & Hk).
    rewrite (bind_Ok _ _ _ _ _ (on_log_Ok _ w wr _ _ _ Hrun)).
    eexists w', _. split; [reflexivity|]. split; [by split|]. by split; [split|].
  - done.
  - eexists w, _. split; [reflexivity|]. split; [by split|].
    split; [|done]. split; [by rewrite app_nil_r|apply keeps_refl].
Qed.

(** ** A batch of appends *)

(** The replies of appends carried out one by one from offset [from]. *)
Definition offset_replies (from : Z) (ids : list nat) : list (nat * Reply) :=
  map (fun p => (snd p, ROffset (inl (fst p)))) (combine (offsets_from from (length ids)) ids).

Lemma pruns_appends p rs ids cs p2 reps :
  p_fail p = None -> length rs = length ids ->
  pruns (mkP (a_append rs (p_log p)) None) cs p2 reps ->
  pruns p (appends rs ids ++ cs) p2 (offset_replies (a_next (p_log p)) ids ++ reps).
Proof.
  revert p ids. induction rs as [|r rs IH]; intros p ids Hf Hl Hp; destruct ids as [|id ids]; try done.
  - rewrite a_append_nil in Hp. destruct p as [l f]; simpl in *. by subst f.
  - unfold offset_replies. simpl length. rewrite offsets_from_S. simpl.
    destruct p as [l f]; simpl in *. subst f.
    eapply (pr_cmd (mkP l None) (Append r id) (mkP (a_append [r] l) None)
              [(id, ROffset (inl (a_next l)))]); [done|].
    change (a_next l + 1) with (a_next l + len [r]). rewrite <- a_next_append.
    apply IH; [done|lia|]. simpl. by rewrite a_append_append.
Qed.

(** With no failure injected, the batch is appended and every caller gets the
    offset of its record. *)
Lemma flush_ok_run w wr p rs ids :
  wrep w wr p -> queue_ok w (config (log wr)) (a_next (p_log p)) (appends rs ids) ->
  length rs = length ids -> rs <> [] -> p_fail p = None ->
  exists w' wr', flush_append_batch rs ids (w, wr) = (Ok tt, (w', wr'))
    /\ wrep w' wr' (mkP (a_append rs (p_log p)) None)
    /\ wstep w wr w' wr' (offset_replies (a_next (p_log p)) ids)
    /\ inbox wr' = inbox wr /\ pulses wr' = pulses wr.
Proof.
  intros Hw [Hst Hro Hnx _] Hl Hne Hpf. pose proof Hw as [Hr Hh Hf].
  rewrite queue_records_appends in Hst, Hro, Hnx by done.
  unfold flush_append_batch. destruct rs as [|r0 rs0]; [done|]. set (rs := r0 :: rs0) in *. clearbody rs.
  unfold take_fail. rewrite bind_bind, bind_self, bind_bind, bind_modify_self, bind_ret, Hf, Hpf.
  destruct (lc_append_batch w (log wr) (p_log p) rs Hr Hst Hro Hnx) as (w' & l' & Hrun & Hr' & Hk).
  rewrite (bind_Ok _ _ _ _ _ (on_log_Ok _ w (set_fail None wr) _ _ _ Hrun)). cbv iota beta.
  assert (Hw0 : wrep w (set_fail None wr) p) by (split; simpl; congruence).
  destruct (hwm_after_batch w (set_fail None wr) p rs w' l' Hw0 Hr' Hnx) as [pub Hpub].
  rewrite (bind_Ok _ _ _ _ _ Hpub). rewrite (for_each_reply_run snd (fun p => ROffset (inl (fst p)))).
  eexists w', _. split; [reflexivity|]. split; [by split|]. rewrite Hl. by split; [split|].
Qed.

Lemma flush_append_batch_run w wr p rs ids :
  wrep w wr p -> queue_ok w (config (log wr)) (a_next (p_log p)) (appends rs ids) ->
  length rs = length ids -> rs <> [] ->
  exists w' wr' p' reps, flush_append_batch rs ids (w, wr) = (Ok tt, (w', wr'))
    /\ wrep w' wr' p' /\ wstep w wr w' wr' reps
    /\ inbox wr' = inbox wr /\ pulses wr' = pulses wr
    /\ a_next (p_log p') <= a_next (p_log p) + len rs /\ p_fail p' = None
    /\ (forall cs p2 reps2, pruns p' cs p2 reps2 -> pruns p (appends rs ids ++ cs) p2 (reps ++ reps2)).
Proof.
  intros Hw Hq Hl Hne. pose proof Hw as [Hr Hh Hf]. pose proof (len_nonneg rs).
  destruct (p_fail p) as [k|] eqn:Hpf.
  - unfold flush_append_batch. destruct rs as [|r0 rs0]; [done|]. set (rs := r0 :: rs0) in *. clearbody rs.
    unfold take_fail. rewrite bind_bind, bind_self, bind_bind, bind_modify_self, bind_ret, Hf.
    rewrite (for_each_reply_run (fun x => x) (fun _ => ROffset (inr (clone (Io (io_error_from k)))))).
    eexists w, _, (mkP (p_log p) None), _. split; [reflexivity|]. split; [by split|].
    split; [by split; [done|apply keeps_refl]|]. split; [done|]. split; [done|].
    split; [simpl; lia|]. split; [done|]. intros cs p2 reps2 Hp. by apply pr_fail_batch.
  - destruct (flush_ok_run w wr p rs ids Hw Hq Hl Hne Hpf) as (w' & wr' & Hrun & Hw' & Hs & Hi & Hpu).
    exists w', wr', (mkP (a_append rs (p_log p)) None), (offset_replies (a_next (p_log p)) ids).
    do 5 (split; [done|]). split; [simpl; rewrite a_next_append; lia|]. split; [done|].
    intros cs p2 reps2 Hp. by apply pruns_appends.
Qed.

(** ** The order on the channels

    A flush and a single command write the mark first and the answers after
    it, whatever the log does. *)
Definition orderly (m : KM (World * Writer) unit) : Prop :=
  forall w wr w' wr', m (w, wr) = (Ok tt, (w', wr')) ->
  exists marks reps, published wr' = published wr ++ marks ++ map (uncurry Replied) reps
    /\ sent wr' = sent wr ++ reps
    /\ (marks = [Marked (hwm wr')] \/ marks = [] /\ hwm wr' = hwm wr).

Lemma shows_one w wr p cs m w' wr' p' reps :
  orderly m -> m (w, wr) = (Ok tt, (w', wr')) -> wrep w wr p -> wrep w' wr' p' -> wstep w wr w' wr' reps ->
  pruns p cs p' reps -> exists effs, published wr' = published wr ++ effs /\ shows p cs p' effs.
Proof.
  intros Ho Hm Hw Hw' [Hs _] Hp. destruct (Ho _ _ _ _ Hm) as (marks & reps' & Hpub & Hs' & Hmk).
  rewrite Hs in Hs'. apply app_inv_head in Hs' as <-. exists (marks ++ map (uncurry Replied) reps). split; [done|].
  rewrite <- (app_nil_r cs), <- (app_nil_r (map _ reps)). eapply sh_part; [exact Hp| |constructor].
  rewrite <- (wr_hwm _ _ _ Hw), <- (wr_hwm _ _ _ Hw'). destruct Hmk as [->|[-> E]]; [by left|by right].
Qed.

Lemma replies_effects {A} (f : A -> nat) (g : A -> Reply) (xs : list A) :
  map (fun x => Replied (f x) (g x)) xs = map (uncurry Replied) (map (fun x => (f x, g x)) xs).
Proof. by rewrite map_map. Qed.

(** Silent code, then code that is orderly. *)
Lemma orderly_after {A} (m : KM (World * Writer) A) (k : A -> KM (World * Writer) unit) :
  (forall w wr a w' wr', m (w, wr) = (Ok a, (w', wr')) ->
     published wr' = published wr /\ sent wr' = sent wr /\ hwm wr' = hwm wr) ->
  (forall a, orderly (k a)) -> orderly (bind m k).
Proof.
  intros Hm Hk w wr w' wr' Hrun. apply bind_Ok_inv in Hrun as (a & [w1 wr1] & Hr1 & Hr2).
  destruct (Hm _ _ _ _ _ Hr1) as (E1 & E2 & E3). destruct (Hk _ _ _ _ _ Hr2) as (marks & reps & P1 & P2 & P3).
  exists marks, reps. by rewrite <- E1, <- E2, <- E3.
Qed.

Lemma take_fail_silent w wr a w' wr' :
  take_fail (w, wr) = (Ok a, (w', wr')) -> published wr' = published wr /\ sent wr' = sent wr /\ hwm wr' = hwm wr.
Proof. unfold take_fail, self, modify_self, ret, bind. simpl. by intros [= _ _ <-]. Qed.

Lemma on_log_silent {A} (m : KM (World * Log) A) w wr a w' wr' :
  on_log m (w, wr) = (Ok a, (w', wr')) -> published wr' = published wr /\ sent wr' = sent wr /\ hwm wr' = hwm wr.
Proof. unfold on_log, attempt, zoom. simpl. destruct (m _) as [[] []]; simpl; by intros [= _ _ <-]. Qed.

Lemma orderly_replies {A} (f : A -> nat) (g : A -> Reply) (xs : list A) :
  orderly (for_each xs (fun x => reply_send (f x) (g x))).
Proof.
  intros w wr w' wr'. rewrite for_each_reply_run. intros [= _ <-]. exists [], (map (fun x => (f x, g x)) xs).
  simpl. rewrite replies_effects. split; [done|]. split; [done|]. by right.
Qed.

Lemma orderly_reply id r : orderly (reply_send id r).
Proof.
  intros w wr w' wr'. unfold reply_send, publish, modify_self, bind. simpl. intros [= _ <-].
  exists [], [(id, r)]. split; [done|]. split; [done|]. by right.
Qed.

(** The mark, then answers only. *)
Lemma orderly_mark v m :
  (forall w wr w' wr', m (w, wr) = (Ok tt, (w', wr')) ->
     exists reps, published wr' = published wr ++ map (uncurry Replied) reps /\ sent wr' = sent wr ++ reps
       /\ hwm wr' = hwm wr) ->
  orderly (let* _ := hwm_send v in m).
Proof.
  intros Hm w wr w' wr' Hrun. unfold hwm_send, publish, modify_self in Hrun. unfold bind at 1 2 in Hrun. simpl in Hrun.
  destruct (Hm _ _ _ _ Hrun) as (reps & P1 & P2 & P3). exists [Marked v], reps.
  simpl in P1, P2, P3. rewrite P3. split; [by rewrite P1, <- app_assoc|]. split; [done|]. by left.
Qed.

Lemma replies_only {A} (f : A -> nat) (g : A -> Reply) (xs : list A) w wr w' wr' :
  for_each xs (fun x => reply_send (f x) (g x)) (w, wr) = (Ok tt, (w', wr')) ->
  exists reps, published wr' = published wr ++ map (uncurry Replied) reps /\ sent wr' = sent wr ++ reps /\ hwm wr' = hwm wr.
Proof.
  rewrite for_each_reply_run. intros [= _ <-]. exists (map (fun x => (f x, g x)) xs). simpl. by rewrite replies_effects.
Qed.

Lemma reply_only id r w wr w' wr' :
  reply_send id r (w, wr) = (Ok tt, (w', wr')) ->
  exists reps, published wr' = published wr ++ map (uncurry Replied) reps /\ sent wr' = sent wr ++ reps /\ hwm wr' = hwm wr.
Proof. unfold reply_send, publish, modify_self, bind. simpl. intros [= _ <-]. by exists [(id, r)]. Qed.

Lemma orderly_flush rs ids : orderly (flush_append_batch rs ids).
Proof.
  destruct rs as [|r rs]; [by apply (orderly_replies fst snd [])|]. unfold flush_append_batch.
  apply orderly_after; [apply take_fail_silent|]. intros [k|]; [apply (orderly_replies (fun x => x))|].
  apply orderly_after; [apply on_log_silent|]. intros [offs|e]; [|apply (orderly_replies (fun x => x))].
  destruct (last offs) as [x|]; [|exact (orderly_replies snd (fun p => ROffset (inl (fst p))) _)].
  apply orderly_mark. apply (replies_only snd).
Qed.

Lemma orderly_single cmd : orderly (handle_single_command cmd).
Proof.
  destruct cmd as [r id|rs id|off id|id| |k]; unfold handle_single_command, flush_explicit_batch.
  - apply orderly_after; [apply take_fail_silent|]. intros [k|]; [apply orderly_reply|].
    apply orderly_after; [apply on_log_silent|]. intros [x|e]; [apply orderly_mark, reply_only|apply orderly_reply].
  - apply orderly_after; [apply take_fail_silent|]. intros [k|]; [apply orderly_reply|].
    apply orderly_after; [apply on_log_silent|]. intros [offs|e]; [|apply orderly_reply].
    destruct (last offs); [apply orderly_mark, reply_only|apply orderly_reply].
  - apply orderly_after; [apply on_log_silent|]. intros x. apply orderly_reply.
  - apply orderly_after; [apply on_log_silent|]. intros x. apply orderly_reply.
  - intros w wr w' wr'. done.
  - intros w wr w' wr'. unfold modify_self. simpl. intros [= _ <-]. exists [], []. rewrite !app_nil_r.
    split; [done|]. split; [done|]. by right.
Qed.

(** What [batch_loop] takes off the queue. *)
Lemma batch_loop_spec mr mb arrived rs ids bytes :
  exists rs' ids' ended rest,
    batch_loop mr mb arrived rs ids bytes = (rs ++ rs', ids ++ ids', ended, rest)
    /\ length rs' = length ids'
    /\ arrived = appends rs' ids' ++ option_list ended ++ rest.
Proof.
  revert rs ids bytes. induction arrived as [|c arrived IH]; intros rs ids bytes.
  - exists [], [], None, []. simpl. rewrite !app_nil_r. by destruct (_ && _).
  - simpl. destruct (_ && _).
    2: { exists [], [], None, (c :: arrived). by rewrite !app_nil_r. }
    destruct c as [r id|rs2 id|off id|id| |k];
      try by (eexists [], [], (Some _), arrived; rewrite !app_nil_r).
    destruct (IH (rs ++ [r]) (ids ++ [id]) (u64_add bytes (wire_size r)))
      as (rs' & ids' & ended & rest & -> & Hl & ->).
    exists (r :: rs'), (id :: ids'), ended, rest. rewrite <- !app_assoc. simpl. by rewrite Hl.
Qed.

(** A command on its own. *)
Lemma single_run w wr p cmd :
  wrep w wr p -> queue_ok w (config (log wr)) (a_next (p_log p)) (cmd :: inbox wr) ->
  exists w' wr' p' reps, handle_single_command cmd (w, wr) = (Ok tt, (w', wr'))
    /\ wrep w' wr' p' /\ wstep w wr w' wr' reps /\ pulses wr' = pulses wr /\ inbox wr' = inbox wr
    /\ queue_ok w' (config (log wr')) (a_next (p_log p')) (inbox wr')
    /\ (exists effs, published wr' = published wr ++ effs /\ shows p [cmd] p' effs)
    /\ (forall cs p2 reps2, pruns p' cs p2 reps2 -> pruns p (cmd :: cs) p2 (reps ++ reps2)).
Proof.
  intros Hw Hq. change (cmd :: inbox wr) with ([cmd] ++ inbox wr) in Hq.
  apply queue_ok_app in Hq as [Hq1 Hq2].
  destruct (handle_single_run w wr p cmd _ Hw Hq1 eq_refl) as (w' & wr' & Hrun & Hw' & Hs & Hi & Hpu).
  exists w', wr', (fst (spec_cmd p cmd)), (snd (spec_cmd p cmd)).
  assert (Hone : forall cs p2 reps2, pruns (fst (spec_cmd p cmd)) cs p2 reps2 ->
            pruns p (cmd :: cs) p2 (snd (spec_cmd p cmd) ++ reps2)).
  { intros cs p2 reps2 Hp. eapply pr_cmd; [|done]. by destruct (spec_cmd p cmd). }
  do 5 (split; [done|]). rewrite Hi. split; [|split; [|exact Hone]].
  - destruct (ws_keeps _ _ _ _ _ Hs) as (-> & _ & El). eapply queue_ok_world; [by eapply stays_limit|].
    eapply queue_ok_le; [|exact Hq2]. unfold queue_records, spec_cmd.
    destruct cmd, (p_fail p); simpl; rewrite ?a_next_append, ?app_nil_r, ?len_cons; simpl;
      unfold len; simpl; lia.
  - eapply shows_one; [apply orderly_single|exact Hrun|done..|].
    rewrite <- (app_nil_r (snd _)). apply Hone. constructor.
Qed.

Lemma process_run w wr p cmd avail mr mb :
  wrep w wr p -> queue_ok w (config (log wr)) (a_next (p_log p)) (cmd :: inbox wr) ->
  exists w' wr' p' reps taken, process_with_batching cmd avail mr mb (w, wr) = (Ok tt, (w', wr'))
    /\ wrep w' wr' p' /\ wstep w wr w' wr' reps /\ pulses wr' = pulses wr
    /\ inbox wr = taken ++ inbox wr'
    /\ queue_ok w' (config (log wr')) (a_next (p_log p')) (inbox wr')
    /\ (exists effs, published wr' = published wr ++ effs /\ shows p (cmd :: taken) p' effs)
    /\ (forall cs p2 reps2, pruns p' cs p2 reps2 -> pruns p (cmd :: taken ++ cs) p2 (reps ++ reps2)).
Proof.
  intros Hw Hq.
  destruct cmd as [r id|rs id|off id|id| |k];
    try (destruct (single_run w wr p _ Hw Hq) as (w' & wr' & p' & reps & Hrun & Hw' & Hs & Hpu & Hi & Hq' & Hsh & Hp);
         exists w', wr', p', reps, []; rewrite <- Hi; do 7 (split; [done|]); exact Hp).
  unfold process_with_batching. rewrite bind_self.
  destruct (batch_loop_spec mr mb (take avail (inbox wr)) [r] [id] (wire_size r))
    as (rs & ids & ended & rest & -> & Hl & Harr). cbn [app].
  rewrite bind_modify_self.
  assert (Hin : inbox wr = appends rs ids ++ option_list ended ++ rest ++ drop avail (inbox wr)).
  { rewrite <- (take_drop avail (inbox wr)) at 1. by rewrite Harr, <- !app_assoc. }
  assert (Hcat : Append r id :: inbox wr =
    appends (r :: rs) (id :: ids) ++ option_list ended ++ rest ++ drop avail (inbox wr)).
  { rewrite Hin at 1. done. }
  set (rest' := rest ++ drop avail (inbox wr)) in *. rewrite Hcat in Hq.
  apply queue_ok_app in Hq as [Hq1 Hq2].
  set (wr0 := set_inbox rest' wr).
  assert (Hw0 : wrep w wr0 p) by by destruct Hw.
  destruct (flush_append_batch_run w wr0 p (r :: rs) (id :: ids) Hw0 Hq1)
    as (w1 & wr1 & p1 & reps1 & Hrun1 & Hw1 & Hs1 & Hi1 & Hpu1 & Hnx1 & _ & Hp1); [simpl; lia|done|].
  rewrite (bind_Ok _ _ _ _ _ Hrun1).
  assert (Hq1' : queue_ok w1 (config (log wr1)) (a_next (p_log p1)) (option_list ended ++ inbox wr1)).
  { destruct (ws_keeps _ _ _ _ _ Hs1) as (-> & _ & El). eapply queue_ok_world; [by eapply stays_limit|].
    rewrite Hi1. eapply queue_ok_le; [|exact Hq2].
    rewrite queue_records_appends by (simpl; lia). done. }
  assert (Hs1' : wstep w wr w1 wr1 reps1) by by destruct Hs1.
  destruct (shows_one w wr0 p (appends (r :: rs) (id :: ids)) _ w1 wr1 p1 reps1 (orderly_flush _ _) Hrun1 Hw0 Hw1 Hs1)
    as (effs1 & Hpub1 & Hsh1).
  { rewrite <- (app_nil_r (appends _ _)), <- (app_nil_r reps1). apply Hp1. constructor. }
  destruct ended as [other|].
  - destruct (single_run w1 wr1 p1 other Hw1 Hq1') as (w2 & wr2 & p2 & reps2 & Hrun2 & Hw2 & Hs2 & Hpu2 & Hi2 & Hq2' & (effs2 & Hpub2 & Hsh2) & Hp2).
    exists w2, wr2, p2, (reps1 ++ reps2), (appends rs ids ++ [other]). split; [done|]. split; [done|].
    split; [by eapply wstep_trans|]. split; [by rewrite Hpu2, Hpu1|].
    split; [by rewrite Hi2, Hi1, <- app_assoc|]. split; [done|]. split.
    { exists (effs1 ++ effs2). split; [by rewrite Hpub2, Hpub1, app_assoc|]. by eapply (shows_app _ (appends (r :: rs) (id :: ids))). }
    intros cs p3 reps3 Hp. rewrite <- !app_assoc.
    apply (Hp1 (other :: cs)). by apply Hp2.
  - exists w1, wr1, p1, reps1, (appends rs ids). split; [done|]. split; [done|]. split; [done|].
    split; [done|]. split; [by rewrite Hi1|]. split; [done|]. split; [by exists effs1|].
    intros cs p3 reps3 Hp. by apply Hp1.
Qed.

(** ** Turns of the task *)
Lemma a_next_drop n a : (n <= length (a_recs a))%nat -> a_next (a_drop n a) = a_next a.
Proof. intros Hn. unfold a_next. simpl. rewrite len_drop by (unfold len; lia). lia. Qed.

Lemma recv_run w wr p cmd rest avail :
  wrep w wr p -> queue_ok w (config (log wr)) (a_next (p_log p)) (inbox wr) -> inbox wr = cmd :: rest ->
  exists w' wr' p' reps taken, writer_turn (Recv avail) (w, wr) = (Ok false, (w', wr'))
    /\ wrep w' wr' p' /\ wstep w wr w' wr' reps /\ pulses wr' = S (pulses wr)
    /\ inbox wr = cmd :: taken ++ inbox wr'
    /\ queue_ok w' (config (log wr')) (a_next (p_log p')) (inbox wr')
    /\ (exists effs, published wr' = published wr ++ effs /\ shows p (cmd :: taken) p' effs)
    /\ (forall cs p2 reps2, pruns p' cs p2 reps2 -> pruns p (cmd :: taken ++ cs) p2 (reps ++ reps2)).
Proof.
  intros Hw Hq Hi. unfold writer_turn. rewrite bind_self, Hi, bind_modify_self. rewrite Hi in Hq.
  set (wr0 := set_inbox rest wr). assert (Hw0 : wrep w wr0 p) by by destruct Hw.
  destruct (process_run w wr0 p cmd avail (batch_max_records (config (log wr)))
    (batch_max_bytes (config (log wr))) Hw0 Hq)
    as (w1 & wr1 & p1 & reps & taken & Hrun & Hw1 & [Hse Hke] & Hpu & Hin & Hq1 & Hsh & Hp).
  rewrite (bind_Ok _ _ _ _ _ Hrun). unfold signal. rewrite bind_modify_self.
  eexists w1, _, p1, reps, taken. split; [reflexivity|]. split; [by destruct Hw1|].
  split; [by split|]. split; [simpl; by rewrite Hpu|]. split; [by simpl in Hin |- *; rewrite Hin|]. done.
Qed.

Lemma tick_run w wr p :
  wrep w wr p ->
  exists w' wr' n, writer_turn RetentionTick (w, wr) = (Ok false, (w', wr'))
    /\ may_drop (config (log wr)) n (p_log p) /\ wrep w' wr' (mkP (a_drop n (p_log p)) (p_fail p))
    /\ wstep w wr w' wr' [] /\ inbox wr' = inbox wr
    /\ published wr' = published wr
    /\ (forall cs, queue_ok w (config (log wr)) (a_next (p_log p)) cs -> queue_ok w' (config (log wr')) (a_next (p_log p)) cs).
Proof.
  intros [Hr Hh Hf]. destruct (lc_retention _ _ _ Hr) as (k & n & w' & l' & Hrun & Hn & Hr' & Hk).
  exists w', (set_log l' wr), n. unfold writer_turn.
  rewrite (bind_Ok _ _ _ _ _ (on_log_Ok _ w wr _ _ _ Hrun)). split; [done|]. split; [done|].
  split; [split; [done| |done]; simpl; destruct Hn; by rewrite a_next_drop|].
  split; [split; [by rewrite app_nil_r|done]|]. do 2 (split; [done|]). intros cs. simpl.
  destruct Hk as (-> & _ & El). apply queue_ok_world. by eapply stays_limit.
Qed.

Fixpoint recvs (cs : list choice) : nat :=
  match cs with
  | [] => 0
  | Recv _ :: cs' => S (recvs cs')
  | RetentionTick :: cs' => recvs cs'
  end.

(** ** The whole task

    Once the senders are gone the task answers what is queued, syncs and
    exits, for any schedule with a turn to spare per command. *)
Lemma writer_serve_run choices w wr p :
  wrep w wr p -> queue_ok w (config (log wr)) (a_next (p_log p)) (inbox wr) ->
  (length (inbox wr) < recvs choices)%nat ->
  exists w' wr' p' reps, serve choices (w, wr) = (Ok tt, (w', wr'))
    /\ wrep w' wr' p' /\ wstep w wr w' wr' reps /\ inbox wr' = []
    /\ pruns p (inbox wr) p' reps
    /\ (forall w2 cfg, crash w' w2 ->
          exists w3 l3, Log.open (dir (log wr)) cfg w2 = (Ok l3, w3) /\ R w3 l3 (p_log p')).
Proof.
  revert w wr p. induction choices as [|c choices IH]; intros w wr p Hw Hq Hf;
    [simpl in Hf; lia|].
  cbn [serve]. destruct c as [avail|].
  - simpl in Hf.
    destruct (inbox wr) as [|cmd rest] eqn:Hi.
    + unfold writer_turn at 1. rewrite bind_bind, bind_self, Hi, bind_ret.
      destruct (lc_sync _ _ _ (wr_log _ _ _ Hw)) as (w1 & l1 & Hrun & Hr1 & Hk1).
      rewrite (bind_Ok _ _ _ _ _ (on_log_Ok _ w wr _ _ _ Hrun)).
      eexists w1, _, p, []. split; [reflexivity|]. split; [by destruct Hw; split|].
      split; [split; [by rewrite app_nil_r|done]|]. split; [done|]. split; [constructor|].
      intros w2 cfg Hc. destruct (lc_durable _ _ _ _ _ _ cfg (wr_log _ _ _ Hw) Hrun Hc)
        as (w3 & l3 & Ho & Hr3 & _). by exists w3, l3.
    + destruct (recv_run w wr p cmd rest avail Hw ltac:(by rewrite Hi) Hi)
        as (w1 & wr1 & p1 & reps1 & taken & Hrun & Hw1 & Hs1 & _ & Hin & Hq1 & _ & Hp1).
      rewrite (bind_Ok _ _ _ _ _ Hrun).
      rewrite Hi in Hin. injection Hin as Hin.
      destruct (IH w1 wr1 p1 Hw1 Hq1) as (w2 & wr2 & p2 & reps2 & Hrun2 & Hw2 & Hs2 & Hi2 & Hp2 & Hd2).
      { pose proof (f_equal length Hin) as Hl. rewrite length_app in Hl. simpl in Hf. lia. }
      exists w2, wr2, p2, (reps1 ++ reps2). split; [done|]. split; [done|].
      split; [by eapply wstep_trans|]. split; [done|]. split.
      * rewrite Hin. by apply Hp1.
      * destruct (ws_keeps _ _ _ _ _ Hs1) as (_ & <- & _). exact Hd2.
  - simpl in Hf.
    destruct (tick_run w wr p Hw) as (w1 & wr1 & n & Hrun & [Hn _] & Hw1 & Hs1 & Hi1 & _ & Hq1).
    rewrite (bind_Ok _ _ _ _ _ Hrun). specialize (Hq1 _ Hq). rewrite <- Hi1, <- (a_next_drop n (p_log p) Hn) in Hq1.
    destruct (IH w1 wr1 _ Hw1 Hq1) as (w2 & wr2 & p2 & reps2 & Hrun2 & Hw2 & Hs2 & Hi2 & Hp2 & Hd2).
    { by rewrite Hi1. }
    exists w2, wr2, p2, reps2. split; [done|]. split; [done|].
    split; [by eapply (wstep_trans _ _ _ _ _ _ [])|]. split; [done|]. split.
    + rewrite Hi1 in Hp2. by eapply pr_retain.
    + destruct (ws_keeps _ _ _ _ _ Hs1) as (_ & <- & _). exact Hd2.
Qed.

(** A timer with a period starts the loop; without one the task dies. *)
Lemma writer_loop_starts choices w wr :
  usable (config (log wr)) -> partition_writer_loop choices (w, wr) = serve choices (w, wr).
Proof.
  intros Hu. unfold partition_writer_loop, interval. rewrite bind_self.
  by rewrite (proj2 (Z.eqb_neq _ _)) by exact Hu.
Qed.

Lemma writer_loop_dies choices w wr :
  ~ usable (config (log wr)) -> partition_writer_loop choices (w, wr) = (Panic interval_message, (w, wr)).
Proof.
  intros Hu. unfold partition_writer_loop, interval. rewrite bind_self.
  rewrite (proj2 (Z.eqb_eq _ _)); [done|]. destruct (decide (retention_check_interval (config (log wr)) = 0)); [done|].
  by destruct Hu.
Qed.

(** ** The handle *)

(** A partition whose task runs, with nothing queued. *)
Record prep (w : World) (p : Partition) (a : alog) : Prop := {
  pp_writer : wrep w (writer p) (mkP a None);
  pp_running : status p = Running;
  pp_ids : Forall (fun x => (fst x < next_reply p)%nat) (sent (writer p));
}.

Lemma find_reply_app id l r : Forall (fun x => (fst x < id)%nat) l -> find_reply id (l ++ [(id, r)]) = Some r.
Proof.
  induction 1 as [|[i r'] l Hi _ IH]; simpl; [by rewrite Nat.eqb_refl|].
  simpl in Hi. rewrite (proj2 (Nat.eqb_neq _ _)) by lia. done.
Qed.

Definition pconfig (p : Partition) : LogConfig := config (log (writer p)).

Lemma call_run (cmd : nat -> PartitionCommand) w p a a' rep :
  prep w p a -> (forall id, queue_ok w (pconfig p) (a_next a) [cmd id]) ->
  (forall id, spec_cmd (mkP a None) (cmd id) = (mkP a' None, [(id, rep)])) ->
  exists w' p', call cmd (w, p) = (Ok rep, (w', p')) /\ prep w' p' a'
    /\ keeps w (log (writer p)) w' (log (writer p')).
Proof.
  intros [Hw Hrun Hids] Hq Hs. specialize (Hs (next_reply p)). specialize (Hq (next_reply p)).
  unfold call. rewrite Hrun. set (id := next_reply p) in *.
  assert (exists w' wr', writer_turn (Recv 0) (w, set_inbox [cmd id] (writer p)) = (Ok false, (w', wr'))
    /\ wrep w' wr' (mkP a' None) /\ wstep w (writer p) w' wr' [(id, rep)])
    as (w' & wr' & -> & Hw' & [Hse Hke]).
  { unfold writer_turn. rewrite bind_self.
    change (inbox (set_inbox [cmd id] (writer p))) with [cmd id]. cbv iota. rewrite bind_modify_self.
    set (wr0 := set_inbox [] (set_inbox [cmd id] (writer p))).
    assert (Hw0 : wrep w wr0 (mkP a None)) by by destruct Hw.
    assert (exists w1 wr1, process_with_batching (cmd id) 0 (batch_max_records (config (log wr0)))
              (batch_max_bytes (config (log wr0))) (w, wr0) = (Ok tt, (w1, wr1))
            /\ wrep w1 wr1 (mkP a' None) /\ wstep w wr0 w1 wr1 [(id, rep)])
      as (w1 & wr1 & Hr1 & Hw1 & [Hs1 Hk1]).
    { destruct (cmd id) as [r i|rs i|off i|i| |k] eqn:Hc; simpl in Hs;
        try (destruct (handle_single_run w wr0 (mkP a None) (cmd id) _ Hw0 ltac:(by rewrite Hc) eq_refl)
               as (w1 & wr1 & Hr1 & Hw1 & Hs1 & _ & _);
             rewrite Hc in Hr1, Hw1, Hs1; simpl in Hw1, Hs1; injection Hs as <- <- <-;
             exists w1, wr1; done).
      - destruct (flush_ok_run w (set_inbox [] wr0) (mkP a None) [r] [i]) as (w1 & wr1 & Hr1 & Hw1 & Hs1 & _ & _);
          [by destruct Hw0|done|done|done|done|].
        injection Hs as <- <- <-. exists w1, wr1. split; [|split; [done|]].
        + unfold process_with_batching. rewrite bind_self. simpl take.
          replace (batch_loop _ _ [] [r] [i] _) with ([r], [i], @None PartitionCommand, @nil PartitionCommand)
            by (simpl; by destruct (_ && _)).
          rewrite bind_modify_self. simpl app. change (drop 0 (inbox wr0)) with (@nil PartitionCommand).
          by rewrite (bind_Ok _ _ _ _ _ Hr1).
        + destruct Hs1 as [Hs1 Hk1]. split; [|done]. rewrite Hs1. unfold offset_replies. simpl.
          by rewrite Z.add_0_r.
      - done. }
    rewrite (bind_Ok _ _ _ _ _ Hr1). unfold signal. rewrite bind_modify_self.
    eexists w1, _. split; [reflexivity|]. split; [by destruct Hw1|by split]. }
  rewrite Hse, (find_reply_app _ _ rep Hids). eexists w', _. split; [reflexivity|]. split; [|done].
  split; [done|done|]. simpl. rewrite Hse. apply Forall_app. split.
  - eapply Forall_impl; [exact Hids|]. intros x Hx. simpl in Hx. fold id in Hx. lia.
  - apply Forall_singleton. simpl. lia.
Qed.

Definition pdir (p : Partition) : path := dir (log (writer p)).

(** A call on a partition keeps its configuration and touches only its own
    directory. *)
Definition pkeeps (w : World) (p : Partition) (w' : World) (p' : Partition) : Prop :=
  pconfig p' = pconfig p /\ pdir p' = pdir p /\ stays (pdir p) w w'.

Lemma prep_hwm w p a : prep w p a -> high_water_mark p = a_next a.
Proof. intros [[_ Hh _] _ _]. exact Hh. Qed.

Lemma prep_apart d w w' p a : stays d w w' -> apart d (pdir p) -> prep w p a -> prep w' p a.
Proof.
  intros Hs Ha [[Hr Hh Hf] Hru Hi]. split; [|done|done]. split; [|done|done].
  by eapply lc_apart.
Qed.

(** The timer, between calls. *)
Lemma partition_tick_run w p a :
  prep w p a ->
  exists w' p' n, retention_tick (w, p) = (Ok tt, (w', p')) /\ may_drop (pconfig p) n a
    /\ prep w' p' (a_drop n a) /\ pkeeps w p w' p'.
Proof.
  intros [Hw Hru Hids]. destruct (tick_run w (writer p) _ Hw) as (w' & wr' & n & Hrun & Hn & Hw' & [Hs Hk] & _).
  rewrite app_nil_r in Hs. exists w', (mkPartition wr' Running (next_reply p)), n. unfold retention_tick. rewrite Hru, Hrun.
  split; [done|]. split; [done|]. split; [|exact Hk]. split; [exact Hw'|done|]. simpl. by rewrite Hs.
Qed.

Lemma queue_ok_single w cfg next c :
  Forall (storable (compression cfg)) (cmd_records c) -> room w cfg (cmd_records c) ->
  next + len (cmd_records c) < 2 ^ 64 -> cmd_fine c -> queue_ok w cfg next [c].
Proof.
  intros H1 H2 H3 H4. split; unfold queue_records; simpl; rewrite ?app_nil_r; try done.
  by constructor.
Qed.

Lemma partition_append_run w p a r :
  prep w p a -> storable (compression (pconfig p)) r -> room w (pconfig p) [r] ->
  a_next a + 1 < 2 ^ 64 ->
  exists w' p', Partition.append r (w, p) = (Ok (a_next a), (w', p'))
    /\ prep w' p' (a_append [r] a) /\ pkeeps w p w' p'.
Proof.
  intros Hp Hs Hr Hn. destruct (call_run (Append r) w p a (a_append [r] a) (ROffset (inl (a_next a))) Hp)
    as (w' & p' & Hrun & Hp' & Hk); [|done|].
  { intros id. apply queue_ok_single; simpl; [by constructor|done|by change (len [r]) with 1|done]. }
  exists w', p'. split; [|done]. unfold Partition.append. by rewrite (bind_Ok _ _ _ _ _ Hrun).
Qed.

Lemma partition_append_batch_run w p a rs :
  prep w p a -> Forall (storable (compression (pconfig p))) rs -> room w (pconfig p) rs ->
  a_next a + len rs < 2 ^ 64 ->
  exists w' p', Partition.append_batch rs (w, p) = (Ok (offsets_from (a_next a) (length rs)), (w', p'))
    /\ prep w' p' (a_append rs a) /\ pkeeps w p w' p'.
Proof.
  intros Hp Hs Hr Hn. destruct rs as [|r rs].
  { exists w, p. rewrite a_append_nil. split; [done|]. split; [done|]. by split. }
  set (all := r :: rs) in *.
  destruct (call_run (AppendBatch all) w p a (a_append all a)
              (ROffsets (inl (offsets_from (a_next a) (length all)))) Hp)
    as (w' & p' & Hrun & Hp' & Hk); [|done|].
  { intros id. by apply queue_ok_single. }
  exists w', p'. split; [|done]. unfold Partition.append_batch, all. cbv iota.
  by rewrite (bind_Ok _ _ _ _ _ Hrun).
Qed.

Lemma partition_read_run w p a off :
  prep w p a -> room w (pconfig p) [] -> 0 <= off ->
  exists w' p', Partition.read_record_at off (w, p) = (Ok (a_read off a), (w', p'))
    /\ prep w' p' a /\ pkeeps w p w' p'.
Proof.
  intros Hp Hr H0. destruct (call_run (ReadAt off) w p a a (RRecord (inl (a_read off a))) Hp)
    as (w' & p' & Hrun & Hp' & Hk); [|done|].
  { intros id. apply queue_ok_single; simpl; try done. rewrite len_nil.
    destruct (lc_bound _ _ _ (wr_log _ _ _ (pp_writer _ _ _ Hp))) as [_ Hb]. simpl in Hb. lia. }
  exists w', p'. split; [|done]. unfold Partition.read_record_at. by rewrite (bind_Ok _ _ _ _ _ Hrun).
Qed.

(** The injected failure takes down the next append and nothing else. *)
Lemma injected_failure_run w p a k r :
  prep w p a ->
  exists p1 p2, fail_next_append_for_test k (w, p) = (Ok tt, (w, p1))
    /\ Partition.append r (w, p1) = (Err (Io (io_error_from k)), (w, p2))
    /\ prep w p2 a /\ pconfig p2 = pconfig p.
Proof.
  intros [[Hr Hh Hf] Hru Hids]. unfold fail_next_append_for_test, post. rewrite Hru.
  eexists _, _. split; [reflexivity|]. unfold Partition.append, call. unfold bind at 1. cbn [status writer].
  unfold writer_turn. rewrite bind_self. cbn [inbox set_inbox]. rewrite bind_modify_self.
  unfold process_with_batching. rewrite bind_bind, bind_self. cbn [take inbox set_inbox].
  replace (batch_loop _ _ [] [r] [next_reply p] _) with ([r], [next_reply p], @None PartitionCommand, @nil PartitionCommand)
    by (simpl; by destruct (_ && _)).
  simpl. rewrite (find_reply_app _ _ _ Hids). split; [reflexivity|]. split; [|done].
  split; [by split|done|]. apply Forall_app. split.
  - eapply Forall_impl; [exact Hids|]. intros x Hx. simpl in *. lia.
  - apply Forall_singleton. simpl. lia.
Qed.

Lemma partition_sync_run w p a :
  prep w p a -> room w (pconfig p) [] ->
  exists w' p', Partition.sync (w, p) = (Ok tt, (w', p')) /\ prep w' p' a /\ pkeeps w p w' p'.
Proof.
  intros Hp Hr. destruct (call_run Sync w p a a (RUnit (inl tt)) Hp)
    as (w' & p' & Hrun & Hp' & Hk); [|done|].
  { intros id. apply queue_ok_single; simpl; try done. rewrite len_nil.
    destruct (lc_bound _ _ _ (wr_log _ _ _ (pp_writer _ _ _ Hp))) as [_ Hb]. simpl in Hb. lia. }
  exists w', p'. split; [|done]. unfold Partition.sync. by rewrite (bind_Ok _ _ _ _ _ Hrun).
Qed.

End sim.

(** ** What the replies mean *)
Lemma spec_cmd_mono p c p' rep off :
  spec_cmd p c = (p', rep) -> off < a_next (p_log p) ->
  a_start (p_log p') = a_start (p_log p) /\ a_next (p_log p) <= a_next (p_log p')
  /\ a_read off (p_log p') = a_read off (p_log p).
Proof.
  unfold spec_cmd. destruct c as [r id|rs id|o id|id| |k], (p_fail p);
    intros [= <- <-] Hlt; simpl; rewrite ?a_next_append, ?a_read_stable by done;
    split; try done; split; try done; try (pose proof (len_nonneg rs)); unfold len; simpl; lia.
Qed.

Lemma a_read_drop_lt n off a :
  (n <= length (a_recs a))%nat -> a_start (a_drop n a) <= off -> a_read off (a_drop n a) = a_read off a.
Proof. intros _ Hle. by apply a_read_drop. Qed.

(** The machine forgets nothing it has not retired. *)
Lemma pruns_mono p cs p2 reps :
  pruns p cs p2 reps ->
  a_start (p_log p) <= a_start (p_log p2) /\ a_next (p_log p) <= a_next (p_log p2)
  /\ forall off, a_start (p_log p2) <= off < a_next (p_log p) ->
       a_read off (p_log p2) = a_read off (p_log p).
Proof.
  induction 1 as [p|p c p1 rep cs p2 reps Hs _ (IH1 & IH2 & IH3)|p n cs p2 reps Hn _ (IH1 & IH2 & IH3)
                 |p k rs ids cs p2 reps Hf Hl Hne _ (IH1 & IH2 & IH3)].
  - split; [lia|]. by split; [lia|].
  - destruct (spec_cmd_mono _ _ _ _ (a_next (p_log p) - 1) Hs ltac:(lia)) as (E1 & E2 & _).
    split; [lia|]. split; [lia|]. intros off Hoff.
    destruct (spec_cmd_mono _ _ _ _ off Hs ltac:(lia)) as (_ & _ & E3). rewrite <- E3. apply IH3. lia.
  - simpl p_log in *. rewrite a_next_drop in IH2, IH3 by done. simpl a_start in IH1.
    split; [lia|]. split; [done|]. intros off Hoff. rewrite IH3 by done.
    apply a_read_drop. simpl in *. lia.
  - simpl in *. done.
Qed.

(** An acknowledged append is in the log at the offset its caller got. *)
Lemma pruns_acked p cs p2 reps id off :
  pruns p cs p2 reps -> (id, ROffset (inl off)) ∈ reps ->
  a_next (p_log p) <= off < a_next (p_log p2)
  /\ exists r, Append r id ∈ cs /\ (a_start (p_log p2) <= off -> a_read off (p_log p2) = Some r).
Proof.
  intros Hp. induction Hp as [p|p c p1 rep cs p2 reps Hs Hp IH|p n cs p2 reps Hn Hp IH
                 |p k rs ids cs p2 reps Hf Hl Hne Hp IH]; intros Hin.
  - by apply elem_of_nil in Hin.
  - apply elem_of_app in Hin as [Hin|Hin].
    + unfold spec_cmd in Hs. destruct c as [r i|rs i|o i|i| |k], (p_fail p); injection Hs as <- <-;
        try (apply list_elem_of_singleton in Hin; done); try (by apply elem_of_nil in Hin).
      apply list_elem_of_singleton in Hin. injection Hin as -> ->.
      destruct (pruns_mono _ _ _ _ Hp) as (_ & Hn & Hr). simpl p_log in *.
      rewrite a_next_append in Hn, Hr. change (len [r]) with 1 in Hn, Hr. split; [lia|].
      exists r. split; [by constructor|]. intros Hst. rewrite Hr by lia.
      rewrite <- (Z.add_0_r (a_next (p_log p))). by apply (a_read_append [r] (p_log p) 0); simpl; lia.
    + destruct (IH Hin) as (Hb & r & Hc & Hr).
      destruct (spec_cmd_mono _ _ _ _ (a_next (p_log p) - 1) Hs ltac:(lia)) as (_ & E2 & _).
      split; [lia|]. exists r. split; [by constructor|done].
  - destruct (IH Hin) as (Hb & r & Hc & Hr). simpl p_log in *. rewrite a_next_drop in Hb by done. eauto.
  - apply elem_of_app in Hin as [Hin|Hin].
    + apply list_elem_of_fmap in Hin as (x & E & _). done.
    + destruct (IH Hin) as (Hb & r & Hc & Hr). split; [done|]. exists r. split; [|done].
      apply elem_of_app. by right.
Qed.

End spec.

(** ** Failures *)
Section failures.
Context {B : Buf} {H : Crc32} {C : Codecs}.

(** One turn of the task on a single append: its reply, and a high-water mark
    that moves only if the log accepted the record. *)
Lemma turn_append_inv r id w wr o w' wr' :
  writer_turn (Recv 0) (w, set_inbox [Append r id] wr) = (o, (w', wr')) ->
  match o with
  | Ok _ =>
      (exists off, sent wr' = sent wr ++ [(id, ROffset (inl off))])
      \/ ((sent wr' = sent wr \/ exists e, sent wr' = sent wr ++ [(id, ROffset (inr e))]) /\ hwm wr' = hwm wr)
  | _ => hwm wr' = hwm wr
  end.
Proof.
  unfold writer_turn. rewrite bind_self. change (inbox (set_inbox [Append r id] wr)) with [Append r id].
  cbv iota. rewrite bind_modify_self. unfold process_with_batching. rewrite bind_bind, bind_self.
  cbn [take]. replace (batch_loop _ _ [] [r] [id] _) with ([r], [id], @None PartitionCommand, @nil PartitionCommand)
    by (simpl; by destruct (_ && _)).
  rewrite bind_bind, bind_modify_self, bind_bind. unfold flush_append_batch, take_fail.
  rewrite bind_bind, bind_bind, bind_self, bind_bind, bind_modify_self, bind_ret.
  match goal with |- context [fail_next_kind ?x] => destruct (fail_next_kind x) as [k|] eqn:Hk end.
  { unfold for_each, reply_send, signal, modify_self, bind, ret. simpl.
    intros [= <- <- <-]. right. split; [right; by eexists|done]. }
  generalize (Log.append_batch [r]). intros m.
  unfold on_log, attempt, zoom, hwm_send, reply_send, signal, modify_self, bind, ret. simpl.
  destruct (m (w, log wr)) as [[offs|e|msg|] [w1 l1]]; simpl.
  - destruct offs as [|o1 offs].
    + simpl. intros [= <- <- <-]. right. split; [by left|done].
    + destruct (last (o1 :: offs)) as [x|] eqn:Hl.
      2: { apply last_None in Hl. done. }
      replace (combine (o1 :: offs) [id]) with [(o1, id)] by by destruct offs.
      simpl. intros [= <- <- <-]. left. by eexists.
  - intros [= <- <- <-]. right. split; [right; by eexists|done].
  - by intros [= <- <- <-].
  - by intros [= <- <- <-].
Qed.

Lemma find_reply_none id l : Forall (fun x => (fst x < id)%nat) l -> find_reply id l = None.
Proof.
  induction 1 as [|[i r'] l Hi _ IH]; simpl; [done|].
  simpl in Hi. by rewrite (proj2 (Nat.eqb_neq _ _)) by lia.
Qed.

Lemma append_Err_inv r w p e w' p' :
  status p = Running -> Forall (fun x => (fst x < next_reply p)%nat) (sent (writer p)) ->
  Partition.append r (w, p) = (Err e, (w', p')) ->
  high_water_mark p' = high_water_mark p
  /\ (status p' = Running \/ exists msg, e = PartitionPanicked msg /\ status p' = Exited (Some msg)).
Proof.
  intros Hru Hids. unfold Partition.append, call. unfold bind at 1. rewrite Hru.
  destruct (writer_turn _ _) as [o [w1 wr1]] eqn:Ht. apply turn_append_inv in Ht.
  destruct o as [b|e1|msg|]; try done.
  - destruct Ht as [[off Hse]|[[Hse|[e1 Hse]] Hh]]; rewrite Hse.
    + by rewrite find_reply_app.
    + by rewrite find_reply_none.
    + rewrite find_reply_app by done. simpl. intros [= <- <- <-]. split; [done|by left].
  - intros [= <- <- <-]. split; [done|]. right. by eexists.
Qed.

End failures.
