(* ===== verification/Topic.v ===== *)
(** * Topics (topic.rs)

    A topic is its partitions; records are routed to them by the FNV-1a hash
    of their key, or round-robin.  Methods run on the world and the topic. *)

From S2P Require Import Prelude Bytes Error Compression LogRecord Fs Names Search.
From S2P Require Import Segment SparseIndex Log Partition.
From Stdlib Require Import Ascii.

Record Topic : Type := mkTopic {
  name : string;
  partitions : list Partition;
  config : LogConfig;
  round_robin : Z;
}.

Definition set_partitions (x : list Partition) (t : Topic) : Topic :=
  mkTopic (name t) x (config t) (round_robin t).
Definition set_round_robin (x : Z) (t : Topic) : Topic :=
  mkTopic (name t) (partitions t) (config t) x.

(** ** Routing *)
Definition OFFSET_BASIS : Z := 0xcbf29ce484222325.
Definition PRIME : Z := 0x00000100000001b3.

(** [hash ^= b as u64; hash = hash.wrapping_mul(PRIME)] for each byte. *)
Definition fnv1a_64 (bytes : list byte) : Z :=
  fold_left (fun hash b => as_u64 (Z.lxor hash (Z_of_byte b) * PRIME)) bytes OFFSET_BASIS.

Definition partition_index (key : list byte) (partition_count : Z) : Z :=
  as_u32 (fnv1a_64 key mod partition_count).

Definition partition_count (self : Topic) : Z := as_u32 (len (partitions self)).

Definition partition_for_key (key : list byte) (self : Topic) : Z :=
  partition_index key (partition_count self).

(** [fetch_add] wraps. *)
Definition next_round_robin {E} : M (World * Topic) E Z :=
  let* t := self in
  let n := round_robin t in
  let* _ := modify_self (set_round_robin (u64_add n 1)) in
  ret (as_u32 (n mod partition_count t)).

(** [self.partition(index)] and a call on it. *)
Definition on_partition {A} (i : nat) (m : KM (World * Partition) A) : KM (World * Topic) A :=
  fun '(w, t) =>
    match partitions t !! i with
    | Some p =>
        let '(o, (w', p')) := m (w, p) in (o, (w', set_partitions (<[i := p']> (partitions t)) t))
    | None => (Panic "index out of bounds", (w, t))
    end.
#[global] Arguments on_partition : simpl never.

Section topic.
Context {B : Buf} {H : Crc32} {C : Codecs}.

(** ** Creating and opening *)

(** [for i in indices { .. Partition::open_with_wake .. }]. *)
Fixpoint open_partitions (topic_dir : path) (config : LogConfig) (indices : list Z)
    (partitions : list Partition) : KM World (list Partition) :=
  match indices with
  | [] => ret partitions
  | i :: indices' =>
      let* partition := Partition.open (topic_dir ++ [u32_to_string i]) config in
      open_partitions topic_dir config indices' (partitions ++ [partition])
  end.

Definition from_parts (name : string) (partitions : list Partition) (config : LogConfig) : Topic :=
  mkTopic name partitions config 0.

Definition create (topic_dir : path) (name : string) (partition_count : Z) (config : LogConfig)
    : KM World Topic :=
  if partition_count =? 0 then throw (InvalidPartitionCount 0)
  else
    let* partitions :=
      open_partitions topic_dir config (map Z.of_nat (seq 0 (Z.to_nat partition_count))) [] in
    ret (from_parts name partitions config).

Definition discover_partition_indices (topic_dir : path) : KM World (list Z) :=
  let* entries := io (read_dir topic_dir) in
  ret (omap (fun e =>
    match snd e with
    | NDir => parse_u32 (fst e)
    | NFile _ => None
    end) entries).

Definition layout_none : string :=
  "no partition subdirectories found (a data directory written by kafko <= 0.2 is not compatible with the partitioned 0.3 layout)".
Definition layout_gap (expected actual : Z) : string :=
  "partition indices are not contiguous from 0 (expected " +:+ u32_to_string expected
  +:+ ", found " +:+ u32_to_string actual +:+ ")".

(** [for (expected, &actual) in indices.iter().enumerate()]: the first
    mismatch. *)
Fixpoint first_gap (expected : Z) (indices : list Z) : option (Z * Z) :=
  match indices with
  | [] => None
  | actual :: indices' =>
      if as_u32 expected =? actual then first_gap (expected + 1) indices'
      else Some (expected, actual)
  end.

Definition open (topic_dir : path) (name : string) (config : LogConfig) : KM World Topic :=
  let* found := discover_partition_indices topic_dir in
  let indices := merge_sort Z.le found in
  match indices with
  | [] => throw (InvalidTopicLayout name layout_none)
  | _ =>
      match first_gap 0 indices with
      | Some (expected, actual) => throw (InvalidTopicLayout name (layout_gap expected actual))
      | None =>
          let* partitions := open_partitions topic_dir config indices [] in
          ret (from_parts name partitions config)
      end
  end.

(** [shutdown]: every partition, in order (none shared with another handle). *)
Definition shutdown : KM (World * Topic) unit :=
  let* t := self in
  for_each (seq 0 (length (partitions t))) (fun i => on_partition i Partition.shutdown).

End topic.

(** ** Facts about routing *)
Lemma fnv1a_64_range bytes : is_u64 (fnv1a_64 bytes).
Proof.
  unfold fnv1a_64. assert (is_u64 OFFSET_BASIS) as Hu by (split; vm_compute; congruence).
  revert Hu. generalize OFFSET_BASIS. induction bytes as [|b bytes IH]; intros h Hh; [done|].
  simpl. apply IH. apply as_u64_range.
Qed.

Lemma partition_index_range key n : 0 < n < 2 ^ 32 -> 0 <= partition_index key n < n.
Proof.
  intros Hn. unfold partition_index. pose proof (Z.mod_pos_bound (fnv1a_64 key) n ltac:(lia)).
  rewrite as_u32_small; [done|split; lia].
Qed.

Lemma partition_count_small t : len (partitions t) < 2 ^ 32 -> partition_count t = len (partitions t).
Proof. intros Hl. apply as_u32_small. pose proof (len_nonneg (partitions t)). split; lia. Qed.
