(* ===== verification/Producer.v ===== *)
(** * Producers (producer.rs, position.rs)

    A producer is a handle on a topic: it stamps records, routes each to a
    partition and appends it there.  A batch is split into one append per
    partition and the offsets are put back in input order. *)

From S2P Require Import Prelude Bytes Error Compression LogRecord Fs Names Search.
From S2P Require Import Segment SparseIndex Log Partition Topic.

Record RecordPosition : Type := mkPosition { partition : Z; offset : Z }.

(** [fn current_timestamp_ms]: 0 before the epoch. *)
Definition current_timestamp_ms : KM (World * Topic) Z :=
  in_world (fun w => (Ok (if now_ms w <? 0 then 0 else as_i64 (now_ms w)), w)).

Definition route (key : option (list byte)) : KM (World * Topic) Z :=
  let* t := self in
  match key with
  | Some k => ret (partition_for_key k t)
  | None => next_round_robin
  end.

Section producer.
Context {B : Buf} {H : Crc32} {C : Codecs}.

(** [self.topic.partition(partition).ok_or(..)]. *)
Definition append_to (partition : Z) (record : record) : KM (World * Topic) RecordPosition :=
  let* t := self in
  match partitions t !! Z.to_nat partition with
  | None => throw (InvalidPartitionCount partition)
  | Some _ =>
      let* offset := on_partition (Z.to_nat partition) (Partition.append record) in
      ret (mkPosition partition offset)
  end.

Definition send (key : option (list byte)) (value : list byte) : KM (World * Topic) RecordPosition :=
  let* partition := route key in
  let* now := current_timestamp_ms in
  append_to partition (LogRecord.new now key value).

Definition send_to (partition : Z) (key : option (list byte)) (value : list byte)
    : KM (World * Topic) RecordPosition :=
  let* now := current_timestamp_ms in
  append_to partition (LogRecord.new now key value).

Definition send_record (record : record) : KM (World * Topic) RecordPosition :=
  let* partition := route (LogRecord.key record) in
  append_to partition record.

(** The first loop of [append_batch_routed]: the records by target partition,
    each with its input index. *)
Fixpoint bucket_records (idx : nat) (records : list record) (buckets : list (list (nat * record)))
    : KM (World * Topic) (list (list (nat * record))) :=
  match records with
  | [] => ret buckets
  | record :: records' =>
      let* p := route (LogRecord.key record) in
      match buckets !! Z.to_nat p with
      | Some bucket =>
          bucket_records (S idx) records' (<[Z.to_nat p := bucket ++ [(idx, record)]]> buckets)
      | None => panic "index out of bounds"
      end
  end.

(** [for (input_idx, offset) in indices.into_iter().zip(offsets)]. *)
Fixpoint scatter (p : Z) (indices : list nat) (offsets : list Z) (positions : list RecordPosition)
    : KM (World * Topic) (list RecordPosition) :=
  match indices, offsets with
  | input_idx :: indices', offset :: offsets' =>
      match positions !! input_idx with
      | Some _ => scatter p indices' offsets' (<[input_idx := mkPosition p offset]> positions)
      | None => panic "index out of bounds"
      end
  | _, _ => ret positions
  end.

(** [for (p, bucket) in buckets.into_iter().enumerate()]. *)
Fixpoint write_buckets (p : nat) (buckets : list (list (nat * record)))
    (positions : list RecordPosition) : KM (World * Topic) (list RecordPosition) :=
  match buckets with
  | [] => ret positions
  | bucket :: buckets' =>
      let* positions :=
        (match bucket with
         | [] => ret positions
         | _ =>
             let* offsets := on_partition p (Partition.append_batch (map snd bucket)) in
             scatter (Z.of_nat p) (map fst bucket) offsets positions
         end) in
      write_buckets (S p) buckets' positions
  end.

Definition append_batch_routed (records : list record) : KM (World * Topic) (list RecordPosition) :=
  let* t := self in
  let n := partition_count t in
  let* buckets := bucket_records 0 records (replicate (Z.to_nat n) []) in
  write_buckets 0 buckets (replicate (length records) (mkPosition 0 0)).

Definition send_batch (items : list (option (list byte) * list byte))
    : KM (World * Topic) (list RecordPosition) :=
  match items with
  | [] => ret []
  | _ =>
      let* timestamp_ms := current_timestamp_ms in
      append_batch_routed (map (fun i => LogRecord.new timestamp_ms (fst i) (snd i)) items)
  end.

Definition send_batch_records (records : list record) : KM (World * Topic) (list RecordPosition) :=
  match records with
  | [] => ret []
  | _ => append_batch_routed records
  end.

End producer.
