(* ===== verification/TopicSpec.v ===== *)
(** * Topics and producers against the partitions' logs

    A topic is represented by one abstract log per partition. *)

From S2P Require Import Prelude Bytes Error Compression LogRecord Fs Names Search.
From S2P Require Import Segment SparseIndex Log LogInv LogOps LogSpec Partition PartitionSpec Topic Producer.

Section topic.
Context {B : Buf} {H : Crc32} {C : Codecs}.
Context {R : World -> Log -> alog -> Prop} {LC : LogContract R}.

(** The topic's directory holds one subdirectory per partition, under its
    decimal index; no other subdirectory reads as an index. *)
Record topic_layout (w : World) (dir : path) (n : nat) : Prop := {
  tl_dir : nodes w !! dir = Some NDir;
  tl_parts : forall i, (i < n)%nat -> nodes w !! (dir ++ [u32_to_string (Z.of_nat i)]) = Some NDir;
  tl_only : forall name k, nodes w !! (dir ++ [name]) = Some NDir -> parse_u32 name = Some k ->
    exists i, (i < n)%nat /\ k = Z.of_nat i /\ name = u32_to_string k;
}.

Lemma topic_layout_stays w w' dir x n :
  stays (dir ++ [x]) w w' -> topic_layout w dir n -> topic_layout w' dir n.
Proof.
  intros (_ & _ & _ & Hs) [L1 L2 L3].
  assert (Hsame : forall name, nodes w' !! (dir ++ [name]) = nodes w !! (dir ++ [name])).
  { intros name. apply Hs. intros y E%snoc_inj. destruct E as [E _]. apply (f_equal length) in E.
    rewrite length_app in E. simpl in E. lia. }
  split.
  - rewrite Hs; [done|]. intros y E. apply (f_equal length) in E. rewrite !length_app in E. simpl in E. lia.
  - intros i Hi. rewrite Hsame. by apply L2.
  - intros name k. rewrite Hsame. apply L3.
Qed.

(** Partitions' files changed below [dir]; nothing else. *)
Definition topic_stays (dir : path) : World -> World -> Prop :=
  rtc (fun w w' => exists x, is_Some (parse_u32 x) /\ stays (dir ++ [x]) w w').

Lemma index_name i : Z.of_nat i < 2 ^ 32 -> is_Some (parse_u32 (u32_to_string (Z.of_nat i))).
Proof. intros Hi. rewrite parse_u32_to_string by (split; lia). by eexists. Qed.

Lemma topic_stays_once dir i w w' :
  Z.of_nat i < 2 ^ 32 -> stays (dir ++ [u32_to_string (Z.of_nat i)]) w w' -> topic_stays dir w w'.
Proof. intros Hi Hs. apply rtc_once. eexists. split; [by apply index_name|exact Hs]. Qed.

Lemma topic_stays_limit dir w w' : topic_stays dir w w' -> seg_limit w' = seg_limit w.
Proof. induction 1 as [|w w1 w2 (x & _ & Hx) _ IH]; [done|]. rewrite IH. by eapply stays_limit. Qed.

Record topic_rep (w : World) (dir : path) (t : Topic) (als : list alog) : Prop := {
  tr_len : length (partitions t) = length als;
  tr_count : 0 < len (partitions t) < 2 ^ 32;
  tr_part : forall i p a, partitions t !! i = Some p -> als !! i = Some a -> prep (R := R) w p a;
  tr_dir : forall i p, partitions t !! i = Some p -> pdir p = dir ++ [u32_to_string (Z.of_nat i)];
  tr_config : forall i p, partitions t !! i = Some p -> pconfig p = Topic.config t;
  tr_layout : topic_layout w dir (length als);
}.

Lemma topic_dirs_apart dir i j :
  i <> j -> is_u32 (Z.of_nat i) -> is_u32 (Z.of_nat j) ->
  apart (dir ++ [u32_to_string (Z.of_nat i)]) (dir ++ [u32_to_string (Z.of_nat j)]).
Proof.
  intros Hne Hi Hj. split; [by rewrite !length_app|]. intros E. apply snoc_inj in E as [_ E].
  apply u32_to_string_inj in E; [lia|done|done].
Qed.

(** A call on one partition leaves the others as they are. *)
Lemma on_partition_run {A} (m : KM (World * Partition) A) w w' dir t als i p a p' a' x :
  topic_rep w dir t als -> partitions t !! i = Some p -> als !! i = Some a ->
  m (w, p) = (Ok x, (w', p')) -> prep (R := R) w' p' a' -> pkeeps w p w' p' ->
  on_partition i m (w, t) = (Ok x, (w', set_partitions (<[i := p']> (partitions t)) t))
  /\ topic_rep w' dir (set_partitions (<[i := p']> (partitions t)) t) (<[i := a']> als)
  /\ topic_stays dir w w'.
Proof.
  intros [Hl Hc Hp Hd Hcf Hlay] Hi Ha Hm Hp' (Kc & Kd & Ks). split; [|split].
  { unfold on_partition. by rewrite Hi, Hm. }
  2: { rewrite (Hd i p Hi) in Ks. eapply topic_stays_once; [|exact Ks]. apply lookup_lt_Some in Hi. unfold len in Hc. lia. }
  pose proof (lookup_lt_Some _ _ _ Hi) as Hlt. unfold len in Hc. split; simpl.
  - by rewrite !length_insert.
  - unfold len. by rewrite length_insert.
  - intros j pj aj. rewrite !list_lookup_insert_Some.
    intros [(<- & <- & _)|[Hne Hj]] [(E & <- & _)|[Hne' Hj']]; try done.
    rewrite (Hd i p Hi) in Ks. pose proof (lookup_lt_Some _ _ _ Hj).
    eapply prep_apart; [exact Ks| |by eapply Hp].
    rewrite (Hd j pj Hj). apply topic_dirs_apart; [done|split; lia..].
  - intros j pj. rewrite list_lookup_insert_Some. intros [(<- & <- & _)|[Hne Hj]]; [|by apply Hd].
    rewrite Kd. by apply Hd.
  - intros j pj. rewrite list_lookup_insert_Some. intros [(<- & <- & _)|[Hne Hj]]; [|by eapply Hcf].
    rewrite Kc. by eapply Hcf.
  - rewrite length_insert. rewrite (Hd i p Hi) in Ks. by eapply topic_layout_stays.
Qed.

Lemma topic_rep_lookup w dir t als i :
  topic_rep w dir t als -> (i < length als)%nat ->
  exists p a, partitions t !! i = Some p /\ als !! i = Some a /\ prep (R := R) w p a
    /\ pconfig p = Topic.config t.
Proof.
  intros Ht Hi. destruct (lookup_lt_is_Some_2 als i Hi) as [a Ha].
  rewrite <- (tr_len _ _ _ _ Ht) in Hi. destruct (lookup_lt_is_Some_2 (partitions t) i Hi) as [p Hp].
  exists p, a. split; [done|]. split; [done|]. split; [by eapply tr_part|by eapply tr_config].
Qed.

Lemma topic_rep_count w dir t als : topic_rep w dir t als -> partition_count t = len als.
Proof.
  intros Ht. rewrite partition_count_small by apply Ht. unfold len. by rewrite (tr_len _ _ _ _ Ht).
Qed.

Lemma topic_rep_rr w dir t als n : topic_rep w dir t als -> topic_rep w dir (set_round_robin n t) als.
Proof. intros [? ? ? ? ? ?]. by split. Qed.

(** ** Routing *)
Definition route_of (t : Topic) (key : option (list byte)) : Z :=
  match key with
  | Some k => partition_for_key k t
  | None => round_robin t mod partition_count t
  end.

Definition rr_after (t : Topic) (key : option (list byte)) : Topic :=
  match key with
  | Some _ => t
  | None => set_round_robin (u64_add (round_robin t) 1) t
  end.

Lemma route_run w dir t als key :
  topic_rep w dir t als ->
  route key (w, t) = (Ok (route_of t key), (w, rr_after t key))
  /\ 0 <= route_of t key < len als /\ topic_rep w dir (rr_after t key) als.
Proof.
  intros Ht. pose proof (topic_rep_count _ _ _ _ Ht) as Hpc. pose proof (tr_count _ _ _ _ Ht) as Hc.
  assert (len als = len (partitions t)) as El by (unfold len; by rewrite (tr_len _ _ _ _ Ht)).
  destruct key as [k|]; simpl.
  - split; [done|]. split; [|done]. unfold partition_for_key. rewrite Hpc.
    apply partition_index_range. lia.
  - pose proof (Z.mod_pos_bound (round_robin t) (partition_count t) ltac:(lia)). split; [|split].
    + unfold route. rewrite bind_self. unfold next_round_robin. rewrite bind_self, bind_modify_self.
      unfold ret. rewrite as_u32_small; [done|split; lia].
    + lia.
    + by apply topic_rep_rr.
Qed.

(** ** One record *)
Lemma append_to_run w dir t als p a r :
  topic_rep w dir t als -> als !! p = Some a -> storable (compression (Topic.config t)) r ->
  room w (Topic.config t) [r] -> a_next a + 1 < 2 ^ 64 ->
  exists w' t', append_to (Z.of_nat p) r (w, t) = (Ok (mkPosition (Z.of_nat p) (a_next a)), (w', t'))
    /\ topic_rep w' dir t' (<[p := a_append [r] a]> als)
    /\ Topic.config t' = Topic.config t /\ round_robin t' = round_robin t /\ topic_stays dir w w'.
Proof.
  intros Ht Ha Hs Hr Hn.
  destruct (topic_rep_lookup _ _ _ _ p Ht (lookup_lt_Some _ _ _ Ha)) as (pp & a' & Hp & Ha' & Hprep & Hcf).
  rewrite Ha in Ha'. injection Ha' as <-. rewrite <- Hcf in Hs, Hr.
  destruct (partition_append_run w pp a r Hprep Hs Hr Hn) as (w' & p' & Hrun & Hp' & Hk).
  destruct (on_partition_run _ _ _ _ _ _ p pp a p' _ _ Ht Hp Ha Hrun Hp' Hk) as (Hon & Ht' & Hsy).
  eexists w', _. split; [|split; [exact Ht'|done]].
  unfold append_to. rewrite bind_self, Nat2Z.id, Hp, (bind_Ok _ _ _ _ _ Hon). done.
Qed.

(** ** [send] *)
Lemma send_run w dir t als key value :
  let r := LogRecord.new (if now_ms w <? 0 then 0 else as_i64 (now_ms w)) key value in
  topic_rep w dir t als -> storable (compression (Topic.config t)) r ->
  room w (Topic.config t) [r] -> (forall a, a ∈ als -> a_next a + 1 < 2 ^ 64) ->
  exists w' t' p a,
    Producer.send key value (w, t) = (Ok (mkPosition (Z.of_nat p) (a_next a)), (w', t'))
    /\ als !! p = Some a /\ topic_rep w' dir t' (<[p := a_append [r] a]> als)
    /\ Z.of_nat p = route_of t key /\ (forall k, key = Some k -> Z.of_nat p = partition_for_key k t)
    /\ topic_stays dir w w' /\ Topic.config t' = Topic.config t.
Proof.
  intros r Ht Hs Hr Hb. destruct (route_run w dir t als key Ht) as (Hrt & Hrg & Ht1).
  set (p := Z.to_nat (route_of t key)). unfold len in Hrg.
  destruct (lookup_lt_is_Some_2 als p ltac:(lia)) as [a Ha].
  assert (Hcf : Topic.config (rr_after t key) = Topic.config t) by by destruct key.
  destruct (append_to_run w dir (rr_after t key) als p a r Ht1 Ha) as (w' & t' & Hrun & Ht' & Hcf' & _ & Hsy);
    [by rewrite Hcf..|by apply Hb, list_elem_of_lookup_2 with p|].
  assert (E : Z.of_nat p = route_of t key) by lia.
  exists w', t', p, a. split; [|split; [done|split; [done|split; [done|split; [by intros k ->|]]]]].
  2: { by rewrite Hcf', Hcf. }
  unfold Producer.send. rewrite (bind_Ok _ _ _ _ _ Hrt).
  assert (Hnow : Producer.current_timestamp_ms (w, rr_after t key)
    = (Ok (if now_ms w <? 0 then 0 else as_i64 (now_ms w)), (w, rr_after t key))) by done.
  rewrite (bind_Ok _ _ _ _ _ Hnow). fold r. by rewrite <- E.
Qed.

(** ** Taking turns *)
Fixpoint picks (n : nat) : KM (World * Topic) (list Z) :=
  match n with
  | O => ret []
  | S n' => let* p := next_round_robin in let* ps := picks n' in ret (p :: ps)
  end.

Lemma picks_run n w t :
  0 < len (partitions t) < 2 ^ 32 -> 0 <= round_robin t -> round_robin t + Z.of_nat n < 2 ^ 64 ->
  exists t', picks n (w, t) =
    (Ok (map (fun i => (round_robin t + Z.of_nat i) mod len (partitions t)) (seq 0 n)), (w, t')).
Proof.
  intros Hl. revert t Hl. induction n as [|n IH]; intros t Hl H0 Hb; simpl; [by exists t|].
  unfold next_round_robin at 1. rewrite bind_bind, bind_self, bind_bind, bind_modify_self, bind_ret.
  rewrite u64_add_small by lia.
  destruct (IH (set_round_robin (round_robin t + 1) t)) as (t' & Hrun); simpl; [done|lia|lia|].
  simpl in Hrun. rewrite (bind_Ok _ _ _ _ _ Hrun). exists t'. unfold ret. do 2 f_equal.
  rewrite (partition_count_small t) by lia.
  pose proof (Z.mod_pos_bound (round_robin t) (len (partitions t)) ltac:(lia)).
  rewrite as_u32_small by (split; lia). rewrite Z.add_0_r. f_equal. rewrite <- seq_shift, map_map.
  apply map_ext. intros i. f_equal. lia.
Qed.

Lemma picks_fair w t :
  0 < len (partitions t) < 2 ^ 32 -> 0 <= round_robin t -> round_robin t + len (partitions t) < 2 ^ 64 ->
  exists ps t', picks (length (partitions t)) (w, t) = (Ok ps, (w, t'))
    /\ ps ≡ₚ map Z.of_nat (seq 0 (length (partitions t))).
Proof.
  intros Hl H0 Hb. destruct (picks_run (length (partitions t)) w t Hl H0 Hb) as (t' & Hrun).
  eexists _, t'. split; [exact Hrun|]. unfold len in *. set (n := length (partitions t)) in *.
  set (c := round_robin t). apply NoDup_Permutation.
  - apply NoDup_fmap_2_strong; [|apply NoDup_seq]. intros i j Hi%elem_of_seq Hj%elem_of_seq E.
    pose proof (Z.div_mod (c + Z.of_nat i) (Z.of_nat n) ltac:(lia)) as E1.
    pose proof (Z.div_mod (c + Z.of_nat j) (Z.of_nat n) ltac:(lia)) as E2. rewrite E in E1.
    set (q1 := (c + Z.of_nat i) / Z.of_nat n) in *. set (q2 := (c + Z.of_nat j) / Z.of_nat n) in *.
    assert (q1 = q2) by (destruct (Z.lt_trichotomy q1 q2) as [|[|]]; nia). nia.
  - apply NoDup_fmap_2; [intros i j; lia|apply NoDup_seq].
  - intros x. rewrite !list_elem_of_fmap. split.
    + intros (i & -> & Hi). pose proof (Z.mod_pos_bound (c + Z.of_nat i) (Z.of_nat n) ltac:(lia)).
      exists (Z.to_nat ((c + Z.of_nat i) mod Z.of_nat n)). split; [lia|]. apply elem_of_seq. lia.
    + intros (i & -> & Hi%elem_of_seq). exists (Z.to_nat ((Z.of_nat i - c) mod Z.of_nat n)).
      pose proof (Z.mod_pos_bound (Z.of_nat i - c) (Z.of_nat n) ltac:(lia)). split; [|apply elem_of_seq; lia].
      rewrite Z2Nat.id by lia. rewrite Z.add_mod_idemp_r by lia.
      replace (c + (Z.of_nat i - c)) with (Z.of_nat i) by lia. symmetry. apply Z.mod_small. lia.
Qed.

(** ** Batches *)

(** The partition of each record of a batch, and the topic after routing. *)
Fixpoint route_all (t : Topic) (rs : list record) : list Z * Topic :=
  match rs with
  | [] => ([], t)
  | r :: rs' =>
      let '(ps, t') := route_all (rr_after t (key r)) rs' in (route_of t (key r) :: ps, t')
  end.

(** The records routed to [p], each with its input index, from [idx] on. *)
Fixpoint bucket_of (p : Z) (idx : nat) (rs : list record) (ps : list Z) : list (nat * record) :=
  match rs, ps with
  | r :: rs', q :: ps' => (if q =? p then [(idx, r)] else []) ++ bucket_of p (S idx) rs' ps'
  | _, _ => []
  end.

(** The records a batch puts into partition [p]. *)
Definition bucket (t : Topic) (rs : list record) (p : nat) : list (nat * record) :=
  bucket_of (Z.of_nat p) 0 rs (fst (route_all t rs)).

Lemma bucket_of_lookup p idx rs ps k i r :
  bucket_of p idx rs ps !! k = Some (i, r) ->
  (idx <= i)%nat /\ rs !! (i - idx)%nat = Some r /\ ps !! (i - idx)%nat = Some p.
Proof.
  revert idx ps k. induction rs as [|r' rs IH]; intros idx [|q ps] k; try done. cbn [bucket_of].
  rewrite lookup_app_Some. intros [Hk|[_ Hk]].
  - destruct (Z.eqb_spec q p) as [->|]; [|done]. apply list_lookup_singleton_Some in Hk as [_ [= <- <-]].
    by rewrite Nat.sub_diag.
  - destruct (IH _ _ _ Hk) as (Hle & Hr & Hp). split; [lia|].
    by replace (i - idx)%nat with (S (i - S idx)) by lia.
Qed.

Lemma bucket_of_complete p idx rs ps j r :
  rs !! j = Some r -> ps !! j = Some p -> exists k, bucket_of p idx rs ps !! k = Some ((idx + j)%nat, r).
Proof.
  revert idx ps j. induction rs as [|r' rs IH]; intros idx [|q ps] [|j] Hr Hp; try done; cbn [bucket_of].
  - injection Hr as ->. injection Hp as ->. rewrite Z.eqb_refl. exists 0%nat. by rewrite Nat.add_0_r.
  - destruct (IH (S idx) ps j Hr Hp) as [k Hk].
    exists (length (if (q =? p)%Z then [(idx, r')] else []) + k)%nat.
    rewrite lookup_app_r, Nat.add_comm, Nat.add_sub by lia. rewrite Hk. do 2 f_equal. lia.
Qed.

Lemma bucket_of_NoDup p idx rs ps : NoDup (map fst (bucket_of p idx rs ps)).
Proof.
  revert idx ps. induction rs as [|r rs IH]; intros idx [|q ps]; simpl; try constructor.
  destruct (q =? p); simpl; [|done]. constructor; [|done].
  intros Hin%list_elem_of_fmap. destruct Hin as ([i r'] & -> & Hin).
  apply list_elem_of_lookup in Hin as [k Hk]. apply bucket_of_lookup in Hk as [? _]. simpl in *. lia.
Qed.

Lemma bucket_of_length p idx rs ps : (length (bucket_of p idx rs ps) <= length rs)%nat.
Proof.
  revert idx ps. induction rs as [|r rs IH]; intros idx [|q ps]; simpl; [lia|lia|lia|].
  rewrite length_app. specialize (IH (S idx) ps). destruct (q =? p); simpl; lia.
Qed.

Lemma bucket_of_records p idx rs ps r : r ∈ map snd (bucket_of p idx rs ps) -> r ∈ rs.
Proof.
  intros Hin%list_elem_of_fmap. destruct Hin as ([i r'] & -> & Hin).
  apply list_elem_of_lookup in Hin as [k Hk]. apply bucket_of_lookup in Hk as (_ & Hr & _).
  simpl. by eapply list_elem_of_lookup_2.
Qed.

Lemma length_route_all t rs : length (fst (route_all t rs)) = length rs.
Proof.
  revert t. induction rs as [|r rs IH]; intros t; simpl; [done|]. specialize (IH (rr_after t (key r))).
  destruct (route_all _ rs). simpl in *. lia.
Qed.

Lemma route_all_rep w dir t als rs :
  topic_rep w dir t als ->
  Forall (fun p => 0 <= p < len als) (fst (route_all t rs)) /\ topic_rep w dir (snd (route_all t rs)) als.
Proof.
  revert t. induction rs as [|r rs IH]; intros t Ht; simpl; [by split|].
  destruct (route_run w dir t als (key r) Ht) as (_ & Hb & Ht').
  specialize (IH _ Ht'). destruct (route_all _ rs). simpl in *. destruct IH. split; [by constructor|done].
Qed.

Lemma route_all_config t rs : Topic.config (snd (route_all t rs)) = Topic.config t.
Proof.
  revert t. induction rs as [|r rs IH]; intros t; simpl; [done|]. specialize (IH (rr_after t (key r))).
  destruct (route_all _ rs). simpl in *. rewrite IH. by destruct (key r).
Qed.

Lemma bucket_records_run w dir t als rs idx bs :
  topic_rep w dir t als -> length bs = length als ->
  bucket_records idx rs bs (w, t) =
  (Ok (imap (fun p b => b ++ bucket_of (Z.of_nat p) idx rs (fst (route_all t rs))) bs),
   (w, snd (route_all t rs))).
Proof.
  revert t idx bs. induction rs as [|r rs IH]; intros t idx bs Ht Hl; simpl.
  { unfold ret. do 2 f_equal. apply list_eq. intros i. rewrite list_lookup_imap.
    destruct (bs !! i); simpl; by rewrite ?app_nil_r. }
  destruct (route_run w dir t als (key r) Ht) as (Hr & Hb & Ht').
  rewrite (bind_Ok _ _ _ _ _ Hr). set (p := route_of t (key r)) in *.
  destruct (lookup_lt_is_Some_2 bs (Z.to_nat p)) as [b Hbk]; [unfold len in Hb; lia|].
  rewrite Hbk, IH; [|done|by rewrite length_insert].
  destruct (route_all (rr_after t (key r)) rs) as [ps t'] eqn:Hra. simpl. do 2 f_equal.
  apply list_eq. intros i. rewrite !list_lookup_imap. destruct (decide (i = Z.to_nat p)) as [->|Hne].
  - rewrite list_lookup_insert_eq by (eapply lookup_lt_Some; done). rewrite Hbk. simpl.
    rewrite Z2Nat.id, Z.eqb_refl by lia. by rewrite <- app_assoc.
  - rewrite list_lookup_insert_ne by done. destruct (bs !! i); simpl; [|done].
    by rewrite (proj2 (Z.eqb_neq p (Z.of_nat i))) by lia.
Qed.

Lemma scatter_run (st : World * Topic) p indices offsets positions :
  length offsets = length indices -> NoDup indices ->
  Forall (fun i => i < length positions)%nat indices ->
  exists positions', scatter p indices offsets positions st = (Ok positions', st)
    /\ length positions' = length positions
    /\ (forall k i o, indices !! k = Some i -> offsets !! k = Some o ->
         positions' !! i = Some (mkPosition p o))
    /\ (forall i, i ∉ indices -> positions' !! i = positions !! i).
Proof.
  intros Hl Hnd. revert offsets positions Hl.
  induction Hnd as [|i indices Hi _ IH]; intros [|o offsets] positions Hl Hf; try done; simpl.
  { by exists positions. }
  apply Forall_cons in Hf as [Hlt Hf]. destruct (lookup_lt_is_Some_2 positions i Hlt) as [x ->].
  destruct (IH offsets (<[i := mkPosition p o]> positions)) as (ps & Hrun & Hlp & Hin & Hout).
  { simpl in Hl. lia. } { by rewrite length_insert. }
  exists ps. split; [done|]. split; [by rewrite Hlp, length_insert|]. split.
  - intros [|k] i' o' Hk Ho; simpl in Hk, Ho.
    + injection Hk as <-. injection Ho as <-. rewrite Hout by done. by rewrite list_lookup_insert_eq.
    + by eapply Hin.
  - intros i' [Hne Hni]%not_elem_of_cons. rewrite Hout by done. by rewrite list_lookup_insert_ne.
Qed.

Lemma bucket_of_room w cfg p idx rs ps : room w cfg rs -> room w cfg (map snd (bucket_of p idx rs ps)).
Proof.
  assert (forall cmp, len (concat (frames (wires cmp (map snd (bucket_of p idx rs ps)))))
                      <= len (concat (frames (wires cmp rs)))) as Hf.
  { intros cmp. revert idx ps. induction rs as [|r rs IH]; intros idx [|q ps]; simpl; try apply len_nonneg.
    specialize (IH (S idx) ps). pose proof (len_nonneg (wire cmp r)).
    destruct (q =? p); simpl; rewrite ?len_app; lia. }
  assert (total_wire_size (map snd (bucket_of p idx rs ps)) <= total_wire_size rs) as Ht.
  { clear Hf. revert idx ps. induction rs as [|r rs IH]; intros idx [|q ps]; simpl;
      try apply (total_wire_size_nonneg []); try apply (total_wire_size_nonneg (_ :: _)).
    specialize (IH (S idx) ps). pose proof (wire_size_nonneg r). destruct (q =? p); simpl; lia. }
  intros [H1 H2 H3]. specialize (Hf (compression cfg)). split; [done|lia|lia].
Qed.

(** The buckets from partition [p0] on. *)
Definition buckets_from (p0 n : nat) (rs : list record) (ps : list Z) : list (list (nat * record)) :=
  map (fun p => bucket_of (Z.of_nat p) 0 rs ps) (seq p0 n).

(** One bucket: its records go to its partition, in one append. *)
Lemma one_bucket_run w dir t als p0 a rs ps positions :
  topic_rep w dir t als -> als !! p0 = Some a -> length positions = length rs ->
  Forall (storable (compression (Topic.config t))) rs -> room w (Topic.config t) rs ->
  a_next a + len rs < 2 ^ 64 ->
  let b := bucket_of (Z.of_nat p0) 0 rs ps in
  exists w1 t1 pos1,
    (match b with
     | [] => ret positions
     | _ => let* offsets := on_partition p0 (Partition.append_batch (map snd b)) in
            scatter (Z.of_nat p0) (map fst b) offsets positions
     end) (w, t) = (Ok pos1, (w1, t1))
    /\ topic_rep w1 dir t1 (<[p0 := a_append (map snd b) a]> als)
    /\ Topic.config t1 = Topic.config t /\ round_robin t1 = round_robin t
    /\ topic_stays dir w w1 /\ length pos1 = length positions
    /\ (forall k i r, b !! k = Some (i, r) ->
          pos1 !! i = Some (mkPosition (Z.of_nat p0) (a_next a + Z.of_nat k)))
    /\ (forall i, i ∉ map fst b -> pos1 !! i = positions !! i).
Proof.
  intros Ht Ha Hlp Hst Hro Hnx b. pose proof (bucket_of_length (Z.of_nat p0) 0 rs ps) as Hbl. fold b in Hbl.
  destruct (topic_rep_lookup _ _ _ _ p0 Ht (lookup_lt_Some _ _ _ Ha)) as (pp & a' & Hp & Ha' & Hprep & Hcf).
  rewrite Ha in Ha'. injection Ha' as <-. destruct (decide (b = [])) as [->|Hne].
  { exists w, t, positions. rewrite a_append_nil, list_insert_id by done. split; [done|].
    split; [done|]. do 2 (split; [done|]). split; [by apply rtc_refl|]. by split_and!. }
  assert (Hbst : Forall (storable (compression (Topic.config t))) (map snd b)).
  { rewrite Forall_forall in Hst |- *. intros r Hr. by eapply Hst, bucket_of_records. }
  pose proof (bucket_of_room w (Topic.config t) (Z.of_nat p0) 0 rs ps Hro) as Hbro. fold b in Hbro.
  rewrite <- Hcf in Hbst, Hbro.
  destruct (partition_append_batch_run w pp a (map snd b) Hprep Hbst Hbro) as (w1 & pp1 & Hrun & Hp1 & Hk).
  { unfold len in *. rewrite length_map. lia. }
  destruct (on_partition_run _ _ _ _ _ _ p0 pp a pp1 _ _ Ht Hp Ha Hrun Hp1 Hk) as (Hon & Ht1 & Hsy).
  destruct (scatter_run (w1, set_partitions (<[p0 := pp1]> (partitions t)) t) (Z.of_nat p0) (map fst b)
    (offsets_from (a_next a) (length (map snd b))) positions) as (pos1 & Hsc & Hlen & Hin & Hout).
  { by rewrite length_offsets_from, !length_map. }
  { apply bucket_of_NoDup. }
  { apply Forall_map, Forall_lookup_2. intros k [i r] Hki. apply bucket_of_lookup in Hki as (_ & Hr & _).
    rewrite Nat.sub_0_r in Hr. apply lookup_lt_Some in Hr. simpl. lia. }
  exists w1, (set_partitions (<[p0 := pp1]> (partitions t)) t), pos1. split.
  { destruct b as [|b0 b']; [done|]. by rewrite (bind_Ok _ _ _ _ _ Hon). }
  split; [done|]. do 2 (split; [done|]). split; [done|]. split; [done|].
  split; [|done]. intros k i r Hki. eapply Hin; [by rewrite list_lookup_fmap, Hki|].
  apply offsets_from_lookup. rewrite length_map. by eapply lookup_lt_Some.
Qed.

(** What writing the buckets from [p0] on does to the logs and to the
    positions. *)
Lemma write_buckets_run n w dir t als p0 rs ps positions :
  topic_rep w dir t als -> (p0 + n = length als)%nat -> length positions = length rs ->
  Forall (storable (compression (Topic.config t))) rs -> room w (Topic.config t) rs ->
  (forall p a, (p0 <= p)%nat -> als !! p = Some a -> a_next a + len rs < 2 ^ 64) ->
  exists w' t' positions',
    write_buckets p0 (buckets_from p0 n rs ps) positions (w, t) = (Ok positions', (w', t'))
    /\ topic_rep w' dir t' (imap (fun p a => if (p <? p0)%nat then a
                             else a_append (map snd (bucket_of (Z.of_nat p) 0 rs ps)) a) als)
    /\ Topic.config t' = Topic.config t /\ round_robin t' = round_robin t
    /\ topic_stays dir w w' /\ length positions' = length positions
    /\ (forall p k i r a, (p0 <= p)%nat -> bucket_of (Z.of_nat p) 0 rs ps !! k = Some (i, r) ->
         als !! p = Some a -> positions' !! i = Some (mkPosition (Z.of_nat p) (a_next a + Z.of_nat k)))
    /\ (forall i, (forall p k r, (p0 <= p)%nat -> bucket_of (Z.of_nat p) 0 rs ps !! k <> Some (i, r)) ->
         positions' !! i = positions !! i).
Proof.
  revert w t als p0 positions. induction n as [|n IH]; intros w t als p0 positions Ht Hn Hlp Hst Hro Hnx.
  { exists w, t, positions. split; [done|]. split.
    { replace (imap _ als) with als; [done|]. apply list_eq. intros i. rewrite list_lookup_imap.
      destruct (als !! i) eqn:E; simpl; [|done]. apply lookup_lt_Some in E.
      by rewrite (proj2 (Nat.ltb_lt _ _)) by lia. }
    do 2 (split; [done|]). split; [by apply rtc_refl|]. split; [done|]. split; [|done]. intros p k i r a Hp _ Ha.
    apply lookup_lt_Some in Ha. lia. }
  unfold buckets_from. cbn [seq map write_buckets]. fold (buckets_from (S p0) n rs ps).
  set (b := bucket_of (Z.of_nat p0) 0 rs ps).
  destruct (topic_rep_lookup _ _ _ _ p0 Ht ltac:(lia)) as (pp & a & Hp & Ha & Hprep & Hcf).
  destruct (one_bucket_run w dir t als p0 a rs ps positions Ht Ha Hlp Hst Hro (Hnx p0 a ltac:(lia) Ha))
    as (w1 & t1 & pos1 & Hrun1 & Ht1 & Hc1 & Hrr1 & Hsy1 & Hlen1 & Hin1 & Hout1).
  cbv zeta in *. fold b in Hrun1, Ht1, Hin1, Hout1 |- *.
  rewrite (bind_Ok _ _ _ _ _ Hrun1).
  destruct (IH w1 t1 (<[p0 := a_append (map snd b) a]> als) (S p0) pos1)
    as (w2 & t2 & pos2 & Hrun2 & Ht2 & Hc2 & Hrr2 & Hsy2 & Hlen2 & Hin2 & Hout2).
  { done. } { rewrite length_insert. lia. } { lia. } { by rewrite Hc1. }
  { rewrite Hc1. destruct Hro. split; try done. by rewrite (topic_stays_limit _ _ _ Hsy1). }
  { intros p a' Hle Ha'. rewrite list_lookup_insert_ne in Ha' by lia. eapply Hnx; [|done]. lia. }
  exists w2, t2, pos2. split; [exact Hrun2|]. split.
  { replace (imap _ als) with (imap (fun p a0 => if (p <? S p0)%nat then a0
      else a_append (map snd (bucket_of (Z.of_nat p) 0 rs ps)) a0) (<[p0 := a_append (map snd b) a]> als)); [done|].
    apply list_eq. intros j. rewrite !list_lookup_imap. destruct (decide (j = p0)) as [->|Hne].
    - rewrite list_lookup_insert_eq, Ha by (by eapply lookup_lt_Some). simpl.
      rewrite Nat.ltb_irrefl. by rewrite (proj2 (Nat.ltb_lt _ _)) by lia.
    - rewrite list_lookup_insert_ne by done. destruct (als !! j); simpl; [|done]. f_equal.
      destruct (Nat.ltb_spec j p0); [by rewrite (proj2 (Nat.ltb_lt _ _)) by lia|].
      by rewrite (proj2 (Nat.ltb_ge _ _)) by lia. }
  do 2 (split; [congruence|]). split; [by etrans|]. split; [congruence|]. split.
  - intros p k i r a' Hle Hki Ha'. destruct (decide (p = p0)) as [->|Hne].
    + rewrite Ha in Ha'. injection Ha' as <-. rewrite Hout2; [by eapply Hin1|].
      intros p' k' r' Hlt Hk'. apply bucket_of_lookup in Hki as (_ & _ & E1), Hk' as (_ & _ & E2).
      rewrite E1 in E2. injection E2 as E2. lia.
    + eapply Hin2; [lia|done|]. by rewrite list_lookup_insert_ne by done.
  - intros i Hi. rewrite Hout2 by (intros p k r Hle; apply Hi; lia). apply Hout1.
    intros Hin%list_elem_of_fmap. destruct Hin as ([i' r] & -> & Hin).
    apply list_elem_of_lookup in Hin as [k Hk]. by apply (Hi p0 k r ltac:(lia)).
Qed.

(** ** The contract of a batch

    Every partition gets the records routed to it, in input order, in one
    append; the position returned for a record is where it is. *)
Lemma append_batch_routed_run w dir t als rs :
  topic_rep w dir t als -> Forall (storable (compression (Topic.config t))) rs ->
  room w (Topic.config t) rs -> (forall a, a ∈ als -> a_next a + len rs < 2 ^ 64) ->
  exists w' t' positions,
    append_batch_routed rs (w, t) = (Ok positions, (w', t'))
    /\ topic_rep w' dir t' (imap (fun p a => a_append (map snd (bucket t rs p)) a) als)
    /\ length positions = length rs
    /\ (forall i r, rs !! i = Some r -> exists p k a,
          fst (route_all t rs) !! i = Some (Z.of_nat p) /\ als !! p = Some a
          /\ bucket t rs p !! k = Some (i, r)
          /\ positions !! i = Some (mkPosition (Z.of_nat p) (a_next a + Z.of_nat k)))
    /\ topic_stays dir w w' /\ Topic.config t' = Topic.config t.
Proof.
  intros Ht Hst Hro Hnx. unfold append_batch_routed. rewrite bind_self. cbv zeta.
  rewrite (topic_rep_count _ _ _ _ Ht). unfold len at 1. rewrite Nat2Z.id.
  rewrite (bind_Ok _ _ _ _ _ (bucket_records_run w dir t als rs 0 _ Ht (length_replicate _ _))).
  destruct (route_all_rep w dir t als rs Ht) as [Hra Ht'].
  set (ps := fst (route_all t rs)) in *. set (t1 := snd (route_all t rs)) in *.
  replace (imap _ (replicate (length als) [])) with (buckets_from 0 (length als) rs ps).
  2: { apply list_eq. intros j. unfold buckets_from. rewrite list_lookup_imap, list_lookup_fmap.
       destruct (decide (j < length als)%nat).
       - rewrite lookup_seq_lt, lookup_replicate_2 by done. done.
       - rewrite lookup_seq_ge, (lookup_ge_None_2 (replicate _ _)) by (rewrite ?length_replicate; lia). done. }
  destruct (write_buckets_run (length als) w dir t1 als 0 rs ps (replicate (length rs) (mkPosition 0 0)) Ht')
    as (w' & t' & positions & Hrun & Ht2 & Hc2 & _ & Hsy & Hlen & Hin & _); rewrite ?route_all_config; try done.
  { apply length_replicate. }
  { unfold t1. by rewrite route_all_config. } { unfold t1. by rewrite route_all_config. }
  { intros p a _ Ha. apply Hnx. by eapply list_elem_of_lookup_2. }
  exists w', t', positions. split; [exact Hrun|]. split; [exact Ht2|].
  split; [by rewrite Hlen, length_replicate|].
  split; [|split; [done|by rewrite Hc2; unfold t1; rewrite route_all_config]]. intros i r Hi.
  destruct (lookup_lt_is_Some_2 ps i) as [q Hq].
  { unfold ps. rewrite length_route_all. by eapply lookup_lt_Some. }
  rewrite Forall_lookup in Hra. specialize (Hra i q Hq).
  destruct (lookup_lt_is_Some_2 als (Z.to_nat q)) as [a Ha]; [unfold len in Hra; lia|].
  exists (Z.to_nat q). rewrite Z2Nat.id by lia.
  destruct (bucket_of_complete q 0 rs ps i r Hi Hq) as [k Hk]. exists k, a. split; [done|]. split; [done|].
  assert (Hk' : bucket_of (Z.of_nat (Z.to_nat q)) 0 rs ps !! k = Some (i, r)) by (rewrite Z2Nat.id by lia; done).
  split; [done|]. rewrite (Hin (Z.to_nat q) k i r a ltac:(lia) Hk' Ha). by rewrite Z2Nat.id by lia.
Qed.

End topic.
