(* ===== verification/TopicStore.v ===== *)
(** * Topics on disk

    Creating, shutting down and reopening a topic: after a shutdown, a crash
    and a restart every partition is back with its records, and two topics in
    one data directory do not disturb each other. *)

From S2P Require Import Prelude Bytes Error Compression LogRecord Fs Names Search.
From S2P Require Import Segment SparseIndex Log LogInv LogRecover LogCrash LogSpec LogStore.
From S2P Require Import Partition PartitionSpec Topic Producer TopicSpec.

Section store.
Context {B : Buf} {H : Crc32} {C : Codecs}.
Context {R S : World -> Log -> alog -> Prop} {D : World -> path -> alog -> Prop}.
Context {LC : LogContract R} {LS : LogStore R S D}.

(** ** One partition *)
Lemma partition_open_run w d a cfg :
  usable cfg -> D w d a -> exists w' p, Partition.open d cfg w = (Ok p, w') /\ prep (R := R) w' p a
    /\ pdir p = d /\ pconfig p = cfg /\ grows d w w'.
Proof.
  intros Hu Hd. destruct (ls_open w d a cfg Hd) as (w' & l & Ho & Hr & Hdl & Hcf & Hg).
  eexists w', _. unfold Partition.open. rewrite (bind_Ok _ _ _ _ _ Ho), (proj2 (Z.eqb_neq _ _) Hu).
  split; [reflexivity|]. split; [|done]. split; [|done|constructor]. split; [done| |done]. by eapply lc_next.
Qed.

(** A partition whose task has exited, with everything on the device. *)
Record pclosed (w : World) (p : Partition) (a : alog) : Prop := {
  pc_log : S w (log (writer p)) a;
  pc_status : status p = Exited None;
}.

Lemma partition_shutdown_run w p a :
  prep (R := R) w p a ->
  exists w' p', Partition.shutdown (w, p) = (Ok tt, (w', p')) /\ pclosed w' p' a /\ pkeeps w p w' p'.
Proof.
  intros [[Hr Hh Hf] Hru Hids]. unfold Partition.shutdown. rewrite Hru. cbn [serve].
  unfold writer_turn. rewrite bind_bind, bind_self. change (inbox (set_inbox [] (writer p))) with (@nil PartitionCommand).
  cbv iota. rewrite bind_ret. cbv iota.
  destruct (ls_sync w (log (writer p)) a Hr) as (w1 & l1 & Hrun & Hs & Hk).
  rewrite (bind_Ok _ _ _ _ _ (on_log_Ok _ w (set_inbox [] (writer p)) w1 l1 _ Hrun)).
  unfold signal, modify_self. simpl. eexists w1, _. split; [reflexivity|]. by split.
Qed.

(** ** Directories that do not disturb each other *)
Definition pd (dir : path) (i : nat) : path := dir ++ [u32_to_string (Z.of_nat i)].

Lemma pd_apart dir i j : i <> j -> Z.of_nat i < 2 ^ 32 -> Z.of_nat j < 2 ^ 32 -> apart (pd dir i) (pd dir j).
Proof. intros Hne Hi Hj. apply topic_dirs_apart; [done|split; lia..]. Qed.

(** Partitions were opened below [dir]. *)
Definition topic_grows (dir : path) : World -> World -> Prop :=
  rtc (fun w w' => exists x, is_Some (parse_u32 x) /\ grows (dir ++ [x]) w w').

Lemma grows_outside d w w' p :
  grows d w w' -> (length p <= length d)%nat -> ~ p `prefix_of` d -> nodes w' !! p = nodes w !! p.
Proof.
  intros (_ & _ & _ & _ & G5) Hl Hp. apply G5; [by left|]. intros x ->.
  rewrite length_app in Hl. simpl in Hl. lia.
Qed.

Lemma prefix_snoc_inv (p d : path) x : p `prefix_of` d ++ [x] -> p = d ++ [x] \/ p `prefix_of` d.
Proof.
  intros [k E]. destruct k as [|y k _] using rev_ind; [left; by rewrite app_nil_r in E|right].
  rewrite app_assoc in E. apply snoc_inj in E as [-> _]. by eexists.
Qed.

(** ** Opening the partitions *)
Record parts_rep (w : World) (dir : path) (cfg : LogConfig) (ps : list Partition) (als : list alog) : Prop := {
  ps_len : length ps = length als;
  ps_part : forall i p a, ps !! i = Some p -> als !! i = Some a -> prep (R := R) w p a;
  ps_dir : forall i p, ps !! i = Some p -> pdir p = pd dir i;
  ps_config : forall i p, ps !! i = Some p -> pconfig p = cfg;
}.

Lemma parts_rep_snoc w w' dir cfg ps als p a :
  parts_rep w dir cfg ps als -> len (als ++ [a]) < 2 ^ 32 -> grows (pd dir (length als)) w w' ->
  prep (R := R) w' p a -> pdir p = pd dir (length als) -> pconfig p = cfg ->
  parts_rep w' dir cfg (ps ++ [p]) (als ++ [a]).
Proof.
  intros [P1 P2 P3 P4] Hb Hg Hp Hd Hc. rewrite len_app in Hb. unfold len in Hb. simpl in Hb. split.
  - by rewrite !length_app, P1.
  - intros i q b Hq Hb'. apply lookup_app_Some in Hq as [Hq|[Hge Hq]].
    + pose proof (lookup_lt_Some _ _ _ Hq). rewrite lookup_app_l in Hb' by lia.
      destruct (P2 i q b Hq Hb') as [[Hr Hh Hf] Hru Hi]. split; [|done|done]. split; [|done|done].
      eapply ls_grows; [exact Hg| |done]. pose proof (P3 i q Hq) as E. unfold pdir in E. rewrite E.
      apply pd_apart; lia.
    + apply list_lookup_singleton_Some in Hq as [E <-].
      rewrite lookup_app_r in Hb' by lia. replace (i - length als)%nat with 0%nat in Hb' by lia.
      by injection Hb' as <-.
  - intros i q Hq. apply lookup_app_Some in Hq as [Hq|[Hge Hq]]; [by apply P3|].
    apply list_lookup_singleton_Some in Hq as [E <-]. by replace i with (length als) by lia.
  - intros i q Hq. apply lookup_app_Some in Hq as [Hq|[Hge Hq]]; [by eapply P4|].
    by apply list_lookup_singleton_Some in Hq as [E <-].
Qed.

Lemma open_partitions_run dir cfg als2 w als1 ps :
  usable cfg -> parts_rep w dir cfg ps als1 -> len (als1 ++ als2) < 2 ^ 32 ->
  (forall j a, als2 !! j = Some a -> D w (pd dir (length als1 + j)) a) ->
  exists w' ps',
    open_partitions dir cfg (map Z.of_nat (seq (length als1) (length als2))) ps w = (Ok ps', w')
    /\ parts_rep w' dir cfg ps' (als1 ++ als2)
    /\ rtc (fun w w' => exists j, (length als1 <= j < length als1 + length als2)%nat /\ grows (pd dir j) w w') w w'.
Proof.
  intros Hu. revert w als1 ps. induction als2 as [|a als2 IH]; intros w als1 ps Hps Hb Hd.
  { exists w, ps. rewrite app_nil_r. split; [done|]. by split. }
  cbn [length seq map open_partitions].
  destruct (partition_open_run w (pd dir (length als1)) a cfg Hu) as (w1 & p & Ho & Hp & Hpd & Hpc & Hg).
  { rewrite <- (Nat.add_0_r (length als1)) at 1. by apply Hd. }
  fold (pd dir (length als1)). rewrite (bind_Ok _ _ _ _ _ Ho).
  assert (Hb' : len (als1 ++ [a]) < 2 ^ 32 /\ len ((als1 ++ [a]) ++ als2) < 2 ^ 32).
  { rewrite <- app_assoc. split; [|done]. rewrite !len_app in *. unfold len in *. simpl in *. lia. }
  destruct (IH w1 (als1 ++ [a]) (ps ++ [p])) as (w2 & ps' & Hrun & Hps' & Hgs); [eapply parts_rep_snoc; try done; apply Hb'|apply Hb'|..].
  { intros j b Hj. eapply ls_disk_grows; [exact Hg| |].
    - apply lookup_lt_Some in Hj. destruct Hb' as [_ Hb']. rewrite !len_app in Hb'. unfold len in Hb'. simpl in Hb'.
      apply pd_apart; rewrite ?length_app; simpl; lia.
    - specialize (Hd (Datatypes.S j) b Hj). rewrite length_app. simpl.
      by replace (length als1 + 1 + j)%nat with (length als1 + Datatypes.S j)%nat by lia. }
  rewrite length_app in Hrun. simpl in Hrun. rewrite Nat.add_1_r in Hrun. rewrite <- app_assoc in Hps'.
  exists w2, ps'. split; [done|]. split; [done|]. apply (rtc_l _ w w1 w2); [exists (length als1); split; [lia|done]|].
  eapply rtc_subrel; [|exact Hgs]. intros u v (j & Hj & Hgj). exists j. split; [|done].
  rewrite length_app in Hj. simpl in Hj. lia.
Qed.

Lemma parts_rep_nil w dir cfg : parts_rep w dir cfg [] [].
Proof. by split. Qed.

(** The subdirectories that read as an index are the partitions'. *)
Definition only_parts (w : World) (dir : path) (n : nat) : Prop :=
  forall name k, nodes w !! (dir ++ [name]) = Some NDir -> parse_u32 name = Some k ->
    exists i, (i < n)%nat /\ k = Z.of_nat i /\ name = u32_to_string k.

Lemma grows_only_parts dir n w w' :
  Z.of_nat n < 2 ^ 32 -> rtc (fun w w' => exists j, (j < n)%nat /\ grows (pd dir j) w w') w w' ->
  only_parts w dir n -> only_parts w' dir n.
Proof.
  intros Hb Hg. induction Hg as [w|w w1 w2 (j & Hj & G1 & G2 & G3 & G4 & G5) _ IH]; [done|].
  intros L3. apply IH. intros name k Hn Hk. destruct (decide (dir ++ [name] = pd dir j)) as [E|Hne].
  { apply snoc_inj in E as [_ ->]. rewrite parse_u32_to_string in Hk by (split; lia).
    injection Hk as <-. by exists j. }
  apply (L3 name k); [|done]. rewrite <- Hn. symmetry. apply G5.
  - left. intros [E|Hp]%prefix_snoc_inv; [by apply Hne|]. by apply snoc_not_prefix in Hp.
  - intros x E. apply (f_equal length) in E. unfold pd in E. rewrite !length_app in E. simpl in E. lia.
Qed.

Lemma parts_topic_rep w dir cfg nm ps als :
  parts_rep w dir cfg ps als -> 0 < len als < 2 ^ 32 -> dir <> [] -> only_parts w dir (length als) ->
  topic_rep (R := R) w dir (from_parts nm ps cfg) als.
Proof.
  intros [P1 P2 P3 P4] Hl Hne Ho.
  assert (Hpd : forall i, (i < length als)%nat -> dirs_made w (pd dir i)).
  { intros i Hi. destruct (lookup_lt_is_Some_2 als i Hi) as [a Ha]. rewrite <- P1 in Hi.
    destruct (lookup_lt_is_Some_2 ps i Hi) as [p Hp].
    pose proof (ls_made _ _ _ (wr_log _ _ _ (pp_writer _ _ _ (P2 i p a Hp Ha)))) as Hm.
    pose proof (P3 i p Hp) as E. unfold pdir in E. by rewrite E in Hm. }
  unfold len in Hl. split; try done; simpl.
  - unfold len. by rewrite P1.
  - split; [|intros i Hi; apply (Hpd i); [done|done|by destruct dir]|done].
    apply (Hpd 0%nat); [lia|by eexists|done].
Qed.

Lemma steps_topic_grows dir n w w' :
  Z.of_nat n <= 2 ^ 32 -> rtc (fun w w' => exists j, (0 <= j < 0 + n)%nat /\ grows (pd dir j) w w') w w' ->
  topic_grows dir w w'.
Proof. intros Hn. apply rtc_subrel. intros u v (j & Hj & Hg). eexists. split; [|exact Hg]. apply index_name. lia. Qed.

Lemma topic_create_run w dir nm n cfg :
  usable cfg -> 0 < n < 2 ^ 32 -> quiet w -> dir <> [] -> dirs_free w dir -> 0 <= read_max w ->
  (forall p, dir `prefix_of` p -> p <> dir -> nodes w !! p = None) ->
  exists w' t, Topic.create dir nm n cfg w = (Ok t, w')
    /\ topic_rep (R := R) w' dir t (replicate (Z.to_nat n) (mkALog 0 []))
    /\ Topic.config t = cfg /\ Topic.name t = nm /\ round_robin t = 0 /\ topic_grows dir w w'.
Proof.
  intros Hu Hn Hq Hne Hf Hm Hb. unfold Topic.create. rewrite (proj2 (Z.eqb_neq _ _)) by lia.
  assert (Hbelow : forall i x, nodes w !! (pd dir i) = None /\ nodes w !! (pd dir i ++ [x]) = None).
  { intros i x. unfold pd. split; apply Hb; rewrite <- ?app_assoc; try (by eexists);
      intros E; apply (f_equal length) in E; rewrite length_app in E; simpl in E; lia. }
  set (als := replicate (Z.to_nat n) (mkALog 0 [])).
  assert (Hl : length als = Z.to_nat n) by apply length_replicate.
  destruct (open_partitions_run dir cfg als w [] [] Hu) as (w1 & ps & Hrun & Hps & Hg).
  { apply parts_rep_nil. }
  { simpl. unfold len. rewrite Hl. lia. }
  { intros j a Ha. apply lookup_replicate in Ha as [-> Hj]. simpl. apply ls_fresh; try done.
    - by destruct dir.
    - intros p [->|Hp]%prefix_snoc_inv Hnp; [right; by apply Hbelow|by apply Hf].
    - intros x. by apply Hbelow. }
  simpl length in Hrun. rewrite Hl in Hrun. rewrite (bind_Ok _ _ _ _ _ Hrun). simpl app in *.
  eexists w1, _. split; [reflexivity|]. split; [|do 3 (split; [done|])].
  - apply parts_topic_rep; [done|unfold len; lia|done|].
    eapply (grows_only_parts dir (length als) w); [lia| |].
    + eapply rtc_subrel; [|exact Hg]. intros u v (j & Hj & Hgj). exists j. simpl in Hj. split; [lia|done].
    + intros name k Hk. rewrite Hb in Hk; [done|by eexists|]. intros E. apply (f_equal length) in E.
      rewrite length_app in E. simpl in E. lia.
  - eapply (steps_topic_grows dir (length als)); [lia|exact Hg].
Qed.

(** ** Finding the partitions again *)
Lemma discover_indices_run w dir n :
  quiet w -> topic_layout w dir n -> Z.of_nat n < 2 ^ 32 ->
  exists found, discover_partition_indices dir w = (Ok found, w)
    /\ merge_sort Z.le found = map Z.of_nat (seq 0 n).
Proof.
  intros Hq [L1 L2 L3] Hb. eexists. split.
  { unfold discover_partition_indices. erewrite bind_Ok; [reflexivity|]. apply io_Ok.
    unfold read_dir. by rewrite syscall_quiet, L1. }
  set (f := fun e : string * node => match snd e with NDir => parse_u32 (fst e) | NFile _ => None end).
  assert (Hin : forall e k, e ∈ children w dir -> f e = Some k ->
    (0 <= k < Z.of_nat n) /\ e = (u32_to_string k, NDir)).
  { intros [name [fl|]] k He Hk; [done|]. unfold f in Hk. simpl in Hk. apply elem_of_children in He.
    destruct (L3 name k He Hk) as (i & Hi & -> & ->). split; [lia|done]. }
  assert (Hperm : omap f (children w dir) ≡ₚ map Z.of_nat (seq 0 n)).
  { apply NoDup_Permutation.
    - apply NoDup_omap_inj; [apply children_NoDup|]. intros x y k Hx Hy Ex Ey.
      destruct (Hin x k Hx Ex) as [_ ->], (Hin y k Hy Ey) as [_ ->]. done.
    - apply NoDup_fmap_2; [intros x y; lia|apply NoDup_seq].
    - intros k. rewrite list_elem_of_omap, list_elem_of_fmap. split.
      + intros (e & He & Ek). destruct (Hin e k He Ek) as [Hk _]. exists (Z.to_nat k).
        split; [lia|]. apply elem_of_seq. lia.
      + intros (i & -> & Hi%elem_of_seq). exists (u32_to_string (Z.of_nat i), NDir). split.
        * apply elem_of_children. apply L2. lia.
        * unfold f. simpl. apply parse_u32_to_string. split; lia. }
  apply (StronglySorted_unique Z.le).
  - apply StronglySorted_merge_sort; apply _.
  - clear. generalize 0%nat. induction n as [|n IH]; intros m; simpl; constructor; [by apply IH|].
    apply Forall_forall. intros x (i & -> & Hi%elem_of_seq)%list_elem_of_fmap. lia.
  - by rewrite merge_sort_Permutation.
Qed.

Lemma first_gap_none n m :
  Z.of_nat (m + n) <= 2 ^ 32 -> first_gap (Z.of_nat m) (map Z.of_nat (seq m n)) = None.
Proof.
  revert m. induction n as [|n IH]; intros m Hb; simpl; [done|].
  rewrite as_u32_small by (split; lia). rewrite Z.eqb_refl.
  replace (Z.of_nat m + 1) with (Z.of_nat (Datatypes.S m)) by lia. apply IH. lia.
Qed.

Lemma topic_open_run w dir nm cfg als :
  usable cfg -> quiet w -> dir <> [] -> 0 < len als < 2 ^ 32 -> topic_layout w dir (length als) ->
  (forall i a, als !! i = Some a -> D w (pd dir i) a) ->
  exists w' t, Topic.open dir nm cfg w = (Ok t, w') /\ topic_rep (R := R) w' dir t als
    /\ Topic.config t = cfg /\ Topic.name t = nm /\ round_robin t = 0 /\ topic_grows dir w w'.
Proof.
  intros Hu Hq Hne Hl Hlay Hd. unfold Topic.open.
  destruct (discover_indices_run w dir (length als) Hq Hlay) as (found & Hf & Hs); [unfold len in Hl; lia|].
  rewrite (bind_Ok _ _ _ _ _ Hf). cbv zeta. rewrite Hs.
  pose proof (first_gap_none (length als) 0) as Hgap. rewrite Nat.add_0_l in Hgap.
  specialize (Hgap ltac:(unfold len in Hl; lia)). change (Z.of_nat 0) with 0 in Hgap.
  destruct (open_partitions_run dir cfg als w [] [] Hu (parts_rep_nil _ _ _)) as (w1 & ps & Hrun & Hps & Hg);
    [simpl; lia|intros j a Hj; by apply Hd|].
  simpl length in Hrun, Hg. simpl app in Hps.
  destruct (map Z.of_nat (seq 0 (length als))) as [|k ks] eqn:E.
  { apply (f_equal length) in E. rewrite length_map, length_seq in E. unfold len in Hl. simpl in E. lia. }
  rewrite Hgap. rewrite (bind_Ok _ _ _ _ _ Hrun).
  eexists w1, _. split; [reflexivity|]. split; [|do 3 (split; [done|]); eapply (steps_topic_grows dir (length als)); [unfold len in Hl; lia|exact Hg]].
  apply parts_topic_rep; [done|done|done|].
  eapply (grows_only_parts dir (length als) w); [unfold len in Hl; lia| |exact (tl_only _ _ _ Hlay)].
  eapply rtc_subrel; [|exact Hg]. intros u v (j & Hj & Hgj). exists j. split; [lia|done].
Qed.

(** ** Shutting down *)

(** A topic whose partitions are closed: the first [k] of them. *)
Record closed_upto (k : nat) (w : World) (dir : path) (t : Topic) (als : list alog) : Prop := {
  cu_len : length (partitions t) = length als;
  cu_count : len als < 2 ^ 32;
  cu_closed : forall i p a, (i < k)%nat -> partitions t !! i = Some p -> als !! i = Some a -> pclosed w p a;
  cu_open : forall i p a, (k <= i)%nat -> partitions t !! i = Some p -> als !! i = Some a ->
    prep (R := R) w p a;
  cu_dir : forall i p, partitions t !! i = Some p -> pdir p = pd dir i;
  cu_layout : topic_layout w dir (length als);
}.

Lemma shutdown_one w dir t als k :
  closed_upto k w dir t als -> (k < length als)%nat ->
  exists w' t', on_partition k Partition.shutdown (w, t) = (Ok tt, (w', t'))
    /\ closed_upto (Datatypes.S k) w' dir t' als /\ stays (pd dir k) w w'.
Proof.
  intros [C1 C2 C3 C4 C5 C6] Hk. destruct (lookup_lt_is_Some_2 als k Hk) as [a Ha].
  rewrite <- C1 in Hk. destruct (lookup_lt_is_Some_2 (partitions t) k Hk) as [p Hp].
  destruct (partition_shutdown_run w p a (C4 k p a ltac:(lia) Hp Ha)) as (w' & p' & Hrun & Hcl & Kc & Kd & Ks).
  rewrite (C5 k p Hp) in Kd, Ks. unfold len in C2.
  eexists w', _. unfold on_partition. rewrite Hp, Hrun. split; [reflexivity|]. split; [|done].
  assert (Hap : forall i q, i <> k -> partitions t !! i = Some q -> apart (pd dir k) (pdir q)).
  { intros i q Hne Hq. rewrite (C5 i q Hq). apply lookup_lt_Some in Hq. apply pd_apart; [congruence|lia..]. }
  split; simpl.
  - by rewrite length_insert.
  - done.
  - intros i q b Hi. rewrite list_lookup_insert_Some. intros [(<- & <- & _)|[Hne Hq]] Hb.
    + rewrite Ha in Hb. by injection Hb as <-.
    + destruct (C3 i q b ltac:(lia) Hq Hb) as [Hs Hst]. split; [|done].
      eapply ls_synced_stays; [exact Ks| |done]. by apply (Hap i).
  - intros i q b Hi. rewrite list_lookup_insert_ne by lia. intros Hq Hb.
    eapply prep_apart; [exact Ks|apply (Hap i); [lia|done]|]. apply (C4 i q b); [lia|done|done].
  - intros i q. rewrite list_lookup_insert_Some. intros [(<- & <- & _)|[Hne Hq]]; [done|by apply C5].
  - by eapply topic_layout_stays.
Qed.

Lemma shutdown_loop w dir t als k n :
  closed_upto k w dir t als -> (k + n = length als)%nat ->
  exists w' t', for_each (seq k n) (fun i => on_partition i Partition.shutdown) (w, t) = (Ok tt, (w', t'))
    /\ closed_upto (length als) w' dir t' als /\ topic_stays dir w w'.
Proof.
  revert w t k. induction n as [|n IH]; intros w t k Hc Hn; cbn [seq for_each].
  { exists w, t. split; [done|]. rewrite Nat.add_0_r in Hn. subst k. by split. }
  destruct (shutdown_one w dir t als k Hc ltac:(lia)) as (w1 & t1 & Hrun & Hc1 & Hs).
  rewrite (bind_Ok _ _ _ _ _ Hrun).
  destruct (IH w1 t1 (Datatypes.S k) Hc1 ltac:(lia)) as (w2 & t2 & Hrun2 & Hc2 & Hs2).
  exists w2, t2. split; [done|]. split; [done|]. eapply rtc_l; [|done]. 
  exists (u32_to_string (Z.of_nat k)). split; [|done]. apply index_name. pose proof (cu_count _ _ _ _ _ Hc). unfold len in *. lia.
Qed.

Lemma topic_shutdown_run w dir t als :
  topic_rep (R := R) w dir t als ->
  exists w' t', Topic.shutdown (w, t) = (Ok tt, (w', t'))
    /\ closed_upto (length als) w' dir t' als /\ topic_stays dir w w'.
Proof.
  intros [T1 T2 T3 T4 T5 T6]. unfold Topic.shutdown. rewrite bind_self, T1.
  apply (shutdown_loop w dir t als 0); [|done]. unfold len in *. split; try done.
  - unfold len. rewrite <- T1. lia.
  - intros i p a Hi. lia.
  - intros i p a _. apply T3.
Qed.

(** ** Restarting *)
Lemma layout_crash w w' dir n : crash w w' -> topic_layout w dir n -> topic_layout w' dir n.
Proof.
  intros Hc [L1 L2 L3]. split.
  - by apply (crash_dir _ _ _ Hc).
  - intros i Hi. apply (crash_dir _ _ _ Hc). by apply L2.
  - intros name k Hn%(crash_dir _ _ _ Hc). by apply L3.
Qed.

Lemma closed_disk w w' dir t als i a :
  closed_upto (length als) w dir t als -> crash w w' -> als !! i = Some a -> D w' (pd dir i) a.
Proof.
  intros [C1 C2 C3 _ C5 _] Hc Ha. pose proof (lookup_lt_Some _ _ _ Ha) as Hi. rewrite <- C1 in Hi.
  destruct (lookup_lt_is_Some_2 (partitions t) i Hi) as [p Hp].
  destruct (C3 i p a (lookup_lt_Some _ _ _ Ha) Hp Ha) as [Hs _].
  rewrite <- (C5 i p Hp). by eapply ls_crash.
Qed.

Lemma topic_restart_run w dir t als nm cfg :
  usable cfg -> topic_rep (R := R) w dir t als -> dir <> [] ->
  exists w1 t1, Topic.shutdown (w, t) = (Ok tt, (w1, t1)) /\
    forall w2, crash w1 w2 ->
      exists w3 t3, Topic.open dir nm cfg w2 = (Ok t3, w3) /\ topic_rep (R := R) w3 dir t3 als.
Proof.
  intros Hu Ht Hne. destruct (topic_shutdown_run w dir t als Ht) as (w1 & t1 & Hrun & Hcl & _).
  exists w1, t1. split; [done|]. intros w2 Hc.
  destruct (topic_open_run w2 dir nm cfg als Hu) as (w3 & t3 & Ho & Hr & _).
  - apply Hc.
  - done.
  - pose proof (tr_count _ _ _ _ Ht) as Hn. unfold len in *. by rewrite (tr_len _ _ _ _ Ht) in Hn.
  - eapply layout_crash; [done|apply Hcl].
  - intros i a Ha. by eapply closed_disk.
  - eauto.
Qed.

End store.
