(* ===== verification/Consumer.v ===== *)
(** * Consumers (consumer.rs)

    A consumer holds one cursor per partition and merges the partitions into
    one stream.  A method runs on the world and the pair of the shared topic
    and the consumer. *)

From S2P Require Import Prelude Bytes Error Compression LogRecord Fs Names Search.
From S2P Require Import Segment SparseIndex Log OffsetStore Partition Topic Producer.

Record Consumer : Type := mkConsumer {
  cursors : list Z;
  scan_start : nat;
  store : option OffsetStore;
}.

Definition set_cursors (x : list Z) (s : Consumer) : Consumer := mkConsumer x (scan_start s) (store s).
Definition set_scan_start (x : nat) (s : Consumer) : Consumer := mkConsumer (cursors s) x (store s).
Definition set_store (x : option OffsetStore) (s : Consumer) : Consumer :=
  mkConsumer (cursors s) (scan_start s) x.

Abbreviation Session := (Topic * Consumer)%type.

Definition this {E} : M (World * Session) E Consumer := fun s => (Ok (snd (snd s)), s).
Definition modify_this {E} (f : Consumer -> Consumer) : M (World * Session) E unit :=
  modify_self (fun s => (fst s, f (snd s))).
Definition on_topic {A} (m : KM (World * Topic) A) : KM (World * Session) A :=
  zoom (fun s => (fst s, fst (snd s))) (fun t s => (fst t, (snd t, snd (snd s)))) m.

Definition from_topic_at (topic : Topic) (start_offset : Z) : Consumer :=
  mkConsumer (replicate (Z.to_nat (partition_count topic)) start_offset) 0 None.

Definition from_topic (topic : Topic) : Consumer := from_topic_at topic 0.

Definition from_topic_with_group (topic : Topic) (store : OffsetStore) : Consumer :=
  let cursors :=
    imap (fun p partition =>
      let committed := default 0 (OffsetStore.committed store !! p) in
      Z.min committed (high_water_mark partition)) (partitions topic) in
  mkConsumer cursors 0 (Some store).

Definition position (partition : Z) (self : Consumer) : Z :=
  default 0 (cursors self !! Z.to_nat partition).

Definition group (self : Consumer) : option string := OffsetStore.group <$> store self.

Definition committed (partition : Z) (self : Consumer) : option Z :=
  match store self with
  | Some s => OffsetStore.committed s !! Z.to_nat partition
  | None => None
  end.

Definition seek_all (offset : Z) (self : Consumer) : Consumer :=
  set_cursors (map (fun _ => offset) (cursors self)) self.

Definition seek (partition : Z) (offset : Z) (self : Consumer) : Consumer :=
  match cursors self !! Z.to_nat partition with
  | Some _ => set_cursors (<[Z.to_nat partition := offset]> (cursors self)) self
  | None => self
  end.

Section consumer.
Context {B : Buf} {H : Crc32} {C : Codecs}.

Definition commit : KM (World * Session) unit :=
  fun '(w, (t, c)) =>
    match store c with
    | Some s =>
        let offsets := cursors c in
        let '(o, (w', s')) := OffsetStore.commit offsets (w, s) in
        (o, (w', (t, set_store (Some s') c)))
    | None => (Ok tt, (w, (t, c)))
    end.

(** [for i in 0..n]. *)
Fixpoint scan_partitions (n : nat) (todo : list nat) : KM (World * Session) (option (RecordPosition * record)) :=
  match todo with
  | [] => ret None
  | i :: todo' =>
      let* s := this in
      let p := ((scan_start s + i) mod n)%nat in
      match cursors s !! p with
      | Some cursor =>
          let* got := on_topic (on_partition p (Partition.read_record_at cursor)) in
          match got with
          | Some record =>
              let position := mkPosition (as_u32 (Z.of_nat p)) cursor in
              let* _ := modify_this (set_cursors (<[p := u64_add cursor 1]> (cursors s))) in
              let* _ := modify_this (set_scan_start ((p + 1) mod n)%nat) in
              ret (Some (position, record))
          | None => scan_partitions n todo'
          end
      | None => panic "index out of bounds"
      end
  end.

Definition try_take_next : KM (World * Session) (option (RecordPosition * record)) :=
  let* s := this in
  let n := length (cursors s) in
  scan_partitions n (seq 0 n).

(** One round of [next_with_position]: the scan, and the second scan the
    consumer makes once it has registered as parked.  [None] is the state in
    which it awaits a signal. *)
Definition next_with_position : KM (World * Session) (option (RecordPosition * record)) :=
  let* item := try_take_next in
  match item with
  | Some item => ret (Some item)
  | None => try_take_next
  end.

End consumer.
