(* ===== verification/ConsumerSpec.v ===== *)
(** * What a consumer delivers

    Against the abstract logs of the partitions: which record a scan returns,
    that a pass returns nothing exactly when every partition is exhausted at
    the consumer's cursors, the order within a partition, and what a group
    resumes from. *)

From S2P Require Import Prelude Bytes Error Compression LogRecord Fs Names Search.
From S2P Require Import Segment SparseIndex Log LogInv LogOps LogSpec OffsetStore.
From S2P Require Import Partition PartitionSpec Topic Producer TopicSpec Consumer.

(** ** The scan, on the abstract logs *)

(** The first partition in rotation with a record at its cursor. *)
Fixpoint pick (n start : nat) (todo : list nat) (als : list alog) (cs : list Z) : option (nat * Z * record) :=
  match todo with
  | [] => None
  | i :: todo' =>
      let p := ((start + i) mod n)%nat in
      match als !! p, cs !! p with
      | Some a, Some cursor =>
          match a_read cursor a with
          | Some r => Some (p, cursor, r)
          | None => pick n start todo' als cs
          end
      | _, _ => None
      end
  end.

Lemma pick_Some n start todo als cs p cursor r :
  pick n start todo als cs = Some (p, cursor, r) ->
  exists a, als !! p = Some a /\ cs !! p = Some cursor /\ a_read cursor a = Some r.
Proof.
  induction todo as [|i todo IH]; intros Hp; simpl in Hp; [done|].
  destruct (als !! ((start + i) mod n)%nat) as [a|] eqn:Ha; [|done].
  destruct (cs !! ((start + i) mod n)%nat) as [cur|] eqn:Hc; [|done].
  destruct (a_read cur a) as [r'|] eqn:Hr; [|by apply IH].
  injection Hp as <- <- <-. eauto.
Qed.

(** Nothing to deliver means no partition has a record at its cursor. *)
Lemma pick_None n start als cs :
  (0 < n)%nat -> n = length als -> n = length cs ->
  pick n start (seq 0 n) als cs = None ->
  forall p a cursor, als !! p = Some a -> cs !! p = Some cursor -> a_read cursor a = None.
Proof.
  intros Hn Hla Hlc Hpk p a cursor Ha Hc.
  assert (Hall : forall todo, Forall (fun i => (i < n)%nat) todo -> pick n start todo als cs = None ->
    Forall (fun i => forall a c, als !! ((start + i) mod n)%nat = Some a -> cs !! ((start + i) mod n)%nat = Some c ->
      a_read c a = None) todo).
  { induction 1 as [|i todo Hi _ IH]; simpl; intros Hpick; [constructor|].
    assert ((start + i) mod n < n)%nat as Hlt by (apply Nat.mod_upper_bound; lia).
    destruct (lookup_lt_is_Some_2 als ((start + i) mod n)%nat ltac:(lia)) as [a' Ha'].
    destruct (lookup_lt_is_Some_2 cs ((start + i) mod n)%nat ltac:(lia)) as [c' Hc'].
    rewrite Ha', Hc' in Hpick. destruct (a_read c' a') eqn:Hr; [done|]. constructor; [|by apply IH].
    intros a2 c2 H1 H2. congruence. }
  assert (Hf : Forall (fun i => (i < n)%nat) (seq 0 n)) by (apply Forall_seq; lia).
  specialize (Hall _ Hf Hpk). rewrite Forall_seq in Hall.
  apply lookup_lt_Some in Ha as Hlt.
  (* the turn of the rotation that comes to p *)
  set (i := ((p + (n - start mod n)) mod n)%nat).
  assert (Hi : ((start + i) mod n = p)%nat).
  { unfold i. rewrite Nat.Div0.add_mod_idemp_r.
    pose proof (Nat.div_mod_eq start n). pose proof (Nat.mod_upper_bound start n ltac:(lia)).
    replace (start + (p + (n - start mod n)))%nat with (p + (start / n + 1) * n)%nat by nia.
    rewrite Nat.Div0.mod_add. apply Nat.mod_small. lia. }
  apply (Hall i); [split; [lia|apply Nat.mod_upper_bound; lia]|by rewrite Hi|by rewrite Hi].
Qed.

Section consumer.
Context {B : Buf} {H : Crc32} {C : Codecs}.
Context {R : World -> Log -> alog -> Prop} {LC : LogContract R}.

Record session_rep (w : World) (dir : path) (s : Session) (als : list alog) : Prop := {
  sr_topic : topic_rep (R := R) w dir (fst s) als;
  sr_cursors : length (cursors (snd s)) = length als;
  sr_bounds : Forall is_u64 (cursors (snd s));
  sr_room : room w (Topic.config (fst s)) [];
}.

Lemma on_topic_run {A} (m : KM (World * Topic) A) w w' t t' (c : Consumer) x :
  m (w, t) = (Ok x, (w', t')) -> on_topic m (w, (t, c)) = (Ok x, (w', (t', c))).
Proof. intros Hm. unfold on_topic, zoom. simpl. by rewrite Hm. Qed.

(** What a scan does to the consumer. *)
Definition advance (n : nat) (hit : option (nat * Z * record)) (c : Consumer) : Consumer :=
  match hit with
  | Some (p, cursor, r) =>
      set_scan_start ((p + 1) mod n)%nat (set_cursors (<[p := cursor + 1]> (cursors c)) c)
  | None => c
  end.

Definition item_of (hit : option (nat * Z * record)) : option (RecordPosition * record) :=
  match hit with
  | Some (p, cursor, r) => Some (mkPosition (Z.of_nat p) cursor, r)
  | None => None
  end.

Lemma room_nil_world w w' cfg : seg_limit w' = seg_limit w -> room w cfg [] -> room w' cfg [].
Proof. intros E [? ? ?]. split; try done. by rewrite E. Qed.

Lemma a_read_Some_lt off a r : a_read off a = Some r -> a_start a <= off < a_next a.
Proof.
  unfold a_read, a_next. destruct (Z.ltb_spec off (a_start a)); [by intros|]. intros E%lookup_lt_Some.
  unfold len. lia.
Qed.

Lemma consumer_scan_run todo w dir t c als :
  session_rep w dir (t, c) als -> (0 < length als)%nat ->
  exists w' t',
    let hit := pick (length als) (scan_start c) todo als (cursors c) in
    scan_partitions (length als) todo (w, (t, c)) =
      (Ok (item_of hit), (w', (t', advance (length als) hit c)))
    /\ session_rep w' dir (t', advance (length als) hit c) als
    /\ Topic.config t' = Topic.config t /\ Topic.name t' = Topic.name t /\ topic_stays dir w w'.
Proof.
  intros Hs Hn. revert w t Hs. induction todo as [|i todo IH]; intros w t Hs.
  { exists w, t. by split_and!. }
  pose proof Hs as [Ht Hl Hb Hro]. simpl in Ht, Hl, Hb, Hro.
  cbn [scan_partitions pick]. unfold this at 1, bind at 1. cbn [snd fst].
  set (n := length als) in *. set (p := ((scan_start c + i) mod n)%nat).
  assert (p < n)%nat as Hp by (apply Nat.mod_upper_bound; lia).
  destruct (topic_rep_lookup _ _ _ _ p Ht ltac:(lia)) as (pp & a & Hpp & Ha & Hprep & Hcf).
  destruct (lookup_lt_is_Some_2 (cursors c) p ltac:(lia)) as [cur Hc]. rewrite Ha, Hc.
  assert (is_u64 cur) as Hcur by (rewrite Forall_lookup in Hb; by eapply Hb).
  rewrite <- Hcf in Hro.
  destruct (partition_read_run w pp a cur Hprep Hro ltac:(apply Hcur)) as (w1 & pp1 & Hrun & Hp1 & Hk).
  destruct (on_partition_run _ _ _ _ _ _ p pp a pp1 _ _ Ht Hpp Ha Hrun Hp1 Hk) as (Hon & Ht1 & Hsy).
  rewrite (list_insert_id als p a Ha) in Ht1. set (t1 := set_partitions _ t) in *.
  rewrite Hcf in Hro. pose proof (stays_limit _ _ _ (proj2 (proj2 Hk))) as Hlim.
  assert (Hs1 : session_rep w1 dir (t1, c) als).
  { split; simpl; try done. by eapply room_nil_world. }
  rewrite (bind_Ok _ _ _ _ _ (on_topic_run _ _ _ _ _ c _ Hon)).
  destruct (a_read cur a) as [r|] eqn:Hr.
  - exists w1, t1. unfold modify_this, bind, modify_self, ret. simpl.
    assert (u64_add cur 1 = cur + 1) as ->.
    { apply a_read_Some_lt in Hr.
      destruct (lc_bound _ _ _ (wr_log _ _ _ (pp_writer _ _ _ Hprep))) as [_ Hbd]. simpl in Hbd.
      apply u64_add_small. unfold is_u64 in Hcur. lia. }
    rewrite as_u32_small.
    2: { pose proof (tr_count _ _ _ _ Ht) as Hct. unfold len in Hct. rewrite (tr_len _ _ _ _ Ht) in Hct. split; lia. }
    split; [done|]. split; [|by split_and!]. destruct Hs1 as [? ? Hb1 ?]. split; simpl in *; try done.
    + by rewrite length_insert.
    + apply Forall_insert; [done|]. apply a_read_Some_lt in Hr.
      destruct (lc_bound _ _ _ (wr_log _ _ _ (pp_writer _ _ _ Hprep))) as [_ Hbd]. simpl in Hbd.
      unfold is_u64 in *. lia.
  - destruct (IH w1 t1 Hs1) as (w2 & t2 & Hrun2 & Hs2 & Hc2 & Hn2 & Hy2). exists w2, t2.
    do 4 (split; [done|]). by etrans.
Qed.

Lemma try_take_next_run w dir t c als :
  session_rep w dir (t, c) als ->
  exists w' t',
    let n := length als in
    let hit := pick n (scan_start c) (seq 0 n) als (cursors c) in
    try_take_next (w, (t, c)) = (Ok (item_of hit), (w', (t', advance n hit c)))
    /\ session_rep w' dir (t', advance n hit c) als
    /\ Topic.config t' = Topic.config t /\ Topic.name t' = Topic.name t /\ topic_stays dir w w'.
Proof.
  intros Hs. pose proof (tr_count _ _ _ _ (sr_topic _ _ _ _ Hs)) as Hct.
  pose proof (tr_len _ _ _ _ (sr_topic _ _ _ _ Hs)) as Hl. unfold len in Hct. simpl in Hct, Hl.
  destruct (consumer_scan_run (seq 0 (length als)) w dir t c als Hs ltac:(lia)) as (w' & t' & Hrun & Hs' & Hc').
  exists w', t'. split; [|done]. unfold try_take_next. unfold this, bind. cbn [snd].
  pose proof (sr_cursors _ _ _ _ Hs) as Hlc. simpl in Hlc. by rewrite Hlc.
Qed.

(** One round of [next_with_position]: the second scan sees what the first
    saw. *)
Lemma next_with_position_run w dir t c als :
  session_rep w dir (t, c) als ->
  exists w' t',
    let n := length als in
    let hit := pick n (scan_start c) (seq 0 n) als (cursors c) in
    next_with_position (w, (t, c)) = (Ok (item_of hit), (w', (t', advance n hit c)))
    /\ session_rep w' dir (t', advance n hit c) als
    /\ Topic.config t' = Topic.config t /\ Topic.name t' = Topic.name t /\ topic_stays dir w w'.
Proof.
  intros Hs. destruct (try_take_next_run w dir t c als Hs) as (w1 & t1 & Hrun & Hs1 & Hc1 & Hn1 & Hy1). cbv zeta in *.
  unfold next_with_position. rewrite (bind_Ok _ _ _ _ _ Hrun).
  destruct (pick _ _ _ _ _) as [[[p cur] r]|] eqn:Hp; cbn [item_of].
  { exists w1, t1. by split_and!. }
  destruct (try_take_next_run w1 dir t1 c als Hs1) as (w2 & t2 & Hrun2 & Hs2 & Hc2 & Hn2 & Hy2). cbv zeta in *.
  rewrite Hp in Hrun2, Hs2. exists w2, t2. split; [exact Hrun2|]. split; [done|].
  split; [congruence|]. split; [congruence|]. by etrans.
Qed.

(** ** Draining the topic

    A client that takes records until there is none left. *)
Fixpoint drain (fuel : nat) : KM (World * Session) (list (RecordPosition * record)) :=
  match fuel with
  | O => no_fuel
  | S fuel' =>
      let* item := try_take_next in
      match item with
      | None => ret []
      | Some x => let* rest := drain fuel' in ret (x :: rest)
      end
  end.

End consumer.

(** The records a cursor has before it: none if it is below the first retained
    offset. *)
Definition avail (a : alog) (cursor : Z) : list record :=
  if cursor <? a_start a then [] else drop (Z.to_nat (cursor - a_start a)) (a_recs a).

Fixpoint total_avail (als : list alog) (cs : list Z) : nat :=
  match als, cs with
  | a :: als', c :: cs' => length (avail a c) + total_avail als' cs'
  | _, _ => 0
  end.

Lemma a_read_avail cursor a r :
  a_read cursor a = Some r -> avail a cursor = r :: avail a (cursor + 1).
Proof.
  unfold a_read, avail. destruct (Z.ltb_spec cursor (a_start a)); [by intros|]. intros Hr.
  rewrite (proj2 (Z.ltb_ge _ _)) by lia. rewrite (drop_S _ _ _ Hr). do 2 f_equal. lia.
Qed.

Lemma a_read_None_avail cursor a : a_read cursor a = None -> avail a cursor = [].
Proof.
  unfold a_read, avail. destruct (Z.ltb_spec cursor (a_start a)); [done|]. intros Hr%lookup_ge_None.
  by apply drop_ge.
Qed.

Lemma total_avail_insert als cs p a c c' :
  als !! p = Some a -> cs !! p = Some c ->
  (total_avail als (<[p := c']> cs) + length (avail a c) = total_avail als cs + length (avail a c'))%nat.
Proof.
  revert als cs. induction p as [|p IH]; intros [|a0 als] [|c0 cs] Ha Hc; try done; simpl in *.
  - injection Ha as ->. injection Hc as ->. lia.
  - specialize (IH _ _ Ha Hc). lia.
Qed.

(** The records of a delivery that come from partition [p]. *)
Definition from_partition (p : nat) (items : list (RecordPosition * record)) : list (RecordPosition * record) :=
  filter (fun x => partition (fst x) = Z.of_nat p) items.

(** Consecutive offsets from [cursor] on. *)
Definition at_offsets (p : nat) (cursor : Z) (rs : list record) : list (RecordPosition * record) :=
  imap (fun i r => (mkPosition (Z.of_nat p) (cursor + Z.of_nat i), r)) rs.

Lemma at_offsets_cons p cursor r rs :
  at_offsets p cursor (r :: rs) = (mkPosition (Z.of_nat p) cursor, r) :: at_offsets p (cursor + 1) rs.
Proof.
  unfold at_offsets. simpl. rewrite Z.add_0_r. f_equal. apply imap_ext. intros i x _. simpl.
  do 2 f_equal. lia.
Qed.

Section drain.
Context {B : Buf} {H : Crc32} {C : Codecs}.
Context {R : World -> Log -> alog -> Prop} {LC : LogContract R}.

Lemma drain_run fuel w dir t c als :
  session_rep (R := R) w dir (t, c) als -> (total_avail als (cursors c) < fuel)%nat ->
  exists w' s' items,
    drain fuel (w, (t, c)) = (Ok items, (w', s')) /\ session_rep (R := R) w' dir s' als
    /\ (forall p a cursor, als !! p = Some a -> cursors c !! p = Some cursor ->
          from_partition p items = at_offsets p cursor (avail a cursor)).
Proof.
  revert w t c. induction fuel as [|fuel IH]; intros w t c Hs Hf; [lia|]. cbn [drain].
  destruct (try_take_next_run w dir t c als Hs) as (w1 & t1 & Hrun & Hs1 & _). cbv zeta in *.
  rewrite (bind_Ok _ _ _ _ _ Hrun).
  pose proof (tr_count _ _ _ _ (sr_topic _ _ _ _ Hs)) as Hct.
  pose proof (tr_len _ _ _ _ (sr_topic _ _ _ _ Hs)) as Hl. unfold len in Hct. simpl in Hct, Hl.
  pose proof (sr_cursors _ _ _ _ Hs) as Hlc. simpl in Hlc.
  destruct (pick _ _ _ _ _) as [[[p cursor] r]|] eqn:Hpk; cbn [item_of advance] in *.
  - destruct (pick_Some _ _ _ _ _ _ _ _ Hpk) as (a & Ha & Hc & Hr).
    pose proof (a_read_avail _ _ _ Hr) as Hav.
    pose proof (total_avail_insert als (cursors c) p a cursor (cursor + 1) Ha Hc) as Htot.
    rewrite Hav in Htot. simpl in Htot.
    destruct (IH w1 t1 _ Hs1) as (w2 & s2 & items & Hrun2 & Hs2 & Hit); [simpl; lia|].
    rewrite (bind_Ok _ _ _ _ _ Hrun2). eexists w2, s2, _. split; [reflexivity|]. split; [done|].
    intros q a' cur' Ha' Hc'. unfold from_partition. destruct (decide (q = p)) as [->|Hne].
    + rewrite Ha in Ha'. injection Ha' as <-. rewrite Hc in Hc'. injection Hc' as <-.
      rewrite filter_cons_True by done. rewrite Hav, at_offsets_cons. f_equal.
      apply (Hit p a (cursor + 1) Ha). simpl. apply list_lookup_insert_eq. by eapply lookup_lt_Some.
    + rewrite filter_cons_False by (simpl; lia). apply (Hit q a' cur' Ha'). simpl.
      by rewrite list_lookup_insert_ne by done.
  - exists w1, (t1, c), []. split; [done|]. split; [done|]. intros p a cursor Ha Hc.
    rewrite a_read_None_avail; [done|].
    eapply (pick_None (length als) (scan_start c) als (cursors c)); [lia|done|done|done|done|done].
Qed.

End drain.
