(* ===== verification/SessionSpec.v ===== *)
(** * A consumer among writers and retention

    One consumer of a topic takes records while others send to the topic and
    the retention timers of its partitions fire, in any order ([play]).
    Whatever happens, a cursor below its partition's first offset stays where
    it is. *)

From S2P Require Import Prelude Bytes Error Compression LogRecord Fs Names Search.
From S2P Require Import Segment SparseIndex Log LogInv LogOps LogRecover LogCrash LogSpec LogStore.
From S2P Require Import OffsetStore Partition PartitionSpec Topic Producer TopicSpec Consumer ConsumerSpec.

Inductive sevent : Type :=
| ESend (key : option (list byte)) (value : list byte)
| ETick (i : nat)
| ETake.

Section session.
Context {B : Buf} {H : Crc32} {C : Codecs}.
Context {R : World -> Log -> alog -> Prop} {LC : LogContract R}.

(** One event, and what it delivers. *)
Definition happen (e : sevent) : KM (World * Session) (list (RecordPosition * record)) :=
  match e with
  | ESend key value => let* _ := on_topic (Producer.send key value) in ret []
  | ETick i => let* _ := on_topic (on_partition i Partition.retention_tick) in ret []
  | ETake => let* item := next_with_position in ret (match item with Some x => [x] | None => [] end)
  end.

Fixpoint play (es : list sevent) : KM (World * Session) (list (RecordPosition * record)) :=
  match es with
  | [] => ret []
  | e :: es' => let* items := happen e in let* rest := play es' in ret (items ++ rest)
  end.

Definition sent_now (w : World) (key : option (list byte)) (value : list byte) : record :=
  LogRecord.new (if now_ms w <? 0 then 0 else as_i64 (now_ms w)) key value.

(** Records that fit and partitions that exist. *)
Definition event_ok (w : World) (cfg : LogConfig) (n : nat) (e : sevent) : Prop :=
  match e with
  | ESend key value => storable (compression cfg) (sent_now w key value) /\ room w cfg [sent_now w key value]
  | ETick i => (i < n)%nat
  | ETake => True
  end.

Lemma topic_stays_env dir w w' : topic_stays dir w w' -> now_ms w' = now_ms w /\ seg_limit w' = seg_limit w.
Proof.
  intros Hs. split; [|by eapply topic_stays_limit].
  induction Hs as [|w w1 w2 (x & _ & _ & E & _) _ IH]; [done|congruence].
Qed.

Lemma event_ok_env w w' cfg n e :
  now_ms w' = now_ms w -> seg_limit w' = seg_limit w -> event_ok w cfg n e -> event_ok w' cfg n e.
Proof.
  intros E1 E2. destruct e as [key value|i|]; [|done..]. unfold event_ok, sent_now. rewrite E1.
  intros [Hs [G1 G2 G3]]. split; [done|]. split; try done; by rewrite E2.
Qed.

(** The cursor [cur] of partition [p], which holds [a], is behind. *)
Record behind (p : nat) (cur : Z) (c : Consumer) (als : list alog) (a : alog) : Prop := {
  bh_log : als !! p = Some a;
  bh_cursor : cursors c !! p = Some cur;
  bh_retired : cur < a_start a;
}.

(** What an event does to a partition: it may grow by one record and lose
    some of the oldest ones. *)
Definition moved (a a' : alog) : Prop := a_start a <= a_start a' /\ a_next a <= a_next a' <= a_next a + 1.

Lemma moved_refl a : moved a a.
Proof. unfold moved. lia. Qed.

Lemma behind_insert p cur c als a q b b' :
  behind p cur c als a -> als !! q = Some b -> moved b b' -> exists a', behind p cur c (<[q := b']> als) a' /\ moved a a'.
Proof.
  intros [B1 B2 B3] Hq Hm. destruct (decide (q = p)) as [->|Hne].
  - rewrite B1 in Hq. injection Hq as <-. exists b'. split; [|done]. destruct Hm. split; [|done|lia].
    apply list_lookup_insert_eq. by eapply lookup_lt_Some.
  - exists a. split; [|apply moved_refl]. split; [by rewrite list_lookup_insert_ne|done..].
Qed.

Lemma happen_run e w dir t c als p cur a :
  session_rep (R := R) w dir (t, c) als -> event_ok w (Topic.config t) (length als) e ->
  (forall b, b ∈ als -> a_next b + 1 < 2 ^ 64) -> behind p cur c als a ->
  exists w' t' c' als' a' items, happen e (w, (t, c)) = (Ok items, (w', (t', c')))
    /\ session_rep (R := R) w' dir (t', c') als' /\ Topic.config t' = Topic.config t /\ topic_stays dir w w'
    /\ Forall2 moved als als' /\ behind p cur c' als' a' /\ from_partition p items = [].
Proof.
  intros Hs He Hn Hb. pose proof Hs as [Ht Hl Hu Hr]. simpl in *.
  assert (Hrefl : Forall2 moved als als).
  { apply Forall2_same_length_lookup_2; [done|]. intros i x y Hx Hy. rewrite Hx in Hy. injection Hy as <-. apply moved_refl. }
  assert (Hins : forall q b b', als !! q = Some b -> moved b b' -> Forall2 moved als (<[q := b']> als)).
  { intros q b b' Hq Hm. rewrite <- (list_insert_id als q b Hq) at 1. by apply Forall2_insert. }
  destruct e as [key value|i|]; cbn [happen].
  - destruct He as [Hst Hro].
    destruct (send_run w dir t als key value Ht Hst Hro Hn) as (w' & t' & q & b & Hrun & Hq & Ht' & _ & _ & Hy & Hc).
    assert (Hm : moved b (a_append [sent_now w key value] b)).
    { unfold moved. rewrite a_next_append. unfold len. simpl. lia. }
    destruct (behind_insert p cur c als a q b _ Hb Hq Hm) as (a' & Hb' & _).
    eexists w', t', c, _, a', []. rewrite (bind_Ok _ _ _ _ _ (on_topic_run _ _ _ _ _ _ _ Hrun)). split; [reflexivity|].
    split; [|do 2 (split; [done|]); split; [by eapply Hins|by split]].
    split; simpl; [exact Ht'|by rewrite length_insert|done|].
    rewrite Hc. eapply room_nil_world; [by eapply topic_stays_limit|done].
  - destruct (lookup_lt_is_Some_2 als i He) as [b Hq].
    destruct (lookup_lt_is_Some_2 (partitions t) i) as [q Hp]; [by rewrite (tr_len _ _ _ _ Ht)|].
    destruct (partition_tick_run w q b (tr_part _ _ _ _ Ht i q b Hp Hq)) as (w' & q' & n & Hrun & [Hd _] & Hq' & Hk).
    destruct (on_partition_run _ _ _ _ _ _ _ _ _ _ _ _ Ht Hp Hq Hrun Hq' Hk) as (Hon & Ht' & Hy).
    assert (Hm : moved b (a_drop n b)) by (unfold moved; rewrite a_next_drop by done; simpl; lia).
    destruct (behind_insert p cur c als a i b _ Hb Hq Hm) as (a' & Hb' & _).
    eexists w', _, c, _, a', []. rewrite (bind_Ok _ _ _ _ _ (on_topic_run _ _ _ _ _ _ _ Hon)). split; [reflexivity|].
    split; [|do 2 (split; [done|]); split; [by eapply Hins|by split]].
    split; simpl; [exact Ht'|by rewrite length_insert|done|].
    eapply room_nil_world; [by eapply topic_stays_limit|done].
  - destruct (next_with_position_run w dir t c als Hs) as (w' & t' & Hrun & Hs' & Hc & _ & Hy). cbv zeta in *.
    rewrite (bind_Ok _ _ _ _ _ Hrun). eexists w', t', _, als, a, _. split; [reflexivity|].
    do 4 (split; [done|]). destruct Hb as [B1 B2 B3].
    destruct (pick _ _ _ _ _) as [[[q o] r]|] eqn:Hpk; cbn [item_of advance]; [|by split; [split|]].
    destruct (pick_Some _ _ _ _ _ _ _ _ Hpk) as (b & Hq & Hcq & Hrd).
    assert (Hne : q <> p).
    { intros ->. rewrite B1 in Hq. rewrite B2 in Hcq. injection Hq as <-. injection Hcq as <-.
      apply a_read_Some_lt in Hrd. lia. }
    split; [split; simpl; [done|by rewrite list_lookup_insert_ne|done]|].
    unfold from_partition. by rewrite filter_cons_False by (simpl; lia).
Qed.

Lemma moved_next als als' m :
  Forall2 moved als als' -> (forall b, b ∈ als -> a_next b + (m + 1) < 2 ^ 64) -> forall b, b ∈ als' -> a_next b + m < 2 ^ 64.
Proof.
  intros Hm Hn b [i Hi]%list_elem_of_lookup. destruct (Forall2_lookup_r _ _ _ _ _ Hm Hi) as (b0 & Hb0 & Hmv & Hle).
  specialize (Hn b0 (list_elem_of_lookup_2 _ _ _ Hb0)). lia.
Qed.

Lemma play_run es w dir t c als p cur a :
  session_rep (R := R) w dir (t, c) als -> Forall (event_ok w (Topic.config t) (length als)) es ->
  (forall b, b ∈ als -> a_next b + len es < 2 ^ 64) -> behind p cur c als a ->
  exists w' t' c' als' a' items, play es (w, (t, c)) = (Ok items, (w', (t', c')))
    /\ session_rep (R := R) w' dir (t', c') als' /\ behind p cur c' als' a' /\ from_partition p items = [].
Proof.
  revert w t c als a. induction es as [|e es IH]; intros w t c als a Hs He Hn Hb.
  { by exists w, t, c, als, a, []. }
  apply Forall_cons in He as [He Hes]. assert (Hlen : len (e :: es) = len es + 1) by (unfold len; simpl; lia).
  rewrite Hlen in Hn. pose proof (len_nonneg es).
  destruct (happen_run e w dir t c als p cur a Hs He) as (w1 & t1 & c1 & als1 & a1 & items & Hrun & Hs1 & Hc1 & Hy & Hm & Hb1 & Hit);
    [intros b Hin; specialize (Hn b Hin); lia|done|].
  destruct (topic_stays_env _ _ _ Hy) as [E1 E2].
  destruct (IH w1 t1 c1 als1 a1 Hs1) as (w2 & t2 & c2 & als2 & a2 & rest & Hrun2 & Hs2 & Hb2 & Hit2); [..|exact Hb1|].
  { rewrite Hc1, <- (Forall2_length _ _ _ Hm). eapply Forall_impl; [exact Hes|]. intros x. by apply event_ok_env. }
  { by eapply moved_next. }
  cbn [play]. rewrite (bind_Ok _ _ _ _ _ Hrun), (bind_Ok _ _ _ _ _ Hrun2).
  eexists w2, t2, c2, als2, a2, _. split; [reflexivity|]. do 2 (split; [done|]).
  unfold from_partition in *. by rewrite filter_app, Hit, Hit2.
Qed.

End session.
