(* ===== verification/GroupSpec.v ===== *)
(** * Consumer groups

    A group's committed offsets live below the topic's directory.  Opening
    and committing leave the partitions alone, and a consumer that commits is
    resumed - after a crash and a restart - where it stopped. *)

From S2P Require Import Prelude Bytes Error Compression LogRecord Fs Names Search.
From S2P Require Import Segment SparseIndex Log LogInv LogOps LogRecover LogCrash LogSpec LogStore.
From S2P Require Import OffsetStore Partition PartitionSpec Topic Producer TopicSpec TopicStore.
From S2P Require Import Consumer ConsumerSpec.

Section groups.
Context {B : Buf} {H : Crc32} {C : Codecs}.
Context {R S : World -> Log -> alog -> Prop} {D : World -> path -> alog -> Prop}.
Context {LC : LogContract R} {LS : LogStore R S D}.

Definition offsets_dir (dir : path) : path := dir ++ ["offsets"].

Lemma parse_offsets : parse_u32 "offsets" = None.
Proof. reflexivity. Qed.

Lemma offsets_apart dir i : Z.of_nat i < 2 ^ 32 -> apart (offsets_dir dir) (pd dir i).
Proof.
  intros Hi. split; [unfold offsets_dir, pd; by rewrite !length_app|]. intros [_ E]%snoc_inj.
  apply (f_equal parse_u32) in E. rewrite parse_u32_to_string, parse_offsets in E by (split; lia). done.
Qed.

Lemma topic_rep_offsets_stays w w' dir t als :
  stays (offsets_dir dir) w w' -> topic_rep (R := R) w dir t als -> topic_rep (R := R) w' dir t als.
Proof.
  intros Hs [T1 T2 T3 T4 T5 T6]. split; try done; [|by eapply topic_layout_stays].
  intros i p a Hp Ha. eapply prep_apart; [exact Hs| |by eapply T3].
  rewrite (T4 i p Hp). apply offsets_apart. apply lookup_lt_Some in Hp. unfold len in T2. lia.
Qed.

Lemma topic_rep_offsets_grows w w' dir t als :
  grows (offsets_dir dir) w w' -> topic_rep (R := R) w dir t als -> topic_rep (R := R) w' dir t als.
Proof.
  intros Hg [T1 T2 T3 T4 T5 T6]. pose proof Hg as (G1 & G2 & G3 & G4 & G5). unfold len in T2. split; try done.
  - intros i p a Hp Ha. destruct (T3 i p a Hp Ha) as [[Hr Hh Hf] Hru Hi]. split; [|done|done].
    split; [|done|done]. eapply ls_grows; [exact Hg| |done]. pose proof (T4 i p Hp) as E.
    unfold pdir in E. rewrite E. apply lookup_lt_Some in Hp. apply offsets_apart. lia.
  - assert (Hsame : forall name, name <> "offsets" -> nodes w' !! (dir ++ [name]) = nodes w !! (dir ++ [name])).
    { intros name Hne. apply (grows_outside (offsets_dir dir)); [done|unfold offsets_dir; by rewrite !length_app|].
      intros [E|Hp]%prefix_snoc_inv; [by apply snoc_inj in E as [_ ->]|by apply snoc_not_prefix in Hp]. }
    destruct T6 as [L1 L2 L3]. split.
    + destruct (decide (dir = [])) as [->|Hne]; [|by apply G4; [eexists|]].
      rewrite G5; [done|by right|]. intros x E. by apply (f_equal length) in E.
    + intros i Hi. rewrite Hsame; [by apply L2|]. intros E. apply (f_equal parse_u32) in E.
      rewrite parse_u32_to_string, parse_offsets in E by (split; lia). done.
    + intros name k Hn Hk. destruct (decide (name = "offsets")) as [->|Hne]; [by rewrite parse_offsets in Hk|].
      rewrite Hsame in Hn by done. by eapply L3.
Qed.

(** ** Committing *)
Lemma commit_stays w dir s offsets w' :
  store_ok w dir s -> OffsetStore.commit offsets (w, s) = (Ok tt, (w', set_committed offsets s)) ->
  stays dir w w' /\ store_ok w' dir (set_committed offsets s).
Proof.
  intros Hok Hc. destruct (commit_run w dir s offsets Hok) as (w1 & Hrun & (Hq1 & Hn1 & Hm1) & t & Hns).
  rewrite Hc in Hrun. injection Hrun as <-. pose proof Hok as [Hq Hds Hd Hv Hf Ht Hff Htf].
  assert (Hs : stays dir w w').
  { unfold quiet in *. do 3 (split; [congruence|]). intros p Hp. rewrite Hns, lookup_insert_ne, lookup_delete_ne; [done| |].
    - rewrite Ht. intros E. by apply (Hp (OffsetStore.group s +:+ TEMP_SUFFIX)).
    - rewrite Hf. intros E. by apply (Hp (OffsetStore.group s)). }
  split; [done|]. destruct (stays_grows _ _ _ Hs Hds) as (_ & _ & _ & Hds' & _).
  split; try done; simpl.
  - destruct Hs as (_ & _ & _ & Hs). rewrite Hs; [done|]. intros x E. by apply snoc_ne in E.
  - by eapply validate_group_name_world.
  - by rewrite Hns, lookup_insert_eq.
  - rewrite Hns, lookup_insert_ne by (rewrite Hf, Ht; intros E; symmetry in E; by apply temp_file_ne in E).
    by rewrite lookup_delete_eq.
Qed.

Lemma consumer_commit_run w dir t c als s {HL : Crc32Laws H} :
  session_rep (R := R) w dir (t, c) als -> store c = Some s -> store_ok w (offsets_dir dir) s ->
  exists w' s', Consumer.commit (w, (t, c)) = (Ok tt, (w', (t, set_store (Some s') c)))
    /\ session_rep (R := R) w' dir (t, set_store (Some s') c) als
    /\ store_ok w' (offsets_dir dir) s' /\ OffsetStore.group s' = OffsetStore.group s
    /\ forall w2, crash w' w2 ->
         OffsetStore.open (offsets_dir dir) (OffsetStore.group s) (len als) w2 =
           (Ok (mkStore (file_path s) (temp_path s) (OffsetStore.group s) (cursors c)), w2).
Proof.
  intros [Ht Hlc Hu Hro] Hst Hok. simpl in *. unfold Consumer.commit. rewrite Hst.
  destruct (commit_run w _ s (cursors c) Hok) as (w1 & Hrun & _). rewrite Hrun.
  destruct (commit_stays w _ s (cursors c) w1 Hok Hrun) as [Hs Hok1].
  eexists w1, _. split; [reflexivity|]. split; [|split; [done|split; [done|]]].
  - split; simpl; try done; [by eapply topic_rep_offsets_stays|].
    eapply room_nil_world; [by eapply stays_limit|done].
  - intros w2 Hc. pose proof (tr_count _ _ _ _ Ht) as Hn. pose proof (tr_len _ _ _ _ Ht) as Hl. unfold len in Hn.
    rewrite (commit_open w _ s (cursors c) w1 (set_committed (cursors c) s) w2 (len als) Hok Hu) by
      (try done; unfold len; lia).
    do 3 f_equal. unfold padded, len. rewrite Nat2Z.id, <- Hlc, Nat.sub_diag, app_nil_r. by apply take_ge.
Qed.

(** ** Opening *)
Lemma store_open_run w dir g n :
  quiet w -> dir <> [] -> dirs_free w dir -> validate_group_name (S := World) g w = (Ok tt, w) ->
  nodes w !! (dir ++ [g]) <> Some NDir -> nodes w !! (dir ++ [g +:+ TEMP_SUFFIX]) <> Some NDir ->
  exists w' s, OffsetStore.open dir g n w = (Ok s, w') /\ store_ok w' dir s
    /\ OffsetStore.group s = g
    /\ (length (OffsetStore.committed s) = Z.to_nat n /\ Forall is_u64 (OffsetStore.committed s)) /\ grows dir w w'
    /\ (nodes w !! (dir ++ [g]) = None -> OffsetStore.committed s = replicate (Z.to_nat n) 0)
    /\ (forall f, nodes w !! (dir ++ [g]) = Some (NFile f) ->
          decode (f_data f) (Z.to_nat n) w' = (Ok (OffsetStore.committed s), w')).
Proof.
  intros Hq Hne Hf Hv Hg Ht.
  destruct (create_dir_all_run w dir Hq Hf) as (w1 & Hmk & Hq1 & Hm1 & Hd1 & Hn1 & Hsame).
  assert (Hch : forall x, nodes w1 !! (dir ++ [x]) = nodes w !! (dir ++ [x])).
  { intros x. apply Hsame. left. apply snoc_not_prefix. }
  assert (Hgr : grows dir w w1).
  { unfold quiet in *. do 3 (split; [congruence|]). split; [done|]. intros p Hp _. by apply Hsame. }
  exists w1. unfold OffsetStore.open. rewrite (bind_Ok _ _ _ _ _ Hv), (bind_Ok _ _ _ _ _ (io_Ok _ _ _ _ Hmk)).
  cbv zeta. destruct (nodes w !! (dir ++ [g])) as [[f|]|] eqn:E; [|done|].
  - assert (E1 : nodes w1 !! (dir ++ [g]) = Some (NFile f)) by by rewrite Hch.
    rewrite (bind_Ok _ _ _ _ _ (attempt_Ok _ _ _ _ (read_file_run w1 Hq1 _ _ E1))). cbv iota.
    destruct (offsets_decode_total (f_data f) (Z.to_nat n) w1) as (os & Hdec & Hl & Hu). rewrite (bind_Ok _ _ _ _ _ Hdec).
    eexists. split; [reflexivity|]. split; [|do 2 (split; [done|]); split; [done|split; [done|]]].
    + split; simpl; rewrite ?Hch, ?E; try done; [by apply Hd1|by eapply validate_group_name_world].
    + intros f' [= <-]. done.
  - assert (E1 : nodes w1 !! (dir ++ [g]) = None) by by rewrite Hch.
    rewrite (bind_Ok _ _ _ _ _ (attempt_Err _ _ _ _ (read_file_missing w1 Hq1 _ E1))).
    eexists. split; [reflexivity|]. split; [|split; [done|split; [|done]]].
    2: { split; [apply length_replicate|apply zeros_u64]. }
    split; simpl; rewrite ?Hch, ?E; try done; [by apply Hd1|by eapply validate_group_name_world].
Qed.

(** ** Resuming *)
Lemma resume_cursors w dir t als s :
  topic_rep (R := R) w dir t als -> length (OffsetStore.committed s) = length als ->
  cursors (from_topic_with_group t s) = zip_with (fun o a => Z.min o (a_next a)) (OffsetStore.committed s) als.
Proof.
  intros [T1 T2 T3 T4 T5 T6] Hl. apply list_eq. intros i. simpl. rewrite list_lookup_imap, lookup_zip_with.
  destruct (partitions t !! i) as [p|] eqn:Hp; simpl.
  - pose proof (lookup_lt_Some _ _ _ Hp) as Hi. rewrite T1 in Hi.
    destruct (lookup_lt_is_Some_2 als i Hi) as [a Ha]. rewrite <- Hl in Hi.
    destruct (lookup_lt_is_Some_2 (OffsetStore.committed s) i Hi) as [o Ho]. rewrite Ha, Ho. simpl.
    by rewrite (prep_hwm _ _ _ (T3 i p a Hp Ha)).
  - apply lookup_ge_None in Hp. rewrite T1 in Hp. rewrite (lookup_ge_None_2 als i Hp).
    by destruct (OffsetStore.committed s !! i).
Qed.

(** A consumer resumed from cursors the partitions have reached starts at
    them. *)
Lemma resume_at_cursors w dir t als s :
  topic_rep (R := R) w dir t als -> length (OffsetStore.committed s) = length als ->
  (forall i o a, OffsetStore.committed s !! i = Some o -> als !! i = Some a -> o <= a_next a) ->
  cursors (from_topic_with_group t s) = OffsetStore.committed s.
Proof.
  intros Ht Hl Hle. rewrite (resume_cursors w dir t als s Ht Hl). apply list_eq. intros i. rewrite lookup_zip_with.
  destruct (OffsetStore.committed s !! i) as [o|] eqn:Ho; [|done]. pose proof (lookup_lt_Some _ _ _ Ho) as Hi. rewrite Hl in Hi.
  destruct (lookup_lt_is_Some_2 als i Hi) as [a Ha]. rewrite Ha. simpl. f_equal.
  specialize (Hle i o a Ho Ha). lia.
Qed.

End groups.
