(* ===== verification/ServiceExamples.v ===== *)
(** * A concrete topic for the examples

    A topic of two partitions on the empty file system, two records sent to
    it, and a consumer of a group. *)

From S2P Require Import Prelude Bytes Error Compression LogRecord Fs Names Search.
From S2P Require Import Segment SparseIndex Log LogInv LogOps LogRetain LogRecover LogCrash LogSpec LogStore.
From S2P Require Import OffsetStore Partition PartitionSpec Topic Producer TopicSpec TopicStore.
From S2P Require Import Consumer ConsumerSpec GroupSpec Examples.

Definition ex_topic_dir : path := ["data"; "orders"].

Definition ex_made := Topic.create ex_topic_dir "orders" 2 ex_cfg ex_world.
Definition ex_t : Topic := result_or (mkTopic "" [] ex_cfg 0) ex_made.
Definition ex_tw : World := snd ex_made.

Lemma ex_create : Topic.create ex_topic_dir "orders" 2 ex_cfg ex_world = (Ok ex_t, ex_tw).
Proof. vm_compute. reflexivity. Qed.

#[global] Opaque ex_made ex_t ex_tw.

Lemma ex_topic_rep :
  topic_rep (R := log_refines) ex_tw ex_topic_dir ex_t [mkALog 0 []; mkALog 0 []].
Proof.
  destruct (topic_create_run (R := log_refines) ex_world ex_topic_dir "orders" 2 ex_cfg)
    as (w & t & Hc & Hr & _).
  - discriminate.
  - split; reflexivity.
  - reflexivity.
  - discriminate.
  - apply ex_dirs_free.
  - discriminate.
  - intros p _ _. apply lookup_empty.
  - rewrite ex_create in Hc. apply Ok_pair_inj in Hc as [<- <-]. exact Hr.
Qed.

Lemma ex_t_config : Topic.config ex_t = ex_cfg /\ seg_limit ex_tw = 2147479552.
Proof. split; vm_compute; reflexivity. Qed.

(** Two records, one with a key. *)
Definition ex_sent := Producer.send_batch_records [ex_rec1; ex_rec2] (ex_tw, ex_t).
Definition ex_tw2 : World := fst (snd ex_sent).
Definition ex_t2 : Topic := snd (snd ex_sent).

Lemma ex_send :
  Producer.send_batch_records [ex_rec1; ex_rec2] (ex_tw, ex_t) =
  (Ok [mkPosition 0 0; mkPosition 0 1], (ex_tw2, ex_t2)).
Proof. vm_compute. reflexivity. Qed.

#[global] Opaque ex_sent ex_tw2 ex_t2.

Lemma ex_topic_rep2 :
  topic_rep (R := log_refines) ex_tw2 ex_topic_dir ex_t2 [mkALog 0 [ex_rec1; ex_rec2]; mkALog 0 []].
Proof.
  destruct (append_batch_routed_run (R := log_refines) ex_tw ex_topic_dir ex_t _ [ex_rec1; ex_rec2] ex_topic_rep)
    as (w & t & ps & Hrun & Hr & _).
  - rewrite (proj1 ex_t_config). apply ex_storable.
  - rewrite (proj1 ex_t_config). apply ex_room, ex_t_config.
  - intros a Ha. repeat (apply elem_of_cons in Ha as [->|Ha]; [reflexivity|]). by apply elem_of_nil in Ha.
  - pose proof ex_send as Hs. unfold Producer.send_batch_records in Hs. rewrite Hs in Hrun.
    apply Ok_pair_inj in Hrun as [_ E]. apply pair_eq in E as [<- <-].
    replace [mkALog 0 [ex_rec1; ex_rec2]; mkALog 0 []] with
      (imap (fun p a => a_append (map snd (bucket ex_t [ex_rec1; ex_rec2] p)) a) [mkALog 0 []; mkALog 0 []]);
      [exact Hr|vm_compute; reflexivity].
Qed.

Lemma ex_t2_config : Topic.config ex_t2 = ex_cfg /\ seg_limit ex_tw2 = 2147479552.
Proof. split; vm_compute; reflexivity. Qed.

(** ** A consumer of a group *)
Definition ex_consumer : Consumer := from_topic ex_t2.

Lemma ex_cursors : cursors ex_consumer = [0; 0].
Proof. vm_compute. reflexivity. Qed.

Lemma ex_session (st : option OffsetStore) w :
  seg_limit w = 2147479552 ->
  topic_rep (R := log_refines) w ex_topic_dir ex_t2 [mkALog 0 [ex_rec1; ex_rec2]; mkALog 0 []] ->
  session_rep (R := log_refines) w ex_topic_dir (ex_t2, set_store st ex_consumer)
    [mkALog 0 [ex_rec1; ex_rec2]; mkALog 0 []].
Proof.
  intros Hl Ht. split.
  - exact Ht.
  - change (length (cursors ex_consumer) = 2%nat). rewrite ex_cursors. reflexivity.
  - change (Forall is_u64 (cursors ex_consumer)). rewrite ex_cursors. repeat (apply Forall_cons; split); try apply Forall_nil; vm_compute; split; congruence.
  - simpl. rewrite (proj1 ex_t2_config). by apply ex_room_nil.
Qed.

Definition ex_store_opened := OffsetStore.open (offsets_dir ex_topic_dir) "readers" 2 ex_tw2.
Definition ex_store : OffsetStore := result_or (mkStore [] [] "" []) ex_store_opened.
Definition ex_tw3 : World := snd ex_store_opened.

Lemma ex_store_ok :
  store_ok ex_tw3 (offsets_dir ex_topic_dir) ex_store
  /\ topic_rep (R := log_refines) ex_tw3 ex_topic_dir ex_t2 [mkALog 0 [ex_rec1; ex_rec2]; mkALog 0 []].
Proof.
  destruct (store_open_run ex_tw2 (offsets_dir ex_topic_dir) "readers" 2) as (w & s & Ho & Hok & _ & _ & Hg & _).
  - vm_compute. reflexivity.
  - discriminate.
  - intros p (k & E) Hne. unfold offsets_dir, ex_topic_dir in E. simpl in E.
    destruct p as [|a [|b [|c [|d p]]]]; simplify_list_eq; [left|left|right]; vm_compute; reflexivity.
  - reflexivity.
  - vm_compute. congruence.
  - vm_compute. congruence.
  - assert (ex_store = s /\ ex_tw3 = w) as [-> ->]
      by (split; [unfold ex_store, ex_store_opened|unfold ex_tw3, ex_store_opened]; rewrite Ho; reflexivity).
    split; [exact Hok|]. eapply topic_rep_offsets_grows; [exact Hg|apply ex_topic_rep2].
Qed.

Lemma ex_tw3_limit : seg_limit ex_tw3 = 2147479552.
Proof. vm_compute. reflexivity. Qed.

#[global] Opaque ex_store_opened ex_store ex_tw3.

(** ** A writer with a queue, and a partition *)
Definition ex_writer (q : list PartitionCommand) : Writer := mkWriter ex_l 0 q [] [] None 0.
Definition ex_queue : list PartitionCommand :=
  [Append ex_rec1 0; ReadAt 0 1; AppendBatch [ex_rec2] 2; Sync 3].
Definition ex_choices : list choice := [Recv 0; RetentionTick; Recv 3; Recv 1; Recv 0; Recv 0].

Lemma ex_wrep q : wrep (R := log_refines) ex_w (ex_writer q) (mkP (mkALog 0 []) None).
Proof. split; [exact ex_refines|reflexivity|reflexivity]. Qed.

Lemma ex_queue_ok : queue_ok ex_w (Log.config ex_l) 0 ex_queue.
Proof.
  rewrite ex_config. split.
  - exact (ex_storable CNone).
  - exact (ex_room ex_w (proj1 ex_limit)).
  - vm_compute. reflexivity.
  - repeat constructor. vm_compute. congruence.
Qed.

Definition ex_p : Partition := mkPartition (ex_writer []) Running 0.

Lemma ex_prep : prep (R := log_refines) ex_w ex_p (mkALog 0 []).
Proof. split; [apply ex_wrep|reflexivity|constructor]. Qed.

(** The disk is full. *)
Definition ex_full : World := mkWorld (nodes ex_w) (now_ms ex_w) [Some (Fault StorageFull 3)] (read_max ex_w).
Definition ex_failed := Partition.append ex_rec1 (ex_full, ex_p).
Definition ex_fw : World := fst (snd ex_failed).
Definition ex_fp : Partition := snd (snd ex_failed).

Lemma ex_failed_run :
  Partition.append ex_rec1 (ex_full, ex_p) = (Err (Io (io_error_from StorageFull)), (ex_fw, ex_fp)).
Proof. vm_compute. reflexivity. Qed.

#[global] Opaque ex_failed ex_fw ex_fp.

(** ** A partition whose oldest records are gone *)
Definition ex_retired := apply_retention (ex_w3, ex_l3).
Definition ex_w4 : World := fst (snd ex_retired).
Definition ex_l4 : Log := snd (snd ex_retired).

Lemma ex_retired_run : apply_retention (ex_w3, ex_l3) = (Ok 1, (ex_w4, ex_l4)).
Proof. vm_compute. reflexivity. Qed.

#[global] Opaque ex_retired ex_w4 ex_l4.

Lemma ex_refines4 : log_refines ex_w4 ex_l4 (mkALog 1 []).
Proof.
  destruct ex_rep3 as [Hr Hq].
  destruct (apply_retention_run ex_w3 ex_l3 0 [wires Zstd [ex_rec1]] [] Hq Hr)
    as (w & l & Hrun & _ & Hr' & Hq' & _).
  rewrite ex_retired_run in Hrun. apply Ok_pair_inj in Hrun as [_ E]. apply pair_eq in E as [<- <-].
  split; [exact Hq'|]. exists [], []. split; [|reflexivity].
  assert (Hn : (age_deletes ex_w3 ex_l3 + size_deletes ex_l3 (drop (age_deletes ex_w3 ex_l3) (segments ex_l3)))%nat = 1%nat)
    by (vm_compute; reflexivity).
  cbv zeta in Hr'. rewrite Hn in Hr'. exact Hr'.
Qed.

(** The partition of the retained log, alone in its topic. *)
Definition ex_late : Topic :=
  mkTopic "orders" [mkPartition (mkWriter ex_l4 1 [] [] [] None 0) Running 0] ex_cfg2 0.

Lemma ex_children4 : children ex_w4 ex_topic_dir = [("0", NDir)].
Proof. vm_compute. reflexivity. Qed.

Lemma ex_late_rep : topic_rep (R := log_refines) ex_w4 ex_topic_dir ex_late [mkALog 1 []].
Proof.
  split.
  - reflexivity.
  - split; reflexivity.
  - intros [|i] p a; simpl; [|by intros]. intros [= <-] [= <-].
    split; [|reflexivity|constructor]. split; [exact ex_refines4|reflexivity|reflexivity].
  - intros [|i] p; simpl; [|by intros]. intros [= <-]. vm_compute. reflexivity.
  - intros [|i] p; simpl; [|by intros]. intros [= <-]. vm_compute. reflexivity.
  - split.
    + vm_compute. reflexivity.
    + intros [|i] Hi; [|simpl in Hi; lia]. vm_compute. reflexivity.
    + intros name k Hn Hk. apply elem_of_children in Hn. rewrite ex_children4 in Hn.
      apply list_elem_of_singleton in Hn. injection Hn as ->. injection Hk as <-.
      exists 0%nat. split; [simpl; lia|]. split; reflexivity.
Qed.

Lemma ex_late_session :
  session_rep (R := log_refines) ex_w4 ex_topic_dir (ex_late, mkConsumer [0] 0 None) [mkALog 1 []].
Proof.
  split.
  - exact ex_late_rep.
  - reflexivity.
  - apply Forall_singleton. vm_compute. split; congruence.
  - assert (E : seg_limit ex_w4 = 2147479552) by (vm_compute; reflexivity).
    split; rewrite ?E; vm_compute; congruence.
Qed.
