(* ===== verification/ServiceTheorems.v ===== *)
(** * Theorems: partitions, topics, producers, consumers and groups

    The writer task against its sequential machine, routing and batching,
    what consumers deliver among sends and retention passes, and what committed
    offsets survive. *)

From S2P Require Import Prelude Bytes Error Compression LogRecord Fs Names Search.
From S2P Require Import Segment SparseIndex Log LogInv LogOps LogRecover LogCrash LogSpec LogStore.
From S2P Require Import OffsetStore Partition PartitionSpec Topic Producer TopicSpec TopicStore.
From S2P Require Import Consumer ConsumerSpec SessionSpec GroupSpec Examples ServiceExamples.

(** ** The writer task *)
Section writer.
Context {B : Buf} {H : Crc32} {C : Codecs}.
Context {R : World -> Log -> alog -> Prop} {LC : LogContract R}.

(** C8: however the queued commands arrive, however the writer groups appends
    into batches and whenever the retention timer fires, the writer task
    terminates and answers every command as the sequential machine does: one
    command at a time, on a list of records that retention shortens. Only if
    the retention interval is zero, for which no timer can be made, the task
    panics before it takes a command, and nothing has changed. *)
Theorem writer_serves_sequentially choices w wr p :
  wrep (R := R) w wr p -> queue_ok w (Log.config (log wr)) (a_next (p_log p)) (inbox wr) ->
  (length (inbox wr) < recvs choices)%nat ->
  if decide (usable (Log.config (log wr))) then
    exists w' wr' p' reps,
      partition_writer_loop choices (w, wr) = (Ok tt, (w', wr'))
      /\ sent wr' = sent wr ++ reps /\ inbox wr' = [] /\ pruns p (inbox wr) p' reps
      /\ R w' (log wr') (p_log p') /\ hwm wr' = a_next (p_log p')
  else partition_writer_loop choices (w, wr) = (Panic interval_message, (w, wr)).
Proof.
  intros Hw Hq Hf. case_decide as Hu; [|by apply writer_loop_dies]. rewrite writer_loop_starts by done.
  destruct (writer_serve_run choices w wr p Hw Hq Hf)
    as (w' & wr' & p' & reps & Hrun & [Hr Hh _] & [Hs _] & Hi & Hp & _).
  exists w', wr', p', reps. eauto 10.
Qed.

(** C7: an acknowledged append is durable once the writer has exited: for any
    timing of the commands, the record a caller was given an offset for is
    found at that offset after a crash and a restart, unless retention has
    retired the offset. (With a retention interval of zero the task panics at
    once, and nothing is acknowledged.) *)
Theorem acked_appends_survive choices w wr p :
  wrep (R := R) w wr p -> queue_ok w (Log.config (log wr)) (a_next (p_log p)) (inbox wr) ->
  (length (inbox wr) < recvs choices)%nat ->
  if decide (usable (Log.config (log wr))) then
    exists w' wr' a',
      partition_writer_loop choices (w, wr) = (Ok tt, (w', wr'))
      /\ forall id off, (id, ROffset (inl off)) ∈ drop (length (sent wr)) (sent wr') ->
           exists r, Append r id ∈ inbox wr
             /\ forall w2 cfg, crash w' w2 ->
                  exists w3 l3, Log.open (dir (log wr)) cfg w2 = (Ok l3, w3) /\ R w3 l3 a'
                    /\ (a_start a' <= off -> a_read off a' = Some r)
  else partition_writer_loop choices (w, wr) = (Panic interval_message, (w, wr)).
Proof.
  intros Hw Hq Hf. case_decide as Hu; [|by apply writer_loop_dies].
  rewrite writer_loop_starts by done. destruct (writer_serve_run choices w wr p Hw Hq Hf)
    as (w' & wr' & p' & reps & Hrun & _ & [Hs _] & _ & Hp & Hdur).
  exists w', wr', (p_log p'). split; [done|]. rewrite Hs, drop_app_length. intros id off Hin.
  destruct (pruns_acked _ _ _ _ _ _ Hp Hin) as (_ & r & Hc & Hr). exists r. split; [done|].
  intros w2 cfg Hcr. destruct (Hdur w2 cfg Hcr) as (w3 & l3 & Ho & Hr3). eauto.
Qed.

(** On a running partition an append returns the next offset, which a
    read then returns the record at, and the high-water mark moves past it. *)
Theorem partition_append_then_read w p a r :
  prep (R := R) w p a -> storable (compression (pconfig p)) r -> room w (pconfig p) [r] ->
  a_next a + 1 < 2 ^ 64 ->
  exists w1 p1 w2 p2,
    Partition.append r (w, p) = (Ok (a_next a), (w1, p1)) /\ high_water_mark p1 = a_next a + 1
    /\ Partition.read_record_at (a_next a) (w1, p1) = (Ok (Some r), (w2, p2))
    /\ prep (R := R) w2 p2 (a_append [r] a).
Proof.
  intros Hp Hs Hr Hn. destruct (partition_append_run w p a r Hp Hs Hr Hn) as (w1 & p1 & Ha & Hp1 & Kc & _ & Ks).
  destruct (lc_bound _ _ _ (wr_log _ _ _ (pp_writer _ _ _ Hp))) as [Hst _]. simpl in Hst.
  destruct (partition_read_run w1 p1 (a_append [r] a) (a_next a)) as (w2 & p2 & Hrd & Hp2 & _); [done| | |].
  - rewrite Kc. eapply room_nil_world; [by eapply stays_limit|]. by destruct (room_app w _ [] [r] Hr).
  - unfold a_next. pose proof (len_nonneg (a_recs a)). lia.
  - exists w1, p1, w2, p2. split; [done|]. split; [rewrite (prep_hwm _ _ _ Hp1); by rewrite a_next_append|].
    split; [|done]. rewrite Hrd. rewrite <- (Z.add_0_r (a_next a)) at 1.
    change 0 with (Z.of_nat 0). by rewrite a_read_append by (simpl; lia).
Qed.
End writer.

Section failures.
Context {B : Buf} {H : Crc32} {C : Codecs}.

(** Whatever system calls fail, a failed append does not move the
    high-water mark, and the partition goes on serving - unless its task
    panicked, and then the caller gets the panic's message. *)
Theorem failed_append_keeps_partition r w p e w' p' :
  status p = Running -> Forall (fun x => (fst x < next_reply p)%nat) (sent (writer p)) ->
  Partition.append r (w, p) = (Err e, (w', p')) ->
  high_water_mark p' = high_water_mark p
  /\ (status p' = Running \/ exists msg, e = PartitionPanicked msg /\ status p' = Exited (Some msg)).
Proof. apply append_Err_inv. Qed.

(** Once the writer task has panicked every call on the partition reports
    the panic's message, the high-water mark stays what it was, and a shutdown
    still returns. *)
Theorem poisoned_partition_reports_panic w p :
  status p = Running ->
  exists msg p', poison_for_test (w, p) = (Ok tt, (w, p')) /\ high_water_mark p' = high_water_mark p
    /\ (forall r, Partition.append r (w, p') = (Err (PartitionPanicked msg), (w, p')))
    /\ (forall rs, rs <> [] -> Partition.append_batch rs (w, p') = (Err (PartitionPanicked msg), (w, p')))
    /\ (forall off, Partition.read_record_at off (w, p') = (Err (PartitionPanicked msg), (w, p')))
    /\ Partition.sync (w, p') = (Err (PartitionPanicked msg), (w, p'))
    /\ poison_for_test (w, p') = (Err Closed, (w, p'))
    /\ Partition.shutdown (w, p') = (Ok tt, (w, p')).
Proof.
  intros Hr. unfold poison_for_test, post. rewrite Hr. eexists _, _. split; [reflexivity|].
  split; [reflexivity|]. split; [reflexivity|]. split; [by intros [|r rs] Hne|]. by split_and!.
Qed.

End failures.

(** ** Injected failures *)
Section injected.
Context {B : Buf} {H : Crc32} {C : Codecs}.
Context {R : World -> Log -> alog -> Prop} {LC : LogContract R}.

(** An append that fails does not take the partition offline: the injected
    failure hits exactly one append, which reports its kind and changes
    nothing, and the next append gets the offset the failed one would have
    had. *)
Theorem injected_failure_hits_one_append w p a k r1 r2 :
  prep (R := R) w p a -> storable (compression (pconfig p)) r2 -> room w (pconfig p) [r2] -> a_next a + 1 < 2 ^ 64 ->
  exists p1 p2 w3 p3, fail_next_append_for_test k (w, p) = (Ok tt, (w, p1))
    /\ Partition.append r1 (w, p1) = (Err (Io (io_error_from k)), (w, p2)) /\ prep (R := R) w p2 a
    /\ Partition.append r2 (w, p2) = (Ok (a_next a), (w3, p3)) /\ prep (R := R) w3 p3 (a_append [r2] a).
Proof.
  intros Hp Hs Hro Hn. destruct (injected_failure_run w p a k r1 Hp) as (p1 & p2 & R1 & R2 & Hp2 & Hc).
  rewrite <- Hc in Hs, Hro. destruct (partition_append_run w p2 a r2 Hp2 Hs Hro Hn) as (w3 & p3 & R3 & Hp3 & _).
  by exists p1, p2, w3, p3.
Qed.

End injected.

(** ** Routing and producers *)
Section producers.
Context {B : Buf} {H : Crc32} {C : Codecs}.
Context {R : World -> Log -> alog -> Prop} {LC : LogContract R}.

(** C10: a batch is split over the partitions its records route to and the
    positions come back in input order: the [i]-th position is where the
    [i]-th record was appended, and within a partition the batch keeps its
    order. *)
Theorem batch_positions_match_input w dir t als rs :
  topic_rep (R := R) w dir t als -> Forall (storable (compression (Topic.config t))) rs ->
  room w (Topic.config t) rs -> (forall a, a ∈ als -> a_next a + len rs < 2 ^ 64) ->
  exists w' t' positions,
    append_batch_routed rs (w, t) = (Ok positions, (w', t'))
    /\ topic_rep (R := R) w' dir t' (imap (fun p a => a_append (map snd (bucket t rs p)) a) als)
    /\ length positions = length rs
    /\ (forall i r, rs !! i = Some r -> exists p k a,
          fst (route_all t rs) !! i = Some (Z.of_nat p) /\ als !! p = Some a
          /\ bucket t rs p !! k = Some (i, r)
          /\ positions !! i = Some (mkPosition (Z.of_nat p) (a_next a + Z.of_nat k))).
Proof.
  intros Ht Hst Hro Hnx.
  destruct (append_batch_routed_run w dir t als rs Ht Hst Hro Hnx) as (w' & t' & ps & H1 & H2 & H3 & H4 & _).
  by exists w', t', ps.
Qed.

(** [send] stamps the record and appends it to the partition its key
    hashes to - the same one for equal keys - or to the next one in turn. *)
Theorem send_appends_to_its_partition w dir t als key value :
  let r := LogRecord.new (if now_ms w <? 0 then 0 else as_i64 (now_ms w)) key value in
  topic_rep (R := R) w dir t als -> storable (compression (Topic.config t)) r ->
  room w (Topic.config t) [r] -> (forall a, a ∈ als -> a_next a + 1 < 2 ^ 64) ->
  exists w' t' p a,
    Producer.send key value (w, t) = (Ok (mkPosition (Z.of_nat p) (a_next a)), (w', t'))
    /\ als !! p = Some a /\ topic_rep (R := R) w' dir t' (<[p := a_append [r] a]> als)
    /\ Z.of_nat p = route_of t key /\ (forall k, key = Some k -> Z.of_nat p = partition_for_key k t).
Proof.
  intros r Ht Hst Hro Hnx.
  destruct (send_run w dir t als key value Ht Hst Hro Hnx) as (w' & t' & p & a & H1 & H2 & H3 & H4 & H5 & _).
  by exists w', t', p, a.
Qed.

(** As many keyless sends in a row as there are partitions use every
    partition exactly once. *)
Theorem round_robin_is_fair w t :
  0 < len (partitions t) < 2 ^ 32 -> 0 <= round_robin t -> round_robin t + len (partitions t) < 2 ^ 64 ->
  exists ps t', picks (length (partitions t)) (w, t) = (Ok ps, (w, t'))
    /\ ps ≡ₚ map Z.of_nat (seq 0 (length (partitions t))).
Proof. apply picks_fair. Qed.
End producers.

(** ** Consumers *)
Section consumers.
Context {B : Buf} {H : Crc32} {C : Codecs}.
Context {R : World -> Log -> alog -> Prop} {LC : LogContract R}.

(** C11: a consumer that takes records until there is none left terminates and
    has been given, from every partition, exactly the records from its cursor
    on, in order, each with its offset, none twice and none skipped. *)
Theorem consumer_delivers_everything_in_order w dir t c als fuel :
  session_rep (R := R) w dir (t, c) als -> (total_avail als (cursors c) < fuel)%nat ->
  exists w' s' items,
    drain fuel (w, (t, c)) = (Ok items, (w', s')) /\ session_rep (R := R) w' dir s' als
    /\ (forall p a cursor, als !! p = Some a -> cursors c !! p = Some cursor ->
          from_partition p items = at_offsets p cursor (avail a cursor)).
Proof. intros Hs Hf. by apply drain_run. Qed.

(** A scan comes back empty only if no partition has a record at the
    consumer's cursor: the consumer never sleeps with a record to deliver. *)
Theorem empty_scan_means_nothing_left w dir t c als w' s' :
  session_rep (R := R) w dir (t, c) als -> try_take_next (w, (t, c)) = (Ok None, (w', s')) ->
  forall p a cursor, als !! p = Some a -> cursors c !! p = Some cursor -> a_read cursor a = None.
Proof.
  intros Hs Hrun. destruct (try_take_next_run w dir t c als Hs) as (w1 & t1 & Hrun1 & _).
  rewrite Hrun in Hrun1. cbv zeta in Hrun1.
  destruct (pick (length als) (scan_start c) (seq 0 (length als)) als (cursors c)) as [[[q o] r]|] eqn:Hp; [done|].
  clear Hrun1.
  pose proof (tr_count _ _ _ _ (sr_topic _ _ _ _ Hs)) as Hct.
  pose proof (tr_len _ _ _ _ (sr_topic _ _ _ _ Hs)) as Hl. unfold len in Hct. simpl in Hct, Hl.
  pose proof (sr_cursors _ _ _ _ Hs) as Hlc. simpl in Hlc.
  intros p a cursor. apply (pick_None (length als) (scan_start c) als (cursors c)); [lia|done|done|done].
Qed.

(** C34: a cursor below a partition's first retained offset starves: whatever
    sequence of sends to the topic, runs of its partitions' retention timers and
    takes by the consumer follows, nothing of that partition is ever delivered
    and the cursor stays where it is; the consumer is neither told nor moved
    forward. *)
Theorem retired_cursor_starves w dir t c als es p a cursor :
  session_rep (R := R) w dir (t, c) als -> Forall (event_ok w (Topic.config t) (length als)) es ->
  (forall b, b ∈ als -> a_next b + len es < 2 ^ 64) ->
  als !! p = Some a -> cursors c !! p = Some cursor -> cursor < a_start a ->
  exists w' t' c' als' items,
    play es (w, (t, c)) = (Ok items, (w', (t', c'))) /\ session_rep (R := R) w' dir (t', c') als'
    /\ from_partition p items = [] /\ cursors c' !! p = Some cursor.
Proof.
  intros Hs He Hn Ha Hc Hlt.
  destruct (play_run es w dir t c als p cursor a Hs He Hn) as (w' & t' & c' & als' & a' & items & Hrun & Hs' & Hb & Hit);
    [by split|].
  exists w', t', c', als', items. do 3 (split; [done|]). apply Hb.
Qed.
End consumers.

(** ** Committed offsets *)
Section offsets.
Context {H : Crc32}.

(** A committed offset file reads back as the offsets that were
    committed, padded or cut to the current partition count. *)
Theorem offset_file_round_trip {HL : Crc32Laws H} {S} os n (s : S) :
  Forall is_u64 os -> len os < 2 ^ 32 ->
  OffsetStore.decode (OffsetStore.encode os) n s = (Ok (padded n os), s).
Proof. apply decode_encode. Qed.

(** On any bytes at all the offset decoder returns one 64-bit offset per
    partition - it never fails and never panics - and bytes whose checksum is
    wrong count as no offsets at all. *)
Theorem offset_decode_total {S} bytes n (s : S) :
  (exists l, OffsetStore.decode bytes n s = (Ok l, s) /\ length l = n /\ Forall is_u64 l)
  /\ (from_le_bytes (take 4 bytes) <> crc32 (drop 4 bytes) ->
      OffsetStore.decode bytes n s = (Ok (replicate n 0), s)).
Proof. split; [apply offsets_decode_total|apply decode_damaged]. Qed.

(** C35: a commit is atomic under any failures: the group's file holds either
    what it held before or exactly the new offsets, on the device, and the
    store remembers the new offsets only in the second case. *)
Theorem commit_is_atomic offsets w s :
  temp_path s <> file_path s ->
  match OffsetStore.commit offsets (w, s) with
  | (Ok _, (w', s')) =>
      s' = set_committed offsets s
      /\ exists t, nodes w' !! file_path s =
           Some (NFile (FNode (OffsetStore.encode offsets) (OffsetStore.encode offsets) t))
  | (Err _, (w', s')) => s' = s /\ nodes w' !! file_path s = nodes w !! file_path s
  | _ => False
  end.
Proof.
  intros Hne. pose proof (commit_cases offsets w s Hne) as Hc.
  destruct (OffsetStore.commit offsets (w, s)) as [[] [w' s']]; try done.
  - destruct Hc as [-> [t ->]]. split; [done|]. exists t. apply lookup_insert_eq.
  - destruct Hc as [-> [->|[n ->]]]; split; try done. by rewrite lookup_insert_ne.
Qed.

(** A successful commit survives a crash: the next store of the group
    starts from the committed offsets. *)
Theorem commit_survives_crash {HL : Crc32Laws H} w dir s offsets :
  store_ok w dir s -> Forall is_u64 offsets -> len offsets < 2 ^ 32 ->
  exists w1, OffsetStore.commit offsets (w, s) = (Ok tt, (w1, set_committed offsets s))
    /\ forall w2 n, crash w1 w2 ->
         OffsetStore.open dir (OffsetStore.group s) n w2 =
           (Ok (mkStore (file_path s) (temp_path s) (OffsetStore.group s) (padded (Z.to_nat n) offsets)), w2).
Proof.
  intros Hok Hu Hl. destruct (commit_run w dir s offsets Hok) as (w1 & Hrun & _). exists w1.
  split; [done|]. intros w2 n Hc. by apply (commit_open w dir s offsets w1 (set_committed offsets s)).
Qed.

(** A commit leaves every other group's file alone - except that of the
    group named like its temporary file. *)
Theorem commit_isolated w dir s offsets w1 s1 g :
  store_ok w dir s -> OffsetStore.commit offsets (w, s) = (Ok tt, (w1, s1)) ->
  g <> OffsetStore.group s -> g <> OffsetStore.group s +:+ TEMP_SUFFIX ->
  nodes w1 !! (dir ++ [g]) = nodes w !! (dir ++ [g]).
Proof. apply commit_other. Qed.

(** And that group, whose name is valid, loses its offsets: after a
    commit of group [g] the group [g.tmp] starts from zero. *)
Theorem temp_named_group_is_reset w dir s offsets n :
  store_ok w dir s ->
  exists w1, OffsetStore.commit offsets (w, s) = (Ok tt, (w1, set_committed offsets s))
    /\ exists s2, OffsetStore.open dir (OffsetStore.group s +:+ TEMP_SUFFIX) n w1 = (Ok s2, w1)
         /\ OffsetStore.committed s2 = replicate (Z.to_nat n) 0.
Proof. apply temp_group_reset. Qed.
End offsets.

(** ** Witnesses *)
Lemma writer_serves_sequentially_witness :
  exists w' wr' p' reps,
    partition_writer_loop ex_choices (ex_w, ex_writer ex_queue) = (Ok tt, (w', wr'))
    /\ sent wr' = [] ++ reps /\ inbox wr' = [] /\ pruns (mkP (mkALog 0 []) None) ex_queue p' reps
    /\ log_refines w' (log wr') (p_log p') /\ hwm wr' = a_next (p_log p').
Proof.
  apply (writer_serves_sequentially (R := log_refines) ex_choices ex_w (ex_writer ex_queue) _ (ex_wrep ex_queue)).
  - exact ex_queue_ok.
  - simpl. lia.
Defined.

Lemma acked_appends_survive_witness :
  exists w' wr' a',
    partition_writer_loop ex_choices (ex_w, ex_writer ex_queue) = (Ok tt, (w', wr'))
    /\ forall id off, (id, ROffset (inl off)) ∈ drop 0 (sent wr') ->
         exists r, Append r id ∈ ex_queue
           /\ forall w2 cfg, crash w' w2 ->
                exists w3 l3, Log.open (Log.dir ex_l) cfg w2 = (Ok l3, w3) /\ log_refines w3 l3 a'
                  /\ (a_start a' <= off -> a_read off a' = Some r).
Proof.
  apply (acked_appends_survive (R := log_refines) ex_choices ex_w (ex_writer ex_queue) _ (ex_wrep ex_queue)).
  - exact ex_queue_ok.
  - simpl. lia.
Defined.

Lemma partition_append_then_read_witness :
  exists w1 p1 w2 p2,
    Partition.append ex_rec1 (ex_w, ex_p) = (Ok 0, (w1, p1)) /\ high_water_mark p1 = 1
    /\ Partition.read_record_at 0 (w1, p1) = (Ok (Some ex_rec1), (w2, p2))
    /\ prep (R := log_refines) w2 p2 (mkALog 0 [ex_rec1]).
Proof.
  apply (partition_append_then_read (R := log_refines) ex_w ex_p (mkALog 0 []) ex_rec1 ex_prep).
  - pose proof (ex_storable CNone) as Hs. apply Forall_cons in Hs as [Hs _]. exact Hs.
  - exact (ex_room_one ex_w (proj1 ex_limit)).
  - reflexivity.
Defined.

Lemma failed_append_keeps_partition_witness :
  Partition.append ex_rec1 (ex_full, ex_p) = (Err (Io (io_error_from StorageFull)), (ex_fw, ex_fp))
  /\ high_water_mark ex_fp = 0
  /\ (status ex_fp = Running
      \/ exists msg, Io (io_error_from StorageFull) = PartitionPanicked msg /\ status ex_fp = Exited (Some msg)).
Proof.
  split; [exact ex_failed_run|].
  apply (failed_append_keeps_partition ex_rec1 ex_full ex_p (Io (io_error_from StorageFull)) ex_fw ex_fp);
    [reflexivity|constructor|exact ex_failed_run].
Defined.

Lemma poisoned_partition_reports_panic_witness :
  exists msg p', poison_for_test (ex_w, ex_p) = (Ok tt, (ex_w, p'))
    /\ Partition.append ex_rec1 (ex_w, p') = (Err (PartitionPanicked msg), (ex_w, p')).
Proof.
  destruct (poisoned_partition_reports_panic ex_w ex_p eq_refl) as (msg & p' & H1 & _ & H2 & _).
  exists msg, p'. exact (conj H1 (H2 ex_rec1)).
Defined.

Lemma injected_failure_hits_one_append_witness :
  exists p1 p2, fail_next_append_for_test StorageFull (ex_w, ex_p) = (Ok tt, (ex_w, p1))
    /\ Partition.append ex_rec2 (ex_w, p1) = (Err (Io (io_error_from StorageFull)), (ex_w, p2)).
Proof.
  destruct (injected_failure_hits_one_append (R := log_refines) ex_w ex_p (mkALog 0 []) StorageFull ex_rec2 ex_rec1 ex_prep)
    as (p1 & p2 & w3 & p3 & H1 & H2 & _).
  - pose proof (ex_storable CNone) as Hs. apply Forall_cons in Hs as [Hs _]. exact Hs.
  - exact (ex_room_one ex_w (proj1 ex_limit)).
  - reflexivity.
  - exists p1, p2. exact (conj H1 H2).
Defined.

Lemma batch_positions_match_input_witness :
  exists w' t' positions,
    append_batch_routed [ex_rec1; ex_rec2] (ex_tw, ex_t) = (Ok positions, (w', t'))
    /\ length positions = 2%nat.
Proof.
  destruct (batch_positions_match_input (R := log_refines) ex_tw ex_topic_dir ex_t
    [mkALog 0 []; mkALog 0 []] [ex_rec1; ex_rec2] ex_topic_rep) as (w' & t' & ps & Hrun & _ & Hl & _).
  - rewrite (proj1 ex_t_config). apply ex_storable.
  - rewrite (proj1 ex_t_config). apply ex_room, ex_t_config.
  - intros a Ha. repeat (apply elem_of_cons in Ha as [->|Ha]; [reflexivity|]). by apply elem_of_nil in Ha.
  - exists w', t', ps. exact (conj Hrun Hl).
Defined.

Lemma send_appends_to_its_partition_witness :
  exists w' t' p a,
    Producer.send (Some [x61; x62]) [x68; x69] (ex_tw, ex_t) = (Ok (mkPosition (Z.of_nat p) (a_next a)), (w', t'))
    /\ [mkALog 0 []; mkALog 0 []] !! p = Some a.
Proof.
  destruct (send_appends_to_its_partition (R := log_refines) ex_tw ex_topic_dir ex_t
    [mkALog 0 []; mkALog 0 []] (Some [x61; x62]) [x68; x69] ex_topic_rep) as (w' & t' & p & a & Hrun & Ha & _).
  - rewrite (proj1 ex_t_config). pose proof (ex_storable CNone) as Hs. apply Forall_cons in Hs as [Hs _].
    assert (E : now_ms ex_tw = 1700000000000) by (vm_compute; reflexivity). rewrite E. exact Hs.
  - rewrite (proj1 ex_t_config).
    assert (E : now_ms ex_tw = 1700000000000) by (vm_compute; reflexivity). rewrite E.
    apply ex_room_one, ex_t_config.
  - intros a Ha. repeat (apply elem_of_cons in Ha as [->|Ha]; [reflexivity|]). by apply elem_of_nil in Ha.
  - exists w', t', p, a. exact (conj Hrun Ha).
Defined.

Lemma round_robin_is_fair_witness :
  exists ps t', picks 2 (ex_tw, ex_t) = (Ok ps, (ex_tw, t')) /\ ps ≡ₚ [0; 1].
Proof.
  pose proof (round_robin_is_fair ex_tw ex_t) as Hf.
  assert (E : length (partitions ex_t) = 2%nat /\ round_robin ex_t = 0) by (vm_compute; split; reflexivity).
  destruct E as [E1 E2]. unfold len in Hf. rewrite E1, E2 in Hf. apply Hf.
  - split; reflexivity.
  - reflexivity.
  - reflexivity.
Defined.

Lemma consumer_delivers_everything_in_order_witness :
  exists w' s' items,
    drain 3 (ex_tw2, (ex_t2, set_store None ex_consumer)) = (Ok items, (w', s'))
    /\ from_partition 0 items = at_offsets 0 0 [ex_rec1; ex_rec2].
Proof.
  destruct (consumer_delivers_everything_in_order (R := log_refines) ex_tw2 ex_topic_dir ex_t2
    (set_store None ex_consumer) _ 3
    (ex_session None ex_tw2 (proj2 ex_t2_config) ex_topic_rep2)) as (w' & s' & items & Hrun & _ & Hit).
  - change (total_avail [mkALog 0 [ex_rec1; ex_rec2]; mkALog 0 []] (cursors ex_consumer) < 3)%nat.
    rewrite ex_cursors. simpl. lia.
  - exists w', s', items. split; [exact Hrun|].
    apply (Hit 0%nat (mkALog 0 [ex_rec1; ex_rec2]) 0); [reflexivity|].
    change (cursors ex_consumer !! 0%nat = Some 0). rewrite ex_cursors. reflexivity.
Defined.

Lemma empty_scan_means_nothing_left_witness :
  exists w' s',
    try_take_next (ex_w4, (ex_late, mkConsumer [0] 0 None)) = (Ok None, (w', s'))
    /\ a_read 0 (mkALog 1 []) = None.
Proof.
  assert (E : exists w' s', try_take_next (ex_w4, (ex_late, mkConsumer [0] 0 None)) = (Ok None, (w', s'))).
  { eexists _, _. vm_compute. reflexivity. }
  destruct E as (w' & s' & E). exists w', s'. split; [exact E|].
  exact (empty_scan_means_nothing_left (R := log_refines) _ _ _ _ _ _ _ ex_late_session E
    0 (mkALog 1 []) 0 eq_refl eq_refl).
Defined.

(** A record is sent, the timer fires, and two takes find nothing. *)
Definition ex_events : list sevent := [ETake; ESend (Some [x61; x62]) [x68; x69]; ETick 0; ETake].

Lemma retired_cursor_starves_witness :
  exists w' t' c' items,
    play ex_events (ex_w4, (ex_late, mkConsumer [0] 0 None)) = (Ok items, (w', (t', c')))
    /\ from_partition 0 items = [] /\ cursors c' !! 0%nat = Some 0.
Proof.
  destruct (retired_cursor_starves (R := log_refines) ex_w4 ex_topic_dir ex_late (mkConsumer [0] 0 None)
    [mkALog 1 []] ex_events 0 (mkALog 1 []) 0 ex_late_session) as (w' & t' & c' & als' & items & Hrun & _ & Hit & Hc);
    try reflexivity.
  - repeat (apply Forall_cons; split); try exact I; [|simpl; lia|apply Forall_nil; exact I].
    assert (E : now_ms ex_w4 = 1700000000000 /\ seg_limit ex_w4 = 2147479552) by (vm_compute; split; reflexivity).
    unfold event_ok, sent_now. rewrite (proj1 E). split.
    + pose proof (ex_storable (compression ex_cfg2)) as Hs. apply Forall_cons in Hs as [Hs _]. exact Hs.
    + split; rewrite ?(proj2 E); vm_compute; congruence.
  - intros b ->%list_elem_of_singleton. reflexivity.
  - exists w', t', c', items. exact (conj Hrun (conj Hit Hc)).
Defined.

Lemma offset_file_round_trip_witness :
  OffsetStore.decode (OffsetStore.encode [5; 7]) 3 tt = (Ok [5; 7; 0], tt).
Proof.
  apply (offset_file_round_trip [5; 7] 3 tt); [|reflexivity].
  repeat (apply Forall_cons; split); try apply Forall_nil; vm_compute; split; congruence.
Defined.

Lemma offset_decode_total_witness :
  (exists l, OffsetStore.decode [x00; x01; x02; x03; x04; x05; x06; x07; x08] 2 tt = (Ok l, tt) /\ length l = 2%nat
     /\ Forall is_u64 l)
  /\ OffsetStore.decode [x00; x01; x02; x03; x04; x05; x06; x07; x08] 2 tt = (Ok [0; 0], tt).
Proof.
  destruct (offset_decode_total [x00; x01; x02; x03; x04; x05; x06; x07; x08] 2 tt) as [H1 H2].
  split; [exact H1|]. apply H2. vm_compute. congruence.
Defined.

Lemma commit_is_atomic_witness :
  match OffsetStore.commit [5; 7] (ex_tw3, ex_store) with
  | (Ok _, (w', s')) =>
      s' = set_committed [5; 7] ex_store
      /\ exists t, nodes w' !! file_path ex_store =
           Some (NFile (FNode (OffsetStore.encode [5; 7]) (OffsetStore.encode [5; 7]) t))
  | (Err _, (w', s')) => s' = ex_store /\ nodes w' !! file_path ex_store = nodes ex_tw3 !! file_path ex_store
  | _ => False
  end.
Proof. apply (commit_is_atomic [5; 7] ex_tw3 ex_store). vm_compute. congruence. Defined.

Lemma commit_survives_crash_witness :
  exists w1, OffsetStore.commit [5; 7] (ex_tw3, ex_store) = (Ok tt, (w1, set_committed [5; 7] ex_store))
    /\ forall w2 n, crash w1 w2 ->
         OffsetStore.open (offsets_dir ex_topic_dir) (OffsetStore.group ex_store) n w2 =
           (Ok (mkStore (file_path ex_store) (temp_path ex_store) (OffsetStore.group ex_store)
                  (padded (Z.to_nat n) [5; 7])), w2).
Proof.
  apply (commit_survives_crash ex_tw3 _ ex_store [5; 7] (proj1 ex_store_ok)); [|reflexivity].
  repeat (apply Forall_cons; split); try apply Forall_nil; vm_compute; split; congruence.
Defined.

Lemma commit_isolated_witness :
  exists w1 s1, OffsetStore.commit [5; 7] (ex_tw3, ex_store) = (Ok tt, (w1, s1))
    /\ nodes w1 !! (offsets_dir ex_topic_dir ++ ["writers"]) = nodes ex_tw3 !! (offsets_dir ex_topic_dir ++ ["writers"]).
Proof.
  destruct (commit_run ex_tw3 _ ex_store [5; 7] (proj1 ex_store_ok)) as (w1 & Hrun & _).
  exists w1, (set_committed [5; 7] ex_store). split; [exact Hrun|].
  apply (commit_isolated _ _ _ _ _ _ _ (proj1 ex_store_ok) Hrun); vm_compute; congruence.
Defined.

Lemma temp_named_group_is_reset_witness :
  exists w1, OffsetStore.commit [5; 7] (ex_tw3, ex_store) = (Ok tt, (w1, set_committed [5; 7] ex_store))
    /\ exists s2, OffsetStore.open (offsets_dir ex_topic_dir) (OffsetStore.group ex_store +:+ TEMP_SUFFIX) 2 w1
                    = (Ok s2, w1)
         /\ OffsetStore.committed s2 = [0; 0].
Proof. apply (temp_named_group_is_reset ex_tw3 _ ex_store [5; 7] 2 (proj1 ex_store_ok)). Defined.
