(* ===== verification/Clients.v ===== *)
(** * Concurrent clients of a partition (partition.rs)

    Any number of tasks call one [Partition] at the same time: each puts a
    command with a one-shot channel on the bounded queue - waiting while the
    queue is full - and awaits the answer; [high_water_mark] reads the watch
    channel at any moment.  [cstep] interleaves them with the turns of the
    writer task and with whatever other tasks do to other directories.  What a
    turn puts on the channels - the high-water mark, the answers - appears one
    step at a time, in the task's order, with any steps of others in between;
    the rest of a turn is on the task's own log and seen by nobody.  A task
    whose retention interval is zero takes no turn: it is dead before the first
    command, and the supervisor's error answers every call.
    [history] records calls, answers and observations in the order in which
    they happen; [linearizes] compares it with a sequential run of the
    abstract log. *)

From S2P Require Import Prelude Bytes Error Compression LogRecord Fs Names Search.
From S2P Require Import Segment SparseIndex Log LogInv LogOps LogCrash LogSpec Partition PartitionSpec.

Inductive event : Type :=
| Invoked (c : PartitionCommand)
| Returned (id : nat) (r : Reply)
| Refused (id : nat) (e : KafkoError)
| Observed (v : Z).

(** The channel a command's answer comes back on; the commands of the test
    seams have none. *)
Definition cmd_id (c : PartitionCommand) : option nat :=
  match c with
  | Append _ id | AppendBatch _ id | ReadAt _ id | Sync id => Some id
  | Poison | FailNextAppend _ => None
  end.

(** What the callers of a task that died on its timer are told. *)
Definition timer_error : KafkoError := writer_death_error (Some interval_message).
Definition refusal (id : nat) : event := Refused id timer_error.

(** [mark] and [answered] are what is on the channels, [pending] what the
    writer task is about to put there; [blocked] are the commands whose senders
    wait for a slot of the queue. *)
Record conc : Type := mkConc {
  c_world : World;
  c_writer : Writer;
  pending : list effect;
  mark : Z;
  answered : list (nat * Reply);
  blocked : list PartitionCommand;
  history : list event;
}.

Definition invoked (h : list event) : list PartitionCommand :=
  omap (fun e => match e with Invoked c => Some c | _ => None end) h.
Definition returned (h : list event) : list (nat * Reply) :=
  omap (fun e => match e with Returned id r => Some (id, r) | _ => None end) h.
Definition refused (h : list event) : list (nat * KafkoError) :=
  omap (fun e => match e with Refused id e => Some (id, e) | _ => None end) h.
Definition observed (h : list event) : list Z :=
  omap (fun e => match e with Observed v => Some v | _ => None end) h.

Section clients.
Context {B : Buf} {H : Crc32} {C : Codecs}.

Inductive cstep : conc -> conc -> Prop :=
(* a client calls: its command waits for a slot *)
| c_invoke w wr pe mk an bl h c id :
    cmd_id c = Some id -> (forall c', c' ∈ invoked h -> cmd_id c' <> Some id) ->
    cstep (mkConc w wr pe mk an bl h) (mkConc w wr pe mk an (bl ++ [c]) (h ++ [Invoked c]))
| c_send w wr pe mk an l1 c l2 h :
    len (inbox wr) < INBOX_CAPACITY ->
    cstep (mkConc w wr pe mk an (l1 ++ c :: l2) h) (mkConc w (set_inbox (inbox wr ++ [c]) wr) pe mk an (l1 ++ l2) h)
(* the answer arrives *)
| c_return w wr pe mk an bl h id r :
    find_reply id an = Some r -> (forall r', (id, r') ∉ returned h) ->
    cstep (mkConc w wr pe mk an bl h) (mkConc w wr pe mk an bl (h ++ [Returned id r]))
(* [high_water_mark] *)
| c_observe w wr pe mk an bl h :
    cstep (mkConc w wr pe mk an bl h) (mkConc w wr pe mk an bl (h ++ [Observed mk]))
(* the supervisor has found the task dead: no timer could be made *)
| c_refuse w wr pe mk an bl h c id :
    ~ usable (config (log wr)) -> c ∈ invoked h -> cmd_id c = Some id -> (forall e, (id, e) ∉ refused h) ->
    cstep (mkConc w wr pe mk an bl h) (mkConc w wr pe mk an bl (h ++ [refusal id]))
(* a turn of the writer task, once all of the last one is on the channels *)
| c_turn w wr mk an bl h ch w' wr' :
    usable (config (log wr)) -> inbox wr <> [] \/ ch = RetentionTick -> writer_turn ch (w, wr) = (Ok false, (w', wr')) ->
    cstep (mkConc w wr [] mk an bl h) (mkConc w' wr' (drop (length (published wr)) (published wr')) mk an bl h)
(* [hwm_tx.send], [reply.send] *)
| c_mark w wr v pe mk an bl h :
    cstep (mkConc w wr (Marked v :: pe) mk an bl h) (mkConc w wr pe v an bl h)
| c_reply w wr id r pe mk an bl h :
    cstep (mkConc w wr (Replied id r :: pe) mk an bl h) (mkConc w wr pe mk (an ++ [(id, r)]) bl h)
(* other tasks, on other directories *)
| c_other w wr pe mk an bl h d w' :
    stays d w w' -> apart d (dir (log wr)) -> cstep (mkConc w wr pe mk an bl h) (mkConc w' wr pe mk an bl h).

(** ** The sequential history *)
Inductive item : Type :=
| Did (c : PartitionCommand) (r : Reply)
| Saw (v : Z)
| Dropped (n : nat).

Definition did (l : list item) : list PartitionCommand :=
  omap (fun x => match x with Did c _ => Some c | _ => None end) l.
Definition saw (l : list item) : list Z :=
  omap (fun x => match x with Saw v => Some v | _ => None end) l.

(** The replies a sequence gives, in its order. *)
Definition answers (l : list item) : list (nat * Reply) :=
  omap (fun x => match x with
                 | Did c r => match cmd_id c with Some id => Some (id, r) | None => None end
                 | _ => None
                 end) l.

(** One command after another, the high-water mark read in between, and
    retention dropping oldest records whenever it likes. *)
Inductive legal : alog -> list item -> alog -> Prop :=
| legal_nil a : legal a [] a
| legal_did a c r id a1 l a2 :
    cmd_id c = Some id -> spec_cmd (mkP a None) c = (mkP a1 None, [(id, r)]) ->
    legal a1 l a2 -> legal a (Did c r :: l) a2
| legal_saw a l a2 : legal a l a2 -> legal a (Saw (a_next a) :: l) a2
| legal_dropped a n l a2 :
    (n <= length (a_recs a))%nat -> legal (a_drop n a) l a2 -> legal a (Dropped n :: l) a2.

(** What has returned has happened, what has happened was called, and the
    observations are the ones made. *)
Record explains (h : list event) (l : list item) : Prop := {
  ex_returned : forall id r, (id, r) ∈ returned h -> (id, r) ∈ answers l;
  ex_invoked : forall c, c ∈ did l -> c ∈ invoked h;
  ex_observed : saw l = observed h;
}.

(** Every moment of the history is explained by a prefix of the sequence: so a
    call that returned before another one started comes before it. *)
Definition linearizes (h : list event) (l : list item) : Prop :=
  forall n, exists m, explains (take n h) (take m l).

(** What the code needs of the commands: they fit, and a full queue of them
    does. *)
Record small (cfg : LogConfig) (bound : Z) (c : PartitionCommand) : Prop := {
  sm_storable : Forall (storable (compression cfg)) (cmd_records c);
  sm_frames : len (concat (frames (wires (compression cfg) (cmd_records c)))) <= bound;
  sm_wire : total_wire_size (cmd_records c) <= bound;
  sm_fine : cmd_fine c;
}.

(** ** Lists of events and items *)
Lemma invoked_app h1 h2 : invoked (h1 ++ h2) = invoked h1 ++ invoked h2.
Proof. apply omap_app. Qed.
Lemma returned_app h1 h2 : returned (h1 ++ h2) = returned h1 ++ returned h2.
Proof. apply omap_app. Qed.
Lemma refused_app h1 h2 : refused (h1 ++ h2) = refused h1 ++ refused h2.
Proof. apply omap_app. Qed.
Lemma observed_app h1 h2 : observed (h1 ++ h2) = observed h1 ++ observed h2.
Proof. apply omap_app. Qed.
Lemma did_app l1 l2 : did (l1 ++ l2) = did l1 ++ did l2.
Proof. apply omap_app. Qed.
Lemma saw_app l1 l2 : saw (l1 ++ l2) = saw l1 ++ saw l2.
Proof. apply omap_app. Qed.
Lemma answers_app l1 l2 : answers (l1 ++ l2) = answers l1 ++ answers l2.
Proof. apply omap_app. Qed.

Lemma legal_app a1 l1 a2 l2 a3 : legal a1 l1 a2 -> legal a2 l2 a3 -> legal a1 (l1 ++ l2) a3.
Proof. induction 1; [done|..]; intros Hl; simpl; [by eapply legal_did; eauto|constructor; auto..]. Qed.

Lemma queue_records_perm cs1 cs2 : cs1 ≡ₚ cs2 -> len (queue_records cs1) = len (queue_records cs2).
Proof.
  unfold queue_records. induction 1; simpl; rewrite ?len_app; lia.
Qed.

(** ** Histories that grow *)
Lemma linearizes_nil : linearizes [] [].
Proof. intros n. exists 0%nat. rewrite take_nil. by split; [intros ? ? ?%elem_of_nil|intros ? ?%elem_of_nil|]. Qed.

Lemma linearizes_grow h l l' : linearizes h l -> linearizes h (l ++ l').
Proof.
  intros Hl n. destruct (Hl n) as [m Hm]. destruct (decide (m <= length l)%nat) as [Hle|Hg].
  - exists m. by rewrite take_app_le.
  - exists (length l). rewrite take_app_le, (take_ge l) by lia. by rewrite (take_ge l) in Hm by lia.
Qed.

Lemma linearizes_event h e l : linearizes h l -> explains (h ++ [e]) l -> linearizes (h ++ [e]) l.
Proof.
  intros Hl He n. destruct (decide (n <= length h)%nat) as [Hn|Hn].
  - rewrite take_app_le by done. apply Hl.
  - exists (length l). rewrite !take_ge by (rewrite ?length_app; simpl; lia). done.
Qed.

(** ** The machine's runs as sequences *)
Definition is_client (c : PartitionCommand) : Prop := exists id, cmd_id c = Some id.

Lemma client_step a c id :
  cmd_id c = Some id -> exists a1 r, spec_cmd (mkP a None) c = (mkP a1 None, [(id, r)])
    /\ a_next a1 = a_next a + len (cmd_records c).
Proof.
  destruct c as [r i|rs i|off i|i| |k]; intros [= ->]; simpl; do 2 eexists;
    (split; [reflexivity|]); rewrite ?a_next_append; unfold len; simpl; lia.
Qed.

Lemma pruns_legal p cs p2 reps :
  pruns p cs p2 reps -> p_fail p = None -> Forall is_client cs ->
  exists l, legal (p_log p) l (p_log p2) /\ did l = cs /\ saw l = [] /\ answers l = reps /\ p_fail p2 = None
    /\ a_next (p_log p2) = a_next (p_log p) + len (queue_records cs).
Proof.
  induction 1 as [p|p c p1 rep cs p2 reps Hs _ IH|p n cs p2 reps Hn _ IH|p k rs ids cs p2 reps Hk Hl Hne _ IH]; intros Hf Hc.
  - exists []. split; [constructor|]. split_and!; try done. rewrite Z.add_0_r. done.
  - apply Forall_cons in Hc as [[id Hid] Hc]. destruct p as [a f]; simpl in Hf; subst f.
    destruct (client_step a c id Hid) as (a1 & r & E & Hn). rewrite Hs in E. injection E as -> ->.
    destruct (IH eq_refl Hc) as (l & Hl & Hd & Hsw & Ha & Hf2 & Hn2). simpl in Hl, Hn2.
    exists (Did c r :: l). split; [by eapply legal_did|]. cbn [did saw answers omap list_omap].
    fold (did l) (saw l) (answers l). rewrite Hid, Hd, Hsw, Ha. split_and!; try done.
    rewrite Hn2, Hn. unfold queue_records. cbn [map concat]. rewrite len_app. simpl. lia.
  - destruct (IH Hf Hc) as (l & Hl & Hd & Hsw & Ha & Hf2 & Hn2). simpl in Hl, Hn2.
    exists (Dropped n :: l). split; [by constructor|]. split_and!; try done. by rewrite Hn2, a_next_drop.
  - congruence.
Qed.

(** ** What is still to appear

    [due a effs rest a2]: the effects [effs] are those of the sequence [rest]
    from [a] to [a2], in parts, each part's mark before its answers. *)
Inductive due : alog -> list effect -> list item -> alog -> Prop :=
| due_nil a : due a [] [] a
| due_part a its a1 marks effs rest a2 :
    legal a its a1 -> saw its = [] ->
    marks = [Marked (a_next a1)] \/ marks = [] /\ a_next a1 = a_next a ->
    due a1 effs rest a2 ->
    due a (marks ++ map (uncurry Replied) (answers its) ++ effs) (its ++ rest) a2.

Lemma due_legal a effs rest a2 : due a effs rest a2 -> legal a rest a2 /\ saw rest = [].
Proof.
  induction 1 as [a|a its a1 marks effs rest a2 Hl Hs _ _ [IH1 IH2]]; [by split; [constructor|]|].
  split; [by eapply legal_app|]. by rewrite saw_app, Hs, IH2.
Qed.

(** A part of which nothing has appeared joins the next one. *)
Lemma due_join a its a1 effs rest a2 :
  legal a its a1 -> saw its = [] -> answers its = [] -> a_next a1 = a_next a -> due a1 effs rest a2 ->
  due a effs (its ++ rest) a2.
Proof.
  intros Hl Hs Ha Hn Hd. pose proof (due_part a its a1 [] effs rest a2 Hl Hs ltac:(by right) Hd) as Hp.
  by rewrite Ha in Hp.
Qed.

Lemma due_end a rest a2 : due a [] rest a2 -> answers rest = [] /\ a_next a2 = a_next a.
Proof.
  remember [] as effs eqn:E. induction 1 as [a|a its a1 marks effs rest a2 Hl Hs Hm Hd IH]; [done|].
  apply app_eq_nil in E as [-> E]. apply app_eq_nil in E as [E ->]. apply map_eq_nil in E.
  destruct (IH eq_refl) as [IH1 IH2]. rewrite answers_app, E, IH1. split; [done|].
  destruct Hm as [?|[_ Hm]]; [done|congruence].
Qed.

(** The next effect: a mark, or an answer of a part that leaves the mark. *)
Lemma due_next a e effs rest a2 :
  due a (e :: effs) rest a2 ->
  exists its rest' a1 late effs',
    rest = its ++ rest' /\ legal a its a1 /\ saw its = [] /\ due a1 effs' rest' a2
    /\ effs = map (uncurry Replied) late ++ effs'
    /\ (e = Marked (a_next a1) /\ answers its = late
        \/ exists id r, e = Replied id r /\ answers its = (id, r) :: late /\ a_next a1 = a_next a).
Proof.
  remember (e :: effs) as es eqn:E. induction 1 as [a|a its a1 marks effs' rest a2 Hl Hs Hm Hd IH]; [done|].
  destruct Hm as [->|[-> Hn]].
  { injection E as <- <-. exists its, rest, a1, (answers its), effs'. split_and!; try done. by left. }
  simpl in E. destruct (answers its) as [|[id r] late] eqn:Ha.
  - destruct (IH E) as (its2 & rest2 & a3 & late & effs2 & -> & Hl2 & Hs2 & Hd2 & He & Hcase).
    exists (its ++ its2), rest2, a3, late, effs2. split; [by rewrite app_assoc|]. split; [by eapply legal_app|].
    split; [by rewrite saw_app, Hs|]. do 2 (split; [done|]). rewrite answers_app, Ha. simpl.
    destruct Hcase as [?|(id & r & ? & ? & Hn2)]; [by left|right]. exists id, r. split_and!; [done..|congruence].
  - simpl in E. injection E as <- <-. exists its, rest, a1, late, effs'. split_and!; try done.
    right. by exists id, r.
Qed.

Lemma shows_due p cs p2 effs :
  shows p cs p2 effs -> p_fail p = None -> Forall is_client cs ->
  exists rest, due (p_log p) effs rest (p_log p2) /\ did rest = cs /\ p_fail p2 = None
    /\ a_next (p_log p2) = a_next (p_log p) + len (queue_records cs).
Proof.
  induction 1 as [p|p cs p1 reps marks rest p2 effs Hp Hm _ IH]; intros Hf Hc.
  { exists []. split; [constructor|]. split_and!; [done..|]. unfold queue_records. simpl. unfold len. simpl. lia. }
  apply Forall_app in Hc as [Hc1 Hc2].
  destruct (pruns_legal _ _ _ _ Hp Hf Hc1) as (its & Hl & Hd & Hs & Ha & Hf1 & Hn1).
  destruct (IH Hf1 Hc2) as (its2 & Hd2 & Hdid & Hf2 & Hn2). exists (its ++ its2).
  split; [rewrite <- Ha; by eapply due_part|]. split; [by rewrite did_app, Hd, Hdid|]. split; [done|].
  rewrite Hn2, Hn1, queue_records_app, len_app. lia.
Qed.

(** ** The invariant *)
Section inv.
Context {R : World -> Log -> alog -> Prop} {LC : LogContract R}.
Context (a0 : alog) (cfg : LogConfig) (limit bound : Z).
Context (threshold_pos : 0 <= segment_size_threshold cfg) (bound_pos : 0 <= bound).
Context (room_for_queue : segment_size_threshold cfg + INBOX_CAPACITY * bound <= limit <= u32_max).

(** The calls made so far fit the log's offsets. *)
Definition fits (h : list event) : Prop :=
  Forall (small cfg bound) (invoked h) /\ a_next a0 + len (queue_records (invoked h)) < 2 ^ 64.

(** [l] has happened as far as anybody can see, and leaves the log [a]; [rest]
    is what the task has done beyond that, and leaves the log [a']. *)
Record cinv (s : conc) (l : list item) (a : alog) (rest : list item) (a' : alog) : Prop := {
  ci_legal : legal a0 l a;
  ci_rep : wrep (R := R) (c_world s) (c_writer s) (mkP a' None);
  ci_config : config (log (c_writer s)) = cfg;
  ci_limit : seg_limit (c_world s) = limit;
  ci_mark : mark s = a_next a;
  ci_due : exists late effs, pending s = map (uncurry Replied) late ++ effs
    /\ answers l = answered s ++ late /\ due a effs rest a';
  ci_calls : invoked (history s) ≡ₚ blocked s ++ inbox (c_writer s) ++ did (l ++ rest);
  ci_ids : NoDup (omap cmd_id (invoked (history s)));
  ci_clients : Forall is_client (invoked (history s));
  ci_explains : explains (history s) l;
  ci_lin : linearizes (history s) l;
  ci_len : len (inbox (c_writer s)) <= INBOX_CAPACITY;
  ci_next : a_next a' = a_next a0 + len (queue_records (did (l ++ rest)));
}.

Lemma fits_app h1 h2 : fits (h1 ++ h2) -> fits h1.
Proof.
  unfold fits. rewrite invoked_app, queue_records_app, len_app. intros [Hs Hn].
  apply Forall_app in Hs as [Hs _]. pose proof (len_nonneg (queue_records (invoked h2))). split; [done|lia].
Qed.

Lemma small_queue cs :
  Forall (small cfg bound) cs ->
  Forall (storable (compression cfg)) (queue_records cs) /\ Forall cmd_fine cs
  /\ len (concat (frames (wires (compression cfg) (queue_records cs)))) <= len cs * bound
  /\ total_wire_size (queue_records cs) <= len cs * bound.
Proof.
  induction 1 as [|c cs [H1 H2 H3 H4] _ (I1 & I2 & I3 & I4)]; [by split_and!; try done; constructor|].
  unfold queue_records in *. cbn [map concat]. rewrite frames_wires_app, len_app, total_wire_size_app, len_cons.
  split_and!; [by apply Forall_app|by constructor|lia|lia].
Qed.

(** A queue within its capacity fits the segment. *)
Lemma queue_fits w next cs :
  seg_limit w = limit -> Forall (small cfg bound) cs -> len cs <= INBOX_CAPACITY ->
  next + len (queue_records cs) < 2 ^ 64 -> queue_ok w cfg next cs.
Proof.
  intros Hl Hs Hc Hn. destruct (small_queue cs Hs) as (H1 & H2 & H3 & H4).
  pose proof (len_nonneg cs). pose proof (len_nonneg (concat (frames (wires (compression cfg) (queue_records cs))))).
  pose proof (total_wire_size_nonneg (queue_records cs)).
  assert (Hb : len cs * bound <= INBOX_CAPACITY * bound) by (apply Z.mul_le_mono_nonneg_r; lia).
  unfold u32_max in *. split; [done| |done|done]. unfold INBOX_CAPACITY in *. split; lia.
Qed.

Lemma find_reply_elem id l r : find_reply id l = Some r -> (id, r) ∈ l.
Proof.
  induction l as [|[i r'] l IH]; [done|]. simpl. destruct (Nat.eqb_spec i id) as [->|_].
  - intros [= ->]. by left.
  - intros Hf. right. by apply IH.
Qed.

Lemma inbox_ok s l a rest a' :
  cinv s l a rest a' -> fits (history s) ->
  queue_ok (c_world s) (config (log (c_writer s))) (a_next a') (inbox (c_writer s)).
Proof.
  intros Hi [Hs Hn]. pose proof (ci_calls _ _ _ _ _ Hi) as Hc. rewrite (ci_config _ _ _ _ _ Hi). rewrite Hc in Hs.
  rewrite (queue_records_perm _ _ Hc), !queue_records_app, !len_app in Hn.
  apply Forall_app in Hs as [_ Hs]. apply Forall_app in Hs as [Hs _].
  apply queue_fits; [by eapply ci_limit|done|by eapply ci_len|]. rewrite (ci_next _ _ _ _ _ Hi), did_app, queue_records_app, len_app.
  rewrite did_app, queue_records_app, len_app in Hn. pose proof (len_nonneg (queue_records (blocked s))). lia.
Qed.

(** What the task has done may count as seen. *)
Lemma explains_grow h l rest :
  explains h l -> saw rest = [] -> (forall c, c ∈ did rest -> c ∈ invoked h) -> explains h (l ++ rest).
Proof.
  intros [X1 X2 X3] Hs Hd. split.
  - intros id r Hr. rewrite answers_app. apply elem_of_app. left. by apply X1.
  - intros c. rewrite did_app. intros [Hc|Hc]%elem_of_app; [by apply X2|by apply Hd].
  - by rewrite saw_app, Hs, app_nil_r.
Qed.

Lemma did_called s l a l1 l2 a' c : cinv s l a (l1 ++ l2) a' -> c ∈ did l1 -> c ∈ invoked (history s).
Proof.
  intros Hi Hc. rewrite (ci_calls _ _ _ _ _ Hi), !did_app, !elem_of_app. do 2 right. right. by left.
Qed.

(** The next effect appears. *)
Lemma publish_inv w wr e pe mk an bl h l a rest a' :
  cinv (mkConc w wr (e :: pe) mk an bl h) l a rest a' ->
  exists l' a1 rest', cinv (match e with
      | Marked v => mkConc w wr pe v an bl h
      | Replied id r => mkConc w wr pe mk (an ++ [(id, r)]) bl h
      end) (l ++ l') a1 rest' a'.
Proof.
  intros Hi. pose proof Hi as [I1 I2 I3 I4 I5 (late & effs & Hpe & Han & Hdue) I7 I8 I9 I10 I11 I12 I13]. simpl in *.
  destruct late as [|[id r] late].
  - simpl in Hpe. subst effs. rewrite app_nil_r in Han.
    destruct (due_next _ _ _ _ _ Hdue) as (its & rest' & a1 & late & effs' & -> & Hl & Hs & Hd & -> & Hcase).
    assert (Hex : explains h (l ++ its)).
    { apply explains_grow; [done|done|]. intros c Hc. exact (did_called _ _ _ its rest' _ c Hi Hc). }
    exists its, a1, rest'. destruct Hcase as [[-> Ha]|(id & r & -> & Ha & Hn)]; split; simpl; try done;
      rewrite <- ?(app_assoc l its rest'); try done; try (by eapply legal_app); try (by apply linearizes_grow).
    + exists late, effs'. by rewrite answers_app, Han, Ha.
    + by rewrite I5.
    + exists late, effs'. rewrite answers_app, Han, Ha. by rewrite <- app_assoc.
  - injection Hpe as -> ->. exists [], a, rest. rewrite app_nil_r. split; simpl; try done.
    exists late, effs. split; [done|]. by rewrite <- app_assoc.
Qed.

(** Commands leave the queue, in its order. *)
Lemma turn_inv w wr mk an bl h l a rest a' ch w' wr' :
  cinv (mkConc w wr [] mk an bl h) l a rest a' -> fits h -> inbox wr <> [] \/ ch = RetentionTick ->
  writer_turn ch (w, wr) = (Ok false, (w', wr')) ->
  exists rest' a2,
    cinv (mkConc w' wr' (drop (length (published wr)) (published wr')) mk an bl h) (l ++ rest) a' rest' a2
    /\ (ch <> RetentionTick -> (length (inbox wr') < length (inbox wr))%nat).
Proof.
  intros Hi Hfit Hin Hrun. pose proof (inbox_ok _ _ _ _ _ Hi Hfit) as Hq.
  pose proof Hi as [I1 I2 I3 I4 I5 (late & effs & Hpe & Han & Hdue) I7 I8 I9 I10 I11 I12 I13]. simpl in *.
  symmetry in Hpe. apply app_eq_nil in Hpe as [Hla ->]. apply map_eq_nil in Hla as ->. rewrite app_nil_r in Han.
  destruct (due_legal _ _ _ _ Hdue) as [Hleg Hsaw]. destruct (due_end _ _ _ Hdue) as [Hnoans Hnext].
  assert (Hex : explains h (l ++ rest)).
  { apply explains_grow; [done|done|]. intros c Hc. rewrite <- (app_nil_r rest) in Hi. exact (did_called _ l a rest [] a' c Hi Hc). }
  assert (Hcl : Forall is_client (inbox wr)).
  { rewrite I7 in I9. apply Forall_app in I9 as [_ I9]. by apply Forall_app in I9 as [I9 _]. }
  destruct ch as [avail|].
  - destruct (inbox wr) as [|cmd q] eqn:E; [by destruct Hin|].
    destruct (recv_run _ _ _ cmd q avail I2 ltac:(by rewrite E) E)
      as (w1 & wr1 & p1 & reps & taken & Hrun1 & Hw1 & [_ (Kc & Kd & Ks)] & _ & Hinb & _ & (new & Hpub & Hsh) & _).
    rewrite Hrun in Hrun1. injection Hrun1 as <- <-. rewrite E in Hinb.
    rewrite Hinb, app_comm_cons in Hcl. apply Forall_app in Hcl as [Hcl _].
    destruct (shows_due _ _ _ _ Hsh eq_refl Hcl) as (rest' & Hd' & Hdid & Hf & Hn). simpl in Hd', Hn.
    exists rest', (p_log p1). split; [|intros _; rewrite Hinb; simpl; rewrite length_app; lia]. split; simpl; try done.
    + by eapply legal_app.
    + destruct p1 as [a1 f1]. simpl in *. by subst f1.
    + by rewrite Kc.
    + by rewrite (stays_limit _ _ _ Ks).
    + congruence.
    + exists [], new. rewrite Hpub, drop_app_length. rewrite answers_app, Hnoans, !app_nil_r. done.
    + rewrite I7, Hinb, app_comm_cons, (did_app (l ++ rest)), Hdid. f_equiv.
      rewrite (Permutation_app_comm (did (l ++ rest))), !app_assoc. f_equiv. by rewrite Permutation_app_comm.
    + by apply linearizes_grow.
    + rewrite Hinb in I12. unfold len in *. simpl in I12. rewrite length_app in I12. lia.
    + rewrite did_app, queue_records_app, len_app, Hdid, Hn. lia.
  - destruct (tick_run _ _ _ I2) as (w1 & wr1 & n & Hrun1 & [Hn _] & Hw1 & [_ (Kc & Kd & Ks)] & Hinb & Hpub & _).
    rewrite Hrun in Hrun1. injection Hrun1 as <- <-. simpl in Hn, Hw1.
    exists [Dropped n], (a_drop n a'). split; [|done]. split; simpl; try done.
    + by eapply legal_app.
    + by rewrite Kc.
    + by rewrite (stays_limit _ _ _ Ks).
    + congruence.
    + exists [], []. rewrite Hpub, drop_all. rewrite answers_app, Hnoans, !app_nil_r. split; [done|]. split; [done|].
      apply (due_join _ [Dropped n] (a_drop n a') [] []); try done; [|by rewrite a_next_drop|constructor].
      constructor; [done|constructor].
    + by rewrite Hinb, (did_app (l ++ rest)), app_nil_r.
    + by apply linearizes_grow.
    + by rewrite Hinb.
    + by rewrite (did_app (l ++ rest)), app_nil_r, a_next_drop.
Qed.

Lemma explains_returned h l id r :
  explains h l -> (id, r) ∈ answers l -> explains (h ++ [Returned id r]) l.
Proof.
  intros [X1 X2 X3] Hin. split; rewrite ?invoked_app, ?returned_app, ?observed_app; simpl; rewrite ?app_nil_r; [|done..].
  intros id' r' [Hr|Hr%list_elem_of_singleton]%elem_of_app; [by apply X1|]. by injection Hr as -> ->.
Qed.

Lemma explains_refused h l id e : explains h l -> explains (h ++ [Refused id e]) l.
Proof.
  intros [X1 X2 X3]. split; rewrite ?invoked_app, ?returned_app, ?observed_app; simpl; by rewrite ?app_nil_r.
Qed.

Lemma cstep_inv s l a rest a' s' :
  cinv s l a rest a' -> cstep s s' -> fits (history s') ->
  exists l' a1 rest1 a1', cinv s' (l ++ l') a1 rest1 a1'.
Proof.
  intros Hi Hs Hfit. destruct Hs as [w wr pe mk an bl h c id Hid Hnew|w wr pe mk an l1 c l2 h Hcap|w wr pe mk an bl h id r Hf Hnew
    |w wr pe mk an bl h|w wr pe mk an bl h c id Hu Hc Hid Hnew|w wr mk an bl h ch w' wr' Hu Hin Hrun|w wr v pe mk an bl h|w wr id r pe mk an bl h|w wr pe mk an bl h d w' Hst Hap].
  - destruct Hi as [I1 I2 I3 I4 I5 I6 I7 I8 I9 [X1 X2 X3] I11 I12 I13]; simpl in *. exists [], a, rest, a'. rewrite app_nil_r.
    assert (Hex : explains (h ++ [Invoked c]) l).
    { split; rewrite ?returned_app, ?invoked_app, ?observed_app; simpl; rewrite ?app_nil_r; [done| |done].
      intros c' Hc'. apply elem_of_app. left. by apply X2. }
    split; simpl; try done.
    + rewrite invoked_app, I7. simpl. solve_Permutation.
    + rewrite invoked_app, omap_app. simpl. rewrite Hid. apply NoDup_app. split; [done|].
      split; [|apply NoDup_singleton]. intros i (c' & Hc' & Hi')%list_elem_of_omap Hx%list_elem_of_singleton.
      subst i. by apply (Hnew c').
    + rewrite invoked_app. apply Forall_app. split; [done|]. apply Forall_singleton. by exists id.
    + by apply linearizes_event.
  - destruct Hi as [I1 I2 I3 I4 I5 I6 I7 I8 I9 I10 I11 I12 I13]; simpl in *. exists [], a, rest, a'. rewrite app_nil_r.
    split; simpl; try done.
    + by destruct I2.
    + rewrite I7. solve_Permutation.
    + rewrite len_app, len_cons, len_nil. lia.
  - pose proof Hi as [I1 I2 I3 I4 I5 (late & effs & I6 & I6' & I6'') I7 I8 I9 I10 I11 I12 I13]; simpl in *.
    exists [], a, rest, a'. rewrite app_nil_r. apply find_reply_elem in Hf.
    pose proof (explains_returned h l id r I10 ltac:(rewrite I6'; apply elem_of_app; by left)) as Hex.
    split; simpl; rewrite ?invoked_app; simpl; rewrite ?app_nil_r; try done; [by exists late, effs|by apply linearizes_event].
  - destruct Hi as [I1 I2 I3 I4 I5 I6 I7 I8 I9 [X1 X2 X3] I11 I12 I13]; simpl in *. exists [Saw mk], a, rest, a'.
    assert (Hex : explains (h ++ [Observed mk]) (l ++ [Saw mk])).
    { split; rewrite ?returned_app, ?invoked_app, ?observed_app, ?answers_app, ?did_app, ?saw_app; simpl;
        rewrite ?app_nil_r; [done..|by rewrite X3]. }
    split; simpl; rewrite ?invoked_app, ?did_app, ?answers_app; simpl; rewrite ?app_nil_r; rewrite ?did_app in *; try done.
    + eapply legal_app; [exact I1|]. rewrite I5. constructor. constructor.
    + apply linearizes_event; [by apply linearizes_grow|done].
  - destruct Hi as [I1 I2 I3 I4 I5 I6 I7 I8 I9 I10 I11 I12 I13]; simpl in *. exists [], a, rest, a'. rewrite app_nil_r.
    pose proof (explains_refused h l id timer_error I10) as Hex.
    split; simpl; rewrite ?invoked_app; simpl; rewrite ?app_nil_r; try done. by apply linearizes_event.
  - destruct (turn_inv _ _ _ _ _ _ _ _ _ _ ch w' wr' Hi Hfit Hin Hrun) as (rest' & a2 & Hi' & _). by exists rest, a', rest', a2.
  - destruct (publish_inv _ _ (Marked v) _ _ _ _ _ _ _ _ _ Hi) as (l' & a1 & rest' & Hi'). by exists l', a1, rest', a'.
  - destruct (publish_inv _ _ (Replied id r) _ _ _ _ _ _ _ _ _ Hi) as (l' & a1 & rest' & Hi'). by exists l', a1, rest', a'.
  - destruct Hi as [I1 [W1 W2 W3] I3 I4 I5 I6 I7 I8 I9 I10 I11 I12 I13]; simpl in *. exists [], a, rest, a'. rewrite app_nil_r.
    split; simpl; try done.
    + split; [|done..]. by eapply lc_apart.
    + by rewrite (stays_limit _ _ _ Hst).
Qed.

Lemma step_history s s' : cstep s s' -> exists h, history s' = history s ++ h.
Proof. intros Hs. destruct Hs; simpl; eexists; try reflexivity; by rewrite app_nil_r. Qed.

Lemma steps_inv s l a rest a' s' :
  cinv s l a rest a' -> rtc cstep s s' -> fits (history s') -> exists l' a1 rest1 a1', cinv s' (l ++ l') a1 rest1 a1'.
Proof.
  intros Hi Hr Hfit. revert l a rest a' Hi. induction Hr as [s|s s1 s' Hs Hr IH]; intros l a rest a' Hi.
  { exists [], a, rest, a'. by rewrite app_nil_r. }
  assert (Hh : forall s1 s2, rtc cstep s1 s2 -> exists h, history s2 = history s1 ++ h).
  { clear. intros s1 s2. induction 1 as [s|s s1 s2 Hs _ [h IH]]; [exists []; by rewrite app_nil_r|].
    destruct (step_history _ _ Hs) as [h' E]. exists (h' ++ h). by rewrite IH, E, app_assoc. }
  destruct (Hh _ _ Hr) as [h E]. rewrite E in Hfit.
  destruct (cstep_inv _ _ _ _ _ _ Hi Hs (fits_app _ _ Hfit)) as (l1 & a1 & rest1 & a1' & Hi1).
  destruct (IH ltac:(by rewrite E) _ _ _ _ Hi1) as (l2 & a2 & rest2 & a2' & Hi2).
  exists (l1 ++ l2), a2, rest2, a2'. by rewrite app_assoc.
Qed.

(** A partition just opened. *)
Definition started (w : World) (wr : Writer) : conc := mkConc w wr [] (hwm wr) [] [] [].

Lemma started_inv w wr :
  wrep (R := R) w wr (mkP a0 None) -> config (log wr) = cfg -> seg_limit w = limit ->
  inbox wr = [] -> cinv (started w wr) [] a0 [] a0.
Proof.
  intros Hw Hc Hl Hi. split; simpl; rewrite ?Hi; try done.
  - constructor.
  - by rewrite (wr_hwm _ _ _ Hw).
  - exists [], []. split; [done|]. split; [done|]. constructor.
  - constructor.
  - apply linearizes_nil.
  - rewrite Z.add_0_r. done.
Qed.

(** ** Every call returns *)

(** The task finishes putting its turn on the channels. *)
Lemma publishes w wr pe mk an bl h l a rest a' :
  cinv (mkConc w wr pe mk an bl h) l a rest a' ->
  exists mk' an' l' a1 rest1, rtc cstep (mkConc w wr pe mk an bl h) (mkConc w wr [] mk' an' bl h)
    /\ cinv (mkConc w wr [] mk' an' bl h) l' a1 rest1 a'.
Proof.
  revert mk an l a rest. induction pe as [|e pe IH]; intros mk an l a rest Hi; [by exists mk, an, l, a, rest|].
  destruct (publish_inv _ _ _ _ _ _ _ _ _ _ _ _ Hi) as (l1 & a1 & rest1 & Hi1).
  destruct e as [v|id r]; destruct (IH _ _ _ _ _ Hi1) as (mk' & an' & l' & a2 & rest2 & Hr & Hi2);
    exists mk', an', l', a2, rest2; (split; [|done]); (eapply rtc_l; [|exact Hr]); constructor.
Qed.

Lemma drains s l a rest a' :
  usable cfg -> cinv s l a rest a' -> fits (history s) ->
  exists s' l' a1 rest1 a1', rtc cstep s s' /\ cinv s' l' a1 rest1 a1' /\ history s' = history s
    /\ blocked s' = [] /\ inbox (c_writer s') = [] /\ pending s' = [].
Proof.
  intros Hu. remember (2 * length (blocked s) + length (inbox (c_writer s)))%nat as n eqn:En.
  revert s l a rest a' En. induction (lt_wf n) as [n _ IH]. intros s l a rest a' -> Hi Hfit.
  destruct s as [w wr pe mk an bl h].
  destruct (publishes _ _ _ _ _ _ _ _ _ _ _ Hi) as (mk' & an' & l0 & a1 & rest0 & Hr0 & Hi0). clear Hi.
  simpl in *. destruct (inbox wr) as [|cmd q] eqn:Ei; [destruct bl as [|c bl]|].
  - exists (mkConc w wr [] mk' an' [] h), l0, a1, rest0, a'. by split_and!.
  - assert (Hs : cstep (mkConc w wr [] mk' an' (c :: bl) h) (mkConc w (set_inbox [c] wr) [] mk' an' bl h)).
    { pose proof (c_send w wr [] mk' an' [] c bl h) as Hs. rewrite Ei in Hs. by apply Hs. }
    destruct (cstep_inv _ _ _ _ _ _ Hi0 Hs Hfit) as (l1 & a2 & rest1 & a2' & Hi1).
    destruct (IH (2 * length bl + 1)%nat ltac:(simpl; lia) (mkConc w (set_inbox [c] wr) [] mk' an' bl h) _ _ _ _ eq_refl Hi1 Hfit)
      as (s' & l' & a3 & rest3 & a3' & Hr & Hrest).
    exists s', l', a3, rest3, a3'. split; [|exact Hrest]. etrans; [exact Hr0|]. by eapply rtc_l.
  - pose proof (inbox_ok _ _ _ _ _ Hi0 Hfit) as Hq. simpl in Hq.
    destruct (recv_run w wr _ cmd q 0 (ci_rep _ _ _ _ _ Hi0) Hq Ei) as (w1 & wr1 & p1 & reps & taken & Hrun & _).
    assert (Hin : inbox wr <> [] \/ Recv 0 = RetentionTick) by (left; congruence).
    destruct (turn_inv _ _ _ _ _ _ _ _ _ _ _ _ _ Hi0 Hfit Hin Hrun) as (rest1 & a2 & Hi1 & Hlt). rewrite Ei in Hlt.
    specialize (Hlt ltac:(done)). simpl in Hlt.
    destruct (IH (2 * length bl + length (inbox wr1))%nat ltac:(simpl; lia) (mkConc w1 wr1 _ mk' an' bl h) _ _ _ _ eq_refl Hi1 Hfit)
      as (s' & l' & a3 & rest3 & a3' & Hr & Hrest).
    exists s', l', a3, rest3, a3'. split; [|exact Hrest]. etrans; [exact Hr0|]. eapply rtc_l; [|done].
    eapply c_turn; [|done..]. pose proof (ci_config _ _ _ _ _ Hi0) as Hcfg. simpl in Hcfg. by rewrite Hcfg.
Qed.

Lemma find_reply_some id r l : (id, r) ∈ l -> exists r', find_reply id l = Some r'.
Proof.
  induction l as [|[i x] l IH]; [by intros ?%not_elem_of_nil|]. simpl.
  destruct (Nat.eqb_spec i id); [by eexists|]. intros [E|Hin]%elem_of_cons; [by injection E as -> ->|by apply IH].
Qed.

Lemma did_answers l c id : c ∈ did l -> cmd_id c = Some id -> exists r, (id, r) ∈ answers l.
Proof.
  intros (x & Hx & E)%list_elem_of_omap Hid. destruct x as [c' r| |]; [|done..]. injection E as ->.
  exists r. apply list_elem_of_omap. exists (Did c r). split; [done|]. by rewrite Hid.
Qed.

(** The answers that have not been picked up are picked up. *)
Lemma collects w wr pe mk an bl h (cs : list PartitionCommand) :
  (forall c id, c ∈ cs -> cmd_id c = Some id -> exists r, find_reply id an = Some r) ->
  exists rs, rtc cstep (mkConc w wr pe mk an bl h) (mkConc w wr pe mk an bl (h ++ map (fun x => Returned (fst x) (snd x)) rs))
    /\ forall c id, c ∈ cs -> cmd_id c = Some id ->
         exists r, (id, r) ∈ returned (h ++ map (fun x => Returned (fst x) (snd x)) rs).
Proof.
  revert h. induction cs as [|c cs IH]; intros h Hf.
  { exists []. rewrite app_nil_r. split; [done|]. by intros c id ?%not_elem_of_nil. }
  assert (Hcs : forall c id, c ∈ cs -> cmd_id c = Some id -> exists r, find_reply id an = Some r).
  { intros c' id' Hc'. apply Hf. by right. }
  destruct (cmd_id c) as [id|] eqn:Hid; cycle 1.
  { destruct (IH h Hcs) as (rs & Hr & Hrs). exists rs. split; [done|].
    intros c' id' [->|Hc']%elem_of_cons Hid'; [congruence|by eapply Hrs]. }
  destruct (decide (id ∈ (returned h).*1)) as [Hin|Hin].
  - destruct (IH h Hcs) as (rs & Hr & Hrs). exists rs. split; [done|].
    intros c' id' [->|Hc']%elem_of_cons Hid'; [|by eapply Hrs]. rewrite Hid in Hid'. injection Hid' as <-.
    apply list_elem_of_fmap in Hin as ([i r] & -> & Hin). exists r. rewrite returned_app. apply elem_of_app. by left.
  - destruct (Hf c id ltac:(by left) Hid) as [r Hr0].
    destruct (IH (h ++ [Returned id r]) Hcs) as (rs & Hr & Hrs). exists ((id, r) :: rs). cbn [map fst snd].
    rewrite <- app_assoc in Hr, Hrs. simpl in Hr, Hrs. split.
    + eapply rtc_l; [|exact Hr]. apply c_return; [done|]. intros r' Hx. apply Hin.
      apply list_elem_of_fmap. by exists (id, r').
    + intros c' id' [->|Hc']%elem_of_cons Hid'; [|by eapply Hrs]. rewrite Hid in Hid'. injection Hid' as <-.
      exists r. rewrite returned_app. apply elem_of_app. right. simpl. by left.
Qed.

Lemma completes s l a rest a' :
  usable cfg -> cinv s l a rest a' -> fits (history s) ->
  exists s' rs, rtc cstep s s' /\ history s' = history s ++ map (fun x => Returned (fst x) (snd x)) rs
    /\ forall c, c ∈ invoked (history s) -> exists id r, cmd_id c = Some id /\ (id, r) ∈ returned (history s').
Proof.
  intros Hu Hi Hfit. destruct (drains _ _ _ _ _ Hu Hi Hfit) as ([w wr pe mk an bl h] & l1 & a1 & rest1 & a1' & Hr & Hi1 & Hh & Hb & Hin & Hpe).
  simpl in *. subst h bl pe. pose proof (ci_calls _ _ _ _ _ Hi1) as I6. simpl in I6. rewrite Hin in I6. simpl in I6.
  pose proof (ci_clients _ _ _ _ _ Hi1) as I8. simpl in I8.
  destruct (ci_due _ _ _ _ _ Hi1) as (late & effs & Hpe & Han & Hd). simpl in *.
  symmetry in Hpe. apply app_eq_nil in Hpe as [Hla ->]. apply map_eq_nil in Hla as ->. rewrite app_nil_r in Han.
  destruct (due_end _ _ _ Hd) as [Hno _].
  destruct (collects w wr [] mk an [] (history s) (invoked (history s))) as (rs & Hr2 & Hrs).
  { intros c id Hc Hid. rewrite I6 in Hc. destruct (did_answers _ _ _ Hc Hid) as [r Hr'].
    rewrite answers_app, Hno, app_nil_r, Han in Hr'. by eapply find_reply_some. }
  eexists _, rs. split; [etrans; [exact Hr|exact Hr2]|]. split; [done|]. simpl. intros c Hc.
  destruct (proj1 (Forall_forall _ _) I8 c Hc) as [id Hid]. destruct (Hrs c id Hc Hid) as [r Hr']. by exists id, r.
Qed.

(** Without a task the supervisor answers every call. *)
Lemma refuses w wr pe mk an bl h (cs : list PartitionCommand) :
  ~ usable (config (log wr)) -> Forall is_client cs -> (forall c, c ∈ cs -> c ∈ invoked h) ->
  exists ids, rtc cstep (mkConc w wr pe mk an bl h) (mkConc w wr pe mk an bl (h ++ map refusal ids))
    /\ forall c, c ∈ cs -> exists id e, cmd_id c = Some id /\ (id, e) ∈ refused (h ++ map refusal ids).
Proof.
  intros Hu. revert h. induction cs as [|c cs IH]; intros h Hcl Hin.
  { exists []. rewrite app_nil_r. split; [done|]. by intros c ?%not_elem_of_nil. }
  apply Forall_cons in Hcl as [[id Hid] Hcl].
  assert (Hc : c ∈ invoked h) by (apply Hin; by left).
  assert (Hin2 : forall c', c' ∈ cs -> c' ∈ invoked h) by (intros c' Hc'; apply Hin; by right).
  destruct (decide (id ∈ (refused h).*1)) as [Hx|Hx].
  - destruct (IH h Hcl Hin2) as (ids & Hr & Hids). exists ids. split; [done|].
    intros c' [->|Hc']%elem_of_cons; [|by apply Hids].
    apply list_elem_of_fmap in Hx as ([i e] & -> & Hx). exists i, e. split; [done|].
    rewrite refused_app. apply elem_of_app. by left.
  - destruct (IH (h ++ [refusal id]) Hcl) as (ids & Hr & Hids).
    { intros c' Hc'. rewrite invoked_app. apply elem_of_app. left. by apply Hin2. }
    exists (id :: ids). cbn [map]. rewrite <- app_assoc in Hr, Hids. simpl in Hr, Hids. split.
    + eapply rtc_l; [|exact Hr]. eapply c_refuse; [done..|]. intros e He. apply Hx.
      apply list_elem_of_fmap. by exists (id, e).
    + intros c' [->|Hc']%elem_of_cons; [|by apply Hids]. exists id, timer_error. split; [done|].
      rewrite refused_app. apply elem_of_app. right. by left.
Qed.

Lemma gives_up s l a rest a' :
  ~ usable cfg -> cinv s l a rest a' ->
  exists s' ids, rtc cstep s s' /\ history s' = history s ++ map refusal ids
    /\ forall c, c ∈ invoked (history s) -> exists id e, cmd_id c = Some id /\ (id, e) ∈ refused (history s').
Proof.
  intros Hu Hi. destruct s as [w wr pe mk an bl h]. pose proof (ci_config _ _ _ _ _ Hi) as Hc. simpl in Hc.
  destruct (refuses w wr pe mk an bl h (invoked h) ltac:(by rewrite Hc) (ci_clients _ _ _ _ _ Hi) ltac:(done)) as (ids & Hr & Hids).
  by eexists _, ids.
Qed.

Lemma refused_why s s' :
  rtc cstep s s' -> refused (history s) = [] -> Forall (fun x => snd x = timer_error) (refused (history s')).
Proof.
  intros Hr Hs. assert (Hf : Forall (fun x => snd x = timer_error) (refused (history s))) by by rewrite Hs.
  clear Hs. induction Hr as [s|s s1 s' Hst _ IH]; [done|]. apply IH. clear IH.
  destruct Hst; simpl in *; rewrite ?refused_app; simpl; rewrite ?app_nil_r; try done.
  apply Forall_app. split; [done|]. by apply Forall_singleton.
Qed.

(** ** What a moment of the history knows *)
Lemma legal_split a l1 l2 a2 : legal a (l1 ++ l2) a2 -> exists a1, legal a l1 a1 /\ legal a1 l2 a2.
Proof.
  revert a. induction l1 as [|x l1 IH]; intros a Hl; [exists a; split; [constructor|done]|].
  simpl in Hl. inversion Hl; subst;
    match goal with H : legal _ (l1 ++ l2) _ |- _ => destruct (IH _ H) as (a1 & Hl1 & Hl2) end;
    exists a1; (split; [|done]); [by eapply legal_did|by constructor..].
Qed.

Lemma cut s l a rest a' h1 h2 :
  cinv s l a rest a' -> history s = h1 ++ h2 ->
  exists l1 l2 a1, l = l1 ++ l2 /\ legal a0 l1 a1 /\ legal a1 l2 a /\ explains h1 l1 /\ saw l2 = observed h2.
Proof.
  intros Hi Hh. destruct (ci_lin _ _ _ _ _ Hi (length h1)) as [m He]. rewrite Hh, take_app_length in He.
  pose proof (ci_legal _ _ _ _ _ Hi) as Hl. rewrite <- (take_drop m l) in Hl. apply legal_split in Hl as (a1 & Hl1 & Hl2).
  exists (take m l), (drop m l), a1. rewrite take_drop. split_and!; try done.
  pose proof (ex_observed _ _ (ci_explains _ _ _ _ _ Hi)) as Ho. rewrite <- (take_drop m l), Hh, saw_app, observed_app in Ho.
  rewrite (ex_observed _ _ He) in Ho. by apply app_inv_head in Ho.
Qed.

(** The record [r] is at offset [o], unless retention has dropped it. *)
Definition holds (o : Z) (r : record) (a : alog) : Prop :=
  o < a_next a /\ (o < a_start a \/ a_read o a = Some r).

Lemma holds_spec o r a c a1 out :
  holds o r a -> spec_cmd (mkP a None) c = (mkP a1 None, out) -> holds o r a1.
Proof.
  assert (Happ : forall rs, holds o r a -> holds o r (a_append rs a)).
  { intros rs [Hn Hr]. split; [rewrite a_next_append; pose proof (len_nonneg rs); lia|].
    destruct Hr as [Hs|Hr]; [by left|right]. by rewrite a_read_stable. }
  intros Hh. destruct c; simpl; intros [= <- <-]; auto.
Qed.

Lemma holds_drop o r a n : (n <= length (a_recs a))%nat -> holds o r a -> holds o r (a_drop n a).
Proof.
  intros Hn [Hlt Hr]. split; [by rewrite a_next_drop|]. destruct Hr as [Hs|Hr]; [left; simpl; lia|].
  destruct (decide (o < a_start a + Z.of_nat n)) as [|Hge]; [left; simpl; lia|right]. by rewrite a_read_drop by lia.
Qed.

(** What a sequence that starts with the record there can do: no later read of
    the offset gives another record, no later high-water mark is below it. *)
Lemma holds_legal o r a l a2 :
  holds o r a -> legal a l a2 ->
  holds o r a2 /\ (forall v, v ∈ saw l -> o < v)
  /\ forall id x, Did (ReadAt o id) (RRecord (inl x)) ∈ l -> x = None \/ x = Some r.
Proof.
  intros Hh Hl. induction Hl as [a|a c x id a1 l a2 Hid Hs _ IH|a l a2 _ IH|a n l a2 Hn _ IH].
  - split; [done|]. by split; [intros v ?%not_elem_of_nil|intros id x ?%not_elem_of_nil].
  - destruct (IH (holds_spec _ _ _ _ _ _ Hh Hs)) as (H1 & H2 & H3). split; [done|]. split; [done|].
    intros id' x' [E|Hin]%elem_of_cons; [|by eapply H3]. injection E as <- <-. simpl in Hs.
    injection Hs as _ _ E. rewrite <- E. destruct Hh as [_ [Hlt|Hr]]; [left|by right].
    unfold a_read. by rewrite (proj2 (Z.ltb_lt _ _)).
  - destruct (IH Hh) as (H1 & H2 & H3). split; [done|]. split.
    + simpl. intros v [->|Hv]%elem_of_cons; [apply Hh|by apply H2].
    + intros id x [E|Hin]%elem_of_cons; [done|by eapply H3].
  - destruct (IH (holds_drop _ _ _ _ Hn Hh)) as (H1 & H2 & H3). split; [done|]. split; [done|].
    intros id x [E|Hin]%elem_of_cons; [done|by eapply H3].
Qed.

(** An acknowledged append has put its record there. *)
Lemma append_holds a l a2 r id o :
  Did (Append r id) (ROffset (inl o)) ∈ l -> legal a l a2 -> holds o r a2.
Proof.
  intros Hin Hl. apply list_elem_of_split in Hin as (l1 & l2 & ->). apply legal_split in Hl as (a1 & _ & Hl).
  inversion Hl as [|a' c x id' a1' l' a2' Hid Hs Hl'| |]; subst. simpl in Hs. injection Hs as <- _ <-.
  eapply holds_legal; [|exact Hl']. pose proof (len_nonneg [r]). split.
  - rewrite a_next_append. change (len [r]) with 1. lia.
  - right. pose proof (a_read_append [r] a1 0 ltac:(simpl; lia)) as E. by rewrite Z.add_0_r in E.
Qed.

(** Calls have different answer channels. *)
Lemma ids_unique cs c c' id :
  NoDup (omap cmd_id cs) -> c ∈ cs -> c' ∈ cs -> cmd_id c = Some id -> cmd_id c' = Some id -> c = c'.
Proof.
  intros Hnd Hc Hc' Hid Hid'. revert Hc Hc' Hnd. induction cs as [|x cs IH]; [by intros ?%not_elem_of_nil|].
  simpl. intros Hc Hc' Hnd.
  assert (Hout : forall y i, y ∈ cs -> cmd_id y = Some i -> i ∈ omap cmd_id cs).
  { intros y i Hy Hi. apply list_elem_of_omap. by exists y. }
  apply elem_of_cons in Hc as [<-|Hc], Hc' as [<-|Hc']; [done|..].
  - rewrite Hid in Hnd. apply NoDup_cons in Hnd as [Hn _]. destruct Hn. by eapply Hout.
  - rewrite Hid' in Hnd. apply NoDup_cons in Hnd as [Hn _]. destruct Hn. by eapply Hout.
  - apply IH; [done..|]. destruct (cmd_id x); [by apply NoDup_cons in Hnd as [_ Hnd]|done].
Qed.

Lemma did_elem c r l : Did c r ∈ l -> c ∈ did l.
Proof. intros Hin. apply list_elem_of_omap. by exists (Did c r). Qed.

(** A call that has returned is the one that was made. *)
Lemma answer_did s l a rest a' h l' c id r :
  cinv s l a rest a' -> invoked h ⊆ invoked (history s) -> explains h l' ->
  c ∈ invoked (history s) -> cmd_id c = Some id -> (id, r) ∈ answers l' -> Did c r ∈ l'.
Proof.
  intros Hi Hh He Hc Hid (x & Hx & E)%list_elem_of_omap. destruct x as [c' r'| |]; [|done..].
  destruct (cmd_id c') as [id'|] eqn:Hid'; [|done]. injection E as -> ->.
  pose proof (Hh _ (ex_invoked _ _ He _ (did_elem _ _ _ Hx))) as Hc'.
  by rewrite (ids_unique _ c c' id (ci_ids _ _ _ _ _ Hi) Hc Hc' Hid Hid').
Qed.

(** What an acknowledged append means for everything that happens later. *)
Lemma append_seen s l a rest a' h1 h2 r id o :
  cinv s l a rest a' -> history s = h1 ++ Returned id (ROffset (inl o)) :: h2 -> Append r id ∈ invoked (history s) ->
  (forall v, v ∈ observed h2 -> o < v)
  /\ forall id2 x, ReadAt o id2 ∈ invoked h2 -> (id2, RRecord (inl x)) ∈ returned h2 -> x = None \/ x = Some r.
Proof.
  intros Hi Hh Hc. set (h1' := h1 ++ [Returned id (ROffset (inl o))]).
  assert (Hh' : history s = h1' ++ h2) by (unfold h1'; by rewrite <- app_assoc).
  destruct (cut s l a rest a' h1' h2 Hi Hh') as (l1 & l2 & a1 & -> & Hl1 & Hl2 & He & Hsw).
  assert (Hsub : invoked h1' ⊆ invoked (history s)).
  { intros c' Hc'. rewrite Hh', invoked_app. apply elem_of_app. by left. }
  assert (Ha : Did (Append r id) (ROffset (inl o)) ∈ l1).
  { eapply (answer_did _ _ _ _ _ _ _ _ id); [exact Hi|exact Hsub|exact He|exact Hc|done|].
    apply (ex_returned _ _ He). unfold h1'. rewrite returned_app. apply elem_of_app. right. by left. }
  destruct (holds_legal o r a1 l2 a (append_holds _ _ _ _ _ _ Ha Hl1) Hl2) as (_ & Hv & Hr).
  split; [by rewrite <- Hsw|]. intros id2 x Hc2 Hr2.
  assert (Hin2 : ReadAt o id2 ∈ invoked (history s)) by (rewrite Hh', invoked_app; apply elem_of_app; by right).
  assert (Hd : Did (ReadAt o id2) (RRecord (inl x)) ∈ l1 ++ l2).
  { eapply (answer_did _ _ _ _ _ (history s) _ _ id2); [exact Hi|done|apply (ci_explains _ _ _ _ _ Hi)|exact Hin2|done|].
    apply (ex_returned _ _ (ci_explains _ _ _ _ _ Hi)). rewrite Hh', returned_app. apply elem_of_app. by right. }
  apply elem_of_app in Hd as [Hd|Hd]; [|by eapply Hr].
  pose proof (ex_invoked _ _ He _ (did_elem _ _ _ Hd)) as Hc1. pose proof (ci_ids _ _ _ _ _ Hi) as Hnd.
  rewrite Hh', invoked_app, omap_app in Hnd. apply NoDup_app in Hnd as (_ & Hnd & _).
  destruct (Hnd id2); apply list_elem_of_omap; by exists (ReadAt o id2).
Qed.

End inv.
End clients.
