(* ===== verification/ClientsTheorems.v ===== *)
(** * Properties of a partition with concurrent clients *)

From S2P Require Import Prelude Bytes Error Compression LogRecord Fs Names Search.
From S2P Require Import Segment SparseIndex Log LogInv LogOps LogCrash LogSpec Partition PartitionSpec Clients Examples.

Section theorems.
Context {B : Buf} {H : Crc32} {C : Codecs}.
Context {R : World -> Log -> alog -> Prop} {LC : LogContract R}.

(** A partition that has just been opened on a log, and calls small enough
    that a full queue of them fits a segment. *)
Context (w : World) (wr : Writer) (a0 : alog) (bound : Z).
Context (opened : wrep (R := R) w wr (mkP a0 None)) (empty_inbox : inbox wr = []).
Context (threshold_pos : 0 <= segment_size_threshold (config (log wr))) (bound_pos : 0 <= bound).
Context (queue_room : segment_size_threshold (config (log wr)) + INBOX_CAPACITY * bound <= seg_limit w).

Lemma limit_bound : segment_size_threshold (config (log wr)) + INBOX_CAPACITY * bound <= seg_limit w <= u32_max.
Proof. split; [exact queue_room|apply Z.le_min_r]. Qed.

Lemma reachable_cinv s :
  rtc cstep (started w wr) s -> fits a0 (config (log wr)) bound (history s) ->
  exists l a rest a', cinv (R := R) a0 (config (log wr)) (seg_limit w) s l a rest a'.
Proof.
  intros Hr Hf. pose proof (started_inv (R := R) a0 (config (log wr)) (seg_limit w) w wr opened eq_refl eq_refl empty_inbox) as Hi.
  destruct (steps_inv a0 _ _ bound threshold_pos bound_pos limit_bound _ _ _ _ _ _ Hi Hr Hf) as (l & a & rest & a' & Hi').
  by exists ([] ++ l), a, rest, a'.
Qed.

(** C9: a partition is linearizable. Whatever clients call it concurrently -
    through a bounded queue, with appends coalesced into batches, retention in
    between, and observers of the high-water mark at any moment, also between
    the writes of one turn of the task to the mark and to the answers - there
    is one sequence [l] of all the calls that took effect, a legal run of the
    abstract log, which gives every caller the answer it got and every observer
    the mark it saw, and in which a call that returned before another was made
    comes first. The mark is the end of that log; the task's own log may be
    ahead by the calls [rest] of which nothing has appeared yet. *)
Theorem partition_is_linearizable s :
  rtc cstep (started w wr) s -> fits a0 (config (log wr)) bound (history s) ->
  exists l a rest a', legal a0 l a /\ explains (history s) l /\ linearizes (history s) l /\ mark s = a_next a
    /\ legal a rest a' /\ R (c_world s) (log (c_writer s)) a' /\ NoDup (omap cmd_id (did (l ++ rest))).
Proof.
  intros Hr Hf. destruct (reachable_cinv s Hr Hf) as (l & a & rest & a' & [I1 [I2 _ _] I3 I4 I5 (late & effs & _ & _ & Hd) I7 I8 I9 I10 I11 I12 I13]).
  exists l, a, rest, a'. do 4 (split; [done|]). split; [by apply (due_legal _ _ _ _ Hd)|]. split; [done|].
  rewrite I7, !omap_app in I8. apply NoDup_app in I8 as (_ & _ & I8). by apply NoDup_app in I8 as (_ & _ & I8).
Qed.

(** C21: no call hangs. From every state the clients and the task can reach -
    the queue full, senders blocked on it, a turn half way on the channels -
    the task's steps alone answer every call that has been made.  A task whose
    retention interval is zero is dead from the start: then every call ends
    with the error that says so. *)
Theorem every_call_returns s :
  rtc cstep (started w wr) s -> fits a0 (config (log wr)) bound (history s) ->
  if decide (usable (config (log wr))) then
    exists s' rs, rtc cstep s s' /\ history s' = history s ++ map (fun x => Returned (fst x) (snd x)) rs
      /\ forall c, c ∈ invoked (history s) -> exists id r, cmd_id c = Some id /\ (id, r) ∈ returned (history s')
  else
    exists s' ids, rtc cstep s s' /\ history s' = history s ++ map (fun id => Refused id timer_error) ids
      /\ forall c, c ∈ invoked (history s) -> exists id, cmd_id c = Some id /\ (id, timer_error) ∈ refused (history s').
Proof.
  intros Hr Hf. destruct (reachable_cinv s Hr Hf) as (l & a & rest & a' & Hi). case_decide as Hu.
  - by eapply (completes a0 _ _ bound threshold_pos bound_pos limit_bound).
  - destruct (gives_up a0 _ _ s _ _ _ _ Hu Hi) as (s' & ids & Hr' & Hh & Hc). exists s', ids. do 2 (split; [done|]).
    intros c Hin. destruct (Hc c Hin) as (id & e & Hid & He). exists id. split; [done|].
    pose proof (refused_why _ _ ltac:(etrans; [exact Hr|exact Hr']) eq_refl) as Hw.
    pose proof (proj1 (Forall_forall _ _) Hw _ He) as E. simpl in E. by subst e.
Qed.

(** once an append has been acknowledged with an offset, every client sees
    it: the high-water mark is beyond it, and a read of that offset made later
    returns that record - or nothing, once retention has dropped it - and
    never another one. *)
Theorem acknowledged_append_is_seen s h1 h2 r id o :
  rtc cstep (started w wr) s -> fits a0 (config (log wr)) bound (history s) ->
  history s = h1 ++ Returned id (ROffset (inl o)) :: h2 -> Append r id ∈ invoked (history s) ->
  (forall v, v ∈ observed h2 -> o < v)
  /\ forall id2 x, ReadAt o id2 ∈ invoked h2 -> (id2, RRecord (inl x)) ∈ returned h2 -> x = None \/ x = Some r.
Proof.
  intros Hr Hf Hh Hc. destruct (reachable_cinv s Hr Hf) as (l & a & rest & a' & Hi).
  eapply (append_seen (R := R) a0 _ _ s l a rest a'); done.
Qed.

End theorems.

(** ** Witnesses

    A writer task on an empty log; a client appends a record, is answered,
    and another looks at the high-water mark. *)
Definition ex_wr : Writer := mkWriter ex_l 0 [] [] [] None 0.
Definition ex_append : PartitionCommand := Append ex_rec1 0.
Definition ex_turned := writer_turn (Recv 0) (ex_w, set_inbox [ex_append] ex_wr).
Definition ex_w_t : World := fst (snd ex_turned).
Definition ex_wr_t : Writer := snd (snd ex_turned).

Lemma ex_turned_facts :
  fst ex_turned = Ok false /\ published ex_wr_t = [Marked 1; Replied 0 (ROffset (inl 0))].
Proof. vm_compute. split; reflexivity. Qed.

Lemma ex_turned_run : writer_turn (Recv 0) (ex_w, set_inbox [ex_append] ex_wr) = (Ok false, (ex_w_t, ex_wr_t)).
Proof.
  pose proof (proj1 ex_turned_facts) as Ht. unfold ex_w_t, ex_wr_t. fold ex_turned.
  destruct ex_turned as [o [w wr]]. simpl in Ht. by rewrite Ht.
Qed.

Lemma ex_wr_rep : wrep (R := log_refines) ex_w ex_wr (mkP (mkALog 0 []) None).
Proof. split; [exact ex_refines|reflexivity|reflexivity]. Qed.

Lemma ex_wr_config : config (log ex_wr) = ex_cfg.
Proof. exact ex_config. Qed.

Lemma ex_wr_usable : usable (config (log ex_wr)).
Proof. rewrite ex_wr_config. vm_compute. discriminate. Qed.

Lemma ex_wr_threshold : 0 <= segment_size_threshold (config (log ex_wr)).
Proof. rewrite ex_wr_config. vm_compute. discriminate. Qed.

Lemma ex_wr_room : segment_size_threshold (config (log ex_wr)) + INBOX_CAPACITY * 1000 <= seg_limit ex_w.
Proof. rewrite ex_wr_config, (proj1 ex_limit). vm_compute. discriminate. Qed.

#[global] Opaque ex_turned ex_w_t ex_wr_t.

Definition ex_asked : conc := mkConc ex_w (set_inbox [ex_append] ex_wr) [] 0 [] [] [Invoked ex_append].
Definition ex_seen : conc :=
  mkConc ex_w_t ex_wr_t [] 1 [(0%nat, ROffset (inl 0))] []
    [Invoked ex_append; Observed 0; Observed 1; Returned 0 (ROffset (inl 0)); Observed 1].

Lemma ex_asked_reachable : rtc cstep (started ex_w ex_wr) ex_asked.
Proof.
  eapply rtc_l; [eapply (c_invoke ex_w ex_wr [] 0 [] [] [] ex_append 0%nat); [reflexivity|]|].
  { intros c' Hc'. by apply not_elem_of_nil in Hc'. }
  eapply rtc_l; [|apply rtc_refl]. apply (c_send ex_w ex_wr [] 0 [] [] ex_append [] [Invoked ex_append]).
  reflexivity.
Qed.

(** The mark is observed before the turn's effects, between them and after. *)
Lemma ex_seen_reachable : rtc cstep (started ex_w ex_wr) ex_seen.
Proof.
  etrans; [exact ex_asked_reachable|]. destruct ex_turned_facts as [_ Hs].
  eapply rtc_l; [eapply (c_turn _ _ _ _ _ _ (Recv 0) ex_w_t ex_wr_t);
    [exact ex_wr_usable|left; discriminate|exact ex_turned_run]|].
  rewrite Hs. simpl drop. eapply rtc_l; [apply c_observe|]. eapply rtc_l; [apply c_mark|].
  eapply rtc_l; [apply c_observe|]. eapply rtc_l; [apply c_reply|].
  eapply rtc_l; [eapply (c_return _ _ _ _ _ _ _ 0%nat (ROffset (inl 0))); [reflexivity|]|].
  { intros r' Hr'. by apply not_elem_of_nil in Hr'. }
  eapply rtc_l; [apply c_observe|apply rtc_refl].
Qed.

Lemma ex_fits h : invoked h = [ex_append] -> fits (mkALog 0 []) (config (log ex_wr)) 1000 h.
Proof.
  intros E. unfold fits. rewrite E, ex_wr_config. split; [|vm_compute; reflexivity].
  apply Forall_singleton. split; [|vm_compute; discriminate..|exact I].
  pose proof (ex_storable CNone) as Hs. apply Forall_cons in Hs as [Hs _]. exact (proj2 (Forall_singleton _ _) Hs).
Qed.

Lemma partition_is_linearizable_witness :
  exists l a, legal (mkALog 0 []) l a /\ linearizes (history ex_seen) l.
Proof.
  destruct (partition_is_linearizable (R := log_refines) ex_w ex_wr (mkALog 0 []) 1000 ex_wr_rep eq_refl
    ex_wr_threshold ltac:(lia) ex_wr_room ex_seen ex_seen_reachable (ex_fits (history ex_seen) eq_refl)) as (l & a & rest & a' & H1 & _ & H2 & _).
  exists l, a. exact (conj H1 H2).
Defined.

Lemma every_call_returns_witness :
  exists s' rs, rtc cstep ex_asked s' /\ history s' = history ex_asked ++ map (fun x => Returned (fst x) (snd x)) rs.
Proof.
  pose proof (every_call_returns (R := log_refines) ex_w ex_wr (mkALog 0 []) 1000 ex_wr_rep eq_refl
    ex_wr_threshold ltac:(lia) ex_wr_room ex_asked ex_asked_reachable (ex_fits (history ex_asked) eq_refl)) as Hc.
  rewrite decide_True in Hc by exact ex_wr_usable. destruct Hc as (s' & rs & H1 & H2 & _).
  exists s', rs. exact (conj H1 H2).
Defined.

Lemma acknowledged_append_is_seen_witness : 0 < 1.
Proof.
  refine (proj1 (acknowledged_append_is_seen (R := log_refines) ex_w ex_wr (mkALog 0 []) 1000 ex_wr_rep eq_refl
    ex_wr_threshold ltac:(lia) ex_wr_room ex_seen [Invoked ex_append; Observed 0; Observed 1] [Observed 1] ex_rec1 0%nat 0
    ex_seen_reachable (ex_fits (history ex_seen) eq_refl) eq_refl _) _ _); by left.
Defined.
