(* ===== verification/Broker.v ===== *)
(** * The broker (broker.rs)

    [Kafko] is the registry of one data directory.  Topics are shared with the
    producer and consumer handles through [Arc]s, so the process keeps them in
    a store ([arcs], a topic and its strong count by address) and the registry
    and the handles hold addresses.  [Process] also holds the advisory locks
    and the tasks nobody waits for: the topics whose last [Arc] was dropped,
    whose writer tasks drain and exit on their own ([exiting]), and the cleanup
    tasks spawned by [Drop].  A method of the broker runs on the world and the
    pair of the process and the broker. *)

From S2P Require Import Prelude Bytes Error Compression LogRecord Fs Names Search.
From S2P Require Import Segment SparseIndex Log OffsetStore Partition Topic Producer Consumer.
From Stdlib Require Import Ascii.

Definition LOCK_FILENAME : string := "LOCK".

(** ** [Path::join]

    The components of [name] are pushed one by one ([.] and empty ones
    dropped, [..] to the parent); a name that starts with a slash replaces
    the directory. *)
Fixpoint path_components (cur : string) (s : string) : list string :=
  match s with
  | EmptyString => [cur]
  | String c s' =>
      if Ascii.eqb c "/" then cur :: path_components "" s'
      else path_components (cur +:+ String c "") s'
  end.

Definition push_component (p : path) (c : string) : path :=
  if String.eqb c "" || String.eqb c "." then p
  else if String.eqb c ".." then removelast p
  else p ++ [c].

Definition is_absolute (name : string) : bool :=
  match name with String c _ => Ascii.eqb c "/" | EmptyString => false end.

Definition join (dir : path) (name : string) : path :=
  fold_left push_component (path_components "" name) (if is_absolute name then [] else dir).

(** ** Advisory file locks

    The [fs4] crate's [try_lock_exclusive] and the release of the lock when
    its file is closed, on the table of locks the operating system keeps. *)
Class Flock : Type := {
  locks : Type;
  try_lock_exclusive : path -> M locks io_error bool;
  unlock : path -> locks -> locks;
}.

(** Documented behaviour: a lock is granted when nobody holds it, refused
    while somebody does, and is free again once its file is closed. *)
Class FlockLaws (F : Flock) : Type := {
  locked : path -> locks -> Prop;
  lock_free p l : ~ locked p l -> exists l',
    try_lock_exclusive p l = (Ok true, l') /\ forall q, locked q l' <-> q = p \/ locked q l;
  lock_busy p l : locked p l -> try_lock_exclusive p l = (Ok false, l);
  lock_released p q l : locked q (unlock p l) <-> q <> p /\ locked q l;
}.

Record Kafko : Type := mkKafko {
  dir : path;
  topics : gmap string nat;
  default_log_config : LogConfig;
  dir_lock : path;
}.

Definition set_topics (x : gmap string nat) (k : Kafko) : Kafko :=
  mkKafko (dir k) x (default_log_config k) (dir_lock k).

Section broker.
Context {B : Buf} {H : Crc32} {C : Codecs} {F : Flock}.

Record Process : Type := mkProcess {
  arcs : gmap nat (Topic * nat);
  next_arc : nat;
  exiting : list Topic;
  spawned : list (gmap string nat);
  flocks : locks;
}.

Definition set_arcs (x : gmap nat (Topic * nat)) (p : Process) : Process :=
  mkProcess x (next_arc p) (exiting p) (spawned p) (flocks p).
Definition set_exiting (x : list Topic) (p : Process) : Process :=
  mkProcess (arcs p) (next_arc p) x (spawned p) (flocks p).
Definition set_spawned (x : list (gmap string nat)) (p : Process) : Process :=
  mkProcess (arcs p) (next_arc p) (exiting p) x (flocks p).
Definition set_flocks (x : locks) (p : Process) : Process :=
  mkProcess (arcs p) (next_arc p) (exiting p) (spawned p) x.

(** ** [Arc<Topic>] *)
Definition dangling : string := "use of a freed Arc".

Definition arc_new (t : Topic) : KM (World * Process) nat :=
  fun '(w, p) =>
    let id := next_arc p in
    (Ok id, (w, mkProcess (<[id := (t, 1%nat)]> (arcs p)) (S id) (exiting p) (spawned p) (flocks p))).

(** [Arc::clone]. *)
Definition arc_clone (id : nat) : KM (World * Process) nat :=
  fun '(w, p) =>
    match arcs p !! id with
    | Some (t, n) => (Ok id, (w, set_arcs (<[id := (t, S n)]> (arcs p)) p))
    | None => (Panic dangling, (w, p))
    end.

(** The last owner gone, the topic is dropped: its partitions' queues close
    and their writer tasks end by themselves. *)
Definition arc_drop (id : nat) : KM (World * Process) unit :=
  fun '(w, p) =>
    match arcs p !! id with
    | Some (t, S (S n)) => (Ok tt, (w, set_arcs (<[id := (t, S n)]> (arcs p)) p))
    | Some (t, _) => (Ok tt, (w, set_exiting (exiting p ++ [t]) (set_arcs (delete id (arcs p)) p)))
    | None => (Panic dangling, (w, p))
    end.

(** [Arc::try_unwrap]: the topic if this was its only owner; [None] gives the
    [Arc] back. *)
Definition arc_try_unwrap (id : nat) : KM (World * Process) (option Topic) :=
  fun '(w, p) =>
    match arcs p !! id with
    | Some (t, 1%nat) => (Ok (Some t), (w, set_arcs (delete id (arcs p)) p))
    | Some _ => (Ok None, (w, p))
    | None => (Panic dangling, (w, p))
    end.

Definition arc_get (id : nat) : KM (World * Process) Topic :=
  fun '(w, p) =>
    match arcs p !! id with
    | Some (t, _) => (Ok t, (w, p))
    | None => (Panic dangling, (w, p))
    end.

(** A call on the shared topic. *)
Definition on_arc {A} (id : nat) (m : KM (World * Topic) A) : KM (World * Process) A :=
  fun '(w, p) =>
    match arcs p !! id with
    | Some (t, n) =>
        let '(o, (w', t')) := m (w, t) in (o, (w', set_arcs (<[id := (t', n)]> (arcs p)) p))
    | None => (Panic dangling, (w, p))
    end.

Definition drop_topic (t : Topic) : KM (World * Process) unit :=
  modify_self (fun p => set_exiting (exiting p ++ [t]) p).

Definition registry (topics : gmap string nat) : list nat := map snd (map_to_list topics).

(** ** Opening *)
Definition acquire_dir_lock (dir : path) : KM (World * Process) path :=
  let lock_path := dir ++ [LOCK_FILENAME] in
  let* _ := in_world (io (open_or_create lock_path)) in
  let* got := io (zoom (fun s => flocks (snd s)) (fun l s => (fst s, set_flocks l (snd s)))
                    (try_lock_exclusive lock_path)) in
  match got with
  | true => ret lock_path
  | false => throw (AlreadyOpen dir)
  end.

Definition release_dir_lock (lock_path : path) : KM (World * Process) unit :=
  modify_self (fun p => set_flocks (unlock lock_path (flocks p)) p).

(** [while let Some(entry) = entries.next_entry().await?]. *)
Fixpoint open_topics (dir : path) (config : LogConfig) (entries : list (string * node))
    (topics : gmap string nat) : KM (World * Process) (gmap string nat) :=
  match entries with
  | [] => ret topics
  | (_, NFile _) :: entries' => open_topics dir config entries' topics
  | (name, NDir) :: entries' =>
      let* topic := attempt (in_world (Topic.open (dir ++ [name]) name config)) in
      match topic with
      | inl topic =>
          let* id := arc_new topic in
          open_topics dir config entries' (<[name := id]> topics)
      | inr e =>
          let* _ := for_each (registry topics) arc_drop in
          throw e
      end
  end.

(** After [acquire_dir_lock], an error closes the lock file again. *)
Definition open_with_config (dir : path) (default_log_config : LogConfig) : KM (World * Process) Kafko :=
  let* _ := in_world (io (create_dir_all dir)) in
  let* dir_lock := acquire_dir_lock dir in
  let* topics := attempt
    (let* entries := in_world (io (read_dir dir)) in
     open_topics dir default_log_config entries empty) in
  match topics with
  | inl topics => ret (mkKafko dir topics default_log_config dir_lock)
  | inr e => let* _ := release_dir_lock dir_lock in throw e
  end.

Definition open (dir : path) : KM (World * Process) Kafko := open_with_config dir Log.default_config.

(** ** Methods *)
Abbreviation Host := (Process * Kafko)%type.

Definition kafko {E} : M (World * Host) E Kafko := fun s => (Ok (snd (snd s)), s).
Definition modify_topics {E} (f : gmap string nat -> gmap string nat) : M (World * Host) E unit :=
  modify_self (fun s => (fst s, set_topics (f (topics (snd s))) (snd s))).
Definition on_process {A} (m : KM (World * Process) A) : KM (World * Host) A :=
  zoom (fun s => (fst s, fst (snd s))) (fun t s => (fst t, (snd t, snd (snd s)))) m.

(** The guard of [create_topic_inner], under the read lock. *)
Definition create_check (name : string) (partitions : Z) : KM (World * Host) unit :=
  if partitions =? 0 then throw (InvalidPartitionCount 0)
  else
    let* k := kafko in
    match topics k !! name with
    | Some _ => throw (TopicAlreadyExists name)
    | None => ret tt
    end.

(** The rest of it runs after the read lock has been released: the files are
    made without a lock, and the topic is registered under the write lock. *)
Definition create_files (name : string) (log_config : LogConfig) (partitions : Z) : KM (World * Host) Topic :=
  let* k := kafko in
  let topic_dir := join (dir k) name in
  in_world (Topic.create topic_dir name partitions log_config).

Definition create_register (name : string) (topic : Topic) : KM (World * Host) unit :=
  let* k := kafko in
  match topics k !! name with
  | Some _ =>
      let* _ := on_process (drop_topic topic) in
      throw (TopicAlreadyExists name)
  | None =>
      let* id := on_process (arc_new topic) in
      modify_topics (insert name id)
  end.

Definition create_commit (name : string) (log_config : LogConfig) (partitions : Z) : KM (World * Host) unit :=
  let* topic := create_files name log_config partitions in
  create_register name topic.

Definition create_topic_inner (name : string) (log_config : LogConfig) (partitions : Z)
    : KM (World * Host) unit :=
  let* _ := create_check name partitions in
  create_commit name log_config partitions.

(** Concurrent calls: between the sections that hold the lock other calls run.
    A call is at one of four points, and a schedule says which call goes on. *)
Inductive CreatePhase : Type :=
| Arrived
| Checked
| Made (topic : Topic)
| Answered (r : unit + KafkoError).

Definition create_step (name : string) (log_config : LogConfig) (partitions : Z) (ph : CreatePhase)
    : KM (World * Host) CreatePhase :=
  match ph with
  | Arrived =>
      let* r := attempt (create_check name partitions) in
      ret (match r with inl _ => Checked | inr e => Answered (inr e) end)
  | Checked =>
      let* r := attempt (create_files name log_config partitions) in
      ret (match r with inl t => Made t | inr e => Answered (inr e) end)
  | Made t => let* r := attempt (create_register name t) in ret (Answered r)
  | Answered _ => ret ph
  end.

Record CreateCall : Type := mkCall { cc_config : LogConfig; cc_partitions : Z; cc_phase : CreatePhase }.

Fixpoint race (name : string) (schedule : list nat) (calls : list CreateCall) : KM (World * Host) (list CreateCall) :=
  match schedule with
  | [] => ret calls
  | i :: schedule' =>
      match calls !! i with
      | Some (mkCall cfg n ph) =>
          let* ph' := create_step name cfg n ph in
          race name schedule' (<[i := mkCall cfg n ph']> calls)
      | None => race name schedule' calls
      end
  end.

Definition create_topic (name : string) : KM (World * Host) unit :=
  let* k := kafko in create_topic_inner name (default_log_config k) 1.

Definition create_topic_with_config (name : string) (log_config : LogConfig) : KM (World * Host) unit :=
  create_topic_inner name log_config 1.

Definition create_topic_with_partitions (name : string) (partitions : Z) : KM (World * Host) unit :=
  let* k := kafko in create_topic_inner name (default_log_config k) partitions.

Definition create_topic_with_config_and_partitions (name : string) (log_config : LogConfig)
    (partitions : Z) : KM (World * Host) unit :=
  create_topic_inner name log_config partitions.

Definition delete_topic (name : string) : KM (World * Host) unit :=
  let* k := kafko in
  match topics k !! name with
  | None => throw (TopicNotFound name)
  | Some id =>
      let* _ := modify_topics (delete name) in
      let* r := on_process (arc_try_unwrap id) in
      match r with
      | Some owned =>
          let topic_dir := join (dir k) name in
          let* _ := in_world (with_local owned Topic.shutdown) in
          in_world (io (remove_dir_all topic_dir))
      | None =>
          let* _ := modify_topics (insert name id) in
          throw (TopicInUse name)
      end
  end.

(** [names.sort()]: by bytes. *)
Definition list_topics : KM (World * Host) (list string) :=
  let* k := kafko in
  ret (merge_sort String.leb (map fst (map_to_list (topics k)))).

Definition has_topic (name : string) : KM (World * Host) bool :=
  let* k := kafko in
  ret (match topics k !! name with Some _ => true | None => false end).

Definition topic (name : string) : KM (World * Host) (option nat) :=
  let* k := kafko in
  match topics k !! name with
  | Some id => let* id := on_process (arc_clone id) in ret (Some id)
  | None => ret None
  end.

Definition partition_count (name : string) : KM (World * Host) (option Z) :=
  let* k := kafko in
  match topics k !! name with
  | Some id => let* t := on_process (arc_get id) in ret (Some (Topic.partition_count t))
  | None => ret None
  end.

(** The retention timer of one partition's task fires between two calls. *)
Definition retention_timer (name : string) (i : nat) : KM (World * Host) unit :=
  let* k := kafko in
  match topics k !! name with
  | Some id => on_process (on_arc id (on_partition i Partition.retention_tick))
  | None => ret tt
  end.

(** [self.topic(name).await.ok_or_else(..)?]. *)
Definition topic_or_not_found (name : string) : KM (World * Host) nat :=
  let* t := topic name in
  match t with Some id => ret id | None => throw (TopicNotFound name) end.

(** A producer is its topic's [Arc]. *)
Definition producer_for (name : string) : KM (World * Host) nat := topic_or_not_found name.

(** A consumer is its topic's [Arc] and its own state. *)
Definition consumer_for (name : string) : KM (World * Host) (nat * Consumer) :=
  let* id := topic_or_not_found name in
  let* t := on_process (arc_get id) in
  ret (id, from_topic t).

Definition consumer_for_group (name group : string) : KM (World * Host) (nat * Consumer) :=
  let* id := topic_or_not_found name in
  let* k := kafko in
  let offsets_dir := join (dir k) name ++ ["offsets"] in
  let* t := on_process (arc_get id) in
  let* store := attempt (in_world (OffsetStore.open offsets_dir group (Topic.partition_count t))) in
  match store with
  | inl store => ret (id, from_topic_with_group t store)
  | inr e => let* _ := on_process (arc_drop id) in throw e
  end.

(** A call of a consumer handle. *)
Definition on_consumer {A} (id : nat) (m : KM (World * Session) A) : KM (World * (Process * Consumer)) A :=
  fun '(w, (p, c)) =>
    match arcs p !! id with
    | Some (t, n) =>
        let '(o, (w', (t', c'))) := m (w, (t, c)) in
        (o, (w', (set_arcs (<[id := (t', n)]> (arcs p)) p, c')))
    | None => (Panic dangling, (w, (p, c)))
    end.

(** ** Closing *)

(** The body of [for (_, topic) in topics]: a topic with other owners only
    loses this one. *)
Definition close_one (id : nat) : KM (World * Process) unit :=
  let* r := arc_try_unwrap id in
  match r with
  | Some owned => let* _ := in_world (with_local owned Topic.shutdown) in ret tt
  | None => arc_drop id
  end.

Definition shutdown_topics (topics : gmap string nat) : KM (World * Process) unit :=
  for_each (registry topics) close_one.

Inductive RuntimeFlavor : Type := NoRuntime | CurrentThread | MultiThread.

(** [impl Drop for Kafko]; the fields are dropped last. *)
Definition drop_kafko (runtime : RuntimeFlavor) : KM (World * Host) unit :=
  let* k := kafko in
  let topics := topics k in
  let* _ := modify_topics (fun _ => empty) in
  let* _ :=
    (if decide (topics = empty) then ret tt
     else
       match runtime with
       | NoRuntime => on_process (for_each (registry topics) arc_drop)
       | CurrentThread => on_process (modify_self (fun p => set_spawned (spawned p ++ [topics]) p))
       | MultiThread => on_process (shutdown_topics topics)
       end) in
  on_process (release_dir_lock (dir_lock k)).

Definition shutdown (runtime : RuntimeFlavor) : KM (World * Host) unit :=
  let* k := kafko in
  let topics := topics k in
  let* _ := modify_topics (fun _ => empty) in
  let* _ := on_process (shutdown_topics topics) in
  drop_kafko runtime.

End broker.
