(* ===== verification/BrokerSpec.v ===== *)
(** * The broker's registry

    What a broker's methods do, over abstract topics: a topic is the abstract
    log of each partition, and a data directory is a map of topics.  Changes
    below one topic's directory leave every other topic alone ([outside]). *)

From S2P Require Import Prelude Bytes Error Compression LogRecord Fs Names Search.
From S2P Require Import Segment SparseIndex Log LogInv LogOps LogRecover LogCrash LogSpec LogStore.
From S2P Require Import OffsetStore Partition PartitionSpec Topic Producer TopicSpec TopicStore.
From S2P Require Import Consumer ConsumerSpec GroupSpec Broker.
From Stdlib Require Import Ascii.

(** ** Topic names that are one path component *)
Definition plain (name : string) : Prop :=
  all_chars (fun c => negb (Ascii.eqb c "/")) name = true /\ name <> "" /\ name <> "." /\ name <> "..".

#[local] Arguments String.append !_ _ : simpl nomatch.

Lemma app_string_nil (a : string) : a +:+ "" = a.
Proof. induction a; simpl; congruence. Qed.

Lemma path_components_plain cur s :
  all_chars (fun c => negb (Ascii.eqb c "/")) s = true -> path_components cur s = [cur +:+ s].
Proof.
  revert cur. induction s as [|c s IH]; intros cur; cbn.
  - intros _. by rewrite app_string_nil.
  - destruct (Ascii.eqb c "/"); [done|]. cbn. intros Hs. by rewrite IH, string_app_assoc.
Qed.

Lemma path_components_nonempty cur s : path_components cur s <> [].
Proof. revert cur. induction s as [|c s IH]; intros cur; cbn; [done|]. by destruct (Ascii.eqb c "/"). Qed.

Lemma path_components_no_slash cur s :
  all_chars (fun c => negb (Ascii.eqb c "/")) cur = true ->
  Forall (fun x => all_chars (fun c => negb (Ascii.eqb c "/")) x = true) (path_components cur s).
Proof.
  revert cur. induction s as [|c s IH]; intros cur Hc; cbn; [by constructor|].
  destruct (Ascii.eqb c "/") eqn:E; [constructor; [done|by apply IH]|].
  apply IH. rewrite all_chars_app, Hc. cbn. by rewrite E.
Qed.

Lemma join_plain dir name : plain name -> join dir name = dir ++ [name].
Proof.
  intros (Ha & H1 & H2 & H3). unfold join. rewrite path_components_plain by done.
  assert (is_absolute name = false) as ->.
  { destruct name as [|c s]; [done|]. cbn in *. by destruct (Ascii.eqb c "/"). }
  cbn. unfold push_component.
  by rewrite !(proj2 (String.eqb_neq _ _)) by done.
Qed.

(** ** Changes below one directory *)
Definition outside (r : path) (w w' : World) : Prop :=
  faults w' = faults w /\ now_ms w' = now_ms w /\ read_max w' = read_max w
  /\ forall p, ~ r `prefix_of` p -> nodes w' !! p = nodes w !! p.

Lemma outside_refl r w : outside r w w.
Proof. done. Qed.

Lemma outside_trans r w1 w2 w3 : outside r w1 w2 -> outside r w2 w3 -> outside r w1 w3.
Proof.
  intros (H1 & H2 & H3 & H4) (K1 & K2 & K3 & K4). do 3 (split; [congruence|]).
  intros p Hp. by rewrite K4, H4.
Qed.

Lemma outside_quiet r w w' : outside r w w' -> quiet w -> quiet w'.
Proof. intros [Hf _]. unfold quiet. congruence. Qed.

(** The clock and the length of a read do not change. *)
Definition same_env (w w' : World) : Prop := now_ms w' = now_ms w /\ read_max w' = read_max w.

Lemma outside_env r w w' : outside r w w' -> same_env w w'.
Proof. by intros (_ & H1 & H2 & _). Qed.

Lemma same_env_trans w1 w2 w3 : same_env w1 w2 -> same_env w2 w3 -> same_env w1 w3.
Proof. intros [H1 H2] [K1 K2]. split; congruence. Qed.

Lemma outside_unaffected r d w w' :
  outside r w w' -> d <> [] -> (forall x, ~ r `prefix_of` d ++ [x]) -> unaffected d w w'.
Proof.
  intros (H1 & H2 & H3 & H4) Hne Hx.
  assert (Hd : forall p, p `prefix_of` d -> ~ r `prefix_of` p).
  { intros p Hp Hr. apply (Hx ""). etrans; [exact Hr|]. etrans; [exact Hp|]. by eexists. }
  do 3 (split; [done|]). split; [|split].
  - intros p Hp _. by apply H4, Hd.
  - by apply H4, Hd.
  - intros x. apply H4, Hx.
Qed.

Lemma sibling_not_prefix (root : path) a b q : a <> b -> ~ (root ++ [a]) `prefix_of` (root ++ [b]) ++ q.
Proof.
  intros Hne [k E]. rewrite <- !app_assoc in E. apply app_inv_head in E. simpl in E. by injection E as ->.
Qed.

Lemma root_not_prefix (root p : path) a : p `prefix_of` root -> ~ (root ++ [a]) `prefix_of` p.
Proof. intros Hp Hr. apply prefix_length in Hp, Hr. rewrite length_app in Hr. simpl in Hr. lia. Qed.

Lemma stays_outside d w w' : stays d w w' -> outside d w w'.
Proof.
  intros (H1 & H2 & H3 & H4). do 3 (split; [done|]). intros p Hp. apply H4. intros x ->. apply Hp. by eexists.
Qed.

Lemma outside_below r q w w' : outside (r ++ q) w w' -> outside r w w'.
Proof.
  intros (H1 & H2 & H3 & H4). do 3 (split; [done|]). intros p Hp. apply H4. intros Hq. apply Hp.
  etrans; [|exact Hq]. by eexists.
Qed.

Lemma topic_stays_outside dir w w' : topic_stays dir w w' -> outside dir w w'.
Proof.
  induction 1 as [|w w1 w2 (x & _ & Hx) _ IH]; [done|]. eapply outside_trans; [|exact IH].
  by eapply outside_below, stays_outside.
Qed.

Lemma grows_outside_dir root a q w w' :
  grows (root ++ [a] ++ q) w w' -> dirs_made w root -> outside (root ++ [a]) w w'.
Proof.
  intros (H1 & H2 & H3 & H4 & H5) Hd. do 3 (split; [done|]). intros p Hp.
  destruct (decide (p `prefix_of` root ++ [a] ++ q)) as [Hpre|Hpre].
  - rewrite app_assoc in Hpre.
    destruct (prefix_weak_total p (root ++ [a]) _ Hpre ltac:(by eexists)) as [Hp2|Hp2]; [|done].
    apply prefix_snoc_inv in Hp2 as [->|Hp2]; [by destruct Hp|].
    destruct (decide (p = [])) as [->|Hne].
    + apply H5; [by right|]. intros x E. apply (f_equal length) in E. rewrite !length_app in E. simpl in E. lia.
    + rewrite Hd by done. apply H4; [|done]. rewrite app_assoc. etrans; [exact Hp2|]. eexists. by rewrite <- app_assoc.
  - apply H5; [by left|]. intros x ->. apply Hp. eexists. by rewrite <- !app_assoc.
Qed.

Lemma dirs_made_outside root a w w' : outside (root ++ [a]) w w' -> dirs_made w root -> dirs_made w' root.
Proof. intros (_ & _ & _ & H4) Hd p Hp Hne. rewrite H4; [by apply Hd|by apply root_not_prefix]. Qed.

Lemma topic_grows_outside root a w w' :
  topic_grows (root ++ [a]) w w' -> dirs_made w root -> outside (root ++ [a]) w w'.
Proof.
  induction 1 as [|w w1 w2 (x & _ & Hx) _ IH]; [done|]. intros Hd. rewrite <- app_assoc in Hx.
  pose proof (grows_outside_dir _ _ _ _ _ Hx Hd) as Ho.
  eapply outside_trans; [exact Ho|]. apply IH. by eapply dirs_made_outside.
Qed.

(** The committed offsets of a topic's groups are below its [offsets]
    directory, which its partitions leave alone. *)
Definition spares (q : path) (w w' : World) : Prop := forall p, q `prefix_of` p -> nodes w' !! p = nodes w !! p.

Lemma spares_trans q w1 w2 w3 : spares q w1 w2 -> spares q w2 w3 -> spares q w1 w3.
Proof. intros H1 H2 p Hp. by rewrite H2, H1. Qed.

Lemma outside_spares root a b q w w' :
  a <> b -> outside (root ++ [a]) w w' -> spares ((root ++ [b]) ++ q) w w'.
Proof.
  intros Hne (_ & _ & _ & Hs) p [k ->]. apply Hs. rewrite <- app_assoc. by apply sibling_not_prefix.
Qed.

Lemma offsets_not_index x : is_Some (parse_u32 x) -> x <> "offsets".
Proof. intros [z Hz] ->. by rewrite parse_offsets in Hz. Qed.

Lemma topic_stays_spares dir w w' : topic_stays dir w w' -> spares (offsets_dir dir) w w'.
Proof.
  induction 1 as [|w w1 w2 (x & Hx & _ & _ & _ & Hs) _ IH]; [done|]. intros p Hp. rewrite IH by done. apply Hs.
  intros y ->. apply offsets_not_index in Hx. rewrite <- app_assoc in Hp. destruct Hp as [k E].
  unfold offsets_dir in E. rewrite <- app_assoc in E. apply app_inv_head in E. simpl in E. by injection E as ->.
Qed.

Lemma topic_grows_spares dir w w' : topic_grows dir w w' -> spares (offsets_dir dir) w w'.
Proof.
  induction 1 as [|w w1 w2 (x & Hx & _ & _ & _ & _ & Hs) _ IH]; [done|]. intros p Hp. rewrite IH by done.
  apply offsets_not_index in Hx. destruct Hp as [k ->]. unfold offsets_dir. apply Hs.
  - left. rewrite <- app_assoc. intros [k' E]. rewrite <- !app_assoc in E. apply app_inv_head in E. simpl in E.
    by injection E as ->.
  - intros y E. rewrite <- !app_assoc in E. apply app_inv_head in E. simpl in E. injection E as E _. by apply Hx.
Qed.

Lemma remove_outside r w : outside r w (set_nodes (filter (fun e => ~ r `prefix_of` fst e)) w).
Proof.
  do 3 (split; [done|]). intros p Hp. simpl. destruct (nodes w !! p) as [n|] eqn:E.
  - by apply map_lookup_filter_Some.
  - apply map_lookup_filter_None. by left.
Qed.

Lemma remove_below r w p :
  r `prefix_of` p -> nodes (set_nodes (filter (fun e => ~ r `prefix_of` fst e)) w) !! p = None.
Proof. intros Hp. apply map_lookup_filter_None. right. intros n _ Hn. by apply Hn. Qed.

Section frame.
Context {B : Buf} {H : Crc32} {C : Codecs}.
Context {R S : World -> Log -> alog -> Prop} {D : World -> path -> alog -> Prop}.
Context {LC : LogContract R} {LS : LogStore R S D}.

(** A topic is not affected by what happens below another one. *)
Section sibling.
Context (root : path) (a b : string) (w w' : World).
Context (Hne : a <> b) (Ho : outside (root ++ [a]) w w').

Lemma sibling_unaffected q : unaffected ((root ++ [b]) ++ q) w w'.
Proof.
  eapply outside_unaffected; [exact Ho| |].
  - intros E. apply (f_equal length) in E. rewrite !length_app in E. simpl in E. lia.
  - intros x. rewrite <- app_assoc. by apply sibling_not_prefix.
Qed.

Lemma sibling_layout n : topic_layout w (root ++ [b]) n -> topic_layout w' (root ++ [b]) n.
Proof.
  destruct (sibling_unaffected []) as (_ & _ & _ & _ & Hd & Hx). rewrite app_nil_r in Hd, Hx.
  intros [L1 L2 L3]. split.
  - by rewrite Hd.
  - intros i Hi. rewrite Hx. by apply L2.
  - intros name k. rewrite Hx. apply L3.
Qed.

Lemma sibling_prep p x al :
  pdir p = (root ++ [b]) ++ [x] -> prep (R := R) w p al -> prep (R := R) w' p al.
Proof.
  intros E [[Hr Hh Hf] Hru Hi]. split; [|done|done]. split; [|done|done].
  eapply ls_rep_unaffected; [|done]. unfold pdir in E. rewrite E. apply sibling_unaffected.
Qed.

Lemma sibling_topic_rep t als :
  topic_rep (R := R) w (root ++ [b]) t als -> topic_rep (R := R) w' (root ++ [b]) t als.
Proof.
  intros [T1 T2 T3 T4 T5 T6]. split; try done; [|by apply sibling_layout].
  intros i p al Hp Ha. eapply sibling_prep; [by apply T4|by eapply T3].
Qed.

Lemma sibling_closed k t als :
  closed_upto (R := R) (S := S) k w (root ++ [b]) t als -> closed_upto (R := R) (S := S) k w' (root ++ [b]) t als.
Proof.
  intros [C1 C2 C3 C4 C5 C6]. split; try done; [| |by apply sibling_layout].
  - intros i p al Hi Hp Ha. destruct (C3 i p al Hi Hp Ha) as [Hs Hst]. split; [|done].
    eapply ls_synced_unaffected; [|done]. pose proof (C5 i p Hp) as E. unfold pdir in E. rewrite E.
    apply sibling_unaffected.
  - intros i p al Hi Hp Ha. eapply sibling_prep; [by apply C5|by apply (C4 i p al)].
Qed.

Lemma sibling_disk i al : D w (pd (root ++ [b]) i) al -> D w' (pd (root ++ [b]) i) al.
Proof. apply ls_disk_unaffected, sibling_unaffected. Qed.

End sibling.
End frame.
