(* ===== verification/Registry.v ===== *)
(** * What the broker's methods do

    [broker_rep w p k ts hs]: the broker [k] of process [p] serves the topics
    [ts], and [hs] are the handles that clients hold on them (the topic's name
    and the [Arc]'s address). Every method is a change of one topic
    ([rep_update]). *)

From S2P Require Import Prelude Bytes Error Compression LogRecord Fs Names Search.
From S2P Require Import Segment SparseIndex Log LogInv LogOps LogRecover LogCrash LogSpec LogStore.
From S2P Require Import OffsetStore Partition PartitionSpec Topic Producer TopicSpec TopicStore.
From S2P Require Import Consumer ConsumerSpec GroupSpec Broker BrokerSpec.

(** An abstract topic: its partitions' logs and its configuration. *)
Record atopic : Type := mkATopic { at_logs : list alog; at_config : LogConfig }.

Definition empty_topic (n : Z) (cfg : LogConfig) : atopic :=
  mkATopic (replicate (Z.to_nat n) (mkALog 0 [])) cfg.

Abbreviation handle := (string * nat)%type.

Definition handles_of (a : string) (hs : list handle) : list handle := filter (fun h => fst h = a) hs.

Lemma handles_of_app a hs1 hs2 : handles_of a (hs1 ++ hs2) = handles_of a hs1 ++ handles_of a hs2.
Proof. apply filter_app. Qed.

Lemma elem_of_handles a id hs : (a, id) ∈ handles_of a hs <-> (a, id) ∈ hs.
Proof. unfold handles_of. rewrite list_elem_of_filter. simpl. split; [intros [_ Hi]; exact Hi|done]. Qed.

Lemma handles_of_none a hs : (forall id, (a, id) ∉ hs) -> handles_of a hs = [].
Proof.
  intros Hn. destruct (handles_of a hs) as [|[b id] l] eqn:E; [done|].
  assert (Hin : (b, id) ∈ handles_of a hs) by (rewrite E; by left).
  pose proof Hin as Hin2. unfold handles_of in Hin2. apply list_elem_of_filter in Hin2 as [<- Hin2]. by destruct (Hn id).
Qed.

Section registry.
Context {B : Buf} {H : Crc32} {C : Codecs} {F : Flock} {FL : FlockLaws F}.
Context {R S : World -> Log -> alog -> Prop} {D : World -> path -> alog -> Prop}.
Context {LC : LogContract R} {LS : LogStore R S D}.

(** The [Arc] at [id] is the topic [name], with [n] owners besides the
    registry. *)
Definition topic_in (w : World) (p : Process) (root : path) (name : string) (id : nat) (t : atopic) (n : nat)
    : Prop :=
  exists tp, arcs p !! id = Some (tp, Datatypes.S n)
    /\ topic_rep (R := R) w (root ++ [name]) tp (at_logs t)
    /\ Topic.config tp = at_config t /\ Topic.name tp = name.

Record broker_rep (w : World) (p : Process) (k : Kafko) (ts : gmap string atopic) (hs : list handle) : Prop := {
  br_root : dir k <> [];
  br_dirs : dirs_made w (dir k);
  br_quiet : quiet w;
  br_max : 0 <= read_max w;
  br_topic : forall name t, ts !! name = Some t -> exists id, topics k !! name = Some id
    /\ topic_in w p (dir k) name id t (length (handles_of name hs));
  br_only : forall name, ts !! name = None -> topics k !! name = None;
  br_inj : forall a b id, topics k !! a = Some id -> topics k !! b = Some id -> a = b;
  br_ids : forall id, is_Some (arcs p !! id) -> (id < next_arc p)%nat;
  br_handles : forall name id, (name, id) ∈ hs -> topics k !! name = Some id;
  br_plain : forall name t, ts !! name = Some t -> plain name;
  br_clean : forall name q, ts !! name = None -> name <> LOCK_FILENAME ->
    (dir k ++ [name]) `prefix_of` q -> nodes w !! q = None;
  br_lockfile : exists f, nodes w !! (dir k ++ [LOCK_FILENAME]) = Some (NFile f);
  br_lock_path : dir_lock k = dir k ++ [LOCK_FILENAME];
  br_locked : locked (dir_lock k) (flocks p);
}.

Lemma br_registered w p k ts hs name :
  broker_rep w p k ts hs -> (exists id, topics k !! name = Some id) <-> exists t, ts !! name = Some t.
Proof.
  intros Hb. split.
  - intros [id Hi]. destruct (ts !! name) as [t|] eqn:E; [by exists t|].
    apply (br_only _ _ _ _ _ Hb) in E. congruence.
  - intros [t Ht]. destruct (br_topic _ _ _ _ _ Hb _ _ Ht) as (id & Hi & _). by exists id.
Qed.

(** No topic is called like the lock file. *)
Lemma br_not_lock w p k ts hs name t : broker_rep w p k ts hs -> ts !! name = Some t -> name <> LOCK_FILENAME.
Proof.
  intros Hb Ht ->. destruct (br_topic _ _ _ _ _ Hb _ _ Ht) as (id & _ & tp & _ & Hr & _).
  destruct (br_lockfile _ _ _ _ _ Hb) as [f Hf]. pose proof (tl_dir _ _ _ (tr_layout _ _ _ _ Hr)). congruence.
Qed.

(** ** One topic changes *)
Record changes (a : string) (w : World) (p : Process) (k : Kafko) (ts : gmap string atopic) (hs : list handle)
    (w' : World) (p' : Process) (k' : Kafko) (ts' : gmap string atopic) (hs' : list handle) : Prop := {
  ch_name : a <> LOCK_FILENAME;
  ch_disk : outside (dir k ++ [a]) w w';
  ch_dir : dir k' = dir k;
  ch_lock : dir_lock k' = dir_lock k;
  ch_flocks : flocks p' = flocks p;
  ch_topics : forall b, b <> a -> topics k' !! b = topics k !! b;
  ch_ts : forall b, b <> a -> ts' !! b = ts !! b;
  ch_hs : forall b, b <> a -> handles_of b hs' = handles_of b hs;
  ch_arcs : forall b id, b <> a -> topics k !! b = Some id -> arcs p' !! id = arcs p !! id;
  ch_ids : forall id, is_Some (arcs p' !! id) -> (id < next_arc p')%nat;
  ch_slot : match ts' !! a with
    | Some t => plain a /\ exists id, topics k' !! a = Some id
        /\ topic_in w' p' (dir k) a id t (length (handles_of a hs'))
        /\ forall b, b <> a -> topics k !! b <> Some id
    | None => topics k' !! a = None /\ forall q, (dir k ++ [a]) `prefix_of` q -> nodes w' !! q = None
    end;
  ch_handles : forall id, (a, id) ∈ hs' -> topics k' !! a = Some id;
}.

Lemma rep_update a w p k ts hs w' p' k' ts' hs' :
  broker_rep w p k ts hs -> changes a w p k ts hs w' p' k' ts' hs' -> broker_rep w' p' k' ts' hs'.
Proof.
  intros [B1 B2 B3 B4 B5 B6 B7 B8 B9 B10 B11 [f B12] B13 B14] [Hn Ho E1 E2 E3 Ct Cs Ch Ca Ci Cl Cd].
  pose proof Ho as (_ & _ & Om & Op). split; rewrite ?E1, ?E2, ?E3; try done.
  - by eapply dirs_made_outside.
  - by eapply outside_quiet.
  - by rewrite Om.
  - intros b t Hb. destruct (decide (b = a)) as [->|Hne].
    + rewrite Hb in Cl. destruct Cl as (_ & id & Hi & Ht & _). by exists id.
    + rewrite Cs in Hb by done. destruct (B5 b t Hb) as (id & Hi & tp & Ha & Hr & Hc). exists id.
      rewrite Ct by done. split; [done|]. exists tp. rewrite Ch, (Ca b) by done. split; [done|]. split; [|done].
      eapply sibling_topic_rep; [|exact Ho|done]. done.
  - intros b Hb. destruct (decide (b = a)) as [->|Hne].
    + rewrite Hb in Cl. apply Cl.
    + rewrite Cs in Hb by done. rewrite Ct by done. by apply B6.
  - assert (Haux : forall b id, b <> a -> topics k' !! a = Some id -> topics k' !! b = Some id -> False).
    { intros b id Hne Ha Hb. rewrite Ct in Hb by done. destruct (ts' !! a).
      - destruct Cl as (_ & id' & Hi & _ & Hf). apply (Hf b Hne). congruence.
      - destruct Cl. congruence. }
    intros b c id Hb Hc. destruct (decide (b = a)) as [->|Hb'], (decide (c = a)) as [->|Hc']; try done.
    + exfalso. by eapply Haux.
    + exfalso. by eapply Haux.
    + rewrite Ct in Hb, Hc by done. by eapply B7.
  - intros b id Hin. destruct (decide (b = a)) as [->|Hne]; [by apply Cd|].
    rewrite Ct by done. apply B9. apply elem_of_handles. rewrite <- Ch by done. by apply elem_of_handles.
  - intros b t Hb. destruct (decide (b = a)) as [->|Hne].
    + rewrite Hb in Cl. apply Cl.
    + rewrite Cs in Hb by done. by eapply B10.
  - intros b q Hb Hl Hq. destruct (decide (b = a)) as [->|Hne].
    + rewrite Hb in Cl. destruct Cl as [_ Hc]. by apply Hc.
    + rewrite Cs in Hb by done. rewrite Op; [by eapply B11|]. destruct Hq as [q' ->].
      by apply sibling_not_prefix.
  - exists f. rewrite Op; [done|]. rewrite <- (app_nil_r (dir k ++ [LOCK_FILENAME])). by apply sibling_not_prefix.
Qed.

(** ** Creating *)
Lemma create_check_run w p k ts hs name n :
  broker_rep w p k ts hs -> ts !! name = None -> n <> 0 ->
  create_check name n (w, (p, k)) = (Ok tt, (w, (p, k))).
Proof.
  intros Hb Hn Hz. unfold create_check. rewrite (proj2 (Z.eqb_neq _ _)) by done.
  unfold bind, kafko. simpl. by rewrite (br_only _ _ _ _ _ Hb _ Hn).
Qed.

Definition new_arc (t : Topic) (p : Process) : Process :=
  mkProcess (<[next_arc p := (t, 1%nat)]> (arcs p)) (Datatypes.S (next_arc p)) (exiting p) (spawned p) (flocks p).

Lemma create_files_run w p k name cfg n t w' :
  plain name -> Topic.create (dir k ++ [name]) name n cfg w = (Ok t, w') ->
  create_files name cfg n (w, (p, k)) = (Ok t, (w', (p, k))).
Proof.
  intros Hp Hc. unfold create_files. unfold bind, kafko. cbn [snd]. rewrite (join_plain _ _ Hp).
  exact (in_world_run _ _ _ (p, k) _ Hc).
Qed.

Lemma create_register_first w p k name t :
  topics k !! name = None ->
  create_register name t (w, (p, k))
  = (Ok tt, (w, (new_arc t p, set_topics (<[name := next_arc p]> (topics k)) k))).
Proof. intros Hn. unfold create_register, bind, kafko. simpl. by rewrite Hn. Qed.

Lemma create_register_late w p k name t id :
  topics k !! name = Some id ->
  create_register name t (w, (p, k))
  = (Err (TopicAlreadyExists name), (w, (set_exiting (exiting p ++ [t]) p, k))).
Proof. intros Hn. unfold create_register, bind, kafko. simpl. by rewrite Hn. Qed.

Lemma create_topic_run w p k ts hs name cfg n :
  usable cfg -> broker_rep w p k ts hs -> ts !! name = None -> plain name -> name <> LOCK_FILENAME -> 0 < n < 2 ^ 32 ->
  exists w' p' k', create_topic_inner name cfg n (w, (p, k)) = (Ok tt, (w', (p', k')))
    /\ broker_rep w' p' k' (<[name := empty_topic n cfg]> ts) hs
    /\ dir k' = dir k /\ outside (dir k ++ [name]) w w'.
Proof.
  intros Hu Hb Hn Hp Hl Hr. pose proof Hb as [B1 B2 B3 B4 B5 B6 B7 B8 B9 B10 B11 B12 B13 B14].
  assert (Hz : n <> 0) by lia.
  unfold create_topic_inner. rewrite (bind_Ok _ _ _ _ _ (create_check_run _ _ _ _ _ _ _ Hb Hn Hz)).
  destruct (topic_create_run (R := R) w (dir k ++ [name]) name n cfg) as (w' & t & Hc & Ht & Hcf & Hnm & _ & Hg); try done.
  { by destruct (dir k). }
  { intros q [->|Hq]%prefix_snoc_inv Hne; [right; by eapply B11|left; by apply B2]. }
  { intros q Hq _. by eapply B11. }
  pose proof (topic_grows_outside _ _ _ _ Hg B2) as Ho.
  set (id := next_arc p).
  set (p' := new_arc t p).
  set (k' := set_topics (<[name := id]> (topics k)) k).
  assert (Hfresh : forall b, topics k !! b <> Some id).
  { intros b Hi. destruct (br_registered _ _ _ _ _ b Hb) as [Hx _]. destruct (Hx ltac:(eauto)) as [t' Ht'].
    destruct (B5 b t' Ht') as (id' & Hi' & tp & Ha & _). rewrite Hi in Hi'. injection Hi' as <-.
    specialize (B8 id ltac:(eauto)). unfold id in B8. lia. }
  exists w', p', k'. split; [|split; [|done]].
  - unfold create_commit. rewrite (bind_Ok _ _ _ _ _ (create_files_run _ _ _ _ _ _ _ _ Hp Hc)).
    by apply create_register_first, B6.
  - assert (Hnone : handles_of name hs = []).
    { apply handles_of_none. intros i Hi%B9. rewrite (B6 _ Hn) in Hi. done. }
    apply (rep_update name w p k ts hs); [done|]. split; try done; simpl.
    + intros b Hne. by rewrite lookup_insert_ne.
    + intros b Hne. by rewrite lookup_insert_ne.
    + intros b i Hne Hi. rewrite lookup_insert_ne; [done|]. intros <-. by apply (Hfresh b).
    + intros i. rewrite lookup_insert_is_Some'. intros [<-|Hi]; [unfold id; lia|]. specialize (B8 _ Hi). unfold id. lia.
    + rewrite lookup_insert_eq. split; [done|]. exists id. rewrite lookup_insert_eq. split; [done|].
      split; [|by intros b _]. exists t. simpl. rewrite lookup_insert_eq, Hnone. by split_and!.
    + intros i Hi%B9. rewrite (B6 _ Hn) in Hi. done.
Qed.

Lemma create_topic_exists w p k ts hs name cfg n t :
  broker_rep w p k ts hs -> ts !! name = Some t -> n <> 0 ->
  create_topic_inner name cfg n (w, (p, k)) = (Err (TopicAlreadyExists name), (w, (p, k))).
Proof.
  intros Hb Ht Hn. destruct (br_topic _ _ _ _ _ Hb _ _ Ht) as (id & Hi & _).
  unfold create_topic_inner, create_check. rewrite (proj2 (Z.eqb_neq _ _)) by done.
  unfold bind, kafko. simpl. by rewrite Hi.
Qed.

Lemma create_topic_zero w p k name cfg :
  create_topic_inner name cfg 0 (w, (p, k)) = (Err (InvalidPartitionCount 0), (w, (p, k))).
Proof. done. Qed.

(** ** Deleting *)
Lemma delete_topic_missing w p k ts hs name :
  broker_rep w p k ts hs -> ts !! name = None ->
  delete_topic name (w, (p, k)) = (Err (TopicNotFound name), (w, (p, k))).
Proof.
  intros Hb Hn. unfold delete_topic, bind, kafko. simpl. by rewrite (br_only _ _ _ _ _ Hb _ Hn).
Qed.

Lemma set_topics_same k : set_topics (topics k) k = k.
Proof. by destruct k. Qed.

(** With a handle outstanding nothing is deleted, and the registry is as
    before. *)
Lemma delete_topic_in_use w p k ts hs name t :
  broker_rep w p k ts hs -> ts !! name = Some t -> handles_of name hs <> [] ->
  delete_topic name (w, (p, k)) = (Err (TopicInUse name), (w, (p, k))).
Proof.
  intros Hb Ht Hh. destruct (br_topic _ _ _ _ _ Hb _ _ Ht) as (id & Hi & tp & Ha & _).
  unfold delete_topic. unfold bind at 1, kafko. simpl. rewrite Hi.
  unfold bind, on_process, zoom, modify_topics, modify_self, arc_try_unwrap. simpl. rewrite Ha.
  destruct (handles_of name hs) as [|h l]; [done|]. simpl.
  unfold set_topics. simpl. rewrite insert_delete_id by done. by destruct k.
Qed.

Lemma delete_topic_run w p k ts hs name t :
  broker_rep w p k ts hs -> ts !! name = Some t -> handles_of name hs = [] ->
  exists w' p' k', delete_topic name (w, (p, k)) = (Ok tt, (w', (p', k')))
    /\ broker_rep w' p' k' (delete name ts) hs /\ dir k' = dir k /\ outside (dir k ++ [name]) w w'.
Proof.
  intros Hb Ht Hh. pose proof (br_not_lock _ _ _ _ _ _ _ Hb Ht) as Hl.
  destruct (br_topic _ _ _ _ _ Hb _ _ Ht) as (id & Hi & tp & Ha & Hr & _). rewrite Hh in Ha. simpl in Ha.
  destruct (topic_shutdown_run w _ tp _ Hr) as (w1 & tp1 & Hsd & Hcl & Hs).
  pose proof (topic_stays_outside _ _ _ Hs) as Ho.
  pose proof (tl_dir _ _ _ (cu_layout _ _ _ _ _ Hcl)) as Hnd.
  pose proof (outside_quiet _ _ _ Ho (br_quiet _ _ _ _ _ Hb)) as Hq.
  set (w2 := set_nodes (filter (fun e => ~ (dir k ++ [name]) `prefix_of` fst e)) w1).
  pose proof (outside_trans _ _ _ _ Ho (remove_outside (dir k ++ [name]) w1)) as Ho2. fold w2 in Ho2.
  set (p' := set_arcs (delete id (arcs p)) p). set (k' := set_topics (delete name (topics k)) k).
  exists w2, p', k'. split; [|split; [|done]].
  - unfold delete_topic. unfold bind at 1, kafko. simpl. rewrite Hi.
    unfold bind at 1, modify_topics, modify_self. simpl.
    unfold bind at 1, on_process, zoom, arc_try_unwrap. simpl. rewrite Ha. cbn [snd fst].
    rewrite (join_plain _ _ (br_plain _ _ _ _ _ Hb _ _ Ht)).
    rewrite (bind_Ok _ _ _ _ _ (in_world_run _ _ _ (p', k') _ (with_local_run _ _ _ _ _ _ Hsd))).
    apply in_world_run, io_Ok. by apply remove_dir_all_run.
  - assert (Hno : forall i, (name, i) ∉ hs).
    { intros i Hin%elem_of_handles. rewrite Hh in Hin. by apply elem_of_nil in Hin. }
    apply (rep_update name w p k ts hs); [done|]. split; try done; simpl.
    + intros b Hne. by rewrite lookup_delete_ne.
    + intros b Hne. by rewrite lookup_delete_ne.
    + intros b i Hne Hb'. rewrite lookup_delete_ne; [done|]. intros <-. apply Hne.
      by apply (br_inj _ _ _ _ _ Hb b name id).
    + intros i Hs'. apply (br_ids _ _ _ _ _ Hb). destruct Hs' as [x Hx]. apply lookup_delete_Some in Hx as [_ Hx]. by exists x.
    + rewrite lookup_delete_eq. split; [apply lookup_delete_eq|]. intros q Hq'. by apply remove_below.
    + intros i Hin. by destruct (Hno i).
Qed.

(** ** Handles *)

(** A change of one topic's owners or records, with the registry as it is. *)
Lemma rep_slot a w p k ts hs w' tp n id hs' t t' :
  broker_rep w p k ts hs -> ts !! a = Some t -> topics k !! a = Some id -> outside (dir k ++ [a]) w w' ->
  topic_rep (R := R) w' (dir k ++ [a]) tp (at_logs t') -> Topic.config tp = at_config t' -> Topic.name tp = a ->
  n = Datatypes.S (length (handles_of a hs')) -> (forall b, b <> a -> handles_of b hs' = handles_of b hs) ->
  (forall i, (a, i) ∈ hs' -> i = id) ->
  broker_rep w' (set_arcs (<[id := (tp, n)]> (arcs p)) p) k (<[a := t']> ts) hs'.
Proof.
  intros Hb Ht Hi Ho Hr Hc Hn -> Hh Hin.
  apply (rep_update a w p k ts hs); [done|]. split; try done; simpl.
  - by eapply br_not_lock.
  - intros b Hne. by rewrite lookup_insert_ne.
  - intros b i Hne Hb'. rewrite lookup_insert_ne; [done|]. intros <-. apply Hne. by apply (br_inj _ _ _ _ _ Hb b a id).
  - intros i. rewrite lookup_insert_is_Some'. intros [<-|Hs]; [|by apply (br_ids _ _ _ _ _ Hb)].
    apply (br_ids _ _ _ _ _ Hb). destruct (br_topic _ _ _ _ _ Hb _ _ Ht) as (i' & Hi' & tp' & Ha' & _).
    rewrite Hi in Hi'. injection Hi' as <-. by eexists.
  - rewrite lookup_insert_eq. split; [by eapply br_plain|]. exists id. split; [done|]. split.
    + exists tp. simpl. by rewrite lookup_insert_eq.
    + intros b Hne Hb'. apply Hne. by apply (br_inj _ _ _ _ _ Hb b a id).
  - intros i Hi'. by rewrite (Hin i Hi').
Qed.

Lemma topic_run w p k ts hs name t :
  broker_rep w p k ts hs -> ts !! name = Some t ->
  exists id p', topic_or_not_found name (w, (p, k)) = (Ok id, (w, (p', k)))
    /\ topics k !! name = Some id /\ broker_rep w p' k ts (hs ++ [(name, id)]).
Proof.
  intros Hb Ht. destruct (br_topic _ _ _ _ _ Hb _ _ Ht) as (id & Hi & tp & Ha & Hr & Hc & Hn).
  exists id. eexists. split; [|split; [done|]].
  - unfold topic_or_not_found, topic, bind, kafko, on_process, zoom, arc_clone, ret. simpl. rewrite Hi. simpl. by rewrite Ha.
  - rewrite <- (insert_id ts name t Ht) at 1. eapply (rep_slot name w p k ts hs); try done.
    + rewrite handles_of_app, length_app. unfold handles_of at 3. rewrite filter_cons_True by done. simpl. lia.
    + intros b Hne. rewrite handles_of_app. unfold handles_of at 2. rewrite filter_cons_False by (simpl; congruence).
      by rewrite app_nil_r.
    + intros i Hin. apply elem_of_app in Hin as [Hin|Hin%list_elem_of_singleton]; [|by injection Hin].
      pose proof (br_handles _ _ _ _ _ Hb _ _ Hin). congruence.
Qed.

Lemma topic_not_found w p k ts hs name :
  broker_rep w p k ts hs -> ts !! name = None ->
  topic_or_not_found name (w, (p, k)) = (Err (TopicNotFound name), (w, (p, k))).
Proof.
  intros Hb Hn. unfold topic_or_not_found, topic, bind, kafko. simpl. by rewrite (br_only _ _ _ _ _ Hb _ Hn).
Qed.

(** A handle finds its topic: the registry cannot have lost it. *)
Lemma handle_topic w p k ts hs i name id :
  broker_rep w p k ts hs -> hs !! i = Some (name, id) ->
  topics k !! name = Some id /\ exists t, ts !! name = Some t
    /\ topic_in w p (dir k) name id t (length (handles_of name hs)) /\ (0 < length (handles_of name hs))%nat.
Proof.
  intros Hb Hh. apply list_elem_of_lookup_2 in Hh. pose proof (br_handles _ _ _ _ _ Hb _ _ Hh) as Hi.
  split; [done|]. destruct (br_registered _ _ _ _ _ name Hb) as [Hx _]. destruct (Hx ltac:(eauto)) as [t Ht].
  destruct (br_topic _ _ _ _ _ Hb _ _ Ht) as (id' & Hi' & Hin). rewrite Hi in Hi'. injection Hi' as <-.
  exists t. do 2 (split; [done|]). apply elem_of_handles in Hh. destruct (handles_of name hs); [by apply elem_of_nil in Hh|].
  simpl. lia.
Qed.

Lemma handles_of_delete a b id hs i :
  hs !! i = Some (b, id) ->
  length (handles_of a hs) = (length (handles_of a (delete i hs)) + if decide (b = a) then 1 else 0)%nat
  /\ (b <> a -> handles_of a (delete i hs) = handles_of a hs).
Proof.
  intros Hi. assert (E : handles_of a hs = handles_of a (take i hs)
    ++ (if decide (b = a) then [(b, id)] else []) ++ handles_of a (drop (Datatypes.S i) hs)).
  { rewrite <- (take_drop_middle hs i _ Hi) at 1. rewrite handles_of_app. f_equal. unfold handles_of.
    rewrite filter_cons. simpl. by destruct (decide (b = a)). }
  rewrite E, delete_take_drop, handles_of_app, !length_app. destruct (decide (b = a)); (split; [simpl; lia|done]).
Qed.

Lemma drop_handle_run w p k ts hs i name id :
  broker_rep w p k ts hs -> hs !! i = Some (name, id) ->
  exists p', on_process (arc_drop id) (w, (p, k)) = (Ok tt, (w, (p', k))) /\ broker_rep w p' k ts (delete i hs).
Proof.
  intros Hb Hh. destruct (handle_topic _ _ _ _ _ _ _ _ Hb Hh) as (Hi & t & Ht & (tp & Ha & Hr & Hc & Hn) & Hpos).
  destruct (handles_of_delete name name id hs i Hh) as [Hl _]. rewrite decide_True in Hl by done.
  eexists. split.
  - unfold on_process, zoom, arc_drop. simpl. rewrite Ha, Hl, Nat.add_1_r. done.
  - rewrite <- (insert_id ts name t Ht) at 1. eapply (rep_slot name w p k ts hs); try done.
    + intros b Hne. by apply (handles_of_delete b name id hs i Hh).
    + intros j Hin. assert (Hin' : (name, j) ∈ hs).
      { rewrite delete_take_drop in Hin. apply elem_of_app in Hin as [Hin|Hin];
          [by apply (subseteq_take i hs)|by apply (subseteq_drop (Datatypes.S i) hs)]. }
      pose proof (br_handles _ _ _ _ _ Hb _ _ Hin'). congruence.
Qed.

(** ** Sending through a handle *)
Lemma on_partition_name {A} i (m : KM (World * Partition) A) w t o w' t' :
  on_partition i m (w, t) = (o, (w', t')) -> Topic.name t' = Topic.name t.
Proof.
  unfold on_partition. destruct (partitions t !! i) as [q|]; [|by intros [= _ _ <-]].
  destruct (m (w, q)) as [o' [w1 q']]. by intros [= _ _ <-].
Qed.

Lemma route_name key w t o w' t' : route key (w, t) = (o, (w', t')) -> Topic.name t' = Topic.name t.
Proof.
  unfold route. rewrite bind_self. destruct key; [by intros [= _ _ <-]|].
  unfold next_round_robin. rewrite bind_self, bind_modify_self. by intros [= _ _ <-].
Qed.

Lemma append_to_name n r w t o w' t' : append_to n r (w, t) = (o, (w', t')) -> Topic.name t' = Topic.name t.
Proof.
  unfold append_to. rewrite bind_self. destruct (partitions t !! _); [|by intros [= _ _ <-]].
  unfold bind. destruct (on_partition _ _ (w, t)) as [o' [w1 t1]] eqn:E. apply on_partition_name in E.
  destruct o'; intros [= _ _ <-]; exact E.
Qed.

Lemma send_name key value w t o w' t' :
  Producer.send key value (w, t) = (o, (w', t')) -> Topic.name t' = Topic.name t.
Proof.
  unfold Producer.send. unfold bind at 1. destruct (route key (w, t)) as [o' [w1 t1]] eqn:E. apply route_name in E.
  destruct o'; [|intros [= _ _ <-]; exact E..]. unfold bind, current_timestamp_ms, in_world, zoom. cbn [fst snd].
  intros Hs%append_to_name. congruence.
Qed.

Definition stamp (w : World) : Z := if now_ms w <? 0 then 0 else as_i64 (now_ms w).

Lemma send_handle_run w p k ts hs i name id t key value :
  let r := LogRecord.new (stamp w) key value in
  broker_rep w p k ts hs -> hs !! i = Some (name, id) -> ts !! name = Some t ->
  storable (compression (at_config t)) r -> room w (at_config t) [r] ->
  (forall a, a ∈ at_logs t -> a_next a + 1 < 2 ^ 64) ->
  exists w' p' n a, on_process (on_arc id (Producer.send key value)) (w, (p, k))
      = (Ok (mkPosition (Z.of_nat n) (a_next a)), (w', (p', k)))
    /\ at_logs t !! n = Some a /\ (forall b, key = Some b -> Z.of_nat n = partition_index b (len (at_logs t)))
    /\ broker_rep w' p' k (<[name := mkATopic (<[n := a_append [r] a]> (at_logs t)) (at_config t)]> ts) hs
    /\ outside (dir k ++ [name]) w w'.
Proof.
  intros r Hb Hh Ht Hst Hro Hnx.
  destruct (handle_topic _ _ _ _ _ _ _ _ Hb Hh) as (Hi & t' & Ht' & (tp & Ha & Hr & Hc & Hn) & Hpos).
  rewrite Ht in Ht'. injection Ht' as <-. rewrite <- Hc in Hst, Hro.
  destruct (send_run w (dir k ++ [name]) tp (at_logs t) key value Hr Hst Hro Hnx)
    as (w' & tp' & n & a & Hrun & Hla & Hr' & _ & Hroute & Hs & Hc').
  pose proof (topic_stays_outside _ _ _ Hs) as Ho.
  eexists w', _, n, a. split; [|split; [done|split; [|split; [|exact Ho]]]].
  - unfold on_process, zoom, on_arc. simpl. by rewrite Ha, Hrun.
  - intros b E. rewrite (Hroute b E). unfold partition_for_key. by rewrite (topic_rep_count _ _ _ _ Hr).
  - eapply (rep_slot name w p k ts hs); try done; simpl.
    + by rewrite Hc', Hc.
    + by rewrite (send_name _ _ _ _ _ _ _ Hrun).
    + intros j Hin. pose proof (br_handles _ _ _ _ _ Hb _ _ Hin). congruence.
Qed.

(** The timer of one partition's task. *)
Lemma retention_timer_run w p k ts hs name t i a :
  broker_rep w p k ts hs -> ts !! name = Some t -> at_logs t !! i = Some a ->
  exists w' p' n, retention_timer name i (w, (p, k)) = (Ok tt, (w', (p', k)))
    /\ may_drop (at_config t) n a
    /\ broker_rep w' p' k (<[name := mkATopic (<[i := a_drop n a]> (at_logs t)) (at_config t)]> ts) hs
    /\ outside (dir k ++ [name]) w w'.
Proof.
  intros Hb Ht Hla. destruct (br_topic _ _ _ _ _ Hb _ _ Ht) as (id & Hi & tp & Ha & Hr & Hc & Hn).
  destruct (lookup_lt_is_Some_2 (partitions tp) i) as [q Hq]; [rewrite (tr_len _ _ _ _ Hr); by eapply lookup_lt_Some|].
  destruct (partition_tick_run w q a (tr_part _ _ _ _ Hr i q a Hq Hla)) as (w' & q' & n & Hrun & Hd & Hq' & Hk).
  destruct (on_partition_run _ _ _ _ _ _ _ _ _ _ _ _ Hr Hq Hla Hrun Hq' Hk) as (Hon & Hr' & Hs).
  pose proof (topic_stays_outside _ _ _ Hs) as Ho. rewrite (tr_config _ _ _ _ Hr i q Hq), Hc in Hd.
  eexists w', _, n. split; [|split; [exact Hd|split; [|exact Ho]]].
  - unfold retention_timer, bind, kafko. simpl. rewrite Hi. unfold on_process, zoom, on_arc. simpl. by rewrite Ha, Hon.
  - eapply (rep_slot name w p k ts hs); try done.
    intros j Hin. pose proof (br_handles _ _ _ _ _ Hb _ _ Hin). congruence.
Qed.

End registry.
