(* ===== verification/BrokerStore.v ===== *)
(** * Closing and reopening a broker

    [shutdown_topics] closes every topic nobody else owns; opening the data
    directory again - after a crash at any later time - finds every closed
    topic with all its records. *)

From S2P Require Import Prelude Bytes Error Compression LogRecord Fs Names Search.
From S2P Require Import Segment SparseIndex Log LogInv LogOps LogRecover LogCrash LogSpec LogStore.
From S2P Require Import OffsetStore Partition PartitionSpec Topic Producer TopicSpec TopicStore.
From S2P Require Import Consumer ConsumerSpec GroupSpec Broker BrokerSpec Registry.

Section store.
Context {B : Buf} {H : Crc32} {C : Codecs} {F : Flock} {FL : FlockLaws F}.
Context {R S : World -> Log -> alog -> Prop} {D : World -> path -> alog -> Prop}.
Context {LC : LogContract R} {LS : LogStore R S D}.

(** ** Changes below several topics *)

(** A topic's partitions changed. *)
Definition within (root : path) (a : string) (w w' : World) : Prop :=
  outside (root ++ [a]) w w' /\ spares (offsets_dir (root ++ [a])) w w'.

Definition apart_from (root : path) (names : list string) : World -> World -> Prop :=
  rtc (fun w w' => exists a, a ∈ names /\ within root a w w').

Lemma within_spares root a b w w' : within root a w w' -> spares (offsets_dir (root ++ [b])) w w'.
Proof.
  intros [Ho Hs]. destruct (decide (a = b)) as [->|Hne]; [done|]. by eapply outside_spares.
Qed.

Lemma apart_from_spares root names b w w' :
  apart_from root names w w' -> spares (offsets_dir (root ++ [b])) w w'.
Proof.
  induction 1 as [|w w1 w2 (a & _ & Hw) _ IH]; [done|]. eapply spares_trans; [by eapply within_spares|done].
Qed.

Lemma apart_from_nodes root names w w' q :
  apart_from root names w w' -> (forall a, a ∈ names -> ~ (root ++ [a]) `prefix_of` q) ->
  nodes w' !! q = nodes w !! q.
Proof.
  intros Hr Hq. induction Hr as [|w w1 w2 (a & Ha & (_ & _ & _ & Hn) & _) _ IH]; [done|].
  rewrite IH. by apply Hn, Hq.
Qed.

Lemma apart_from_env root names w w' :
  apart_from root names w w' -> faults w' = faults w /\ now_ms w' = now_ms w /\ read_max w' = read_max w.
Proof.
  induction 1 as [|w w1 w2 (a & Ha & (H1 & H2 & H3 & _) & _) _ (IH1 & IH2 & IH3)]; [done|].
  split_and!; congruence.
Qed.

Lemma apart_from_dirs root names w w' : apart_from root names w w' -> dirs_made w root -> dirs_made w' root.
Proof. induction 1 as [|w w1 w2 (a & _ & Ho & _) _ IH]; [done|]. intros Hd. by eapply IH, dirs_made_outside. Qed.

Lemma apart_from_weaken root names names' w w' :
  names ⊆ names' -> apart_from root names w w' -> apart_from root names' w w'.
Proof. intros Hs. apply rtc_subrel. intros u v (a & Ha & Ho). exists a. split; [by apply Hs|done]. Qed.

Lemma apart_from_topic_rep root names b w w' t als :
  apart_from root names w w' -> b ∉ names ->
  topic_rep (R := R) w (root ++ [b]) t als -> topic_rep (R := R) w' (root ++ [b]) t als.
Proof.
  intros Hr Hb. induction Hr as [|w w1 w2 (a & Ha & Ho & _) _ IH]; [done|]. intros Ht. apply IH.
  eapply sibling_topic_rep; [|exact Ho|done]. by intros ->.
Qed.

Lemma apart_from_closed root names b w w' k t als :
  apart_from root names w w' -> b ∉ names ->
  closed_upto (R := R) (S := S) k w (root ++ [b]) t als -> closed_upto (R := R) (S := S) k w' (root ++ [b]) t als.
Proof.
  intros Hr Hb. induction Hr as [|w w1 w2 (a & Ha & Ho & _) _ IH]; [done|]. intros Ht. apply IH.
  eapply sibling_closed; [|exact Ho|done]. by intros ->.
Qed.

(** ** Closing the registry's topics *)
Section closing.
Context (root : path) (ts : gmap string atopic) (hs : list handle).

Definition pending (w : World) (p : Process) (e : handle) : Prop :=
  exists t, ts !! fst e = Some t /\ topic_in (R := R) w p root (fst e) (snd e) t (length (handles_of (fst e) hs)).

(** A topic without handles is closed; one with handles lost the registry's
    share and goes on. *)
Definition settled (w : World) (p : Process) (e : handle) : Prop :=
  exists t, ts !! fst e = Some t /\
    match length (handles_of (fst e) hs) with
    | O => exists tp, closed_upto (R := R) (S := S) (length (at_logs t)) w (root ++ [fst e]) tp (at_logs t)
    | Datatypes.S n => topic_in (R := R) w p root (fst e) (snd e) t n
    end.

Lemma close_one_run w p e :
  pending w p e -> exists w' p', close_one (snd e) (w, p) = (Ok tt, (w', p'))
    /\ settled w' p' e /\ within root (fst e) w w' /\ flocks p' = flocks p
    /\ (forall id, id <> snd e -> arcs p' !! id = arcs p !! id).
Proof.
  destruct e as [name id]. intros (t & Ht & tp & Ha & Hr & Hc & Hn). simpl in *. unfold settled. simpl.
  destruct (length (handles_of name hs)) as [|n] eqn:Eh.
  - destruct (topic_shutdown_run w _ tp _ Hr) as (w' & tp' & Hsd & Hcl & Hs).
    exists w', (set_arcs (delete id (arcs p)) p). split; [|split; [|split; [|split; [done|]]]].
    + unfold close_one, arc_try_unwrap. unfold bind at 1. rewrite Ha.
      by rewrite (bind_Ok _ _ _ _ _ (in_world_run _ _ _ _ _ (with_local_run _ _ _ _ _ _ Hsd))).
    + exists t. split; [done|]. by exists tp'.
    + split; [by apply topic_stays_outside|by apply topic_stays_spares].
    + intros i Hne. simpl. by rewrite lookup_delete_ne.
  - exists w, (set_arcs (<[id := (tp, Datatypes.S n)]> (arcs p)) p). split; [|split; [|split; [done|split; [done|]]]].
    + unfold close_one, arc_try_unwrap. unfold bind. rewrite Ha. unfold arc_drop. by rewrite Ha.
    + exists t. split; [done|]. exists tp. simpl. by rewrite lookup_insert_eq.
    + intros i Hne. simpl. by rewrite lookup_insert_ne.
Qed.

Lemma settled_frame w w' p p' names e :
  apart_from root names w w' -> fst e ∉ names -> arcs p' !! snd e = arcs p !! snd e ->
  settled w p e -> settled w' p' e.
Proof.
  intros Hr Hn Ha (t & Ht & Hs). exists t. split; [done|]. destruct (length _).
  - destruct Hs as [tp Hc]. exists tp. by eapply apart_from_closed.
  - destruct Hs as (tp & Hp & Htr & Hc). exists tp. rewrite Ha. split; [done|]. split; [|done].
    by eapply apart_from_topic_rep.
Qed.

Lemma close_loop l w p :
  NoDup l.*1 -> NoDup l.*2 -> (forall e, e ∈ l -> pending w p e) ->
  exists w' p', for_each l.*2 close_one (w, p) = (Ok tt, (w', p'))
    /\ (forall e, e ∈ l -> settled w' p' e) /\ apart_from root l.*1 w w' /\ flocks p' = flocks p
    /\ (forall id, id ∉ l.*2 -> arcs p' !! id = arcs p !! id).
Proof.
  revert w p. induction l as [|e l IH]; intros w p Hn1 Hn2 Hp.
  { exists w, p. split; [done|]. split; [by intros e He%elem_of_nil|]. by split. }
  cbn [fmap list_fmap for_each]. apply NoDup_cons in Hn1 as [Hx1 Hn1], Hn2 as [Hx2 Hn2].
  destruct (close_one_run w p e (Hp e ltac:(by left))) as (w1 & p1 & Hrun & Hset & Ho & Hl & Ha).
  rewrite (bind_Ok _ _ _ _ _ Hrun).
  destruct (IH w1 p1 Hn1 Hn2) as (w2 & p2 & Hrun2 & Hset2 & Hr2 & Hl2 & Ha2).
  { intros e' He'. destruct (Hp e' ltac:(by right)) as (t & Ht & tp & Hp' & Hr & Hc). exists t. split; [done|].
    exists tp. rewrite Ha by (intros E; apply Hx2; rewrite <- E; by apply list_elem_of_fmap_2).
    split; [done|]. split; [|done]. eapply sibling_topic_rep; [|exact (proj1 Ho)|done].
    intros E. apply Hx1. rewrite E. by apply list_elem_of_fmap_2. }
  exists w2, p2. split; [done|]. split; [|split; [|split; [congruence|]]].
  - intros e' [->|He']%elem_of_cons; [|by apply Hset2]. eapply settled_frame; [exact Hr2|done| |done]. by apply Ha2.
  - eapply rtc_l; [exists (fst e); split; [by left|exact Ho]|].
    eapply apart_from_weaken; [|exact Hr2]. by apply list_subseteq_cons.
  - intros id Hid. apply not_elem_of_cons in Hid as [Hne Hid]. by rewrite Ha2, Ha.
Qed.

End closing.

Lemma registry_NoDup w p k ts hs : broker_rep (R := R) w p k ts hs -> NoDup (map_to_list (topics k)).*2.
Proof.
  intros Hb. apply NoDup_fmap_2_strong; [|apply NoDup_map_to_list].
  intros [a i] [b j] Ha%elem_of_map_to_list Hb'%elem_of_map_to_list. simpl. intros ->. f_equal.
  by apply (br_inj _ _ _ _ _ Hb a b j).
Qed.

Lemma shutdown_topics_run w p k ts hs :
  broker_rep (R := R) w p k ts hs ->
  exists w' p', shutdown_topics (topics k) (w, p) = (Ok tt, (w', p'))
    /\ (forall name t, ts !! name = Some t -> exists id, topics k !! name = Some id
          /\ settled (dir k) ts hs w' p' (name, id))
    /\ apart_from (dir k) (map_to_list (topics k)).*1 w w' /\ flocks p' = flocks p.
Proof.
  intros Hb.
  destruct (close_loop (dir k) ts hs (map_to_list (topics k)) w p) as (w' & p' & Hrun & Hset & Hap & Hl & _).
  - apply NoDup_fst_map_to_list.
  - by eapply registry_NoDup.
  - intros [name id] Hi%elem_of_map_to_list. destruct (br_registered _ _ _ _ _ name Hb) as [Hx _].
    destruct (Hx ltac:(eauto)) as [t Ht]. destruct (br_topic _ _ _ _ _ Hb _ _ Ht) as (id' & Hi' & Hin).
    exists t. split; [done|]. simpl. congruence.
  - exists w', p'. split; [done|]. split; [|done]. intros name t Ht.
    destruct (br_topic _ _ _ _ _ Hb _ _ Ht) as (id & Hi & _). exists id. split; [done|].
    apply Hset. by apply elem_of_map_to_list.
Qed.

(** A broker without topics is done once its lock is released. *)
Lemma drop_empty rt w p k :
  topics k = empty -> drop_kafko rt (w, (p, k)) = (Ok tt, (w, (set_flocks (unlock (dir_lock k) (flocks p)) p, k))).
Proof.
  intros E. unfold drop_kafko, bind, kafko, modify_topics, modify_self, on_process, zoom, release_dir_lock, ret. simpl.
  rewrite decide_True by done. simpl. unfold set_topics. simpl. destruct k; simpl in *. by rewrite E.
Qed.

Lemma drop_multi_thread rt s : drop_kafko MultiThread s = Broker.shutdown rt s.
Proof.
  destruct s as [w [p k]]. unfold drop_kafko, Broker.shutdown, drop_kafko, bind, kafko, modify_topics, modify_self, on_process, zoom, ret.
  simpl. destruct (decide (topics k = empty)) as [->|Hne].
  { unfold shutdown_topics, registry. rewrite map_to_list_empty. simpl. by rewrite decide_True. }
  destruct (shutdown_topics (topics k) (w, p)) as [[[]| | |] [w1 p1]] eqn:E; simpl; rewrite ?E; simpl;
    [by rewrite decide_True|done..].
Qed.

Lemma shutdown_run rt w p k ts hs :
  broker_rep (R := R) w p k ts hs ->
  exists w' p', shutdown rt (w, (p, k)) = (Ok tt, (w', (p', set_topics empty k)))
    /\ (forall name t, ts !! name = Some t -> exists id, topics k !! name = Some id
          /\ settled (dir k) ts hs w' p' (name, id))
    /\ apart_from (dir k) (map_to_list (topics k)).*1 w w'
    /\ ~ locked (dir_lock k) (flocks p').
Proof.
  intros Hb. destruct (shutdown_topics_run w p k ts hs Hb) as (w' & p' & Hrun & Hset & Hap & Hl).
  exists w', (set_flocks (unlock (dir_lock k) (flocks p')) p'). split; [|split; [exact Hset|split; [done|]]].
  - unfold shutdown. unfold bind at 1, kafko. simpl. unfold bind at 1, modify_topics, modify_self. simpl.
    unfold bind at 1, on_process, zoom. simpl. rewrite Hrun. simpl. by rewrite drop_empty.
  - simpl. rewrite lock_released. by intros [[] _].
Qed.

(** ** The data directory of no broker *)
Record data_dir (w : World) (d : path) (ts : gmap string (list alog)) : Prop := {
  dd_root : d <> [];
  dd_quiet : quiet w;
  dd_max : 0 <= read_max w;
  dd_free : dirs_free w d;
  dd_dirs : ts <> empty -> dirs_made w d;
  dd_topic : forall name als, ts !! name = Some als ->
    plain name /\ name <> LOCK_FILENAME /\ 0 < len als < 2 ^ 32
    /\ topic_layout w (d ++ [name]) (length als)
    /\ forall i a, als !! i = Some a -> D w (pd (d ++ [name]) i) a;
  dd_clean : forall name q, ts !! name = None -> name <> LOCK_FILENAME ->
    (d ++ [name]) `prefix_of` q -> nodes w !! q = None;
  dd_lock : nodes w !! (d ++ [LOCK_FILENAME]) <> Some NDir;
}.

(** What a broker leaves behind, given what its topics' directories hold. *)
Lemma left_data_dir w p k ts hs w1 w2 (ts2 : gmap string (list alog)) :
  broker_rep (R := R) w p k ts hs ->
  apart_from (dir k) (map_to_list (topics k)).*1 w w1 -> crash w1 w2 ->
  (forall name, ts2 !! name = None -> ts !! name = None) ->
  (forall name als, ts2 !! name = Some als -> exists t, ts !! name = Some t /\ length als = length (at_logs t)
     /\ topic_layout w1 (dir k ++ [name]) (length (at_logs t))
     /\ forall i a, als !! i = Some a -> D w2 (pd (dir k ++ [name]) i) a) ->
  data_dir w2 (dir k) ts2.
Proof.
  intros Hb Hap Hc Hno Hts. pose proof (apart_from_dirs _ _ _ _ Hap (br_dirs _ _ _ _ _ Hb)) as Hd1.
  assert (Hd2 : dirs_made w2 (dir k)).
  { intros q Hq Hne. apply (crash_dir _ _ _ Hc). by apply Hd1. }
  assert (Hnames : forall a, a ∈ (map_to_list (topics k)).*1 -> exists t, ts !! a = Some t).
  { intros a ((b & i) & -> & Hi%elem_of_map_to_list)%list_elem_of_fmap. apply (br_registered _ _ _ _ _ _ Hb). by exists i. }
  split.
  - apply Hb.
  - apply Hc.
  - rewrite (cr_read_max _ _ Hc). destruct (apart_from_env _ _ _ _ Hap) as (_ & _ & ->). apply Hb.
  - intros q Hq Hne. left. by apply Hd2.
  - done.
  - intros name als Hn. destruct (Hts name als Hn) as (t & Ht & Hl & Hlay & Hd).
    destruct (br_topic _ _ _ _ _ Hb _ _ Ht) as (id' & _ & tp' & _ & Hr & _).
    split; [by eapply br_plain|]. split; [by eapply br_not_lock|]. split.
    { pose proof (tr_count _ _ _ _ Hr) as Hc'. unfold len in *. by rewrite Hl, <- (tr_len _ _ _ _ Hr). }
    split; [rewrite Hl; by eapply layout_crash|done].
  - intros name q Hn Hl Hq. apply Hno in Hn. apply (crash_none _ _ _ Hc).
    rewrite (apart_from_nodes _ _ _ _ _ Hap); [by eapply br_clean|]. intros a Ha [q' ->].
    destruct (Hnames a Ha) as [t Ht]. destruct Hq as [r' E]. rewrite <- app_assoc in E.
    eapply (sibling_not_prefix (dir k) name a); [intros ->; congruence|]. exists r'. rewrite <- app_assoc. exact E.
  - rewrite (crash_dir _ _ _ Hc). rewrite (apart_from_nodes _ _ _ _ _ Hap).
    + destruct (br_lockfile _ _ _ _ _ Hb) as [f ->]. done.
    + intros a Ha Hq. destruct (Hnames a Ha) as [t Ht].
      rewrite <- (app_nil_r (dir k ++ [LOCK_FILENAME])) in Hq. revert Hq. apply sibling_not_prefix.
      by eapply br_not_lock.
Qed.

(** A broker whose topics are not in use leaves all of them. *)
Lemma shutdown_data_dir w p k ts w1 p1 w2 :
  broker_rep (R := R) w p k ts [] ->
  (forall name t, ts !! name = Some t -> exists id, topics k !! name = Some id
     /\ settled (dir k) ts [] w1 p1 (name, id)) ->
  apart_from (dir k) (map_to_list (topics k)).*1 w w1 -> crash w1 w2 ->
  data_dir w2 (dir k) (at_logs <$> ts).
Proof.
  intros Hb Hset Hap Hc. eapply left_data_dir; [exact Hb|exact Hap|exact Hc|..].
  { intros name Hn. rewrite lookup_fmap in Hn. by apply fmap_None in Hn. }
  intros name als Hn. apply lookup_fmap_Some in Hn as (t & <- & Ht).
  destruct (Hset name t Ht) as (id & Hi & t' & Ht' & tp & Hcl). simpl in Ht'. rewrite Ht in Ht'. injection Ht' as <-. simpl in Hcl.
  exists t. do 2 (split; [done|]). split; [apply Hcl|]. intros i a Ha. by eapply closed_disk.
Qed.

End store.
