(* ===== verification/BrokerOpen.v ===== *)
(** * Opening a data directory

    [Kafko::open] takes the lock, then opens every directory it finds as a
    topic. *)

From S2P Require Import Prelude Bytes Error Compression LogRecord Fs Names Search.
From S2P Require Import Segment SparseIndex Log LogInv LogOps LogRecover LogCrash LogSpec LogStore.
From S2P Require Import OffsetStore Partition PartitionSpec Topic Producer TopicSpec TopicStore.
From S2P Require Import Consumer ConsumerSpec GroupSpec Broker BrokerSpec Registry BrokerStore.

Section opening.
Context {B : Buf} {H : Crc32} {C : Codecs} {F : Flock} {FL : FlockLaws F}.
Context {R S : World -> Log -> alog -> Prop} {D : World -> path -> alog -> Prop}.
Context {LC : LogContract R} {LS : LogStore R S D}.

(** ** The topics found *)
Definition on_disk (w : World) (root : path) (name : string) (als : list alog) : Prop :=
  0 < len als < 2 ^ 32 /\ topic_layout w (root ++ [name]) (length als)
  /\ forall i a, als !! i = Some a -> D w (pd (root ++ [name]) i) a.

Lemma sibling_on_disk root a b w w' als :
  a <> b -> outside (root ++ [a]) w w' -> on_disk w root b als -> on_disk w' root b als.
Proof.
  intros Hne Ho (Hl & Hlay & Hd). split; [done|]. split; [by eapply sibling_layout|].
  intros i x Hx. eapply sibling_disk; [exact Hne|exact Ho|by apply Hd].
Qed.

(** The topics [found] so far are in the map [acc]. *)
Record opened (w : World) (p : Process) (root : path) (cfg : LogConfig) (acc : gmap string nat)
    (found : gmap string (list alog)) : Prop := {
  od_topic : forall name als, found !! name = Some als -> exists id, acc !! name = Some id
    /\ topic_in (R := R) w p root name id (mkATopic als cfg) 0;
  od_only : forall name, found !! name = None -> acc !! name = None;
  od_inj : forall a b id, acc !! a = Some id -> acc !! b = Some id -> a = b;
  od_ids : forall id, is_Some (arcs p !! id) -> (id < next_arc p)%nat;
}.

Lemma opened_fresh w p root cfg acc found name :
  opened w p root cfg acc found -> acc !! name <> Some (next_arc p).
Proof.
  intros [O1 O2 O3 O4] Hi. destruct (found !! name) as [als|] eqn:E.
  - destruct (O1 name als E) as (id & Hi' & tp & Ha & _). rewrite Hi in Hi'. injection Hi' as <-.
    specialize (O4 _ ltac:(eauto)). lia.
  - apply O2 in E. congruence.
Qed.

Lemma open_one_run w p root cfg acc found name als :
  usable cfg -> opened w p root cfg acc found -> quiet w -> dirs_made w root -> root <> [] ->
  found !! name = None -> on_disk w root name als ->
  exists w' t, Topic.open (root ++ [name]) name cfg w = (Ok t, w') /\ within root name w w'
    /\ opened w' (new_arc t p) root cfg (<[name := next_arc p]> acc) (<[name := als]> found).
Proof.
  intros Hu Ho Hq Hd Hne Hn (Hl & Hlay & Hdisk).
  destruct (topic_open_run w (root ++ [name]) name cfg als Hu Hq) as (w' & t & Hrun & Ht & Hc & Hnm & _ & Hg);
    [by destruct root|done|done|done|].
  pose proof (topic_grows_outside _ _ _ _ Hg Hd) as Hout. exists w', t. split; [done|]. split; [split; [done|by apply topic_grows_spares]|].
  pose proof Ho as [O1 O2 O3 O4]. split.
  - intros b als' Hb. apply lookup_insert_Some in Hb as [[<- <-]|[Hne' Hb]].
    + exists (next_arc p). rewrite lookup_insert_eq. split; [done|]. exists t. simpl. rewrite lookup_insert_eq.
      by split_and!.
    + destruct (O1 b als' Hb) as (id & Hi & tp & Ha & Hr & Hcf). exists id.
      rewrite lookup_insert_ne by done. split; [done|]. exists tp. simpl.
      rewrite lookup_insert_ne by (intros <-; by apply (opened_fresh _ _ _ _ _ _ b Ho)). split; [done|]. split; [|done].
      eapply sibling_topic_rep; [exact Hne'|exact Hout|done].
  - intros b Hb. apply lookup_insert_None in Hb as [Hb Hne']. rewrite lookup_insert_ne by done. by apply O2.
  - intros a b id. rewrite !lookup_insert_Some. intros [[<- <-]|[Ha1 Ha2]] [[<- E]|[Hb1 Hb2]]; try done.
    + by destruct (opened_fresh _ _ _ _ _ _ b Ho).
    + subst id. by destruct (opened_fresh _ _ _ _ _ _ a Ho).
    + by eapply O3.
  - intros i. simpl. rewrite lookup_insert_is_Some'. intros [<-|Hi]; [lia|]. specialize (O4 _ Hi). lia.
Qed.

Definition dir_names (entries : list (string * node)) : list string :=
  map fst (filter (fun e => snd e = NDir) entries).

Lemma elem_of_dir_names name entries : name ∈ dir_names entries <-> (name, NDir) ∈ entries.
Proof.
  unfold dir_names. rewrite list_elem_of_fmap. split.
  - intros ([a n] & -> & Hin). apply list_elem_of_filter in Hin as [E Hin]. simpl in *. by subst n.
  - intros Hin. exists (name, NDir). split; [done|]. by apply list_elem_of_filter.
Qed.

Lemma open_topics_run (ts : gmap string (list alog)) root cfg entries w p acc found :
  usable cfg -> opened w p root cfg acc found -> quiet w -> dirs_made w root -> root <> [] -> NoDup entries.*1 ->
  (forall name, (name, NDir) ∈ entries ->
     found !! name = None /\ exists als, ts !! name = Some als /\ on_disk w root name als) ->
  exists w' p' acc' found', open_topics root cfg entries acc (w, p) = (Ok acc', (w', p'))
    /\ opened w' p' root cfg acc' found' /\ flocks p' = flocks p /\ apart_from root (dir_names entries) w w'
    /\ (forall name, (name, NDir) ∈ entries -> found' !! name = ts !! name)
    /\ (forall name, (name, NDir) ∉ entries -> found' !! name = found !! name).
Proof.
  intros Hu Ho Hq Hd Hne Hnd Hen. revert w p acc found Ho Hq Hd Hen.
  induction entries as [|[name n] entries IH]; intros w p acc found Ho Hq Hd Hen.
  { exists w, p, acc, found. split; [done|]. do 2 (split; [done|]). split; [apply rtc_refl|]. split; [|done].
    intros name Hin. by apply elem_of_nil in Hin. }
  cbn [fmap list_fmap] in Hnd. apply NoDup_cons in Hnd as [Hx Hnd]. simpl in Hx.
  assert (Hdir : forall b m, (b, m) ∈ entries -> b <> name).
  { intros b m Hin ->. apply Hx. by apply (list_elem_of_fmap_2 fst) in Hin. }
  destruct n as [f|]; cbn [open_topics].
  - destruct (IH Hnd w p acc found Ho Hq Hd) as (w' & p' & acc' & found' & Hrun & Hop & Hl & Hap & Hin & Hout).
    { intros b Hb. apply Hen. by right. }
    exists w', p', acc', found'. do 4 (split; [done|]). split.
    + intros b [E|Hb]%elem_of_cons; [done|]. by apply Hin.
    + intros b Hb. apply Hout. intros Hb'. apply Hb. by right.
  - destruct (Hen name ltac:(by left)) as (Hfn & als & Hts & Hod).
    destruct (open_one_run w p root cfg acc found name als Hu Ho Hq Hd Hne Hfn Hod) as (w1 & t & Hrun1 & Hw1 & Hop1).
    pose proof Hw1 as [Ho1 _].
    rewrite (bind_Ok _ _ _ _ _ (attempt_Ok _ _ _ _ (in_world_run _ _ _ _ _ Hrun1))). cbv iota.
    unfold bind at 1, arc_new. fold (new_arc t p).
    destruct (IH Hnd w1 (new_arc t p) _ _ Hop1) as (w' & p' & acc' & found' & Hrun & Hop & Hl & Hap & Hin & Hout).
    { by eapply outside_quiet. } { by eapply dirs_made_outside. }
    { intros b Hb. destruct (Hen b ltac:(by right)) as (Hfb & als' & Htb & Hob). pose proof (Hdir b _ Hb) as Hne'.
      rewrite lookup_insert_ne by done. split; [done|]. exists als'. split; [done|].
      eapply sibling_on_disk; [|exact Ho1|exact Hob]. done. }
    exists w', p', acc', found'. split; [done|]. split; [done|]. split; [by rewrite Hl|]. split; [|split].
    + unfold dir_names. rewrite filter_cons_True by done. eapply rtc_l; [exists name; split; [by left|exact Hw1]|].
      eapply apart_from_weaken; [|exact Hap]. by apply list_subseteq_cons.
    + intros b Hb. destruct (decide ((b, NDir) ∈ entries)) as [Hb'|Hb']; [by apply Hin|].
      apply elem_of_cons in Hb as [E|Hb]; [|done]. injection E as ->. rewrite Hout by done. by rewrite lookup_insert_eq.
    + intros b Hb. apply not_elem_of_cons in Hb as [Hb1 Hb2]. rewrite Hout by done. apply lookup_insert_ne. congruence.
Qed.

(** ** The lock *)
Lemma acquire_run w p d :
  quiet w -> dirs_made w d -> d <> [] -> nodes w !! (d ++ [LOCK_FILENAME]) <> Some NDir ->
  ~ locked (d ++ [LOCK_FILENAME]) (flocks p) ->
  exists w' l, acquire_dir_lock d (w, p) = (Ok (d ++ [LOCK_FILENAME]), (w', set_flocks l p))
    /\ outside (d ++ [LOCK_FILENAME]) w w' /\ locked (d ++ [LOCK_FILENAME]) l
    /\ (exists f, nodes w' !! (d ++ [LOCK_FILENAME]) = Some (NFile f)).
Proof.
  intros Hq Hd Hne Hn Hl.
  destruct (open_or_create_run w Hq (d ++ [LOCK_FILENAME]) Hn) as (w' & Hrun & Hq' & Hn' & Hm' & Hf & Hs).
  { unfold parent_is_dir. rewrite removelast_last. destruct d as [|x d]; [done|]. by rewrite Hd. }
  destruct (lock_free (d ++ [LOCK_FILENAME]) (flocks p) Hl) as (l & Htry & Hlk).
  exists w', l. split; [|split; [|split; [apply Hlk; by left|done]]].
  - unfold acquire_dir_lock. rewrite (bind_Ok _ _ _ _ _ (in_world_run _ _ _ p _ (io_Ok _ _ _ _ Hrun))).
    unfold bind, io, map_err, zoom. simpl. by rewrite Htry.
  - unfold quiet in *. do 3 (split; [congruence|]). intros q Hq2. apply Hs. by intros ->.
Qed.

(** Somebody else has the directory open: nothing changes. *)
Lemma acquire_busy w p d f :
  quiet w -> nodes w !! (d ++ [LOCK_FILENAME]) = Some (NFile f) ->
  locked (d ++ [LOCK_FILENAME]) (flocks p) ->
  acquire_dir_lock d (w, p) = (Err (AlreadyOpen d), (w, p)).
Proof.
  intros Hq Hn Hl.
  assert (Hrun : open_or_create (d ++ [LOCK_FILENAME]) w = (Ok tt, w)).
  { unfold open_or_create. rewrite syscall_quiet by done. unfold bind, get_node. by rewrite Hn. }
  unfold acquire_dir_lock. rewrite (bind_Ok _ _ _ _ _ (in_world_run _ _ _ p _ (io_Ok _ _ _ _ Hrun))).
  unfold bind, io, map_err, zoom. simpl. rewrite (lock_busy _ _ Hl). by destruct p.
Qed.

(** ** The whole of it *)
Lemma data_dir_made w d ts :
  data_dir (D := D) w d ts ->
  exists w', create_dir_all d w = (Ok tt, w') /\ dirs_made w' d /\ data_dir (D := D) w' d ts
    /\ (forall a, spares (d ++ [a]) w w') /\ same_env w w'.
Proof.
  intros [D1 D2 D3 D4 D5 D6 D7 D8]. destruct (decide (ts = empty)) as [->|Hne].
  - destruct (create_dir_all_run w d D2 D4) as (w' & Hrun & Hq & Hm & Hd & Hnow & Hs).
    assert (Hbelow : forall a q, (d ++ [a]) `prefix_of` q -> nodes w' !! q = nodes w !! q).
    { intros a q Hq2. apply Hs. left. intros Hp. apply (root_not_prefix d q a) in Hp. done. }
    exists w'. do 2 (split; [done|]). split; [|split; [exact Hbelow|done]]. split; try done.
    + by rewrite Hm.
    + intros q Hq2 Hne. left. by apply Hd.
    + intros a q Ha Hl Hq2. rewrite (Hbelow a) by done. by eapply D7.
    + by rewrite (Hbelow LOCK_FILENAME).
  - exists w. specialize (D5 Hne). split; [by apply create_dir_all_made|]. by split; [|split; [split|]].
Qed.

Lemma data_dir_outside_lock w w' d ts :
  outside (d ++ [LOCK_FILENAME]) w w' -> nodes w' !! (d ++ [LOCK_FILENAME]) <> Some NDir -> dirs_made w d ->
  data_dir (D := D) w d ts -> data_dir (D := D) w' d ts.
Proof.
  intros Ho Hl Hd [D1 D2 D3 D4 D5 D6 D7 D8]. pose proof (dirs_made_outside _ _ _ _ Ho Hd) as Hd'. split; try done.
  - by eapply outside_quiet.
  - destruct Ho as (_ & _ & -> & _). done.
  - intros q Hq Hne. left. by apply Hd'.
  - intros a als Ha. destruct (D6 a als Ha) as (H1 & H2 & H3 & H4 & H5). do 3 (split; [done|]). split.
    + eapply sibling_layout; [|exact Ho|done]. done.
    + intros i x Hx. eapply sibling_disk; [|exact Ho|by apply H5]. done.
  - intros a q Ha Hne [q' ->]. destruct Ho as (_ & _ & _ & Hs). rewrite Hs by by apply sibling_not_prefix.
    apply (D7 a); [done|done|by eexists].
Qed.

Lemma children_fst_NoDup w d : NoDup (children w d).*1.
Proof.
  apply NoDup_fmap_2_strong; [|apply children_NoDup].
  intros [a n] [b m] Ha Hb. simpl. intros ->. apply elem_of_children in Ha, Hb. congruence.
Qed.

(** The directories found are the topics'. *)
Lemma dir_children_topics w d ts name :
  data_dir (D := D) w d ts -> (name, NDir) ∈ children w d -> name <> LOCK_FILENAME /\ is_Some (ts !! name).
Proof.
  intros [D1 D2 D3 D4 D5 D6 D7 D8] Ha%elem_of_children.
  assert (name <> LOCK_FILENAME) by (intros ->; congruence). split; [done|].
  destruct (ts !! name) eqn:E; [by eexists|]. by rewrite (D7 name (d ++ [name]) E) in Ha.
Qed.

(** Opening them touches neither the lock file nor the names that are free. *)
Lemma apart_from_rest w w' d ts names :
  data_dir (D := D) w d ts -> apart_from d names w w' ->
  (forall name, name ∈ names -> name <> LOCK_FILENAME /\ is_Some (ts !! name)) ->
  (forall a q, ts !! a = None -> a <> LOCK_FILENAME -> (d ++ [a]) `prefix_of` q -> nodes w' !! q = None)
  /\ nodes w' !! (d ++ [LOCK_FILENAME]) = nodes w !! (d ++ [LOCK_FILENAME]).
Proof.
  intros Hd Hap Hn. split.
  - intros a q Ha Hl [q' ->]. rewrite (apart_from_nodes _ _ _ _ _ Hap); [apply (dd_clean _ _ _ Hd a); [done|done|by eexists]|].
    intros b Hb. apply sibling_not_prefix. intros ->. destruct (Hn a Hb) as [_ [als E]]. congruence.
  - apply (apart_from_nodes _ _ _ _ _ Hap). intros b Hb.
    rewrite <- (app_nil_r (d ++ [LOCK_FILENAME])). apply sibling_not_prefix. by apply Hn.
Qed.

Lemma scan_dir_run w p d cfg ts :
  usable cfg -> data_dir (D := D) w d ts -> dirs_made w d -> (forall id, is_Some (arcs p !! id) -> (id < next_arc p)%nat) ->
  exists w' p' acc, (let* entries := in_world (io (read_dir d)) in open_topics d cfg entries empty) (w, p) = (Ok acc, (w', p'))
    /\ opened w' p' d cfg acc ts /\ flocks p' = flocks p /\ apart_from d (dir_names (children w d)) w w'.
Proof.
  intros Hu Hdd Hd Hids. pose proof Hdd as [D1 D2 D3 D4 D5 D6 D7 D8].
  destruct (open_topics_run ts d cfg (children w d) w p empty empty)
    as (w' & p' & acc & found & Hrun & Hop & Hl & Hap & Hin & Hout).
  - done.
  - split; [intros a als Ha; by rewrite lookup_empty in Ha|done|intros a b id Ha; by rewrite lookup_empty in Ha|exact Hids].
  - done.
  - done.
  - done.
  - apply children_fst_NoDup.
  - intros a Ha. split; [done|]. destruct (dir_children_topics w d ts a Hdd Ha) as [_ [als E]]. exists als. split; [done|].
    by destruct (D6 a als E) as (_ & _ & H3 & H4 & H5).
  - assert (found = ts) as <-.
    { apply map_eq. intros a. destruct (decide ((a, NDir) ∈ children w d)) as [Ha|Ha]; [by apply Hin|].
      rewrite Hout by done. rewrite lookup_empty. destruct (ts !! a) as [als|] eqn:E; [|done].
      destruct Ha. apply elem_of_children. destruct (D6 a als E) as (_ & _ & _ & H4 & _). apply (tl_dir _ _ _ H4). }
    exists w', p', acc. split; [|done].
    by rewrite (bind_Ok _ _ _ _ _ (in_world_run _ _ _ p _ (io_Ok _ _ _ _ (read_dir_run w D2 d (Hd d (reflexivity d) D1))))).
Qed.

Lemma opened_broker_rep w w' p d cfg acc ts f :
  data_dir (D := D) w d ts -> dirs_made w d -> apart_from d (dir_names (children w d)) w w' ->
  opened w' p d cfg acc ts -> nodes w !! (d ++ [LOCK_FILENAME]) = Some (NFile f) ->
  locked (d ++ [LOCK_FILENAME]) (flocks p) ->
  broker_rep (R := R) w' p (mkKafko d acc cfg (d ++ [LOCK_FILENAME])) ((fun als => mkATopic als cfg) <$> ts) [].
Proof.
  intros Hdd Hd Hap [O1 O2 O3 O4] Hf Hl. destruct (apart_from_env _ _ _ _ Hap) as (E1 & _ & E3).
  destruct (apart_from_rest _ _ _ _ _ Hdd Hap) as [Hclean Hlock].
  { intros a Ha%elem_of_dir_names. by eapply dir_children_topics. }
  split; simpl; try done.
  - by eapply dd_root.
  - by eapply apart_from_dirs.
  - pose proof (dd_quiet _ _ _ Hdd). unfold quiet in *. congruence.
  - rewrite E3. by eapply dd_max.
  - intros a t Ha. apply lookup_fmap_Some in Ha as (als & <- & Ha). by apply O1.
  - intros a Ha. rewrite lookup_fmap in Ha. apply fmap_None in Ha. by apply O2.
  - intros a id Ha. by apply elem_of_nil in Ha.
  - intros a t Ha. apply lookup_fmap_Some in Ha as (als & <- & Ha). by apply (dd_topic _ _ _ Hdd a als).
  - intros a q Ha. rewrite lookup_fmap in Ha. apply fmap_None in Ha. by apply Hclean.
  - exists f. by rewrite Hlock.
Qed.

Lemma broker_open_run w p d cfg ts :
  usable cfg -> data_dir (D := D) w d ts -> ~ locked (d ++ [LOCK_FILENAME]) (flocks p) ->
  (forall id, is_Some (arcs p !! id) -> (id < next_arc p)%nat) ->
  exists w' p' k, open_with_config d cfg (w, p) = (Ok k, (w', p'))
    /\ broker_rep (R := R) w' p' k ((fun als => mkATopic als cfg) <$> ts) []
    /\ dir k = d /\ default_log_config k = cfg
    /\ (forall name, name <> LOCK_FILENAME -> spares (offsets_dir (d ++ [name])) w w') /\ same_env w w'.
Proof.
  intros Hu Hdd Hl Hids. destruct (data_dir_made w d ts Hdd) as (w1 & Hmk & Hd1 & Hdd1 & Hsp1 & Hrm1).
  destruct (acquire_run w1 p d (dd_quiet _ _ _ Hdd1) Hd1 (dd_root _ _ _ Hdd) (dd_lock _ _ _ Hdd1) Hl)
    as (w2 & l & Hacq & Ho2 & Hlk & f & Hf).
  assert (Hdd2 : data_dir (D := D) w2 d ts) by (eapply data_dir_outside_lock; [exact Ho2|by rewrite Hf|done|done]).
  pose proof (dirs_made_outside _ _ _ _ Ho2 Hd1) as Hd2.
  destruct (scan_dir_run w2 (set_flocks l p) d cfg ts Hu Hdd2 Hd2 Hids) as (w3 & p3 & acc & Hrun & Hop & Hl3 & Hap).
  exists w3, p3, (mkKafko d acc cfg (d ++ [LOCK_FILENAME])). split; [|split; [|do 2 (split; [done|]); split]].
  - unfold open_with_config. rewrite (bind_Ok _ _ _ _ _ (in_world_run _ _ _ p _ (io_Ok _ _ _ _ Hmk))).
    rewrite (bind_Ok _ _ _ _ _ Hacq). by rewrite (bind_Ok _ _ _ _ _ (attempt_Ok _ _ _ _ Hrun)).
  - eapply opened_broker_rep; try done. by rewrite Hl3.
  - intros name Hne. eapply spares_trans; [|by eapply apart_from_spares].
    eapply spares_trans; [|eapply outside_spares; [|exact Ho2]; done].
    intros q [q' ->]. apply (Hsp1 name). unfold offsets_dir. rewrite <- app_assoc. by eexists.
  - destruct (apart_from_env _ _ _ _ Hap) as (_ & E2 & E3). eapply same_env_trans; [exact Hrm1|].
    eapply same_env_trans; [by eapply outside_env|by split].
Qed.

(** ** A directory that is no topic *)
Lemma open_topics_app d cfg l1 l2 acc s :
  open_topics d cfg (l1 ++ l2) acc s = bind (open_topics d cfg l1 acc) (open_topics d cfg l2) s.
Proof.
  revert acc s. induction l1 as [|[name [f|]] l1 IH]; intros acc s; [done|apply IH|]. cbn [app open_topics].
  unfold bind. destruct (attempt _ s) as [[[t|e]|?|?|] s1]; try reflexivity.
  - destruct (arc_new t s1) as [[id|?|?|] s2]; try reflexivity. exact (IH _ _).
  - destruct (for_each (registry acc) arc_drop s1) as [[?|?|?|] s2]; reflexivity.
Qed.

Lemma drop_all_run ids w p :
  NoDup ids -> (forall id, id ∈ ids -> exists t, arcs p !! id = Some (t, 1%nat)) ->
  exists p', for_each ids arc_drop (w, p) = (Ok tt, (w, p')) /\ flocks p' = flocks p
    /\ length (exiting p') = (length (exiting p) + length ids)%nat.
Proof.
  revert p. induction ids as [|id ids IH]; intros p Hn Ha; [by exists p; rewrite Nat.add_0_r|].
  apply NoDup_cons in Hn as [Hx Hn]. destruct (Ha id ltac:(by left)) as [t Ht]. cbn [for_each].
  assert (Hd : arc_drop id (w, p) = (Ok tt, (w, set_exiting (exiting p ++ [t]) (set_arcs (delete id (arcs p)) p)))).
  { unfold arc_drop. by rewrite Ht. }
  rewrite (bind_Ok _ _ _ _ _ Hd).
  destruct (IH (set_exiting (exiting p ++ [t]) (set_arcs (delete id (arcs p)) p)) Hn) as (p' & Hrun & Hl & He).
  { intros i Hi. simpl. rewrite lookup_delete_ne by congruence. apply Ha. by right. }
  exists p'. split; [done|]. split; [done|]. rewrite He. simpl. rewrite length_app. simpl. lia.
Qed.

Lemma omap_none {X Y} (f : X -> option Y) (l : list X) : (forall x, x ∈ l -> f x = None) -> omap f l = [].
Proof.
  induction l as [|x l IH]; intros Hf; [done|]. cbn. rewrite (Hf x) by by left. apply IH. intros y Hy. apply Hf. by right.
Qed.

Lemma topic_open_empty w dir nm cfg :
  quiet w -> nodes w !! dir = Some NDir ->
  (forall x k, nodes w !! (dir ++ [x]) = Some NDir -> parse_u32 x <> Some k) ->
  Topic.open dir nm cfg w = (Err (InvalidTopicLayout nm layout_none), w).
Proof.
  intros Hq Hd Hx. unfold Topic.open.
  assert (Hf : discover_partition_indices dir w = (Ok [], w)).
  { unfold discover_partition_indices. rewrite (bind_Ok _ _ _ _ _ (io_Ok _ _ _ _ (read_dir_run w Hq dir Hd))).
    unfold ret. do 2 f_equal. apply omap_none. intros [x n] Hin. simpl. destruct n; [done|].
    apply elem_of_children in Hin. destruct (parse_u32 x) as [k|] eqn:E; [|done]. by destruct (Hx x k Hin). }
  by rewrite (bind_Ok _ _ _ _ _ Hf).
Qed.

Lemma broker_open_foreign w0 w p d cfg ts x :
  usable cfg -> data_dir (D := D) w0 d ts -> ts !! x = None -> x <> LOCK_FILENAME -> outside (d ++ [x]) w0 w ->
  dirs_made w d -> nodes w !! (d ++ [x]) = Some NDir ->
  (forall y k, nodes w !! ((d ++ [x]) ++ [y]) = Some NDir -> parse_u32 y <> Some k) ->
  ~ locked (d ++ [LOCK_FILENAME]) (flocks p) ->
  (forall id, is_Some (arcs p !! id) -> (id < next_arc p)%nat) ->
  exists w' p', open_with_config d cfg (w, p) = (Err (InvalidTopicLayout x layout_none), (w', p'))
    /\ ~ locked (d ++ [LOCK_FILENAME]) (flocks p').
Proof.
  intros Hu [D1 D2 D3 D4 D5 D6 D7 D8] Hx Hxl Ho Hd Hxd Hxp Hl Hids.
  pose proof (outside_quiet _ _ _ Ho D2) as Hq.
  assert (Hlock : nodes w !! (d ++ [LOCK_FILENAME]) <> Some NDir).
  { pose proof Ho as (_ & _ & _ & Hs). rewrite Hs; [done|].
    rewrite <- (app_nil_r (d ++ [LOCK_FILENAME])). by apply sibling_not_prefix. }
  destruct (acquire_run w p d Hq Hd D1 Hlock Hl) as (w2 & l & Hacq & Ho2 & Hlk & f & Hf).
  pose proof (outside_quiet _ _ _ Ho2 Hq) as Hq2. pose proof (dirs_made_outside _ _ _ _ Ho2 Hd) as Hd2.
  assert (Hnd : nodes w2 !! d = Some NDir) by (by apply Hd2).
  assert (Hx2 : forall q, (d ++ [x]) `prefix_of` q -> nodes w2 !! q = nodes w !! q).
  { intros q [q' ->]. destruct Ho2 as (_ & _ & _ & Hs). apply Hs. apply sibling_not_prefix. congruence. }
  assert (Hin : (x, NDir) ∈ children w2 d) by (apply elem_of_children; by rewrite Hx2).
  pose proof (children_fst_NoDup w2 d) as Hnodup.
  apply list_elem_of_split in Hin as (l1 & l2 & Hsplit). rewrite Hsplit, fmap_app in Hnodup. simpl in Hnodup.
  apply NoDup_app in Hnodup as (Hn1 & Hdis & _).
  set (p2 := set_flocks l p).
  destruct (open_topics_run ts d cfg l1 w2 p2 empty empty)
    as (w3 & p3 & acc & found & Hrun & [O1 O2 O3 O4] & Hl3 & Hap & Hfin & Hfout); try done.
  { intros a Ha. split; [done|]. assert (a <> x) as Hax.
    { intros ->. apply (Hdis x); [by apply (list_elem_of_fmap_2 fst) in Ha|by left]. }
    assert (Hc : (a, NDir) ∈ children w2 d) by (rewrite Hsplit; apply elem_of_app; by left).
    apply elem_of_children in Hc.
    assert (Hal : a <> LOCK_FILENAME) by (intros ->; congruence).
    assert (Hback : nodes w2 !! (d ++ [a]) = nodes w0 !! (d ++ [a])).
    { destruct Ho2 as (_ & _ & _ & S2), Ho as (_ & _ & _ & S1).
      rewrite <- (app_nil_r (d ++ [a])). rewrite S2, S1 by (by apply sibling_not_prefix; congruence). done. }
    destruct (ts !! a) as [als|] eqn:E; [|by rewrite Hback, (D7 a (d ++ [a]) E Hal) in Hc].
    exists als. split; [done|]. destruct (D6 a als E) as (_ & _ & H3 & H4 & H5).
    eapply sibling_on_disk; [|exact Ho2|]; [congruence|]. eapply sibling_on_disk; [|exact Ho|by split]. congruence. }
  assert (Hx3 : forall q, (d ++ [x]) `prefix_of` q -> nodes w3 !! q = nodes w !! q).
  { intros q Hq'. rewrite <- Hx2 by done. eapply apart_from_nodes; [exact Hap|]. intros a Ha%elem_of_dir_names.
    destruct Hq' as [q' ->]. apply sibling_not_prefix. intros ->.
    apply (Hdis x); [by apply (list_elem_of_fmap_2 fst) in Ha|by left]. }
  destruct (apart_from_env _ _ _ _ Hap) as (E1 & _).
  assert (Hfail : Topic.open (d ++ [x]) x cfg w3 = (Err (InvalidTopicLayout x layout_none), w3)).
  { apply topic_open_empty; [unfold quiet in *; congruence|by rewrite Hx3|].
    intros y k Hy. rewrite Hx3 in Hy by by eexists. by apply Hxp. }
  destruct (drop_all_run (registry acc) w3 p3) as (p4 & Hdrop & Hl4 & _).
  { apply NoDup_fmap_2_strong; [|apply NoDup_map_to_list].
    intros [a i] [b j] Ha%elem_of_map_to_list Hb%elem_of_map_to_list. simpl. intros ->. f_equal. by apply (O3 a b j). }
  { intros id ([a i] & -> & Ha%elem_of_map_to_list)%list_elem_of_fmap. simpl.
    destruct (found !! a) as [als|] eqn:E; [|apply O2 in E; congruence].
    destruct (O1 a als E) as (i' & Hi & tp & Hta & _). rewrite Ha in Hi. injection Hi as <-. by exists tp. }
  exists w3, (set_flocks (unlock (d ++ [LOCK_FILENAME]) (flocks p4)) p4). split.
  - unfold open_with_config.
    rewrite (bind_Ok _ _ _ _ _ (in_world_run _ _ _ p _ (io_Ok _ _ _ _ (create_dir_all_made _ _ Hq Hd)))).
    rewrite (bind_Ok _ _ _ _ _ Hacq). fold p2.
    rewrite (bind_Ok _ _ _ (inr (InvalidTopicLayout x layout_none)) (w3, p4)); [done|]. apply attempt_Err.
    rewrite (bind_Ok _ _ _ _ _ (in_world_run _ _ _ p2 _ (io_Ok _ _ _ _ (read_dir_run w2 Hq2 d Hnd)))).
    rewrite Hsplit, open_topics_app, (bind_Ok _ _ _ _ _ Hrun). cbn [open_topics].
    rewrite (bind_Ok _ _ _ _ _ (attempt_Err _ _ _ _ (in_world_run _ _ _ p3 _ Hfail))). cbv iota.
    by rewrite (bind_Ok _ _ _ _ _ Hdrop).
  - simpl. rewrite lock_released. by intros [[] _].
Qed.

(** The topics as a start finds them. *)
Definition reopened (ts : gmap string (list alog)) : gmap string atopic :=
  (fun als => mkATopic als default_config) <$> ts.

(** Removing the data directory leaves an empty one to open. *)
Lemma reset_run w d ts :
  data_dir (D := D) w d ts ->
  exists r w', attempt (E' := KafkoError) (io (remove_dir_all d)) w = (Ok r, w') /\ data_dir (D := D) w' d empty
    /\ same_env w w'.
Proof.
  intros Hd. pose proof Hd as [D1 D2 D3 D4 D5 D6 D7 D8].
  destruct (D4 d (reflexivity d)) as [Hn|Hn]; [done|..].
  - eexists _, _. split; [apply attempt_Ok, io_Ok, remove_dir_all_run; done|].
    assert (Hl : forall q, d `prefix_of` q -> nodes (set_nodes (filter (fun e => ~ d `prefix_of` fst e)) w) !! q = None).
    { intros q Hq. rewrite nodes_set_nodes. apply map_lookup_filter_None. right. intros x _ Hx. by apply Hx. }
    split; [|done]. split; try done.
    + intros q Hq Hne. rewrite nodes_set_nodes.
      destruct (D4 q Hq Hne) as [Hx|Hx]; [|right; apply map_lookup_filter_None; by left].
      destruct (decide (d `prefix_of` q)) as [Hp|Hp].
      * right. apply map_lookup_filter_None. right. intros y _ Hy. by apply Hy.
      * left. by apply map_lookup_filter_Some.
    + intros name q _ _ Hq. apply Hl. etrans; [by eexists|exact Hq].
    + rewrite Hl; [done|by eexists].
  - assert (ts = empty) as ->.
    { destruct (decide (ts = empty)) as [->|Hne]; [done|]. specialize (D5 Hne d (reflexivity d) D1). congruence. }
    eexists _, w. split; [|split; [exact Hd|done]]. apply attempt_Err, io_Err. unfold remove_dir_all.
    rewrite syscall_quiet by done. by rewrite Hn.
Qed.

End opening.
