(* ===== verification/BrokerStart.v ===== *)
(** * A start of the broker that fails

    [Kafko::open] under any failure script: a call that fails while the logs
    are recovered leaves the data directory with every topic and record it
    had, and no lock.  Proved against [LogStore] and [LogReopen]. *)

From S2P Require Import Prelude Bytes Error Compression LogRecord Fs Names Search.
From S2P Require Import Segment SparseIndex Faults Log LogInv LogOps LogRecover LogCrash LogSpec LogStore LogOpenFaults LogReopen.
From S2P Require Import OffsetStore Partition PartitionSpec Topic Producer TopicSpec TopicStore.
From S2P Require Import Consumer ConsumerSpec GroupSpec Broker BrokerSpec Registry BrokerStore BrokerOpen.

Section start.
Context {B : Buf} {H : Crc32} {C : Codecs} {F : Flock} {FL : FlockLaws F}.
Context {R S : World -> Log -> alog -> Prop} {D : World -> path -> alog -> Prop}.
Context {LC : LogContract R} {LS : LogStore R S D} {LR : LogReopen R D}.

(** ** Partitions *)
Lemma partition_open_wruns w d a cfg :
  D (calm w) d a ->
  wruns (Partition.open d cfg) (fun w' => D (calm w') d a /\ may_grow d (calm w) (calm w')) w.
Proof.
  intros Hd. destruct (ls_open (calm w) d a cfg Hd) as (w1 & l & Ho & _ & _ & _ & Hq & _).
  apply wruns_bind; [by apply lr_open|]. intros l' w2 E. rewrite Ho in E. injection E as <- <-.
  split; [exact Hq|]. intros fs. apply wruns_ret.
Qed.

Definition on_parts (w : World) (dir : path) (als : list alog) : Prop :=
  forall i a, als !! i = Some a -> D w (pd dir i) a.

Definition part_steps (dir : path) (n : nat) : World -> World -> Prop :=
  rtc (fun w w' => exists j, (j < n)%nat /\ grows (pd dir j) w w').

Lemma part_steps_more dir n m w w' : (n <= m)%nat -> part_steps dir n w w' -> part_steps dir m w w'.
Proof. intros Hn. apply rtc_subrel. intros u v (j & Hj & Hg). exists j. split; [lia|done]. Qed.

Lemma dirs_made_grows d d' w w' :
  (length d' <= length d)%nat -> grows d w w' -> dirs_made w d' -> dirs_made w' d'.
Proof.
  intros Hl Hg Hd p Hp Hne. pose proof (prefix_length _ _ Hp). destruct (decide (p `prefix_of` d)) as [Hpd|Hpd].
  - pose proof Hg as (_ & _ & _ & G4 & _). by apply G4.
  - rewrite (grows_outside d w w') by (done || lia). by apply Hd.
Qed.

(** The first [m] partitions have directories. *)
Definition parts_made (w : World) (dir : path) (m : nat) : Prop := forall j, (j < m)%nat -> dirs_made w (pd dir j).

(** The [k]-th partition was opened. *)
Lemma on_parts_grow w w' dir als k a :
  on_parts w dir als -> len als < 2 ^ 32 -> als !! k = Some a -> parts_made w dir k ->
  grows (pd dir k) w w' -> D w' (pd dir k) a ->
  on_parts w' dir als /\ part_steps dir (Datatypes.S k) w w' /\ parts_made w' dir (Datatypes.S k).
Proof.
  intros Hp Hl Hk Hm Hg Hd. split; [|split].
  - intros i b Hi. destruct (decide (i = k)) as [->|Hne]; [congruence|].
    unfold len in Hl. apply lookup_lt_Some in Hi as Hi'. apply lookup_lt_Some in Hk.
    eapply ls_disk_grows; [exact Hg|apply pd_apart; lia|by apply Hp].
  - apply rtc_once. exists k. split; [lia|done].
  - intros j Hj. destruct (decide (j = k)) as [->|Hne]; [by destruct Hg as (_ & _ & _ & G4 & _)|].
    eapply dirs_made_grows; [|exact Hg|apply Hm; lia]. unfold pd. by rewrite !length_app.
Qed.

Lemma dirs_made_steps dir m j w w' : part_steps dir m w w' -> dirs_made w (pd dir j) -> dirs_made w' (pd dir j).
Proof.
  induction 1 as [|w w1 w2 (i & _ & Hg) _ IH]; [done|]. intros Hd. apply IH. eapply dirs_made_grows; [|exact Hg|done].
  unfold pd. by rewrite !length_app.
Qed.

(** Some of the partitions come to have directories, in order; those that had
    a log have it still, and the others none. *)
Lemma open_partitions_wruns dir cfg als (P : World -> Prop) n w k ps :
  (k + n = length als)%nat -> len als < 2 ^ 32 -> on_parts (calm w) dir als -> parts_made (calm w) dir k ->
  (forall w' m, on_parts (calm w') dir als -> (m <= length als)%nat -> part_steps dir m (calm w) (calm w') ->
     parts_made (calm w') dir m -> P w') ->
  wruns (open_partitions dir cfg (map Z.of_nat (seq k n)) ps) P w.
Proof.
  revert w k ps. induction n as [|n IH]; intros w k ps Hk Hl Hp Hm HP; [apply wruns_ret|].
  cbn [seq map open_partitions]. fold (pd dir k).
  destruct (lookup_lt_is_Some_2 als k ltac:(lia)) as [a Ha].
  destruct (ls_open (calm w) (pd dir k) a cfg (Hp k a Ha)) as (w1 & l & Ho & Hr & Hdl & _ & Hg).
  assert (Hq : quiet w1) by (destruct Hg as [E _]; exact E).
  destruct (on_parts_grow (calm w) w1 dir als k a Hp Hl Ha Hm Hg) as (Hp1 & Hs1 & Hm1).
  { rewrite <- Hdl. by apply lr_abandon. }
  apply wruns_bind.
  - eapply wruns_imp; [|exact (partition_open_wruns w (pd dir k) a cfg (Hp k a Ha))]. intros w' [Hd' [E|Hg']].
    + apply (HP w' k); rewrite ?E; [done|lia|apply rtc_refl|done].
    + destruct (on_parts_grow (calm w) (calm w') dir als k a Hp Hl Ha Hm Hg' Hd') as (Hp' & Hs' & Hm').
      apply (HP w' (Datatypes.S k)); [done|lia|done|done].
  - intros p w2 E. unfold Partition.open in E. rewrite (bind_Ok _ _ _ _ _ Ho) in E. injection E as <- <-.
    split; [exact Hq|]. intros fs. apply IH; [lia|done|..]; change (calm (with_faults fs w1)) with (calm w1);
      rewrite (calm_of_quiet w1) by done; [done|done|].
    intros w' m Hp' Hlm Hs' Hm'. destruct (Nat.le_gt_cases (Datatypes.S k) m) as [Hle|Hgt].
    + apply (HP w' m); [done|done| |done]. pose proof (part_steps_more _ _ _ _ _ Hle Hs1) as Hs2.
      unfold part_steps in *. by etrans.
    + apply (HP w' (Datatypes.S k)); [done|lia| |].
      * pose proof (part_steps_more dir m (Datatypes.S k) w1 (calm w') ltac:(lia) Hs'). unfold part_steps in *. by etrans.
      * intros j Hj. eapply dirs_made_steps; [exact Hs'|]. by apply Hm1.
Qed.

(** ** Topics *)
Lemma layout_grows dir n j w w' :
  (j < n)%nat -> Z.of_nat n < 2 ^ 32 -> dir <> [] -> grows (pd dir j) w w' -> topic_layout w dir n -> topic_layout w' dir n.
Proof.
  intros Hj Hb Hne Hg [L1 L2 L3]. pose proof Hg as (_ & _ & _ & G4 & _).
  assert (Hsub : forall i, (i < n)%nat -> nodes w' !! pd dir i = Some NDir).
  { intros i Hi. destruct (decide (i = j)) as [->|Hij]; [by apply G4; [done|destruct dir]|].
    rewrite (grows_outside (pd dir j) w w'); [by apply L2|done|unfold pd; by rewrite !length_app|].
    intros Hp. destruct (pd_apart dir i j Hij) as [Hlen Hdiff]; [lia..|]. apply Hdiff.
    destruct Hp as [q E]. rewrite E, length_app in Hlen. destruct q; [by rewrite app_nil_r in E|simpl in Hlen; lia]. }
  split; [|exact Hsub|].
  - apply G4; [by eexists|done].
  - eapply (grows_only_parts dir n w); [done|apply rtc_once; by exists j|exact L3].
Qed.

Lemma layout_steps dir n w w' :
  Z.of_nat n < 2 ^ 32 -> dir <> [] -> part_steps dir n w w' -> topic_layout w dir n -> topic_layout w' dir n.
Proof.
  intros Hb Hne. induction 1 as [|w w1 w2 (j & Hj & Hg) _ IH]; [done|]. intros Hl. by eapply IH, layout_grows.
Qed.

Lemma topic_open_wruns w root name cfg als :
  usable cfg -> on_disk (D := D) (calm w) root name als -> dirs_made (calm w) root ->
  wruns (Topic.open (root ++ [name]) name cfg)
    (fun w' => on_disk (D := D) (calm w') root name als /\ within root name (calm w) (calm w')) w.
Proof.
  intros Hu (Hl & Hlay & Hd) Hm. unfold Topic.open. assert (Hl' := Hl). unfold len in Hl'.
  assert (Hstart : forall fs, on_disk (D := D) (calm (with_faults fs w)) root name als
    /\ within root name (calm w) (calm (with_faults fs w))).
  { intros fs. split; [by split|]. by split. }
  destruct (discover_indices_run (calm w) (root ++ [name]) (length als) (calm_quiet w) Hlay) as (found & Hf & Hs); [lia|].
  apply wruns_bind.
  { assert (Hr : reads (discover_partition_indices (root ++ [name]))); [|by apply (Hr w)].
    apply reads_bind; [apply reads_read_dir|]. intros. apply reads_ret. }
  intros bs w1 E. rewrite Hf in E. injection E as <- <-. split; [done|]. intros fs. cbv zeta. rewrite Hs.
  pose proof (first_gap_none (length als) 0) as Hgap. rewrite Nat.add_0_l in Hgap.
  specialize (Hgap ltac:(lia)). change (Z.of_nat 0) with 0 in Hgap.
  destruct (map Z.of_nat (seq 0 (length als))) as [|k ks] eqn:Em.
  { apply (f_equal length) in Em. rewrite length_map, length_seq in Em. simpl in Em. lia. }
  rewrite Hgap, <- Em. apply wruns_bind.
  - apply (open_partitions_wruns _ cfg als); [done|lia|done|by intros j Hj%Nat.nlt_0_r|].
    intros w' m Hp Hlm Hst%(part_steps_more _ _ _ _ _ Hlm) _.
    change (calm (with_faults fs (calm w))) with (calm w) in Hst.
    assert (Hne : root ++ [name] <> []) by by destruct root.
    assert (Hg : topic_grows (root ++ [name]) (calm w) (calm w')).
    { eapply (steps_topic_grows _ (length als)); [lia|]. eapply rtc_subrel; [|exact Hst].
      intros u v (j & Hj & Hgj). exists j. split; [lia|done]. }
    split; [split; [done|]; split; [by eapply layout_steps; [lia|done|exact Hst|]|exact Hp]|].
    split; [by eapply topic_grows_outside|by apply topic_grows_spares].
  - intros ps w2 E. change (calm (with_faults fs (calm w))) with (calm w) in E. split; [|intros; apply wruns_ret].
    destruct (open_partitions_run (R := R) (S := S) (D := D) (root ++ [name]) cfg als (calm w) [] [] Hu)
      as (w3 & ps3 & Hrun & [_ Hrep _ _] & Hg); [apply parts_rep_nil|simpl; lia|intros j a Hj; by apply Hd|].
    simpl length in Hrun. rewrite Em in Hrun. rewrite Em in E. rewrite Hrun in E. injection E as <- <-.
    clear - Hg. assert (Hq : quiet (calm w)) by done. revert Hq. induction Hg as [|u v x (j & _ & Hf & _) _ IH]; [done|].
    intros Hq. apply IH. unfold quiet in *. congruence.
Qed.

(** ** The registry *)
Record owned (p : Process) (acc : gmap string nat) : Prop := {
  ow_arc : forall a id, acc !! a = Some id -> exists t, arcs p !! id = Some (t, 1%nat);
  ow_inj : forall a b id, acc !! a = Some id -> acc !! b = Some id -> a = b;
  ow_ids : forall id, is_Some (arcs p !! id) -> (id < next_arc p)%nat;
}.

Lemma owned_fresh p acc a : owned p acc -> acc !! a <> Some (next_arc p).
Proof. intros [O1 _ O3] Ha. destruct (O1 _ _ Ha) as [t Ht]. specialize (O3 _ ltac:(eauto)). lia. Qed.

Lemma owned_insert p acc name t :
  owned p acc -> acc !! name = None -> owned (new_arc t p) (<[name := next_arc p]> acc).
Proof.
  intros Ho Hn. pose proof Ho as [O1 O2 O3]. split.
  - intros a id. rewrite lookup_insert_Some. intros [[<- <-]|[Hne Ha]]; simpl.
    + rewrite lookup_insert_eq. eauto.
    + rewrite lookup_insert_ne by (intros <-; by apply (owned_fresh _ _ a Ho)). by eapply O1.
  - intros a b id. rewrite !lookup_insert_Some. intros [[<- <-]|[Ha1 Ha2]] [[<- E]|[Hb1 Hb2]]; try done.
    + by destruct (owned_fresh _ _ b Ho).
    + subst id. by destruct (owned_fresh _ _ a Ho).
    + by eapply O2.
  - intros i. simpl. rewrite lookup_insert_is_Some'. intros [<-|Hi]; [lia|]. specialize (O3 _ Hi). lia.
Qed.

Lemma drop_ids_run ids w p :
  NoDup ids -> (forall id, id ∈ ids -> exists t, arcs p !! id = Some (t, 1%nat)) ->
  exists p', for_each ids arc_drop (w, p) = (Ok tt, (w, p')) /\ flocks p' = flocks p
    /\ next_arc p' = next_arc p /\ arcs p' ⊆ arcs p.
Proof.
  revert p. induction ids as [|id ids IH]; intros p Hn Ha; [by exists p|].
  apply NoDup_cons in Hn as [Hx Hn]. destruct (Ha id ltac:(by left)) as [t Ht]. cbn [for_each].
  assert (Hd : arc_drop id (w, p) = (Ok tt, (w, set_exiting (exiting p ++ [t]) (set_arcs (delete id (arcs p)) p)))).
  { unfold arc_drop. by rewrite Ht. }
  rewrite (bind_Ok _ _ _ _ _ Hd).
  destruct (IH (set_exiting (exiting p ++ [t]) (set_arcs (delete id (arcs p)) p)) Hn) as (p' & Hrun & Hl & He & Hs).
  { intros i Hi. simpl. rewrite lookup_delete_ne by congruence. apply Ha. by right. }
  exists p'. do 3 (split; [done|]). etrans; [exact Hs|]. apply delete_subseteq.
Qed.

Lemma drop_owned_run w p acc :
  owned p acc ->
  exists p', for_each (registry acc) arc_drop (w, p) = (Ok tt, (w, p')) /\ flocks p' = flocks p /\ owned p' empty.
Proof.
  intros [O1 O2 O3]. destruct (drop_ids_run (registry acc) w p) as (p' & Hrun & Hl & Hn & Hs).
  - apply NoDup_fmap_2_strong; [|apply NoDup_map_to_list].
    intros [a i] [b j] Ha%elem_of_map_to_list Hb%elem_of_map_to_list. simpl. intros ->. f_equal. by apply (O2 a b j).
  - intros id ([a i] & -> & Ha%elem_of_map_to_list)%list_elem_of_fmap. by apply (O1 a).
  - exists p'. split; [done|]. split; [done|]. split; [by intros a id Ha%lookup_empty_Some|by intros a b id Ha%lookup_empty_Some|].
    intros id [x Hx]. rewrite Hn. apply O3. exists x. by eapply lookup_weaken.
Qed.

(** A step that does the same with failing calls as without. *)
Lemma runs_or_step {T E A} (inj : io_error -> E) (m : M (World * T) E A)
    (P : World -> T -> Prop) w s w1 (s1 : T) fs (m1 : M (World * T) E A) :
  m (w, s) = m1 (with_faults fs w1, s1) -> m (calm w, s) = m1 (w1, s1) -> quiet w1 ->
  runs_or inj m1 P (with_faults fs w1) s1 -> runs_or inj m P w s.
Proof.
  intros E1 E2 Hq Hr. unfold runs_or in *. rewrite E1, E2. change (calm (with_faults fs w1)) with (calm w1) in Hr.
  by rewrite (calm_of_quiet w1) in Hr.
Qed.

Definition all_disk (w : World) (root : path) (ts : gmap string (list alog)) : Prop :=
  forall name als, ts !! name = Some als -> on_disk (D := D) w root name als.

Lemma all_disk_within w w' root ts name als :
  all_disk w root ts -> ts !! name = Some als -> within root name w w' -> on_disk (D := D) w' root name als ->
  all_disk w' root ts.
Proof.
  intros Ha Hn [Ho _] Hd b als' Hb. destruct (decide (b = name)) as [->|Hne].
  - rewrite Hn in Hb. by injection Hb as <-.
  - eapply sibling_on_disk; [|exact Ho|by apply Ha]. done.
Qed.

Lemma open_topics_runs ts root cfg entries (P : World -> Process -> Prop) w p acc :
  usable cfg -> owned p acc -> dirs_made (calm w) root -> root <> [] -> NoDup entries.*1 -> all_disk (calm w) root ts ->
  (forall name, (name, NDir) ∈ entries -> acc !! name = None /\ is_Some (ts !! name)) ->
  (forall w' p', flocks p' = flocks p -> owned p' empty -> all_disk (calm w') root ts ->
     apart_from root (dir_names entries) (calm w) (calm w') -> P w' p') ->
  runs_or Io (open_topics root cfg entries acc) P w p.
Proof.
  intros Hu Ho Hm Hne Hnd Hall Hen. revert w p acc Ho Hm Hall Hen.
  induction entries as [|[name n] entries IH]; intros w p acc Ho Hm Hall Hen HP; [apply runs_or_ret|].
  cbn [fmap list_fmap] in Hnd. apply NoDup_cons in Hnd as [Hx Hnd]. simpl in Hx.
  assert (Hdir : forall b m, (b, m) ∈ entries -> b <> name).
  { intros b m Hin ->. apply Hx. by apply (list_elem_of_fmap_2 fst) in Hin. }
  destruct n as [f|].
  { apply (IH Hnd w p acc); [done..| |exact HP]. intros b Hb. apply Hen. by right. }
  destruct (Hen name ltac:(by left)) as (Hfn & als & Hts). pose proof (Hall _ _ Hts) as Hod.
  pose proof Hod as (Hl & Hlay & Hdisk).
  destruct (topic_open_run (R := R) (S := S) (D := D) (calm w) (root ++ [name]) name cfg als Hu (calm_quiet w))
    as (w1 & t & Hrun & Ht & _ & _ & _ & Hg); [by destruct root|done|done|done|].
  pose proof (topic_grows_outside _ _ _ _ Hg Hm) as Hout.
  assert (Hw1 : within root name (calm w) w1) by (split; [done|by apply topic_grows_spares]).
  assert (Hq1 : quiet w1) by by eapply outside_quiet.
  assert (Hod1 : on_disk (D := D) w1 root name als).
  { split; [done|]. pose proof Ht as [T1 T2 T3 T4 T5 T6]. split; [done|]. intros i a Hi.
    destruct (lookup_lt_is_Some_2 (partitions t) i) as [q Hp]; [rewrite T1; by eapply lookup_lt_Some|].
    pose proof (T4 i q Hp) as E. unfold pdir in E. unfold pd. rewrite <- E. apply lr_abandon.
    exact (wr_log _ _ _ (pp_writer _ _ _ (T3 i q a Hp Hi))). }
  destruct (topic_open_wruns w root name cfg als Hu Hod Hm) as [[fs Hr]|(e & w' & Hr & Hod' & Hw')].
  - rewrite Hrun in Hr. simpl in Hr.
    apply (runs_or_step Io _ _ w p w1 (new_arc t p) fs (open_topics root cfg entries (<[name := next_arc p]> acc))).
    + cbn [open_topics]. rewrite (bind_Ok _ _ _ _ _ (attempt_Ok _ _ _ _ (in_world_run _ _ _ p _ Hr))). reflexivity.
    + cbn [open_topics]. rewrite (bind_Ok _ _ _ _ _ (attempt_Ok _ _ _ _ (in_world_run _ _ _ p _ Hrun))). reflexivity.
    + done.
    + apply IH; try done; change (calm (with_faults fs w1)) with (calm w1); rewrite ?(calm_of_quiet w1) by done.
      * by apply owned_insert.
      * by eapply dirs_made_outside.
      * by eapply all_disk_within.
      * intros b Hb. rewrite lookup_insert_ne by (intros E; by apply (Hdir b _ Hb)). apply Hen. by right.
      * intros w' p' Hl' Hop Ha' Hap. apply HP; [done..|]. unfold dir_names. rewrite filter_cons_True by done.
        eapply rtc_l; [exists name; split; [by left|exact Hw1]|].
        eapply apart_from_weaken; [|exact Hap]. by apply list_subseteq_cons.
  - destruct (drop_owned_run w' p acc Ho) as (p' & Hdrop & Hl' & Hop). right. exists e, w', p'. split.
    + cbn [open_topics]. rewrite (bind_Ok _ _ _ _ _ (attempt_Err _ _ _ _ (in_world_run _ _ _ p _ Hr))).
      cbv iota. by rewrite (bind_Ok _ _ _ _ _ Hdrop).
    + apply HP; [done..|by eapply all_disk_within|]. apply rtc_once. exists name. split; [|done].
      unfold dir_names. rewrite filter_cons_True by done. by left.
Qed.

(** ** The data directory *)
Lemma in_world_runs {T A} (m : KM World A) (P : World -> T -> Prop) w (s : T) :
  wruns m (fun w' => P w' s) w -> runs_or Io (in_world m) P w s.
Proof.
  unfold runs_or, in_world, zoom. simpl. intros [[fs Hm]|(e & w' & Hm & HP)]; rewrite Hm.
  - left. exists fs. by destruct (m (calm w)) as [[] ?].
  - right. eauto 6.
Qed.

Lemma silent_open_or_create p :
  silent (let* n := get_node p in
          match n with
          | Some NDir => throw (io_error_from IsADirectory)
          | Some (NFile _) => ret tt
          | None => fun w =>
                if parent_is_dir p w then put_file p (FNode [] [] (now_ms w)) w
                else (Err (io_error_from NotFound), w)
          end).
Proof.
  intros fs w. unfold bind, get_node. simpl. destruct (nodes w !! p) as [[]|]; [done..|].
  change (parent_is_dir p (with_faults fs w)) with (parent_is_dir p (calm w)).
  by destruct (parent_is_dir p (calm w)).
Qed.

Lemma data_dir_all_disk w d ts : data_dir (D := D) w d ts -> all_disk w d ts.
Proof. intros Hd a als Ha. by destruct (dd_topic _ _ _ Hd a als Ha) as (_ & _ & H1 & H2 & H3). Qed.

Lemma data_dir_apart w w' d ts names :
  data_dir (D := D) w d ts -> dirs_made w d -> apart_from d names w w' -> all_disk w' d ts ->
  (forall name, name ∈ names -> name <> LOCK_FILENAME /\ is_Some (ts !! name)) -> data_dir (D := D) w' d ts.
Proof.
  intros Hdd Hm Hap Hall Hn. destruct (apart_from_rest _ _ _ _ _ Hdd Hap Hn) as [Hclean Hlock].
  destruct Hdd as [D1 D2 D3 D4 D5 D6 D7 D8]. destruct (apart_from_env _ _ _ _ Hap) as (E1 & _ & E3).
  pose proof (apart_from_dirs _ _ _ _ Hap Hm) as Hm'. split; try done.
  - unfold quiet in *. congruence.
  - by rewrite E3.
  - intros q Hq Hne. left. by apply Hm'.
  - intros a als Ha. destruct (D6 a als Ha) as (H1 & H2 & _). do 2 (split; [done|]). exact (Hall a als Ha).
  - by rewrite Hlock.
Qed.

Lemma acquire_runs (P : World -> Process -> Prop) w p d :
  (forall fs, P (with_faults fs w) p) -> ~ locked (d ++ [LOCK_FILENAME]) (flocks p) ->
  runs_or Io (acquire_dir_lock d) P w p.
Proof.
  intros HP Hl. apply runs_or_bind.
  - apply in_world_runs. apply wruns_call; [apply silent_open_or_create|exact HP].
  - intros [] w1 p1 E. destruct (lock_free (d ++ [LOCK_FILENAME]) (flocks p) Hl) as (l & Htry & _).
    unfold in_world, zoom in E. simpl in E. destruct (io (open_or_create (d ++ [LOCK_FILENAME])) (calm w)) as [[u|e|q|] v] eqn:Eo; try done.
    injection E as -> <- <-. split.
    + unfold open_or_create, io, map_err, syscall, next_fault, get_node, bind in Eo. simpl in Eo.
      destruct (nodes w !! _) as [[]|]; [by injection Eo as <-|done|]. destruct (parent_is_dir _ _); [|done].
      by injection Eo as <-.
    + intros fs. apply (runs_or_pure _ _ _ _ p (Ok (d ++ [LOCK_FILENAME])) (set_flocks l p)).
      intros w'. unfold bind, io, map_err, zoom. simpl. by rewrite Htry.
Qed.

Lemma scan_runs w p d cfg ts (P : World -> Process -> Prop) :
  usable cfg -> data_dir (D := D) (calm w) d ts -> dirs_made (calm w) d -> (forall id, is_Some (arcs p !! id) -> (id < next_arc p)%nat) ->
  (forall w' p', flocks p' = flocks p -> (forall id, is_Some (arcs p' !! id) -> (id < next_arc p')%nat) ->
     data_dir (D := D) (calm w') d ts -> P w' p') ->
  runs_or Io (let* entries := in_world (io (read_dir d)) in open_topics d cfg entries empty) P w p.
Proof.
  intros Hu Hdd Hm Hids HP. destruct (reads_read_dir d w) as [Hs Hr].
  assert (Hnd : nodes (calm w) !! d = Some NDir) by (apply Hm; [done|by eapply dd_root]).
  assert (HP0 : forall fs, P (with_faults fs w) p) by (intros fs; by apply HP).
  apply runs_or_bind; [by apply in_world_runs, Hr|]. intros es w1 p1 E.
  rewrite (in_world_run _ _ _ p _ (io_Ok _ _ _ _ (read_dir_run (calm w) (calm_quiet w) d Hnd))) in E.
  injection E as <- <- <-. split; [done|]. intros fs.
  assert (Ho : owned p empty).
  { split; [by intros a id Ha%lookup_empty_Some|by intros a b id Ha%lookup_empty_Some|exact Hids]. }
  apply (open_topics_runs ts d cfg (children (calm w) d)); try done.
  - by eapply dd_root.
  - apply children_fst_NoDup.
  - by eapply data_dir_all_disk.
  - intros name Hin. split; [apply lookup_empty|]. by eapply dir_children_topics.
  - intros w' p' Hl' [_ _ Hids'] Hall Hap. apply HP; [done|done|].
    eapply data_dir_apart; [exact Hdd|exact Hm|exact Hap|exact Hall|].
    intros name Hin%elem_of_dir_names. by eapply dir_children_topics.
Qed.

(** The end of [open_with_config]: an error closes the lock file. *)
Lemma finish_runs {A} (m : KM (World * Process) A) (k : A -> Kafko) lock (P Q : World -> Process -> Prop) w p :
  runs_or Io m P w p -> (forall w' p', P w' p' -> Q w' (set_flocks (unlock lock (flocks p')) p')) ->
  (exists a s, m (calm w, p) = (Ok a, s)) ->
  runs_or Io (let* r := attempt m in
              match r with
              | inl a => ret (k a)
              | inr e => let* _ := release_dir_lock lock in throw e
              end) Q w p.
Proof.
  intros [[fs Hm]|(e & w' & p' & Hm & HP)] HQ (a & [w1 p1] & Hok).
  - left. exists fs. unfold bind, attempt. rewrite Hm, Hok. done.
  - right. exists e, w'. eexists. unfold bind, attempt. rewrite Hm. split; [reflexivity|]. by apply HQ.
Qed.

Lemma broker_start_runs w p d cfg ts :
  usable cfg -> data_dir (D := D) (calm w) d ts -> ~ locked (d ++ [LOCK_FILENAME]) (flocks p) ->
  (forall id, is_Some (arcs p !! id) -> (id < next_arc p)%nat) ->
  runs_or Io (open_with_config d cfg)
    (fun w' p' => data_dir (D := D) (calm w') d ts /\ ~ locked (d ++ [LOCK_FILENAME]) (flocks p')
       /\ forall id, is_Some (arcs p' !! id) -> (id < next_arc p')%nat) w p.
Proof.
  intros Hu Hdd Hl Hids. destruct (broker_open_run (R := R) (S := S) (calm w) p d cfg ts Hu Hdd Hl Hids) as (w9 & p9 & k & Hopen & _).
  destruct (data_dir_made (D := D) (calm w) d ts Hdd) as (w1 & Hmk & Hd1 & Hdd1 & _).
  pose proof (dd_quiet _ _ _ Hdd1) as Hq1. unfold open_with_config in *.
  rewrite (bind_Ok _ _ _ _ _ (in_world_run _ _ _ p _ (io_Ok _ _ _ _ Hmk))) in Hopen.
  apply runs_or_bind; [apply in_world_runs; apply wruns_call; [apply silent_mkdirs|done]|]. intros [] w2 p2 E.
  rewrite (in_world_run _ _ _ p _ (io_Ok _ _ _ _ Hmk)) in E. injection E as <- <-. split; [done|]. intros fs1.
  destruct (acquire_run w1 p d Hq1 Hd1 (dd_root _ _ _ Hdd) (dd_lock _ _ _ Hdd1) Hl) as (w2 & l & Hacq & Ho2 & Hlk & f & Hf).
  rewrite (bind_Ok _ _ _ _ _ Hacq) in Hopen.
  apply runs_or_bind.
  { apply acquire_runs; [|done]. intros fs. change (calm (with_faults fs (with_faults fs1 w1))) with (calm w1).
    by rewrite (calm_of_quiet w1). }
  intros lock w3 p3 E. change (calm (with_faults fs1 w1)) with (calm w1) in E. rewrite (calm_of_quiet w1) in E by done.
  rewrite Hacq in E. injection E as <- <- <-. pose proof (outside_quiet _ _ _ Ho2 Hq1) as Hq2. split; [done|]. intros fs2.
  assert (Hcalm : calm (with_faults fs2 w2) = w2) by (by apply (calm_of_quiet w2)).
  eapply (finish_runs _ (fun topics => mkKafko d topics cfg (d ++ [LOCK_FILENAME])));
    [apply (scan_runs _ _ d cfg ts (fun w' p' => data_dir (D := D) (calm w') d ts
       /\ forall id, is_Some (arcs p' !! id) -> (id < next_arc p')%nat)); rewrite ?Hcalm|..].
  - done.
  - eapply data_dir_outside_lock; [exact Ho2|by rewrite Hf|done|done].
  - by eapply dirs_made_outside.
  - done.
  - by intros w' p' _ Hi Hd.
  - intros w' p' [Hd Hi]. split; [done|]. split; [|done]. simpl. rewrite lock_released. by intros [[] _].
  - rewrite Hcalm. unfold bind at 1 in Hopen. unfold attempt in Hopen.
    destruct ((let* entries := in_world (io (read_dir d)) in open_topics d cfg entries empty) (w2, set_flocks l p)) as [[a|e|q|] s]; [by eauto|..]; try done.
Qed.

(** ** Starts that fail *)

(** An attempt to open the data directory that ends in an error, under
    any usable configuration. *)
Definition failed_start (d : path) (s s' : World * Process) : Prop :=
  exists cfg fs e, usable cfg /\ open_with_config d cfg (with_faults fs (fst s), snd s) = (Err e, s').

(** What a start needs: the directory, its lock free, and a process. *)
Record startable (d : path) (ts : gmap string (list alog)) (s : World * Process) : Prop := {
  sb_dir : data_dir (D := D) (calm (fst s)) d ts;
  sb_lock : ~ locked (d ++ [LOCK_FILENAME]) (flocks (snd s));
  sb_ids : forall id, is_Some (arcs (snd s) !! id) -> (id < next_arc (snd s))%nat;
}.

Lemma startable_runs d ts cfg w p :
  usable cfg -> startable d ts (w, p) -> runs_or Io (open_with_config d cfg) (fun w' p' => startable d ts (w', p')) w p.
Proof.
  intros Hu [S1 S2 S3]. eapply runs_or_imp; [|by apply (broker_start_runs w p d cfg ts)]. by intros w' p' (H1 & H2 & H3).
Qed.

Lemma failed_starts_keep d ts s s' : startable d ts s -> rtc (failed_start d) s s' -> startable d ts s'.
Proof.
  intros Hs Hr. induction Hr as [s|[w p] [w1 p1] s2 (cfg & fs & e & Hu & Ho) _ IH]; [done|]. apply IH. simpl in Ho.
  destruct (startable_runs d ts cfg (with_faults fs w) p Hu) as [[fs' Hw]|(e' & w' & p' & Hw & Hs')].
  { by destruct Hs. }
  - destruct Hs as [S1 S2 S3].
    destruct (broker_open_run (R := R) (S := S) (calm w) p d cfg ts Hu S1 S2 S3) as (w' & p' & k & Hrun & _).
    change (calm (with_faults fs w)) with (calm w) in Hw. rewrite Hrun, Ho in Hw. done.
  - rewrite Ho in Hw. by injection Hw as _ <- <-.
Qed.

End start.
