(* ===== verification/BrokerCreate.v ===== *)
(** * Ends that were not asked for

    What a broker leaves behind when its process is killed, when it is shut
    down while clients use some of its topics and the machine crashes, and when
    a [create_topic] fails half way: the partitions made so far stay, and the
    next start takes them for the topic. *)

From S2P Require Import Prelude Bytes Error Compression LogRecord Fs Names Search.
From S2P Require Import Segment SparseIndex Faults Log LogInv LogOps LogRecover LogCrash LogSpec LogStore LogOpenFaults LogReopen.
From S2P Require Import OffsetStore Partition PartitionSpec Topic Producer TopicSpec TopicStore.
From S2P Require Import Consumer ConsumerSpec GroupSpec Broker BrokerSpec Registry BrokerStore BrokerOpen BrokerStart.

Section create.
Context {B : Buf} {H : Crc32} {C : Codecs} {F : Flock} {FL : FlockLaws F}.
Context {R S : World -> Log -> alog -> Prop} {D : World -> path -> alog -> Prop}.
Context {LC : LogContract R} {LS : LogStore R S D} {LR : LogReopen R D}.

(** ** A process that is killed

    The files are as they were; the locks and the tasks are gone. *)
Lemma broker_data_dir w p k ts hs : broker_rep (R := R) w p k ts hs -> data_dir (D := D) w (dir k) (at_logs <$> ts).
Proof.
  intros Hb. pose proof Hb as [B1 B2 B3 B4 B5 B6 B7 B8 B9 B10 B11 [f B12] B13 B14]. split; try done.
  - intros q Hq Hne. left. by apply B2.
  - intros name als Hn. rewrite lookup_fmap in Hn. apply fmap_Some in Hn as (t & Ht & ->).
    split; [by eapply B10|]. split; [by eapply br_not_lock|].
    destruct (B5 name t Ht) as (id & _ & tp & _ & Hr & _). pose proof Hr as [T1 T2 T3 T4 T5 T6].
    split; [unfold len in *; by rewrite <- T1|]. split; [done|]. intros i a Ha.
    destruct (lookup_lt_is_Some_2 (partitions tp) i) as [q Hq]; [rewrite T1; by eapply lookup_lt_Some|].
    pose proof (T4 i q Hq) as E. unfold pdir in E. unfold pd. rewrite <- E. apply lr_abandon.
    exact (wr_log _ _ _ (pp_writer _ _ _ (T3 i q a Hq Ha))).
  - intros name q Hn Hne Hq. rewrite lookup_fmap in Hn. apply fmap_None in Hn. by eapply B11.
  - congruence.
Qed.

(** ** A broker that is shut down while clients use it, and a crash *)

(** A log cut short. *)
Definition cut (a b : alog) : Prop := exists n, b = mkALog (a_start a) (take n (a_recs a)).

(** What is left of a topic: everything, if nobody used it, and otherwise a
    beginning of each partition. *)
Definition remains (hs : list handle) (name : string) (t : atopic) (als : list alog) : Prop :=
  (handles_of name hs = [] -> als = at_logs t) /\ Forall2 cut (at_logs t) als.

Lemma cut_refl a : cut a a.
Proof. exists (length (a_recs a)). rewrite firstn_all. by destruct a. Qed.

Lemma list_choice {X Y} (P : nat -> X -> Y -> Prop) (l : list X) :
  (forall i x, l !! i = Some x -> exists y, P i x y) ->
  exists l', length l' = length l /\ forall i x y, l !! i = Some x -> l' !! i = Some y -> P i x y.
Proof.
  induction l as [|x l IH] using rev_ind; intros Hp; [by exists []|].
  destruct IH as (l' & Hl & Hl'). { intros i y Hi. apply (Hp i y). by apply lookup_app_l_Some. }
  destruct (Hp (length l) x) as [y Hy]; [by apply list_lookup_middle|].
  exists (l' ++ [y]). split; [rewrite !length_app; simpl; lia|]. intros i a b Ha Hb.
  apply lookup_app_Some in Ha as [Ha|[Hge Ha]].
  - pose proof (lookup_lt_Some _ _ _ Ha). rewrite lookup_app_l in Hb by lia. by eapply Hl'.
  - apply list_lookup_singleton_Some in Ha as [E <-]. rewrite lookup_app_r in Hb by lia.
    replace (i - length l')%nat with 0%nat in Hb by lia. injection Hb as <-. by replace i with (length l) by lia.
Qed.

Lemma map_choice {X Y} (P : string -> X -> Y -> Prop) (m : gmap string X) :
  (forall k x, m !! k = Some x -> exists y, P k x y) -> exists m' : gmap string Y, map_Forall2 P m m'.
Proof.
  induction m as [|k x m Hk IH] using map_ind; intros Hp.
  { exists empty. intros k. rewrite !lookup_empty. constructor. }
  destruct IH as [m' Hm']. { intros j y Hj. apply Hp. rewrite lookup_insert_ne; [done|]. intros ->. congruence. }
  destruct (Hp k x) as [y Hy]; [apply lookup_insert_eq|].
  exists (<[k := y]> m'). by apply map_Forall2_insert_2.
Qed.

Lemma settled_remains w p root ts hs name id t w2 :
  settled (R := R) (S := S) root ts hs w p (name, id) -> ts !! name = Some t -> crash w w2 ->
  topic_layout w (root ++ [name]) (length (at_logs t))
  /\ exists als, remains hs name t als /\ forall i a, als !! i = Some a -> D w2 (pd (root ++ [name]) i) a.
Proof.
  intros (t' & Ht' & Hs) Ht Hc. simpl in Ht', Hs. rewrite Ht in Ht'. injection Ht' as <-.
  unfold remains. destruct (handles_of name hs) as [|h l]; simpl in Hs.
  - destruct Hs as (tp & Hcl). split; [apply Hcl|]. exists (at_logs t). split; [|intros i a Ha; by eapply closed_disk].
    split; [done|]. apply Forall2_same_length_lookup_2; [done|]. intros i a b Ha Hb. rewrite Ha in Hb. injection Hb as <-.
    apply cut_refl.
  - destruct Hs as (tp & _ & Hr & _). pose proof Hr as [T1 T2 T3 T4 T5 T6]. split; [done|].
    destruct (list_choice (fun i a b => cut a b /\ D w2 (pd (root ++ [name]) i) b) (at_logs t)) as (als & Hl & Hals).
    { intros i a Ha. destruct (lookup_lt_is_Some_2 (partitions tp) i) as [q Hq]; [rewrite T1; by eapply lookup_lt_Some|].
      destruct (lr_crash w w2 _ a (wr_log _ _ _ (pp_writer _ _ _ (T3 i q a Hq Ha))) Hc) as (n & Hd).
      eexists. split; [by exists n|]. pose proof (T4 i q Hq) as E. unfold pdir in E. unfold pd. by rewrite <- E. }
    exists als. split; [split; [done|]|].
    + apply Forall2_same_length_lookup_2; [done|]. intros i a b Ha Hb. by apply (Hals i a b).
    + intros i b Hb. destruct (lookup_lt_is_Some_2 (at_logs t) i) as [a Ha]; [rewrite <- Hl; by eapply lookup_lt_Some|].
      by apply (Hals i a b).
Qed.

Lemma shutdown_remains w p k ts hs w1 p1 w2 :
  broker_rep (R := R) w p k ts hs ->
  (forall name t, ts !! name = Some t -> exists id, topics k !! name = Some id
     /\ settled (R := R) (S := S) (dir k) ts hs w1 p1 (name, id)) ->
  apart_from (dir k) (map_to_list (topics k)).*1 w w1 -> crash w1 w2 ->
  exists ts2, map_Forall2 (remains hs) ts ts2 /\ data_dir (D := D) w2 (dir k) ts2.
Proof.
  intros Hb Hset Hap Hc.
  destruct (map_choice (fun name t als => remains hs name t als
      /\ topic_layout w1 (dir k ++ [name]) (length (at_logs t))
      /\ forall i a, als !! i = Some a -> D w2 (pd (dir k ++ [name]) i) a) ts) as [ts2 Hts2].
  { intros name t Ht. destruct (Hset name t Ht) as (id & _ & Hs).
    destruct (settled_remains _ _ _ _ _ _ _ _ _ Hs Ht Hc) as (Hlay & als & Hrem & Hd). by exists als. }
  exists ts2. split; [eapply map_Forall2_impl; [exact Hts2|by intros ? ? ? [Hrem _]]|].
  eapply left_data_dir; [exact Hb|exact Hap|exact Hc|..].
  - intros name Hn. specialize (Hts2 name). rewrite Hn in Hts2. by inversion Hts2.
  - intros name als Hn. specialize (Hts2 name). rewrite Hn in Hts2. inversion Hts2 as [t als' ([_ Hf] & Hlay & Hd) E|]; subst.
    exists t. split; [done|]. split; [symmetry; by eapply Forall2_length|]. by split.
Qed.

(** ** A topic that is not made to the end *)
Lemma on_parts_fresh w dir n :
  quiet w -> dir <> [] -> dirs_free w dir -> 0 <= read_max w ->
  (forall p, dir `prefix_of` p -> p <> dir -> nodes w !! p = None) ->
  on_parts (D := D) w dir (replicate n (mkALog 0 [])).
Proof.
  intros Hq Hne Hf Hm Hb.
  assert (Hbelow : forall i x, nodes w !! (pd dir i) = None /\ nodes w !! (pd dir i ++ [x]) = None).
  { intros i x. unfold pd. split; apply Hb; rewrite <- ?app_assoc; try (by eexists);
      intros E; apply (f_equal length) in E; rewrite length_app in E; simpl in E; lia. }
  intros j a Ha. apply lookup_replicate in Ha as [-> Hj]. apply ls_fresh; try done.
  - by destruct dir.
  - intros p [->|Hp]%prefix_snoc_inv Hnp; [right; by apply (Hbelow j "")|by apply Hf].
  - intros x. by apply (Hbelow j x).
Qed.

Lemma part_steps_none dir w w' : part_steps dir 0 w w' -> w' = w.
Proof. destruct 1 as [|w1 w2 w3 (j & Hj & _)]; [done|lia]. Qed.

(** The partitions that were made are a topic with empty logs. *)
Lemma made_on_disk w w' root name m n :
  (0 < m <= n)%nat -> Z.of_nat n < 2 ^ 32 ->
  on_parts (D := D) w' (root ++ [name]) (replicate n (mkALog 0 [])) ->
  part_steps (root ++ [name]) m w w' -> parts_made w' (root ++ [name]) m ->
  (forall x, nodes w !! ((root ++ [name]) ++ [x]) = None) ->
  on_disk (D := D) w' root name (replicate m (mkALog 0 [])).
Proof.
  intros Hm Hn Hp Hst Hmade Hnone. unfold on_disk, len. rewrite length_replicate. split; [lia|].
  assert (Hne : forall i, pd (root ++ [name]) i <> []) by (intros i; unfold pd; by destruct root).
  split; [split|].
  - apply (Hmade 0%nat); [lia|by eexists|by destruct root].
  - intros i Hi. exact (Hmade i Hi _ (reflexivity _) (Hne i)).
  - eapply (grows_only_parts _ m w w'); [lia|exact Hst|]. intros x k Hx. by rewrite Hnone in Hx.
  - intros i a [-> Hi]%lookup_replicate. apply Hp. apply lookup_replicate. split; [done|lia].
Qed.

Lemma topic_create_wruns w root name n cfg (P : World -> Prop) :
  usable cfg -> 0 < n < 2 ^ 32 -> dirs_free (calm w) (root ++ [name]) -> dirs_made (calm w) root -> 0 <= read_max w ->
  (forall q, (root ++ [name]) `prefix_of` q -> nodes (calm w) !! q = None) ->
  (forall w', calm w' = calm w -> P w') ->
  (forall w' m, (0 < m <= Z.to_nat n)%nat -> within root name (calm w) (calm w') ->
     on_disk (D := D) (calm w') root name (replicate m (mkALog 0 [])) -> P w') ->
  wruns (Topic.create (root ++ [name]) name n cfg) P w.
Proof.
  intros Hu Hn Hf Hd Hm Hb HP0 HP. unfold Topic.create. rewrite (proj2 (Z.eqb_neq _ _)) by lia.
  assert (Hne : root ++ [name] <> []) by by destruct root.
  set (als := replicate (Z.to_nat n) (mkALog 0 [])).
  assert (Hl : length als = Z.to_nat n) by apply length_replicate.
  apply wruns_bind.
  - apply (open_partitions_wruns (R := R) (S := S) (D := D) _ cfg als); [lia|unfold len; lia| |by intros j Hj%Nat.nlt_0_r|].
    { apply on_parts_fresh; try done. intros q Hq _. by apply Hb. }
    intros w' m Hp Hlm Hst Hmade. destruct m as [|m].
    { apply HP0. by apply part_steps_none in Hst. }
    assert (Hg : topic_grows (root ++ [name]) (calm w) (calm w')).
    { eapply (steps_topic_grows _ (Datatypes.S m)); [lia|]. eapply rtc_subrel; [|exact Hst].
      intros u v (j & Hj & Hgj). exists j. split; [lia|done]. }
    apply (HP w' (Datatypes.S m)); [lia| |].
    + split; [by eapply topic_grows_outside|by apply topic_grows_spares].
    + eapply (made_on_disk (calm w) _ root name _ (Z.to_nat n)); try done; [lia|lia|]. intros x. apply Hb. by eexists.
  - intros ps w1 E. split; [|intros; apply wruns_ret].
    destruct (open_partitions_run (R := R) (S := S) (D := D) (root ++ [name]) cfg als (calm w) [] [] Hu)
      as (w3 & ps3 & Hrun & _ & Hg); [apply parts_rep_nil|simpl; unfold len; lia| |].
    { apply on_parts_fresh; try done. intros q Hq _. by apply Hb. }
    simpl length in Hrun. rewrite Hl in Hrun. rewrite Hrun in E. injection E as <- <-.
    clear - Hg. assert (Hq : quiet (calm w)) by done. revert Hq. induction Hg as [|u v x (j & _ & Hfj & _) _ IH]; [done|].
    intros Hq. apply IH. unfold quiet in *. congruence.
Qed.

Lemma data_dir_add w w' d ts name als :
  data_dir (D := D) w d ts -> ts !! name = None -> plain name -> name <> LOCK_FILENAME -> dirs_made w d ->
  within d name w w' -> on_disk (D := D) w' d name als -> data_dir (D := D) w' d (<[name := als]> ts).
Proof.
  intros [D1 D2 D3 D4 D5 D6 D7 D8] Hn Hp Hl Hd [Ho _] Hod. pose proof Ho as (E1 & _ & E3 & Hs).
  pose proof (dirs_made_outside _ _ _ _ Ho Hd) as Hd'. split; try done.
  - unfold quiet in *. congruence.
  - by rewrite E3.
  - intros q Hq Hne. left. by apply Hd'.
  - intros b x Hb. apply lookup_insert_Some in Hb as [[<- <-]|[Hne Hb]]; [by split_and!; try apply Hod|].
    destruct (D6 b x Hb) as (H1 & H2 & H3). do 2 (split; [done|]).
    exact (sibling_on_disk _ _ _ _ _ _ Hne Ho H3).
  - intros b q Hb Hbl [q' ->]. apply lookup_insert_None in Hb as [Hb Hne].
    rewrite Hs by by apply sibling_not_prefix. apply (D7 b); [done|done|by eexists].
  - rewrite Hs; [done|]. rewrite <- (app_nil_r (d ++ [LOCK_FILENAME])). by apply sibling_not_prefix.
Qed.

(** The topics the next start finds. *)
Definition with_partial (name : string) (m : nat) (ts : gmap string (list alog)) : gmap string (list alog) :=
  match m with
  | O => ts
  | _ => <[name := replicate m (mkALog 0 [])]> ts
  end.

Lemma create_topic_runs w p k ts hs name cfg n :
  usable cfg -> broker_rep (R := R) (calm w) p k ts hs -> ts !! name = None -> plain name -> name <> LOCK_FILENAME -> 0 < n < 2 ^ 32 ->
  runs_or Io (create_topic_inner name cfg n)
    (fun w' s => s = (p, k) /\ exists m, (m <= Z.to_nat n)%nat
       /\ data_dir (D := D) (calm w') (dir k) (with_partial name m (at_logs <$> ts))) w (p, k).
Proof.
  intros Hu Hb Hn Hp Hl Hr. pose proof Hb as [B1 B2 B3 B4 B5 B6 B7 B8 B9 B10 B11 B12 B13 B14].
  pose proof (broker_data_dir _ _ _ _ _ Hb) as Hdd.
  assert (Hn' : (at_logs <$> ts) !! name = None) by (rewrite lookup_fmap; by rewrite Hn).
  unfold create_topic_inner. apply runs_or_bind.
  { eapply (runs_or_pure _ _ _ _ _ (Ok tt) (p, k)). intros w'. unfold create_check.
    rewrite (proj2 (Z.eqb_neq _ _)) by lia. unfold bind, kafko. simpl. by rewrite (B6 _ Hn). }
  intros [] w1 s1 E. rewrite (create_check_run (calm w) p k ts hs name n Hb Hn ltac:(lia)) in E. injection E as <- <-.
  split; [done|]. intros fs. unfold create_commit. apply runs_or_bind.
  - unfold create_files. apply runs_or_bind; [by eapply (runs_or_pure _ _ _ _ _ (Ok k) (p, k))|].
    intros k1 w1 s1 E. injection E as <- <- <-. split; [done|]. intros fs1. cbv zeta. rewrite (join_plain _ _ Hp).
    apply in_world_runs. apply topic_create_wruns; try done.
    + intros q [->|Hq]%prefix_snoc_inv Hne; [right; by eapply B11|left; by apply B2].
    + intros q Hq. by eapply B11.
    + intros w' E. split; [done|]. exists 0%nat. split; [lia|]. simpl.
      change (calm (with_faults fs1 (calm (with_faults fs (calm w))))) with (calm w) in E. by rewrite E.
    + intros w' m Hm Hw Hod. split; [done|]. exists m. split; [lia|]. destruct m as [|m]; [lia|].
      eapply data_dir_add; [exact Hdd|done|done|done|exact B2|exact Hw|exact Hod].
  - intros t w1 s1 E.
    destruct (topic_create_run (R := R) (S := S) (D := D) (calm w) (dir k ++ [name]) name n cfg) as (w' & t' & Hc & _ & _ & _ & _ & Hg); try done.
    { by destruct (dir k). }
    { intros q [->|Hq]%prefix_snoc_inv Hne; [right; by eapply B11|left; by apply B2]. }
    { intros q Hq _. by eapply B11. }
    change (calm (with_faults fs (calm w))) with (calm w) in E.
    rewrite (create_files_run _ _ _ _ _ _ _ _ Hp Hc) in E. injection E as <- <- <-.
    split; [eapply outside_quiet; [by eapply topic_grows_outside|done]|]. intros fs2.
    eapply (runs_or_pure _ _ _ _ _ (Ok tt) (new_arc t' p, set_topics (<[name := next_arc p]> (topics k)) k)).
    intros w2. by apply create_register_first, B6.
Qed.

End create.
