(* ===== verification/BrokerRace.v ===== *)
(** * Calls that create one topic at the same time

    Any number of [create_topic] calls for one name, their locked sections and
    the making of their files interleaved by any schedule ([Broker.race]): the
    call that registers first wins, and every other call that had passed the
    check has opened logs of its own on the winner's directories. *)

From S2P Require Import Prelude Bytes Error Compression LogRecord Fs Names Search.
From S2P Require Import Segment SparseIndex Faults Log LogInv LogOps LogRecover LogCrash LogSpec LogStore LogOpenFaults LogReopen.
From S2P Require Import OffsetStore Partition PartitionSpec Topic Producer TopicSpec TopicStore.
From S2P Require Import Consumer ConsumerSpec GroupSpec Broker BrokerSpec Registry BrokerStore BrokerOpen BrokerStart BrokerCreate.

(** The three steps in a row are the call. *)
Lemma create_steps_inner {B : Buf} {H : Crc32} {C : Codecs} {F : Flock} name cfg n s :
  (let* a := create_step name cfg n Arrived in
   let* b := create_step name cfg n a in
   create_step name cfg n b) s
  = (let* r := attempt (E' := KafkoError) (create_topic_inner name cfg n) in ret (Answered r)) s.
Proof.
  unfold create_topic_inner, create_commit, create_step, bind, attempt, ret.
  destruct (create_check name n s) as [[[]|e|m|] s1]; try reflexivity.
  destruct (create_files name cfg n s1) as [[t|e|m|] s2]; try reflexivity.
Qed.

Section race.
Context {B : Buf} {H : Crc32} {C : Codecs} {F : Flock} {FL : FlockLaws F}.
Context {R S : World -> Log -> alog -> Prop} {D : World -> path -> alog -> Prop}.
Context {LC : LogContract R} {LS : LogStore R S D} {LR : LogReopen R D}.

(** ** Opening one directory several times *)

(** A topic of [n] partitions below [dir], their writers running. *)
Record made (dir : path) (name : string) (cfg : LogConfig) (n : Z) (w : World) (t : Topic) : Prop := {
  md_name : Topic.name t = name;
  md_config : Topic.config t = cfg;
  md_count : len (partitions t) = n;
  md_part : forall i q, partitions t !! i = Some q ->
    pdir q = pd dir i /\ pconfig q = cfg /\ status q = Running /\ dirs_made w (pd dir i);
}.

(** Whatever has been opened below [dir], every partition is empty. *)
Definition empty_parts (dir : path) (w : World) : Prop :=
  forall j, Z.of_nat j < 2 ^ 32 -> D w (pd dir j) (mkALog 0 []).

Lemma made_steps dir name cfg n m w w' t : part_steps dir m w w' -> made dir name cfg n w t -> made dir name cfg n w' t.
Proof.
  intros Hs [M1 M2 M3 M4]. split; try done. intros i q Hq. destruct (M4 i q Hq) as (H1 & H2 & H3 & H4).
  do 3 (split; [done|]). by eapply dirs_made_steps.
Qed.

Lemma empty_parts_steps dir n w w' j :
  part_steps dir n w w' -> (n <= j)%nat -> Z.of_nat j < 2 ^ 32 ->
  D w (pd dir j) (mkALog 0 []) -> D w' (pd dir j) (mkALog 0 []).
Proof.
  intros Hs Hn Hj. induction Hs as [|w w1 w2 (i & Hi & Hg) _ IH]; [done|]. intros Hd. apply IH.
  eapply ls_disk_grows; [exact Hg|apply pd_apart; lia|done].
Qed.

Lemma part_steps_quiet dir n w w' : part_steps dir n w w' -> quiet w -> quiet w'.
Proof.
  induction 1 as [|w w1 w2 (i & _ & Hf & _) _ IH]; [done|]. intros Hq. apply IH. unfold quiet in *. congruence.
Qed.

Lemma create_over w dir name n cfg :
  usable cfg -> 0 < n < 2 ^ 32 -> quiet w -> empty_parts dir w ->
  exists w' t, Topic.create dir name n cfg w = (Ok t, w') /\ made dir name cfg n w' t
    /\ empty_parts dir w' /\ part_steps dir (Z.to_nat n) w w'.
Proof.
  intros Hu Hn Hq Hd. unfold Topic.create. rewrite (proj2 (Z.eqb_neq _ _)) by lia.
  set (als := replicate (Z.to_nat n) (mkALog 0 [])).
  assert (Hl : length als = Z.to_nat n) by apply length_replicate.
  destruct (open_partitions_run (R := R) (S := S) (D := D) dir cfg als w [] [] Hu (parts_rep_nil _ _ _))
    as (w1 & ps & Hrun & [P1 P2 P3 P4] & Hg).
  { unfold len. simpl. rewrite Hl. lia. }
  { intros j a [-> Hj]%lookup_replicate. apply Hd. simpl. lia. }
  simpl length in Hrun. rewrite Hl in Hrun. rewrite (bind_Ok _ _ _ _ _ Hrun). simpl app in *.
  assert (Hlog : forall i q, ps !! i = Some q -> prep (R := R) w1 q (mkALog 0 [])).
  { intros i q Hqi. apply (P2 i q _ Hqi). apply lookup_replicate. split; [done|].
    apply lookup_lt_Some in Hqi. lia. }
  assert (Hs : part_steps dir (Z.to_nat n) w w1).
  { eapply rtc_subrel; [|exact Hg]. intros u v (j & Hj & Hgj). exists j. split; [simpl in Hj; lia|done]. }
  eexists w1, _. split; [reflexivity|]. split; [split; try done; simpl|split; [|exact Hs]].
  - unfold len. rewrite P1, Hl. lia.
  - intros i q Hqi. split; [by apply P3|]. split; [by eapply P4|]. split; [by apply (Hlog i q)|].
    pose proof (ls_made _ _ _ (wr_log _ _ _ (pp_writer _ _ _ (Hlog i q Hqi)))) as Hm.
    pose proof (P3 i q Hqi) as E. unfold pdir in E. by rewrite E in Hm.
  - intros j Hj. destruct (decide (j < Z.to_nat n)%nat) as [Hlt|Hge].
    + destruct (lookup_lt_is_Some_2 ps j) as [q Hqi]; [rewrite P1, Hl; done|].
      pose proof (P3 j q Hqi) as E. unfold pdir in E. rewrite <- E. apply lr_abandon.
      exact (wr_log _ _ _ (pp_writer _ _ _ (Hlog j q Hqi))).
    + eapply empty_parts_steps; [exact Hs|lia|done|by apply Hd].
Qed.

(** ** The invariant of a race *)

(** What a call was asked for. *)
Abbreviation spec := (LogConfig * Z)%type.

Definition spec_ok (c : spec) : Prop := usable (fst c) /\ 0 < snd c < 2 ^ 32.
Definition arrive (c : spec) : CreateCall := mkCall (fst c) (snd c) Arrived.
Definition spec_of (c : CreateCall) : spec := (cc_config c, cc_partitions c).

(** Steps to the answer. *)
Definition left (ph : CreatePhase) : nat :=
  match ph with Arrived => 3 | Checked => 2 | Made _ => 1 | Answered _ => 0 end.

(** A call that was refused after it had made its topic, or before. *)
Definition lost (c : CreateCall) : nat := match cc_phase c with Answered (inr _) => 1 | _ => 0 end.

Section one_race.
Context (w0 : World) (p0 : Process) (k0 : Kafko) (name : string) (specs : list spec).

Abbreviation made_by c := (made (dir k0 ++ [name]) name (fst c) (snd c)).

Record site (w : World) : Prop := {
  si_quiet : quiet w;
  si_dirs : dirs_made w (dir k0);
  si_parts : empty_parts (dir k0 ++ [name]) w;
  si_outside : outside (dir k0 ++ [name]) w0 w;
}.

Lemma site_create w cfg n :
  site w -> spec_ok (cfg, n) -> plain name ->
  exists w' t, (forall p k, dir k = dir k0 -> create_files name cfg n (w, (p, k)) = (Ok t, (w', (p, k))))
    /\ site w' /\ made_by (cfg, n) w' t /\ forall c t', made_by c w t' -> made_by c w' t'.
Proof.
  intros [S1 S2 S3 S4] [Hu Hn] Hp. simpl in *.
  destruct (create_over w (dir k0 ++ [name]) name n cfg Hu Hn S1 S3) as (w' & t & Hrun & Hm & Hd & Hs).
  assert (Hg : topic_grows (dir k0 ++ [name]) w w').
  { eapply (steps_topic_grows _ (Z.to_nat n)); [lia|]. eapply rtc_subrel; [|exact Hs].
    intros u v (j & Hj & Hgj). exists j. split; [lia|done]. }
  pose proof (topic_grows_outside _ _ _ _ Hg S2) as Ho. exists w', t. split; [|split; [|split; [exact Hm|]]].
  - intros p k E. apply create_files_run; [done|]. by rewrite E.
  - split; [by eapply part_steps_quiet|by eapply dirs_made_outside|done|by eapply outside_trans].
  - intros c t'. by apply (made_steps _ _ _ _ (Z.to_nat n)).
Qed.

(** Before anybody has registered the topic. *)
Definition open_call (w : World) (c : CreateCall) : Prop :=
  match cc_phase c with
  | Arrived | Checked => True
  | Made t => made_by (spec_of c) w t
  | Answered _ => False
  end.

(** A call that did not win. *)
Definition lost_call (w : World) (c : CreateCall) : Prop :=
  match cc_phase c with
  | Arrived | Checked => True
  | Made t => made_by (spec_of c) w t
  | Answered r => r = inr (TopicAlreadyExists name)
  end.

Definition registered (t : Topic) (ls : list Topic) : Process * Kafko :=
  (set_exiting (exiting p0 ++ ls) (new_arc t p0), set_topics (<[name := next_arc p0]> (topics k0)) k0).

(** [late]: every call has passed the check. *)
Inductive race_state (late : bool) (calls : list CreateCall) : World * (Process * Kafko) -> Prop :=
| rs_open w :
    map spec_of calls = specs -> site w -> Forall (open_call w) calls ->
    (late = true -> Forall (fun c => cc_phase c <> Arrived) calls) ->
    race_state late calls (w, (p0, k0))
| rs_won w x c t ls :
    map spec_of calls = specs -> site w ->
    calls !! x = Some c -> cc_phase c = Answered (inl tt) -> made_by (spec_of c) w t ->
    (forall j c', j <> x -> calls !! j = Some c' -> lost_call w c') ->
    Forall (fun t' => exists s, s ∈ specs /\ made_by s w t') ls ->
    (late = true -> Forall (fun c => cc_phase c <> Arrived) calls /\ length ls = sum_list_with lost calls) ->
    race_state late calls (w, registered t ls).

(** ** One step *)
Lemma sum_list_insert (f : CreateCall -> nat) l i x y :
  l !! i = Some x -> (sum_list_with f (<[i := y]> l) + f x = sum_list_with f l + f y)%nat.
Proof. revert i. induction l as [|z l IH]; intros [|i] Hi; simplify_eq/=; [lia|]. specialize (IH i Hi). lia. Qed.

Lemma specs_insert calls i c ph :
  calls !! i = Some c -> map spec_of (<[i := mkCall (cc_config c) (cc_partitions c) ph]> calls) = map spec_of calls.
Proof.
  intros Hi. change (spec_of <$> <[i := mkCall (cc_config c) (cc_partitions c) ph]> calls = spec_of <$> calls).
  rewrite list_fmap_insert. apply list_insert_id. by rewrite list_lookup_fmap, Hi.
Qed.

Lemma lost_call_mono w w' c :
  (forall s t, made_by s w t -> made_by s w' t) -> lost_call w c -> lost_call w' c.
Proof. intros Hm. unfold lost_call. destruct (cc_phase c); auto. Qed.

Lemma open_call_mono w w' c :
  (forall s t, made_by s w t -> made_by s w' t) -> open_call w c -> open_call w' c.
Proof. intros Hm. unfold open_call. destruct (cc_phase c); auto. Qed.

(** The state after one call has moved on from [ph] to [ph'], nobody having
    registered. *)
Lemma open_moved late calls w w' i cfg n ph ph' :
  map spec_of calls = specs -> Forall (open_call w) calls ->
  (late = true -> Forall (fun c => cc_phase c <> Arrived) calls) ->
  calls !! i = Some (mkCall cfg n ph) -> site w' -> (forall s t, made_by s w t -> made_by s w' t) ->
  open_call w' (mkCall cfg n ph') -> ph' <> Arrived ->
  race_state late (<[i := mkCall cfg n ph']> calls) (w', (p0, k0)).
Proof.
  intros Hsp Ho Hl Hi Hs Hm Hc Hne. apply rs_open.
  - by rewrite (specs_insert calls i (mkCall cfg n ph)).
  - done.
  - apply Forall_insert; [|done]. eapply Forall_impl; [exact Ho|]. intros c. by apply open_call_mono.
  - intros E. apply Forall_insert; [by apply Hl|done].
Qed.

Lemma won_moved late calls w w' x i c cfg n ph ph' t ls ls' :
  map spec_of calls = specs -> calls !! x = Some c -> cc_phase c = Answered (inl tt) -> made_by (spec_of c) w t ->
  (forall j c', j <> x -> calls !! j = Some c' -> lost_call w c') ->
  Forall (fun t' => exists s, s ∈ specs /\ made_by s w t') ls ->
  (late = true -> Forall (fun c => cc_phase c <> Arrived) calls /\ length ls = sum_list_with lost calls) ->
  i <> x -> calls !! i = Some (mkCall cfg n ph) -> site w' -> (forall s t, made_by s w t -> made_by s w' t) ->
  lost_call w' (mkCall cfg n ph') -> ph' <> Arrived ->
  Forall (made_by (cfg, n) w') ls' ->
  (ph <> Arrived -> (length ls' + lost (mkCall cfg n ph) = lost (mkCall cfg n ph'))%nat) ->
  race_state late (<[i := mkCall cfg n ph']> calls) (w', registered t (ls ++ ls')).
Proof.
  intros Hsp Hx Hw Ht Ho Hls Hl Hne Hi Hs Hm Hc Hph Hls' Hcount.
  assert (Hin : (cfg, n) ∈ specs).
  { rewrite <- Hsp. apply list_elem_of_fmap. exists (mkCall cfg n ph). split; [done|by eapply list_elem_of_lookup_2]. }
  apply (rs_won _ _ w' x c).
  - by rewrite (specs_insert calls i (mkCall cfg n ph)).
  - done.
  - by rewrite list_lookup_insert_ne.
  - done.
  - by apply Hm.
  - intros j c' Hj. rewrite list_lookup_insert_Some. intros [(<- & <- & _)|[_ Hjc]]; [done|].
    eapply lost_call_mono; [exact Hm|]. by eapply Ho.
  - apply Forall_app_2.
    + eapply Forall_impl; [exact Hls|]. intros t' (s & Hsin & Hms). eauto.
    + eapply Forall_impl; [exact Hls'|]. intros t' Hms. by exists (cfg, n).
  - intros E. destruct (Hl E) as [Hna Hlen]. split; [by apply Forall_insert|]. rewrite length_app, Hlen.
    pose proof (sum_list_insert lost calls i _ (mkCall cfg n ph') Hi).
    specialize (Hcount (Forall_lookup_1 _ _ _ _ Hna Hi)). lia.
Qed.

Lemma open_none_lost w calls : Forall (open_call w) calls -> sum_list_with lost calls = 0%nat.
Proof.
  induction 1 as [|c calls Hc _ IH]; [done|]. simpl. rewrite IH. unfold open_call in Hc. unfold lost.
  by destruct (cc_phase c).
Qed.

Lemma race_step_run late calls w s i cfg n ph :
  plain name -> topics k0 !! name = None -> Forall spec_ok specs ->
  race_state late calls (w, s) -> calls !! i = Some (mkCall cfg n ph) ->
  exists ph' w' s', create_step name cfg n ph (w, s) = (Ok ph', (w', s'))
    /\ race_state late (<[i := mkCall cfg n ph']> calls) (w', s') /\ (left ph' <= pred (left ph))%nat.
Proof.
  intros Hp Hfree Hok Hst Hi.
  assert (Hspec : spec_ok (cfg, n)).
  { assert (Hsp : map spec_of calls = specs) by (by inversion Hst).
    apply (Forall_lookup_1 _ _ i _ Hok). rewrite <- Hsp. change ((spec_of <$> calls) !! i = Some (cfg, n)).
    by rewrite list_lookup_fmap, Hi. }
  assert (Hn : (n =? 0) = false) by (apply Z.eqb_neq; destruct Hspec; simpl in *; lia).
  inversion Hst as [w1 Hsp Hs Ho Hl|w1 x c t ls Hsp Hs Hx Hw Ht Ho Hls Hl]; subst w1 s.
  - pose proof (Forall_lookup_1 _ _ _ _ Ho Hi) as Hc. destruct ph as [| |t|r]; unfold open_call in Hc; cbn [cc_phase] in Hc.
    + exists Checked, w, (p0, k0). split; [|split; [by eapply open_moved|simpl; lia]].
      unfold create_step, create_check. rewrite Hn. unfold attempt, bind, kafko. simpl. by rewrite Hfree.
    + destruct (site_create w cfg n Hs Hspec Hp) as (w' & t & Hrun & Hs' & Hm & Hmono).
      exists (Made t), w', (p0, k0). split; [|split; [by eapply open_moved|simpl; lia]].
      unfold create_step. by rewrite (bind_Ok _ _ _ _ _ (attempt_Ok _ _ _ _ (Hrun p0 k0 eq_refl))).
    + exists (Answered (inl tt)), w, (registered t []). split; [|split; [|simpl; lia]].
      * unfold create_step. rewrite (bind_Ok _ _ _ _ _ (attempt_Ok _ _ _ _ (create_register_first w p0 k0 name t Hfree))).
        unfold registered. by rewrite app_nil_r.
      * eapply (rs_won _ _ w i (mkCall cfg n (Answered (inl tt)))); try done.
        -- by rewrite (specs_insert calls i (mkCall cfg n (Made t))).
        -- apply list_lookup_insert_eq. by eapply lookup_lt_Some.
        -- intros j c' Hj. rewrite list_lookup_insert_ne by done. intros Hjc.
           pose proof (Forall_lookup_1 _ _ _ _ Ho Hjc) as Hoc. unfold open_call in Hoc. unfold lost_call.
           by destruct (cc_phase c').
        -- intros E. split; [by apply Forall_insert; [apply Hl|]|].
           pose proof (sum_list_insert lost calls i _ (mkCall cfg n (Answered (inl tt))) Hi) as Hsum.
           rewrite (open_none_lost w calls Ho) in Hsum. unfold lost in *. simpl in *. lia.
    + done.
  - destruct (decide (i = x)) as [->|Hne].
    { rewrite Hi in Hx. injection Hx as <-. simpl in Hw. subst ph. exists (Answered (inl tt)), w, (registered t ls).
      split; [done|]. split; [by rewrite list_insert_id|simpl; lia]. }
    pose proof (Ho i _ Hne Hi) as Hc. unfold lost_call in Hc. destruct ph as [| |t'|r]; cbn [cc_phase] in Hc.
    + exists (Answered (inr (TopicAlreadyExists name))), w, (registered t (ls ++ [])). split; [|split; [by eapply won_moved|simpl; lia]].
      unfold create_step, create_check. rewrite Hn, app_nil_r. unfold attempt, bind, kafko. simpl. by rewrite lookup_insert_eq.
    + destruct (site_create w cfg n Hs Hspec Hp) as (w' & t' & Hrun & Hs' & Hm & Hmono).
      exists (Made t'), w', (registered t (ls ++ [])). split; [|split; [by eapply won_moved|simpl; lia]].
      unfold create_step. rewrite app_nil_r.
      assert (Hf : create_files name cfg n (w, registered t ls) = (Ok t', (w', registered t ls))) by by apply Hrun.
      by rewrite (bind_Ok _ _ _ _ _ (attempt_Ok _ _ _ _ Hf)).
    + exists (Answered (inr (TopicAlreadyExists name))), w, (registered t (ls ++ [t'])). split; [|split; [|simpl; lia]].
      * unfold create_step, registered.
        rewrite (bind_Ok _ _ _ _ _ (attempt_Err _ _ _ _ (create_register_late w _ _ name t' (next_arc p0) (lookup_insert_eq _ _ _)))).
        simpl. by rewrite <- app_assoc.
      * eapply won_moved; try done. by constructor.
    + subst r. exists (Answered (inr (TopicAlreadyExists name))), w, (registered t ls). split; [done|].
      split; [by rewrite list_insert_id|simpl; lia].
Qed.

(** ** Whole schedules *)
Lemma race_run late schedule calls w s :
  plain name -> topics k0 !! name = None -> Forall spec_ok specs -> race_state late calls (w, s) ->
  exists calls' w' s', race name schedule calls (w, s) = (Ok calls', (w', s')) /\ race_state late calls' (w', s')
    /\ forall i c, calls !! i = Some c -> exists c', calls' !! i = Some c'
         /\ (left (cc_phase c') + count_occ Nat.eq_dec schedule i <= left (cc_phase c) \/ left (cc_phase c') = 0)%nat.
Proof.
  intros Hp Hfree Hok. revert calls w s. induction schedule as [|i schedule IH]; intros calls w s Hst.
  { exists calls, w, s. split; [done|]. split; [done|]. intros i c Hi. exists c. split; [done|]. simpl. lia. }
  cbn [race]. destruct (calls !! i) as [[cfg n ph]|] eqn:Hi.
  - destruct (race_step_run late calls w s i cfg n ph Hp Hfree Hok Hst Hi) as (ph' & w1 & s1 & Hrun & Hst1 & Hleft).
    rewrite (bind_Ok _ _ _ _ _ Hrun). destruct (IH _ _ _ Hst1) as (calls' & w' & s' & Hrun' & Hst' & Hend).
    exists calls', w', s'. split; [done|]. split; [done|]. intros j c Hj.
    destruct (decide (i = j)) as [<-|Hne].
    + destruct (Hend i (mkCall cfg n ph')) as (c' & Hc' & Hl); [apply list_lookup_insert_eq; by eapply lookup_lt_Some|].
      exists c'. split; [done|]. rewrite Hi in Hj. injection Hj as <-. rewrite count_occ_cons_eq by done. simpl in *. lia.
    + destruct (Hend j c) as (c' & Hc' & Hl); [by rewrite list_lookup_insert_ne|].
      exists c'. split; [done|]. by rewrite count_occ_cons_neq.
  - destruct (IH _ _ _ Hst) as (calls' & w' & s' & Hrun' & Hst' & Hend). exists calls', w', s'.
    split; [done|]. split; [done|]. intros j c Hj. destruct (Hend j c Hj) as (c' & Hc' & Hl). exists c'.
    split; [done|]. rewrite count_occ_cons_neq by congruence. done.
Qed.

Lemma race_app l1 l2 calls s : race name (l1 ++ l2) calls s = bind (race name l1 calls) (race name l2) s.
Proof.
  revert calls s. induction l1 as [|i l1 IH]; intros calls s; [done|]. cbn [app race].
  destruct (calls !! i) as [[cfg n ph]|]; [|apply IH]. unfold bind.
  destruct (create_step name cfg n ph s) as [[ph'|e|m|] s1]; [apply IH|done..].
Qed.

(** Every call has checked once each has had a turn. *)
Lemma race_checks order calls w :
  topics k0 !! name = None -> Forall spec_ok (map spec_of calls) -> NoDup order ->
  (forall i, i ∈ order -> exists s, calls !! i = Some (arrive s)) ->
  exists calls', race name order calls (w, (p0, k0)) = (Ok calls', (w, (p0, k0)))
    /\ map spec_of calls' = map spec_of calls
    /\ forall j, calls' !! j = (if decide (j ∈ order) then (fun c => mkCall (cc_config c) (cc_partitions c) Checked) <$> calls !! j
                               else calls !! j).
Proof.
  intros Hfree Hok. revert calls Hok. induction order as [|i order IH]; intros calls Hok Hnd Hin.
  { exists calls. split; [done|]. split; [done|]. intros j. by rewrite decide_False by apply not_elem_of_nil. }
  apply NoDup_cons in Hnd as [Hni Hnd]. destruct (Hin i ltac:(by left)) as ([cfg n] & Hi). cbn [race]. rewrite Hi.
  unfold arrive. cbn [fst snd].
  assert (Hspec : spec_ok (cfg, n)).
  { apply (Forall_lookup_1 _ _ i _ Hok). change ((spec_of <$> calls) !! i = Some (cfg, n)). by rewrite list_lookup_fmap, Hi. }
  assert (Hrun : create_step name cfg n Arrived (w, (p0, k0)) = (Ok Checked, (w, (p0, k0)))).
  { unfold create_step, create_check. rewrite (proj2 (Z.eqb_neq n 0)) by (destruct Hspec; simpl in *; lia).
    unfold attempt, bind, kafko. simpl. by rewrite Hfree. }
  rewrite (bind_Ok _ _ _ _ _ Hrun). pose proof (specs_insert calls i _ Checked Hi) as Hsp. simpl in Hsp.
  destruct (IH (<[i := mkCall cfg n Checked]> calls)) as (calls' & Hrun' & Hsp' & Hl); [by rewrite Hsp|done|..].
  { intros j Hj. rewrite list_lookup_insert_ne by (intros ->; done). apply Hin. by right. }
  exists calls'. split; [done|]. split; [congruence|]. intros j. rewrite Hl. destruct (decide (i = j)) as [<-|Hne].
  - rewrite decide_False, decide_True by (done || by left). rewrite Hi.
    apply list_lookup_insert_eq. by eapply lookup_lt_Some.
  - rewrite list_lookup_insert_ne by done. destruct (decide (j ∈ order)) as [Hj|Hj].
    + by rewrite decide_True by by right.
    + rewrite decide_False; [done|]. by rewrite elem_of_cons; intros [->|?].
Qed.

(** ** The outcome *)
Record outcome_of (late : bool) (calls : list CreateCall) (w : World) (s : Process * Kafko)
    (x : nat) (t : Topic) (ls : list Topic) : Prop := {
  oo_phases : map cc_phase calls
    = <[x := Answered (inl tt)]> (replicate (length specs) (Answered (inr (TopicAlreadyExists name))));
  oo_state : s = registered t ls;
  oo_winner : exists c, specs !! x = Some c /\ made_by c w t;
  oo_losers : Forall (fun t' => exists c, c ∈ specs /\ made_by c w t') ls;
  oo_outside : outside (dir k0 ++ [name]) w0 w;
  oo_late : late = true -> length ls = pred (length specs);
}.

Lemma sum_lost_phases calls x n :
  map cc_phase calls = <[x := Answered (inl tt)]> (replicate n (Answered (inr (TopicAlreadyExists name)))) ->
  (x < n)%nat -> sum_list_with lost calls = pred n.
Proof.
  intros E Hx. assert (Hl : length calls = n).
  { apply (f_equal length) in E. by rewrite length_map, length_insert, length_replicate in E. }
  set (f := fun ph => match ph with Answered (inr _) => 1%nat | _ => 0%nat end).
  assert (Hf : sum_list_with lost calls = sum_list_with f (map cc_phase calls)).
  { clear. induction calls as [|c calls IH]; [done|]. simpl. by rewrite IH. }
  rewrite Hf, E. clear E Hf Hl. revert x Hx. induction n as [|n IH]; intros x Hx; [lia|].
  assert (Hr : forall m, sum_list_with f (replicate m (Answered (inr (TopicAlreadyExists name)))) = m).
  { induction m as [|m IHm]; [done|]. simpl. by rewrite IHm. }
  destruct x as [|x]; simpl; [apply Hr|]. rewrite IH by lia. simpl. lia.
Qed.

Lemma race_outcome late calls w s :
  specs <> [] -> race_state late calls (w, s) ->
  (forall i c, calls !! i = Some c -> left (cc_phase c) = 0%nat) ->
  exists x t ls, outcome_of late calls w s x t ls.
Proof.
  intros Hne Hst Hend. assert (Hans : forall i c, calls !! i = Some c -> exists r, cc_phase c = Answered r).
  { intros i c Hi. specialize (Hend i c Hi). destruct (cc_phase c); simplify_eq/=. eauto. }
  assert (Hlen : length specs = length calls).
  { assert (Hsp : map spec_of calls = specs) by (by inversion Hst). by rewrite <- Hsp, length_map. }
  inversion Hst as [w1 Hsp Hs Ho Hl|w1 x c t ls Hsp Hs Hx Hw Ht Ho Hls Hl]; subst w1 s.
  - destruct calls as [|c calls]; [by destruct specs|]. destruct (Hans 0%nat c eq_refl) as [r Hr].
    apply Forall_cons in Ho as [Hc _]. unfold open_call in Hc. by rewrite Hr in Hc.
  - assert (Hph : map cc_phase calls
      = <[x := Answered (inl tt)]> (replicate (length specs) (Answered (inr (TopicAlreadyExists name))))).
    { apply list_eq. intros j. change (map cc_phase calls) with (cc_phase <$> calls). rewrite list_lookup_fmap, Hlen.
      pose proof (lookup_lt_Some _ _ _ Hx) as Hlt. destruct (decide (j = x)) as [->|Hj].
      { rewrite Hx, list_lookup_insert_eq by by rewrite length_replicate. simpl. by rewrite Hw. }
      rewrite list_lookup_insert_ne by done. destruct (calls !! j) as [c'|] eqn:Hc'.
      - rewrite lookup_replicate_2 by by eapply lookup_lt_Some. simpl. f_equal.
        destruct (Hans j c' Hc') as [r Hr]. specialize (Ho j c' Hj Hc'). unfold lost_call in Ho. rewrite Hr in *. by subst r.
      - symmetry. apply lookup_replicate_None. by apply lookup_ge_None in Hc'. }
    exists x, t, ls. split; try done.
    + exists (spec_of c). split; [|done]. rewrite <- Hsp. change ((spec_of <$> calls) !! x = Some (spec_of c)).
      by rewrite list_lookup_fmap, Hx.
    + apply Hs.
    + intros E. destruct (Hl E) as [_ ->]. apply (sum_lost_phases calls x); [done|]. rewrite Hlen. by eapply lookup_lt_Some.
Qed.

End one_race.

Lemma race_site w p k ts hs name :
  broker_rep (R := R) w p k ts hs -> ts !! name = None -> name <> LOCK_FILENAME -> site w k name w.
Proof.
  intros Hb Hn Hl. pose proof Hb as [B1 B2 B3 B4 B5 B6 B7 B8 B9 B10 B11 B12 B13 B14]. split; [done|done| |by split].
  intros j Hj. apply (on_parts_fresh (D := D) w (dir k ++ [name]) (Datatypes.S j)); try done.
  - by destruct (dir k).
  - intros q [->|Hq]%prefix_snoc_inv Hne; [right; by eapply B11|left; by apply B2].
  - intros q Hq _. by eapply B11.
  - apply lookup_replicate. split; [done|lia].
Qed.

Lemma count_once (l : list nat) i : NoDup l -> (count_occ Nat.eq_dec l i <= 1)%nat.
Proof. intros Hn. apply (NoDup_count_occ Nat.eq_dec). by apply NoDup_ListNoDup. Qed.

Lemma create_race_run w p k ts hs name specs schedule :
  broker_rep (R := R) w p k ts hs -> ts !! name = None -> plain name -> name <> LOCK_FILENAME ->
  specs <> [] -> Forall spec_ok specs ->
  (forall i, (i < length specs)%nat -> (3 <= count_occ Nat.eq_dec schedule i)%nat) ->
  exists calls w' s x t ls, race name schedule (map arrive specs) (w, (p, k)) = (Ok calls, (w', s))
    /\ outcome_of w p k name specs false calls w' s x t ls
    /\ (take (length specs) schedule ≡ₚ seq 0 (length specs) -> length ls = pred (length specs)).
Proof.
  intros Hb Hn Hp Hl Hne Hok Hcount. pose proof (race_site _ _ _ _ _ _ Hb Hn Hl) as Hs.
  pose proof (br_only _ _ _ _ _ Hb _ Hn) as Hfree.
  assert (Hsp : map spec_of (map arrive specs) = specs).
  { rewrite map_map. erewrite map_ext; [apply map_id|]. by intros []. }
  assert (Hlook : forall i c, map arrive specs !! i = Some c -> exists s, c = arrive s /\ specs !! i = Some s).
  { intros i c Hi. change (map arrive specs) with (arrive <$> specs) in Hi. apply list_lookup_fmap_Some in Hi. naive_solver. }
  destruct (race_run w p k name specs false schedule (map arrive specs) w (p, k) Hp Hfree Hok)
    as (calls & w' & s & Hrun & Hst & Hend).
  { apply rs_open; [done..| |done]. apply Forall_forall. by intros c (s & -> & _)%list_elem_of_fmap. }
  assert (Hlen : length calls = length specs).
  { assert (E : map spec_of calls = specs) by (by inversion Hst). by rewrite <- E, length_map. }
  assert (Hdone : forall i c, calls !! i = Some c -> left (cc_phase c) = 0%nat).
  { intros i c Hi. pose proof (lookup_lt_Some _ _ _ Hi) as Hlt. rewrite Hlen in Hlt. specialize (Hcount i Hlt).
    destruct (lookup_lt_is_Some_2 (map arrive specs) i) as [c0 Hc0]; [by rewrite length_map|].
    destruct (Hlook i c0 Hc0) as (s0 & -> & _). destruct (Hend i _ Hc0) as (c' & Hc' & Hle).
    rewrite Hi in Hc'. injection Hc' as <-. simpl in Hle. lia. }
  destruct (race_outcome w p k name specs false calls w' s Hne Hst Hdone) as (x & t & ls & Hout).
  exists calls, w', s, x, t, ls. split; [done|]. split; [done|]. intros Hperm.
  set (order := take (length specs) schedule) in *. set (rest := drop (length specs) schedule).
  assert (E : schedule = order ++ rest) by (symmetry; apply take_drop).
  destruct (race_checks p k name order (map arrive specs) w Hfree) as (calls1 & Hrun1 & Hsp1 & Hl1).
  { by rewrite Hsp. } { rewrite Hperm. apply NoDup_seq. }
  { intros i Hi. rewrite Hperm, elem_of_seq in Hi. destruct (lookup_lt_is_Some_2 specs i) as [c Hc]; [lia|].
    exists c. change ((arrive <$> specs) !! i = Some (arrive c)). by rewrite list_lookup_fmap, Hc. }
  assert (Hchecked : forall i c, calls1 !! i = Some c -> cc_phase c = Checked).
  { intros i c Hi. assert (Hlt : (i < length specs)%nat).
    { apply lookup_lt_Some in Hi. apply (f_equal length) in Hsp1. rewrite !length_map in Hsp1. lia. }
    rewrite Hl1, decide_True in Hi by (rewrite Hperm, elem_of_seq; lia). by apply fmap_Some in Hi as (c' & _ & ->). }
  assert (Hst1 : race_state w p k name specs true calls1 (w, (p, k))).
  { apply rs_open; [by rewrite Hsp1|done|..]; [|intros _]; apply Forall_lookup_2; intros i c Hi; unfold open_call;
      by rewrite (Hchecked i c Hi). }
  destruct (race_run w p k name specs true rest calls1 w (p, k) Hp Hfree Hok Hst1) as (calls2 & w2 & s2 & Hrun2 & Hst2 & _).
  rewrite E, race_app, (bind_Ok _ _ _ _ _ Hrun1), Hrun2 in Hrun. injection Hrun as -> -> ->.
  destruct (race_outcome w p k name specs true calls w' s Hne Hst2 Hdone) as (x2 & t2 & ls2 & [_ H2 _ _ _ Hlate]).
  destruct Hout as [_ H1 _ _ _ _]. rewrite <- Hlate by done. rewrite H1 in H2. 
  apply (f_equal (fun s => exiting (fst s))) in H2. simpl in H2. apply app_inv_head in H2. by rewrite H2.
Qed.

End race.
