(* ===== verification/BrokerRefine.v ===== *)
(** * The broker as a map of topics

    A client drives a broker through [bop]s: the admin calls and, through the
    handles it has obtained, sends, takes and seeks; between two of them the
    retention timer of any partition may fire ([BTick]).  [astep] is what each
    of these means on a map of abstract topics and the open handles - the
    topic's name and, of a consumer, its cursors; [exec] runs the code.  Every
    run of the code is a run of the abstract broker. *)

From S2P Require Import Prelude Bytes Error Compression LogRecord Fs Names Search.
From S2P Require Import Segment SparseIndex Log LogInv LogOps LogRecover LogCrash LogSpec LogStore.
From S2P Require Import OffsetStore Partition PartitionSpec Topic Producer TopicSpec TopicStore.
From S2P Require Import Consumer ConsumerSpec GroupSpec Broker BrokerSpec Registry BrokerStore BrokerOpen.

Inductive bop : Type :=
| BCreate (name : string) (cfg : LogConfig) (n : Z)
| BDelete (name : string)
| BProducer (name : string)
| BDrop (i : nat)
| BSend (i : nat) (key : option (list byte)) (value : list byte)
| BConsumer (name : string)
| BNext (i : nat)
| BSeek (i : nat) (partition offset : Z)
| BSeekAll (i : nat) (offset : Z)
| BList
| BCount (name : string)
| BTick (name : string) (i : nat).

Inductive bres : Type :=
| Done
| Sent (pos : RecordPosition)
| Took (item : option (RecordPosition * record))
| Listed (names : list string)
| Counted (n : option Z)
| Failed (e : KafkoError).

(** ** The abstract broker *)
Abbreviation astate := (gmap string atopic * list (string * option Consumer))%type.

Inductive astep (now : Z) : bop -> astate -> bres -> astate -> Prop :=
| a_create name cfg n ts hs :
    n <> 0 -> ts !! name = None ->
    astep now (BCreate name cfg n) (ts, hs) Done (<[name := empty_topic n cfg]> ts, hs)
| a_create_zero name cfg ts hs :
    astep now (BCreate name cfg 0) (ts, hs) (Failed (InvalidPartitionCount 0)) (ts, hs)
| a_create_exists name cfg n ts hs t :
    n <> 0 -> ts !! name = Some t ->
    astep now (BCreate name cfg n) (ts, hs) (Failed (TopicAlreadyExists name)) (ts, hs)
| a_delete name ts hs t :
    ts !! name = Some t -> name ∉ hs.*1 -> astep now (BDelete name) (ts, hs) Done (delete name ts, hs)
| a_delete_in_use name ts hs t :
    ts !! name = Some t -> name ∈ hs.*1 ->
    astep now (BDelete name) (ts, hs) (Failed (TopicInUse name)) (ts, hs)
| a_delete_missing name ts hs :
    ts !! name = None -> astep now (BDelete name) (ts, hs) (Failed (TopicNotFound name)) (ts, hs)
| a_producer name ts hs t :
    ts !! name = Some t -> astep now (BProducer name) (ts, hs) Done (ts, hs ++ [(name, None)])
| a_producer_missing name ts hs :
    ts !! name = None -> astep now (BProducer name) (ts, hs) (Failed (TopicNotFound name)) (ts, hs)
| a_drop i ts hs :
    (i < length hs)%nat -> astep now (BDrop i) (ts, hs) Done (ts, delete i hs)
| a_send i key value ts hs name t n a :
    hs !! i = Some (name, None) -> ts !! name = Some t -> at_logs t !! n = Some a ->
    (forall b, key = Some b -> Z.of_nat n = partition_index b (len (at_logs t))) ->
    astep now (BSend i key value) (ts, hs) (Sent (mkPosition (Z.of_nat n) (a_next a)))
      (<[name := mkATopic (<[n := a_append [LogRecord.new now key value] a]> (at_logs t)) (at_config t)]> ts, hs)
| a_consumer name ts hs t :
    ts !! name = Some t ->
    astep now (BConsumer name) (ts, hs) Done
      (ts, hs ++ [(name, Some (mkConsumer (replicate (length (at_logs t)) 0) 0 None))])
| a_consumer_missing name ts hs :
    ts !! name = None -> astep now (BConsumer name) (ts, hs) (Failed (TopicNotFound name)) (ts, hs)
| a_take i ts hs name c t hit :
    hs !! i = Some (name, Some c) -> ts !! name = Some t ->
    hit = pick (length (at_logs t)) (scan_start c) (seq 0 (length (at_logs t))) (at_logs t) (cursors c) ->
    astep now (BNext i) (ts, hs) (Took (item_of hit))
      (ts, <[i := (name, Some (advance (length (at_logs t)) hit c))]> hs)
| a_seek i q off ts hs name c :
    hs !! i = Some (name, Some c) ->
    astep now (BSeek i q off) (ts, hs) Done (ts, <[i := (name, Some (seek q off c))]> hs)
| a_seek_all i off ts hs name c :
    hs !! i = Some (name, Some c) ->
    astep now (BSeekAll i off) (ts, hs) Done (ts, <[i := (name, Some (seek_all off c))]> hs)
| a_list ts hs l :
    l ≡ₚ (map_to_list ts).*1 -> Sorted String.leb l -> astep now BList (ts, hs) (Listed l) (ts, hs)
| a_count name ts hs :
    astep now (BCount name) (ts, hs) (Counted ((fun t => len (at_logs t)) <$> ts !! name)) (ts, hs)
| a_tick name i ts hs t a n :
    ts !! name = Some t -> at_logs t !! i = Some a -> may_drop (at_config t) n a ->
    astep now (BTick name i) (ts, hs) Done
      (<[name := mkATopic (<[i := a_drop n a]> (at_logs t)) (at_config t)]> ts, hs).

(** What the code needs of a call: names that are one path component and not
    the lock file's, configurations with a timer that runs, handles that exist,
    records that fit; and a timer is some partition's. *)
Definition op_ok {B : Buf} {H : Crc32} {C : Codecs} (w : World) (o : bop) (s : astate) : Prop :=
  match o with
  | BCreate name cfg n => 0 <= n < 2 ^ 32 /\ plain name /\ name <> LOCK_FILENAME /\ usable cfg
  | BDrop i => (i < length (snd s))%nat
  | BSend i key value => exists name t,
      snd s !! i = Some (name, None) /\ fst s !! name = Some t
      /\ storable (compression (at_config t)) (LogRecord.new (stamp w) key value)
      /\ room w (at_config t) [LogRecord.new (stamp w) key value]
      /\ forall a, a ∈ at_logs t -> a_next a + 1 < 2 ^ 64
  | BNext i => exists name c t, snd s !! i = Some (name, Some c) /\ fst s !! name = Some t /\ room w (at_config t) []
  | BSeek i _ off | BSeekAll i off => is_u64 off /\ exists name c, snd s !! i = Some (name, Some c)
  | BTick name i => exists t, fst s !! name = Some t /\ (i < length (at_logs t))%nat
  | _ => True
  end.

Inductive asteps (now : Z) : list bop -> astate -> list bres -> astate -> Prop :=
| asteps_nil s : asteps now [] s [] s
| asteps_cons o os s r s1 rs s2 :
    astep now o s r s1 -> asteps now os s1 rs s2 -> asteps now (o :: os) s (r :: rs) s2.

(** Every call of the sequence is fine wherever the earlier ones lead. *)
Fixpoint ops_ok {B : Buf} {H : Crc32} {C : Codecs} (w : World) (os : list bop) (s : astate) : Prop :=
  match os with
  | [] => True
  | o :: os' => op_ok w o s /\ forall r s', astep (stamp w) o s r s' -> ops_ok w os' s'
  end.

Section refine.
Context {B : Buf} {H : Crc32} {C : Codecs} {F : Flock}.

(** ** Running the code *)
Definition answer {A} (f : A -> bres) (m : KM (World * (Process * Kafko)) A) : KM (World * (Process * Kafko)) bres :=
  let* r := attempt m in
  ret (match r with inl a => f a | inr e => Failed e end).

(** A consumer is its client's: a call takes it and gives it back. *)
Definition with_consumer {A} (id : nat) (c : Consumer) (m : KM (World * Session) A)
    : KM (World * Process) ((A + KafkoError) * Consumer) :=
  fun '(w, p) =>
    let '(o, (w', (p', c'))) := attempt (E' := KafkoError) (on_consumer id m) (w, (p, c)) in
    (match o with
     | Ok r => Ok (r, c')
     | Err e => Err e
     | Panic msg => Panic msg
     | NoFuel => NoFuel
     end, (w', p')).

(** A producer's handle, or a consumer's with the consumer. *)
Abbreviation client := (handle * option Consumer)%type.

Definition exec (o : bop) (hs : list client) : KM (World * (Process * Kafko)) (bres * list client) :=
  match o with
  | BCreate name cfg n =>
      let* r := answer (fun _ => Done) (create_topic_with_config_and_partitions name cfg n) in ret (r, hs)
  | BDelete name => let* r := answer (fun _ => Done) (delete_topic name) in ret (r, hs)
  | BProducer name =>
      let* r := attempt (producer_for name) in
      ret (match r with inl id => (Done, hs ++ [((name, id), None)]) | inr e => (Failed e, hs) end)
  | BDrop i =>
      match hs !! i with
      | Some ((_, id), _) => let* _ := on_process (arc_drop id) in ret (Done, delete i hs)
      | None => ret (Done, hs)
      end
  | BSend i key value =>
      match hs !! i with
      | Some ((_, id), None) =>
          let* r := answer Sent (on_process (on_arc id (Producer.send key value))) in ret (r, hs)
      | _ => ret (Done, hs)
      end
  | BConsumer name =>
      let* r := attempt (consumer_for name) in
      ret (match r with inl (id, c) => (Done, hs ++ [((name, id), Some c)]) | inr e => (Failed e, hs) end)
  | BNext i =>
      match hs !! i with
      | Some (h, Some c) =>
          let* r := on_process (with_consumer (snd h) c next_with_position) in
          ret (match fst r with inl item => Took item | inr e => Failed e end, <[i := (h, Some (snd r))]> hs)
      | _ => ret (Done, hs)
      end
  | BSeek i partition offset =>
      match hs !! i with
      | Some (h, Some c) => ret (Done, <[i := (h, Some (seek partition offset c))]> hs)
      | _ => ret (Done, hs)
      end
  | BSeekAll i offset =>
      match hs !! i with
      | Some (h, Some c) => ret (Done, <[i := (h, Some (seek_all offset c))]> hs)
      | _ => ret (Done, hs)
      end
  | BList => let* l := list_topics in ret (Listed l, hs)
  | BCount name => let* n := partition_count name in ret (Counted n, hs)
  | BTick name i => let* _ := retention_timer name i in ret (Done, hs)
  end.

Fixpoint exec_all (os : list bop) (hs : list client) : KM (World * (Process * Kafko)) (list bres * list client) :=
  match os with
  | [] => ret ([], hs)
  | o :: os' =>
      let* r := exec o hs in
      let* rs := exec_all os' (snd r) in
      ret (fst r :: fst rs, snd rs)
  end.

Context {FL : FlockLaws F}.
Context {R S : World -> Log -> alog -> Prop} {D : World -> path -> alog -> Prop}.
Context {LC : LogContract R} {LS : LogStore R S D}.

Lemma answer_Ok {A} (f : A -> bres) (m : KM (World * (Process * Kafko)) A) s a s' :
  m s = (Ok a, s') -> answer f m s = (Ok (f a), s').
Proof. intros Hm. unfold answer. by rewrite (bind_Ok _ _ _ _ _ (attempt_Ok _ _ _ _ Hm)). Qed.

Lemma answer_Err {A} (f : A -> bres) (m : KM (World * (Process * Kafko)) A) s e s' :
  m s = (Err e, s') -> answer f m s = (Ok (Failed e), s').
Proof. intros Hm. unfold answer. by rewrite (bind_Ok _ _ _ _ _ (attempt_Err _ _ _ _ Hm)). Qed.

Lemma handles_names name (hs : list handle) : handles_of name hs <> [] <-> name ∈ hs.*1.
Proof.
  rewrite list_elem_of_fmap. split.
  - intros Hne. destruct (handles_of name hs) as [|[b id] l] eqn:E; [done|].
    assert (Hin : (b, id) ∈ handles_of name hs) by (rewrite E; by left).
    unfold handles_of in Hin. apply list_elem_of_filter in Hin as [Eb Hin]. exists (b, id). by rewrite <- Eb.
  - intros ([b id] & -> & Hin) E. simpl in E. apply elem_of_handles in Hin. rewrite E in Hin. by apply elem_of_nil in Hin.
Qed.

Lemma list_topics_run w p k ts hs :
  broker_rep (R := R) w p k ts hs ->
  exists l, list_topics (w, (p, k)) = (Ok l, (w, (p, k))) /\ l ≡ₚ (map_to_list ts).*1 /\ Sorted String.leb l.
Proof.
  intros Hb. eexists. split; [reflexivity|]. split.
  - rewrite merge_sort_Permutation. apply NoDup_Permutation; [apply NoDup_fst_map_to_list..|].
    intros name. rewrite !list_elem_of_fmap. pose proof (br_registered _ _ _ _ _ name Hb) as [Hx Hy]. split.
    + intros ([b i] & -> & Hi%elem_of_map_to_list). simpl. destruct (Hx ltac:(eauto)) as [t Ht].
      exists (b, t). by rewrite elem_of_map_to_list.
    + intros ([b t] & -> & Ht%elem_of_map_to_list). simpl. destruct (Hy ltac:(eauto)) as [i Hi].
      exists (b, i). by rewrite elem_of_map_to_list.
  - apply Sorted_merge_sort. intros a b. destruct (String.leb_total a b) as [->| ->]; [by left|by right].
Qed.

Lemma partition_count_run w p k ts hs name :
  broker_rep (R := R) w p k ts hs ->
  partition_count name (w, (p, k)) = (Ok ((fun t => len (at_logs t)) <$> ts !! name), (w, (p, k))).
Proof.
  intros Hb. unfold partition_count, bind at 1, kafko. simpl. destruct (ts !! name) as [t|] eqn:E.
  - destruct (br_topic _ _ _ _ _ Hb _ _ E) as (id & Hi & tp & Ha & Hr & _). rewrite Hi. simpl.
    unfold bind, on_process, zoom, arc_get. simpl. rewrite Ha. simpl. unfold ret. do 2 f_equal.
    f_equal. by eapply topic_rep_count.
  - by rewrite (br_only _ _ _ _ _ Hb _ E).
Qed.

Lemma op_ok_env w w' o s : same_env w w' -> op_ok w o s -> op_ok w' o s.
Proof.
  intros [E1 E2]. assert (E : seg_limit w' = seg_limit w) by (unfold seg_limit; by rewrite E2).
  assert (Hroom : forall cfg rs, room w cfg rs -> room w' cfg rs).
  { intros cfg rs [G1 G2 G3]. split; try done; by rewrite E. }
  destruct o; simpl; try done.
  - unfold stamp. rewrite E1. intros (name & t & H1 & H2 & H3 & H4 & H5). exists name, t. split_and!; auto.
  - intros (name & c & t & H1 & H2 & H3). exists name, c, t. split_and!; auto.
Qed.

Lemma stamp_env w w' : same_env w w' -> stamp w' = stamp w.
Proof. unfold stamp. by intros [-> _]. Qed.

(** ** Consumers *)
Lemma consumer_for_run w p k ts hs name t :
  broker_rep (R := R) w p k ts hs -> ts !! name = Some t ->
  exists id p', consumer_for name (w, (p, k))
      = (Ok (id, mkConsumer (replicate (length (at_logs t)) 0) 0 None), (w, (p', k)))
    /\ broker_rep (R := R) w p' k ts (hs ++ [(name, id)]).
Proof.
  intros Hb Ht. destruct (topic_run w p k ts hs name t Hb Ht) as (id & p1 & Hrun & Hi & Hb1).
  destruct (br_topic _ _ _ _ _ Hb1 _ _ Ht) as (id' & Hi' & tp & Ha & Hr & _). rewrite Hi in Hi'. injection Hi' as <-.
  exists id, p1. split; [|exact Hb1]. unfold consumer_for. rewrite (bind_Ok _ _ _ _ _ Hrun).
  unfold bind, on_process, zoom, arc_get, ret. cbn [fst snd]. rewrite Ha. cbn [fst snd].
  unfold from_topic, from_topic_at. rewrite (topic_rep_count _ _ _ _ Hr). unfold len. by rewrite Nat2Z.id.
Qed.

Lemma next_handle_run w p k ts hs i name id t c :
  broker_rep (R := R) w p k ts hs -> hs !! i = Some (name, id) -> ts !! name = Some t ->
  length (cursors c) = length (at_logs t) -> Forall is_u64 (cursors c) -> room w (at_config t) [] ->
  let n := length (at_logs t) in
  let hit := pick n (scan_start c) (seq 0 n) (at_logs t) (cursors c) in
  exists w' p', on_process (with_consumer id c next_with_position) (w, (p, k))
      = (Ok (inl (item_of hit), advance n hit c), (w', (p', k)))
    /\ broker_rep (R := R) w' p' k ts hs /\ outside (dir k ++ [name]) w w'
    /\ length (cursors (advance n hit c)) = n /\ Forall is_u64 (cursors (advance n hit c)).
Proof.
  intros Hb Hh Ht Hl Hu Hro n hit.
  destruct (handle_topic _ _ _ _ _ _ _ _ Hb Hh) as (Hi & t' & Ht' & (tp & Ha & Hr & Hc & Hn) & _).
  rewrite Ht in Ht'. injection Ht' as <-. rewrite <- Hc in Hro.
  assert (Hs : session_rep (R := R) w (dir k ++ [name]) (tp, c) (at_logs t)) by by split.
  destruct (next_with_position_run w _ tp c _ Hs) as (w' & tp' & Hrun & Hs' & Hc' & Hn' & Hy). cbv zeta in *.
  fold n hit in Hrun, Hs'. pose proof (topic_stays_outside _ _ _ Hy) as Ho.
  exists w', (set_arcs (<[id := (tp', Datatypes.S (length (handles_of name hs)))]> (arcs p)) p).
  split; [|split; [|split; [exact Ho|split; apply Hs']]].
  - unfold on_process, zoom, with_consumer, attempt, on_consumer. cbn [fst snd]. rewrite Ha, Hrun. reflexivity.
  - rewrite <- (insert_id ts name t Ht). eapply (rep_slot name w p k ts hs); try done; simpl.
    + apply Hs'.
    + by rewrite Hc', Hc.
    + by rewrite Hn'.
    + intros j Hin. pose proof (br_handles _ _ _ _ _ Hb _ _ Hin). congruence.
Qed.

(** What the abstract broker sees of the handles. *)
Definition forget (hs : list client) : list (string * option Consumer) := map (fun x => (fst (fst x), snd x)) hs.

Definition consumers_ok (ts : gmap string atopic) (hs : list (string * option Consumer)) : Prop :=
  forall name c t, (name, Some c) ∈ hs -> ts !! name = Some t ->
    length (cursors c) = length (at_logs t) /\ Forall is_u64 (cursors c).

Record clients_rep (w : World) (p : Process) (k : Kafko) (ts : gmap string atopic) (hs : list client) : Prop := {
  cl_broker : broker_rep (R := R) w p k ts hs.*1;
  cl_consumers : consumers_ok ts (forget hs);
}.

Lemma forget_names hs : (forget hs).*1 = hs.*1.*1.
Proof. unfold forget. rewrite map_map, <- list_fmap_compose. done. Qed.

Lemma forget_lookup hs i name co :
  forget hs !! i = Some (name, co) -> exists id, hs !! i = Some ((name, id), co) /\ hs.*1 !! i = Some (name, id).
Proof.
  intros Hi. apply list_lookup_fmap_Some in Hi as ([[b id] c] & E & Hi). injection E as -> ->.
  exists id. split; [done|]. by rewrite list_lookup_fmap, Hi.
Qed.

Lemma forget_insert hs i h co name id :
  hs !! i = Some (h, co) -> h = (name, id) -> forall c,
  forget (<[i := (h, Some c)]> hs) = <[i := (name, Some c)]> (forget hs)
  /\ (<[i := (h, Some c)]> hs).*1 = hs.*1.
Proof.
  intros Hi -> c. split; [apply (list_fmap_insert (fun x : client => (fst (fst x), snd x)))|].
  rewrite list_fmap_insert. apply list_insert_id. by rewrite list_lookup_fmap, Hi.
Qed.

Lemma consumers_ok_weaken ts ts' hs :
  (forall name t', name ∈ hs.*1 -> ts' !! name = Some t' ->
     exists t, ts !! name = Some t /\ length (at_logs t) = length (at_logs t')) ->
  consumers_ok ts hs -> consumers_ok ts' hs.
Proof.
  intros Hts Hok name c t' Hin Ht'. destruct (Hts name t') as (t & Ht & <-); [|done|by apply (Hok name c t)].
  apply list_elem_of_fmap. by exists (name, Some c).
Qed.

Lemma consumers_ok_insert ts hs i name c0 c :
  consumers_ok ts hs -> hs !! i = Some (name, Some c0) ->
  (forall t, ts !! name = Some t -> length (cursors c0) = length (at_logs t) -> Forall is_u64 (cursors c0) ->
     length (cursors c) = length (at_logs t) /\ Forall is_u64 (cursors c)) ->
  consumers_ok ts (<[i := (name, Some c)]> hs).
Proof.
  intros Hok Hi Hc nm c' t Hin Ht. apply list_elem_of_lookup in Hin as [j Hj].
  apply list_lookup_insert_Some in Hj as [(<- & E & _)|[_ Hj]].
  - injection E as -> ->. apply list_elem_of_lookup_2 in Hi. destruct (Hok _ _ _ Hi Ht) as [H1 H2]. by apply Hc.
  - apply list_elem_of_lookup_2 in Hj. by apply (Hok nm).
Qed.

(** ** One call *)
Definition call_runs (w : World) (p : Process) (k : Kafko) (ts : gmap string atopic) (hs : list client) (o : bop) : Prop :=
  exists r w' p' k' ts' hs', exec o hs (w, (p, k)) = (Ok (r, hs'), (w', (p', k')))
    /\ astep (stamp w) o (ts, forget hs) r (ts', forget hs') /\ clients_rep w' p' k' ts' hs'
    /\ dir k' = dir k /\ same_env w w'.

Lemma call_same w p k ts hs o r :
  clients_rep w p k ts hs -> exec o hs (w, (p, k)) = (Ok (r, hs), (w, (p, k))) ->
  astep (stamp w) o (ts, forget hs) r (ts, forget hs) -> call_runs w p k ts hs o.
Proof. intros Hb Hrun Hst. exists r, w, p, k, ts, hs. by split_and!. Qed.

Lemma names_registered w p k ts hs name :
  broker_rep (R := R) w p k ts hs.*1 -> name ∈ (forget hs).*1 -> exists t, ts !! name = Some t.
Proof.
  intros Hb Hin. rewrite forget_names in Hin. apply list_elem_of_fmap in Hin as ([b id] & -> & Hin).
  apply list_elem_of_lookup in Hin as [i Hi].
  destruct (handle_topic _ _ _ _ _ _ _ _ Hb Hi) as (_ & t & Ht & _). by exists t.
Qed.

Lemma create_call w p k ts hs name cfg n :
  clients_rep w p k ts hs -> op_ok w (BCreate name cfg n) (ts, forget hs) -> call_runs w p k ts hs (BCreate name cfg n).
Proof.
  intros Hc (Hn & Hp & Hl & Hu). pose proof (cl_broker _ _ _ _ _ Hc) as Hb.
  destruct (decide (n = 0)) as [->|Hz]; [|destruct (ts !! name) as [t|] eqn:E].
  - eapply call_same; [done| |constructor]. cbn [exec]. unfold create_topic_with_config_and_partitions.
    by rewrite (bind_Ok _ _ _ _ _ (answer_Err _ _ _ _ _ (create_topic_zero w p k name cfg))).
  - eapply call_same; [done| |by econstructor]. cbn [exec]. unfold create_topic_with_config_and_partitions.
    by rewrite (bind_Ok _ _ _ _ _ (answer_Err _ _ _ _ _ (create_topic_exists _ _ _ _ _ _ cfg n t Hb E Hz))).
  - destruct (create_topic_run w p k ts hs.*1 name cfg n Hu Hb E Hp Hl ltac:(lia)) as (w' & p' & k' & Hrun & Hb' & Hd & Ho).
    exists Done, w', p', k', (<[name := empty_topic n cfg]> ts), hs. cbn [exec].
    rewrite (bind_Ok _ _ _ _ _ (answer_Ok _ _ _ _ _ Hrun)). split; [done|]. split; [by constructor|].
    split; [|split; [done|by eapply outside_env]]. split; [done|].
    eapply consumers_ok_weaken, (cl_consumers _ _ _ _ _ Hc). intros nm t' Hin Ht'.
    destruct (names_registered _ _ _ _ _ _ Hb Hin) as [t Ht]. exists t. split; [done|].
    rewrite lookup_insert_ne in Ht' by congruence. congruence.
Qed.

Lemma delete_call w p k ts hs name :
  clients_rep w p k ts hs -> call_runs w p k ts hs (BDelete name).
Proof.
  intros Hc. pose proof (cl_broker _ _ _ _ _ Hc) as Hb.
  destruct (ts !! name) as [t|] eqn:E; [destruct (decide (name ∈ hs.*1.*1)) as [Hin|Hin]|].
  - eapply call_same; [done| |econstructor; [done|by rewrite forget_names]]. cbn [exec].
    by rewrite (bind_Ok _ _ _ _ _ (answer_Err _ _ _ _ _
      (delete_topic_in_use _ _ _ _ _ _ _ Hb E (proj2 (handles_names _ _) Hin)))).
  - assert (Hh : handles_of name hs.*1 = []).
    { destruct (handles_of name hs.*1) eqn:Eh; [done|]. destruct Hin. apply handles_names. by rewrite Eh. }
    destruct (delete_topic_run w p k ts hs.*1 name t Hb E Hh) as (w' & p' & k' & Hrun & Hb' & Hd & Ho).
    exists Done, w', p', k', (delete name ts), hs. cbn [exec].
    rewrite (bind_Ok _ _ _ _ _ (answer_Ok _ _ _ _ _ Hrun)). split; [done|].
    split; [econstructor; [done|by rewrite forget_names]|]. split; [|split; [done|by eapply outside_env]].
    split; [done|]. eapply consumers_ok_weaken, (cl_consumers _ _ _ _ _ Hc).
    intros nm t' _ [_ Ht']%lookup_delete_Some. by exists t'.
  - eapply call_same; [done| |by constructor]. cbn [exec].
    by rewrite (bind_Ok _ _ _ _ _ (answer_Err _ _ _ _ _ (delete_topic_missing _ _ _ _ _ _ Hb E))).
Qed.

Lemma consumers_ok_app ts hs name co :
  consumers_ok ts hs ->
  (forall c t, co = Some c -> ts !! name = Some t ->
     length (cursors c) = length (at_logs t) /\ Forall is_u64 (cursors c)) ->
  consumers_ok ts (hs ++ [(name, co)]).
Proof.
  intros Hok Hc nm c t Hin Ht. apply elem_of_app in Hin as [Hin|Hin]; [by apply (Hok nm)|].
  apply list_elem_of_singleton in Hin. injection Hin as -> <-. by apply Hc.
Qed.

Lemma producer_call w p k ts hs name :
  clients_rep w p k ts hs -> call_runs w p k ts hs (BProducer name).
Proof.
  intros Hc. pose proof (cl_broker _ _ _ _ _ Hc) as Hb. destruct (ts !! name) as [t|] eqn:E.
  - destruct (topic_run w p k ts hs.*1 name t Hb E) as (id & p' & Hrun & _ & Hb').
    exists Done, w, p', k, ts, (hs ++ [((name, id), None)]). cbn [exec]. unfold producer_for.
    rewrite (bind_Ok _ _ _ _ _ (attempt_Ok _ _ _ _ Hrun)). split; [done|].
    unfold forget. rewrite map_app. split; [by econstructor|]. split; [|done].
    split; [by rewrite fmap_app|]. unfold forget. rewrite map_app. by apply consumers_ok_app; [apply Hc|].
  - eapply call_same; [done| |by constructor]. cbn [exec]. unfold producer_for.
    by rewrite (bind_Ok _ _ _ _ _ (attempt_Err _ _ _ _ (topic_not_found _ _ _ _ _ _ Hb E))).
Qed.

Lemma consumer_call w p k ts hs name :
  clients_rep w p k ts hs -> call_runs w p k ts hs (BConsumer name).
Proof.
  intros Hc. pose proof (cl_broker _ _ _ _ _ Hc) as Hb. destruct (ts !! name) as [t|] eqn:E.
  - destruct (consumer_for_run w p k ts hs.*1 name t Hb E) as (id & p' & Hrun & Hb').
    eexists Done, w, p', k, ts, (hs ++ [((name, id), Some _)]). cbn [exec].
    rewrite (bind_Ok _ _ _ _ _ (attempt_Ok _ _ _ _ Hrun)). split; [reflexivity|].
    unfold forget. rewrite map_app. split; [by econstructor|]. split; [|done].
    split; [by rewrite fmap_app|]. unfold forget. rewrite map_app. apply consumers_ok_app; [apply Hc|].
    intros c t' [= <-] Ht'. simpl in Ht'. rewrite E in Ht'. injection Ht' as <-. simpl. rewrite length_replicate.
    split; [done|]. by apply Forall_replicate.
  - eapply call_same; [done| |by constructor]. cbn [exec]. unfold consumer_for.
    by rewrite (bind_Ok _ _ _ _ _ (attempt_Err _ _ _ _ (bind_Err _ _ _ _ _ (topic_not_found _ _ _ _ _ _ Hb E)))).
Qed.

Lemma drop_call w p k ts hs i :
  clients_rep w p k ts hs -> (i < length hs)%nat -> call_runs w p k ts hs (BDrop i).
Proof.
  intros Hc Hlt. pose proof (cl_broker _ _ _ _ _ Hc) as Hb.
  destruct (lookup_lt_is_Some_2 hs i Hlt) as [[[name id] co] Hi].
  assert (Hi1 : hs.*1 !! i = Some (name, id)) by by rewrite list_lookup_fmap, Hi.
  destruct (drop_handle_run w p k ts hs.*1 i name id Hb Hi1) as (p' & Hrun & Hb').
  assert (E : forget (delete i hs) = delete i (forget hs)) by apply list_fmap_delete.
  exists Done, w, p', k, ts, (delete i hs). cbn [exec]. rewrite Hi. rewrite (bind_Ok _ _ _ _ _ Hrun).
  split; [done|]. rewrite E. split; [constructor; unfold forget; by rewrite length_map|].
  split; [|done]. split; [by rewrite list_fmap_delete|]. rewrite E. intros nm c t Hin.
  apply (cl_consumers _ _ _ _ _ Hc). by eapply elem_of_submseteq, sublist_submseteq, sublist_delete.
Qed.

(** One topic's logs change, their number does not. *)
Lemma consumers_ok_logs ts hs name t ls cfg :
  consumers_ok ts (forget hs) -> ts !! name = Some t -> length ls = length (at_logs t) ->
  consumers_ok (<[name := mkATopic ls cfg]> ts) (forget hs).
Proof.
  intros Hok Ht Hl. eapply consumers_ok_weaken, Hok. intros nm t' _ Ht'.
  apply lookup_insert_Some in Ht' as [[<- <-]|[_ Ht']]; [by exists t|by exists t'].
Qed.

Lemma send_call w p k ts hs i key value :
  clients_rep w p k ts hs -> op_ok w (BSend i key value) (ts, forget hs) -> call_runs w p k ts hs (BSend i key value).
Proof.
  intros Hc (name & t & Hh & Ht & Hst & Hro & Hnx). pose proof (cl_broker _ _ _ _ _ Hc) as Hb. simpl in Hh, Ht.
  destruct (forget_lookup _ _ _ _ Hh) as (id & Hi & Hi1).
  destruct (send_handle_run w p k ts hs.*1 i name id t key value Hb Hi1 Ht Hst Hro Hnx)
    as (w' & p' & n & a & Hrun & Hla & Hroute & Hb' & Ho).
  eexists _, w', p', k, _, hs. cbn [exec]. rewrite Hi. rewrite (bind_Ok _ _ _ _ _ (answer_Ok _ _ _ _ _ Hrun)).
  split; [reflexivity|]. split; [by econstructor|]. split; [|split; [done|by eapply outside_env]].
  split; [done|]. by apply (consumers_ok_logs ts hs name t); [apply Hc|done|rewrite length_insert].
Qed.

Lemma tick_call w p k ts hs name i :
  clients_rep w p k ts hs -> op_ok w (BTick name i) (ts, forget hs) -> call_runs w p k ts hs (BTick name i).
Proof.
  intros Hc (t & Ht & Hlt). simpl in Ht. pose proof (cl_broker _ _ _ _ _ Hc) as Hb.
  destruct (lookup_lt_is_Some_2 (at_logs t) i Hlt) as [a Ha].
  destruct (retention_timer_run w p k ts hs.*1 name t i a Hb Ht Ha) as (w' & p' & n & Hrun & Hd & Hb' & Ho).
  eexists Done, w', p', k, _, hs. cbn [exec]. rewrite (bind_Ok _ _ _ _ _ Hrun). split; [reflexivity|].
  split; [by econstructor|]. split; [|split; [done|by eapply outside_env]].
  split; [done|]. by apply (consumers_ok_logs ts hs name t); [apply Hc|done|rewrite length_insert].
Qed.

Lemma next_call w p k ts hs i :
  clients_rep w p k ts hs -> op_ok w (BNext i) (ts, forget hs) -> call_runs w p k ts hs (BNext i).
Proof.
  intros Hc (name & c & t & Hh & Ht & Hro). pose proof (cl_broker _ _ _ _ _ Hc) as Hb. simpl in Hh, Ht.
  destruct (forget_lookup _ _ _ _ Hh) as (id & Hi & Hi1).
  destruct (cl_consumers _ _ _ _ _ Hc name c t (list_elem_of_lookup_2 _ _ _ Hh) Ht) as [Hl Hu].
  destruct (next_handle_run w p k ts hs.*1 i name id t c Hb Hi1 Ht Hl Hu Hro) as (w' & p' & Hrun & Hb' & Ho & Hl' & Hu').
  cbv zeta in *.
  eexists _, w', p', k, ts, (<[i := ((name, id), Some _)]> hs). cbn [exec]. rewrite Hi.
  rewrite (bind_Ok _ _ _ _ _ Hrun). split; [reflexivity|].
  edestruct (forget_insert hs i (name, id) (Some c) name id Hi eq_refl) as [-> E].
  split; [by econstructor|]. split; [|split; [done|by eapply outside_env]].
  split; [by rewrite E|]. edestruct (forget_insert hs i (name, id) (Some c) name id Hi eq_refl) as [-> _].
  eapply consumers_ok_insert; [apply Hc|done|]. intros t' Ht' _ _. rewrite Ht in Ht'. by injection Ht' as <-.
Qed.

Lemma seek_client w p k ts hs i name id c c' :
  clients_rep w p k ts hs -> hs !! i = Some ((name, id), Some c) ->
  length (cursors c') = length (cursors c) -> (Forall is_u64 (cursors c) -> Forall is_u64 (cursors c')) ->
  clients_rep w p k ts (<[i := ((name, id), Some c')]> hs)
  /\ forget (<[i := ((name, id), Some c')]> hs) = <[i := (name, Some c')]> (forget hs).
Proof.
  intros Hc Hi Hl Hu. destruct (forget_insert hs i (name, id) (Some c) name id Hi eq_refl c') as [E1 E2].
  split; [|done]. split; [rewrite E2; apply Hc|]. rewrite E1. eapply consumers_ok_insert; [apply Hc| |].
  - unfold forget. rewrite list_lookup_fmap, Hi. reflexivity.
  - intros t _ HL HU. split; [congruence|auto].
Qed.

Lemma exec_run w p k ts hs o :
  clients_rep w p k ts hs -> op_ok w o (ts, forget hs) -> call_runs w p k ts hs o.
Proof.
  intros Hc Hok. pose proof (cl_broker _ _ _ _ _ Hc) as Hb.
  destruct o as [name cfg n|name|name|i|i key value|name|i|i q off|i off| |name|name i].
  - by apply create_call.
  - by apply delete_call.
  - by apply producer_call.
  - apply drop_call; [done|]. simpl in Hok. unfold forget in Hok. by rewrite length_map in Hok.
  - by apply send_call.
  - by apply consumer_call.
  - by apply next_call.
  - destruct Hok as (Ho & name & c & Hh). simpl in Hh. destruct (forget_lookup _ _ _ _ Hh) as (id & Hi & _).
    destruct (seek_client w p k ts hs i name id c (seek q off c) Hc Hi) as [Hc' E].
    + unfold seek. destruct (cursors c !! _); [|done]. simpl. by rewrite length_insert.
    + intros Hu. unfold seek. destruct (cursors c !! _); [|done]. simpl. by apply Forall_insert.
    + eexists _, w, p, k, ts, _. cbn [exec]. rewrite Hi. split; [reflexivity|]. rewrite E. split; [by constructor|done].
  - destruct Hok as (Ho & name & c & Hh). simpl in Hh. destruct (forget_lookup _ _ _ _ Hh) as (id & Hi & _).
    destruct (seek_client w p k ts hs i name id c (seek_all off c) Hc Hi) as [Hc' E].
    + simpl. by rewrite length_map.
    + intros Hu. simpl. apply Forall_forall. intros z (y & -> & _)%list_elem_of_fmap. done.
    + eexists _, w, p, k, ts, _. cbn [exec]. rewrite Hi. split; [reflexivity|]. rewrite E. split; [by constructor|done].
  - destruct (list_topics_run w p k ts hs.*1 Hb) as (l & Hrun & Hp & Hs).
    eapply call_same; [done| |by constructor]. cbn [exec]. by rewrite (bind_Ok _ _ _ _ _ Hrun).
  - eapply call_same; [done| |by constructor]. cbn [exec].
    by rewrite (bind_Ok _ _ _ _ _ (partition_count_run _ _ _ _ _ _ Hb)).
  - by apply tick_call.
Qed.

(** ** Any sequence of calls *)
Lemma exec_all_run w p k ts hs os :
  clients_rep w p k ts hs -> ops_ok w os (ts, forget hs) ->
  exists rs w' p' k' ts' hs', exec_all os hs (w, (p, k)) = (Ok (rs, hs'), (w', (p', k')))
    /\ asteps (stamp w) os (ts, forget hs) rs (ts', forget hs') /\ clients_rep w' p' k' ts' hs'
    /\ dir k' = dir k.
Proof.
  revert w p k ts hs. induction os as [|o os IH]; intros w p k ts hs Hb Hok.
  { eexists _, w, p, k, ts, hs. split; [reflexivity|]. split; [constructor|done]. }
  destruct Hok as [Ho Hok]. cbn [exec_all].
  destruct (exec_run w p k ts hs o Hb Ho) as (r & w1 & p1 & k1 & ts1 & hs1 & Hrun & Hst & Hb1 & Hd & He).
  assert (Hok1 : ops_ok w1 os (ts1, forget hs1)).
  { specialize (Hok _ _ Hst). clear - Hok He. revert Hok. generalize (ts1, forget hs1).
    induction os as [|o os IH]; [done|]. intros s [H1 H2]. split; [by eapply op_ok_env|].
    rewrite (stamp_env _ _ He). intros r s' Hst. by eapply IH, H2. }
  destruct (IH w1 p1 k1 ts1 hs1 Hb1 Hok1) as (rs & w2 & p2 & k2 & ts2 & hs2 & Hrun2 & Hst2 & Hb2 & Hd2).
  rewrite (stamp_env _ _ He) in Hst2.
  rewrite (bind_Ok _ _ _ _ _ Hrun). cbn [snd]. rewrite (bind_Ok _ _ _ _ _ Hrun2).
  eexists _, w2, p2, k2, ts2, hs2. split; [reflexivity|]. split; [by econstructor|]. split; [done|congruence].
Qed.

End refine.
