(* ===== verification/BrokerGroup.v ===== *)
(** * Consumer groups of a broker

    A consumer of a group starts where the group committed, whether the commit
    happened in this process or before a restart. *)

From S2P Require Import Prelude Bytes Error Compression LogRecord Fs Names Search.
From S2P Require Import Segment SparseIndex Log LogInv LogOps LogRecover LogCrash LogSpec LogStore.
From S2P Require Import OffsetStore Partition PartitionSpec Topic Producer TopicSpec TopicStore.
From S2P Require Import Consumer ConsumerSpec GroupSpec Broker BrokerSpec Registry BrokerStore BrokerOpen.

Section groups.
Context {B : Buf} {H : Crc32} {C : Codecs} {F : Flock} {FL : FlockLaws F} {HL : Crc32Laws H}.
Context {R S : World -> Log -> alog -> Prop} {D : World -> path -> alog -> Prop}.
Context {LC : LogContract R} {LS : LogStore R S D}.

(** ** The group's file *)
Record offsets_kept (w : World) (d : path) (g : string) (os : list Z) : Prop := {
  ok_dir : nodes w !! d = Some NDir;
  ok_file : exists f, nodes w !! (d ++ [g]) = Some (NFile f) /\ f_data f = encode os /\ f_synced f = f_data f;
  ok_temp : nodes w !! (d ++ [g +:+ TEMP_SUFFIX]) <> Some NDir;
}.

Lemma offsets_kept_spares w w' d g os : spares d w w' -> offsets_kept w d g os -> offsets_kept w' d g os.
Proof.
  intros Hs [H1 (f & Hf) H3]. split.
  - by rewrite Hs.
  - exists f. rewrite Hs; [done|by eexists].
  - rewrite Hs; [done|by eexists].
Qed.

Lemma offsets_kept_crash w w' d g os : crash w w' -> offsets_kept w d g os -> offsets_kept w' d g os.
Proof.
  intros Hc [H1 (f & Hf & Hd & Hsy) H3]. split.
  - by apply (crash_dir _ _ _ Hc).
  - destruct (crash_synced _ _ _ _ Hc Hf Hsy) as (f' & Hf' & E & Hsy'). exists f'. split_and!; congruence.
  - by rewrite (crash_dir _ _ _ Hc).
Qed.

Lemma commit_kept w d s os w' :
  store_ok w d s -> OffsetStore.commit os (w, s) = (Ok tt, (w', set_committed os s)) ->
  offsets_kept w' d (OffsetStore.group s) os.
Proof.
  intros Hok Hc. destruct (commit_stays w d s os w' Hok Hc) as [_ [_ _ K1 _ _ K2 _ K3]]. simpl in *.
  destruct (commit_run w d s os Hok) as (w1 & Hrun & _ & t & Hn). rewrite Hc in Hrun. injection Hrun as <-.
  split; [done| |by rewrite <- K2]. eexists. rewrite Hn, <- (so_file _ _ _ Hok), lookup_insert_eq. by split_and!.
Qed.

(** ** Opening a consumer of a group *)
Lemma offsets_dirs_free w p k ts hs name t :
  broker_rep (R := R) w p k ts hs -> ts !! name = Some t ->
  nodes w !! offsets_dir (dir k ++ [name]) = Some NDir \/ nodes w !! offsets_dir (dir k ++ [name]) = None ->
  dirs_free w (offsets_dir (dir k ++ [name])).
Proof.
  intros Hb Ht Ho q Hq Hne. destruct (br_topic _ _ _ _ _ Hb _ _ Ht) as (_ & _ & tp & _ & Hr & _).
  apply prefix_snoc_inv in Hq as [->|[->|Hq]%prefix_snoc_inv]; [done|left; apply (tl_dir _ _ _ (tr_layout _ _ _ _ Hr))|].
  left. by apply (br_dirs _ _ _ _ _ Hb).
Qed.

Lemma consumer_for_group_run w p k ts hs name t g :
  broker_rep (R := R) w p k ts hs -> ts !! name = Some t ->
  validate_group_name (S := World) g w = (Ok tt, w) ->
  let d := offsets_dir (dir k ++ [name]) in
  (nodes w !! d = Some NDir \/ nodes w !! d = None) ->
  nodes w !! (d ++ [g]) <> Some NDir -> nodes w !! (d ++ [g +:+ TEMP_SUFFIX]) <> Some NDir ->
  exists id w' p' s, consumer_for_group name g (w, (p, k)) =
      (Ok (id, mkConsumer (zip_with (fun o a => Z.min o (a_next a)) (OffsetStore.committed s) (at_logs t)) 0 (Some s)),
       (w', (p', k)))
    /\ broker_rep (R := R) w' p' k ts (hs ++ [(name, id)]) /\ store_ok w' d s
    /\ OffsetStore.group s = g
    /\ (length (OffsetStore.committed s) = length (at_logs t) /\ Forall is_u64 (OffsetStore.committed s))
    /\ (nodes w !! (d ++ [g]) = None -> OffsetStore.committed s = replicate (length (at_logs t)) 0)
    /\ (forall os, offsets_kept w d g os -> Forall is_u64 os -> length os = length (at_logs t) ->
          OffsetStore.committed s = os).
Proof.
  intros Hb Ht Hv d Hd Hg Htmp.
  destruct (topic_run w p k ts hs name t Hb Ht) as (id & p1 & Hrun & Hi & Hb1).
  destruct (br_topic _ _ _ _ _ Hb1 _ _ Ht) as (id' & Hi' & tp & Ha & Hr & Hc & Hnm).
  rewrite Hi in Hi'. injection Hi' as <-.
  pose proof (topic_rep_count _ _ _ _ Hr) as Hpc.
  pose proof (offsets_dirs_free _ _ _ _ _ _ _ Hb Ht Hd) as Hfree. fold d in Hfree.
  destruct (store_open_run w d g (Topic.partition_count tp) (br_quiet _ _ _ _ _ Hb))
    as (w1 & s & Ho & Hok & Hsg & [Hsl Hsu] & Hgr & Hs0 & Hsf); try done.
  { unfold d, offsets_dir. intros E. apply (f_equal length) in E. rewrite !length_app in E. simpl in E. lia. }
  pose proof (topic_rep_offsets_grows _ _ _ _ _ Hgr Hr) as Hr1.
  assert (Hout : outside (dir k ++ [name]) w w1).
  { unfold d, offsets_dir in Hgr. rewrite <- app_assoc in Hgr.
    eapply grows_outside_dir; [exact Hgr|apply (br_dirs _ _ _ _ _ Hb)]. }
  assert (Hlen : length (OffsetStore.committed s) = length (at_logs t)).
  { rewrite Hsl, Hpc. unfold len. lia. }
  exists id, w1, (set_arcs (<[id := (tp, Datatypes.S (length (handles_of name (hs ++ [(name, id)]))))]> (arcs p1)) p1), s.
  split; [|split; [|split; [done|split; [done|split; [done|split]]]]].
  - unfold consumer_for_group. rewrite (bind_Ok _ _ _ _ _ Hrun). unfold bind at 1, kafko at 1. cbn [snd].
    rewrite (join_plain _ _ (br_plain _ _ _ _ _ Hb _ _ Ht)).
    unfold bind at 1, on_process at 1, zoom, arc_get. cbn [fst snd]. rewrite Ha. cbn [fst snd].
    fold (offsets_dir (dir k ++ [name])). fold d.
    rewrite (bind_Ok _ _ _ _ _ (attempt_Ok _ _ _ _ (in_world_run _ _ _ (p1, k) _ Ho))). cbv iota.
    unfold ret. do 2 f_equal; [|by rewrite insert_id; destruct p1]. do 2 f_equal.
    unfold from_topic_with_group. f_equal. by apply (resume_cursors (R := R) w1 (dir k ++ [name]) tp (at_logs t) s).
  - rewrite <- (insert_id ts name t Ht). eapply (rep_slot name w p1 k ts (hs ++ [(name, id)])); try done.
    intros i Hin. pose proof (br_handles _ _ _ _ _ Hb1 _ _ Hin). congruence.
  - intros Hn. rewrite (Hs0 Hn), Hpc. unfold len. by rewrite Nat2Z.id.
  - intros os [_ (f & Hf & Hfd & _) _] Hu Hl. specialize (Hsf f Hf).
    assert (Hl32 : len os < 2 ^ 32).
    { pose proof (tr_count _ _ _ _ Hr) as Hn. rewrite <- (tr_len _ _ _ _ Hr) in Hl. unfold len in *. lia. }
    rewrite Hfd, decode_encode in Hsf by done. injection Hsf as <-.
    rewrite Hpc. unfold padded, len. rewrite Nat2Z.id, Hl, Nat.sub_diag, app_nil_r. by apply take_ge; rewrite Hl.
Qed.

(** ** Committing through a handle *)
Lemma consumer_handle_commit w p k ts hs i name id t c s :
  broker_rep (R := R) w p k ts hs -> hs !! i = Some (name, id) -> ts !! name = Some t ->
  store c = Some s -> store_ok w (offsets_dir (dir k ++ [name])) s ->
  exists w' p', on_consumer id Consumer.commit (w, (p, c))
      = (Ok tt, (w', (p', set_store (Some (set_committed (cursors c) s)) c)))
    /\ broker_rep (R := R) w' p' k ts hs
    /\ offsets_kept w' (offsets_dir (dir k ++ [name])) (OffsetStore.group s) (cursors c).
Proof.
  intros Hb Hh Ht Hs Hok.
  destruct (handle_topic _ _ _ _ _ _ _ _ Hb Hh) as (Hi & t' & Ht' & (tp & Ha & Hr & Hc & Hn) & Hpos).
  rewrite Ht in Ht'. injection Ht' as <-.
  destruct (commit_run w _ s (cursors c) Hok) as (w1 & Hrun & _).
  destruct (commit_stays w _ s (cursors c) w1 Hok Hrun) as [Hst _].
  exists w1, (set_arcs (<[id := (tp, Datatypes.S (length (handles_of name hs)))]> (arcs p)) p). split; [|split].
  - unfold on_consumer. rewrite Ha. unfold Consumer.commit. by rewrite Hs, Hrun.
  - rewrite <- (insert_id ts name t Ht). eapply (rep_slot name w p k ts hs); try done.
    + eapply outside_below, stays_outside. exact Hst.
    + by eapply topic_rep_offsets_stays.
    + intros j Hin. pose proof (br_handles _ _ _ _ _ Hb _ _ Hin). congruence.
  - by eapply commit_kept.
Qed.

(** ** Across a restart *)
Lemma reopened_group w p d cfg ts name logs g os :
  usable cfg -> data_dir (D := D) w d ts -> ~ locked (d ++ [LOCK_FILENAME]) (flocks p) ->
  (forall id, is_Some (arcs p !! id) -> (id < next_arc p)%nat) ->
  ts !! name = Some logs -> validate_group_name (S := World) g w = (Ok tt, w) ->
  offsets_kept w (offsets_dir (d ++ [name])) g os -> Forall is_u64 os -> length os = length logs ->
  (forall i o a, os !! i = Some o -> logs !! i = Some a -> o <= a_next a) ->
  exists w1 p1 k w2 p2 id c, open_with_config d cfg (w, p) = (Ok k, (w1, p1))
    /\ consumer_for_group name g (w1, (p1, k)) = (Ok (id, c), (w2, (p2, k)))
    /\ cursors c = os
    /\ broker_rep (R := R) w2 p2 k ((fun als => mkATopic als cfg) <$> ts) [(name, id)].
Proof.
  intros Hu0 Hdd Hl Hids Hn Hv Hk Hu Hlen Hle.
  pose proof (dd_topic _ _ _ Hdd _ _ Hn) as (_ & Hlk & _).
  destruct (broker_open_run w p d cfg ts Hu0 Hdd Hl Hids) as (w1 & p1 & k & Hop & Hb & Hdk & _ & Hsp & _).
  pose proof (offsets_kept_spares _ _ _ _ _ (Hsp name Hlk) Hk) as Hk1.
  assert (Ht : ((fun als => mkATopic als cfg) <$> ts) !! name = Some (mkATopic logs cfg)).
  { by rewrite lookup_fmap, Hn. }
  pose proof (consumer_for_group_run w1 p1 k _ [] name _ g Hb Ht (validate_group_name_world _ _ _ Hv)) as Hg.
  cbv zeta in Hg. rewrite Hdk in Hg.
  destruct Hg as (id & w2 & p2 & s & Hrun & Hb2 & _ & _ & _ & _ & Hcm).
  - left. apply Hk1.
  - destruct (ok_file _ _ _ _ Hk1) as (f & -> & _). done.
  - apply Hk1.
  - eexists w1, p1, k, w2, p2, id, _. split; [done|]. split; [exact Hrun|]. split; [|exact Hb2]. simpl.
    rewrite (Hcm os Hk1 Hu Hlen). apply list_eq. intros i. rewrite lookup_zip_with.
    destruct (os !! i) as [o|] eqn:Ho; [|done]. pose proof (lookup_lt_Some _ _ _ Ho) as Hi. rewrite Hlen in Hi.
    destruct (lookup_lt_is_Some_2 logs i Hi) as [a Ha]. rewrite Ha. simpl. f_equal.
    specialize (Hle i o a Ho Ha). lia.
Qed.

Lemma group_resume_run rt w p k ts name id t c s :
  broker_rep (R := R) w p k ts [(name, id)] -> ts !! name = Some t ->
  store c = Some s -> store_ok w (offsets_dir (dir k ++ [name])) s ->
  Forall is_u64 (cursors c) -> length (cursors c) = length (at_logs t) ->
  (forall i o a, cursors c !! i = Some o -> at_logs t !! i = Some a -> o <= a_next a) ->
  exists w1 p1 p2 w2 p3,
    on_consumer id Consumer.commit (w, (p, c)) = (Ok tt, (w1, (p1, set_store (Some (set_committed (cursors c) s)) c)))
    /\ on_process (arc_drop id) (w1, (p1, k)) = (Ok tt, (w1, (p2, k)))
    /\ Broker.shutdown rt (w1, (p2, k)) = (Ok tt, (w2, (p3, set_topics empty k)))
    /\ forall w3 p4 cfg, usable cfg -> crash w2 w3 -> ~ locked (dir k ++ [LOCK_FILENAME]) (flocks p4) ->
         (forall id, is_Some (arcs p4 !! id) -> (id < next_arc p4)%nat) ->
         exists w4 p5 k' w5 p6 id' c', open_with_config (dir k) cfg (w3, p4) = (Ok k', (w4, p5))
           /\ consumer_for_group name (OffsetStore.group s) (w4, (p5, k')) = (Ok (id', c'), (w5, (p6, k')))
           /\ cursors c' = cursors c
           /\ broker_rep (R := R) w5 p6 k' ((fun als => mkATopic als cfg) <$> (at_logs <$> ts)) [(name, id')].
Proof.
  intros Hb Ht Hs Hok Hu Hlen Hle.
  destruct (consumer_handle_commit w p k ts _ 0 name id t c s Hb eq_refl Ht Hs Hok) as (w1 & p1 & Hc & Hb1 & Hk1).
  destruct (drop_handle_run w1 p1 k ts _ 0 name id Hb1 eq_refl) as (p2 & Hd & Hb2). simpl in Hb2.
  destruct (shutdown_run rt w1 p2 k ts [] Hb2) as (w2 & p3 & Hsd & Hset & Hap & _).
  exists w1, p1, p2, w2, p3. do 3 (split; [done|]). intros w3 p4 cfg Hu0 Hcr Hl Hids.
  pose proof (shutdown_data_dir _ _ _ _ _ _ _ Hb2 Hset Hap Hcr) as Hdd.
  apply (reopened_group w3 p4 (dir k) cfg (at_logs <$> ts) name (at_logs t) _ (cursors c) Hu0 Hdd Hl Hids); try done.
  - by rewrite lookup_fmap, Ht.
  - eapply validate_group_name_world. apply (so_valid _ _ _ Hok).
  - eapply offsets_kept_crash; [exact Hcr|]. eapply offsets_kept_spares; [|exact Hk1]. by eapply apart_from_spares.
Qed.

End groups.
