(* ===== verification/BrokerExamples.v ===== *)
(** * A concrete broker for the examples

    A lock table, and a broker opened on an empty file system in which a
    client has created a topic of two partitions. *)

From S2P Require Import Prelude Bytes Error Compression LogRecord Fs Names Search.
From S2P Require Import Segment SparseIndex Log LogInv LogOps LogRecover LogCrash LogSpec LogStore.
From S2P Require Import OffsetStore Partition PartitionSpec Topic Producer TopicSpec TopicStore.
From S2P Require Import Consumer ConsumerSpec GroupSpec Broker BrokerSpec Registry BrokerStore BrokerOpen.
From S2P Require Import BrokerRefine BrokerGroup Examples.

(** The set of locked files. *)
#[export] Instance flock_table : Flock := {
  locks := gset path;
  try_lock_exclusive p l := if decide (p ∈ l) then (Ok false, l) else (Ok true, {[p]} ∪ l);
  unlock p l := l ∖ {[p]};
}.

#[export] Instance flock_table_laws : FlockLaws flock_table.
Proof.
  refine {| locked := (fun p l => p ∈ l) : path -> @locks flock_table -> Prop |}.
  - intros p l Hp. exists ({[p]} ∪ l). simpl. rewrite decide_False by done. split; [done|].
    intros q. rewrite elem_of_union, elem_of_singleton. done.
  - intros p l Hp. simpl. by rewrite decide_True.
  - intros p q l. simpl. rewrite elem_of_difference, elem_of_singleton. split; intros [? ?]; done.
Defined.

Definition fresh_process : Process := mkProcess empty 0 [] [] (empty : gset path).

Lemma ex_data_dir d : d <> [] -> data_dir (D := log_openable) ex_world d empty.
Proof.
  intros Hd. split.
  - done.
  - reflexivity.
  - discriminate.
  - apply ex_dirs_free.
  - done.
  - intros name als Hn. by rewrite lookup_empty in Hn.
  - intros name q _ _ _. apply lookup_empty.
  - unfold ex_world. simpl. by rewrite lookup_empty.
Qed.

Definition ex_data : path := ["data"].
Definition ex_bopened := open_with_config ex_data ex_cfg (ex_world, fresh_process).
Definition ex_bw : World := fst (snd ex_bopened).
Definition ex_bp : Process := snd (snd ex_bopened).
Definition ex_bk : Kafko := match fst ex_bopened with Ok k => k | _ => mkKafko [] empty ex_cfg [] end.

Lemma ex_broker_run :
  open_with_config ex_data ex_cfg (ex_world, fresh_process) = (Ok ex_bk, (ex_bw, ex_bp))
  /\ broker_rep (R := log_refines) ex_bw ex_bp ex_bk empty [] /\ dir ex_bk = ex_data.
Proof.
  destruct (broker_open_run (R := log_refines) (S := log_synced) (D := log_openable) ex_world fresh_process ex_data ex_cfg empty)
    as (w & p & k & Ho & Hb & Hd & _).
  - discriminate.
  - apply ex_data_dir. discriminate.
  - apply not_elem_of_empty.
  - intros id [x Hx]. simpl in Hx. by rewrite lookup_empty in Hx.
  - unfold ex_bk, ex_bw, ex_bp, ex_bopened. rewrite Ho. rewrite fmap_empty in Hb.
    exact (conj eq_refl (conj Hb Hd)).
Qed.

Lemma ex_broker : broker_rep (R := log_refines) ex_bw ex_bp ex_bk empty [] /\ dir ex_bk = ex_data.
Proof. exact (proj2 ex_broker_run). Qed.

Lemma ex_b_env : now_ms ex_bw = 1700000000000 /\ seg_limit ex_bw = 2147479552.
Proof. vm_compute. split; reflexivity. Qed.

#[global] Opaque ex_bopened ex_bw ex_bp ex_bk.

Lemma ex_plain : plain "orders".
Proof. split; [reflexivity|]. split_and!; discriminate. Qed.

Definition ex_ops : list bop :=
  [BCreate "orders" ex_cfg 2; BProducer "orders"; BSend 0 (Some [x61; x62]) [x68; x69]; BTick "orders" 0; BConsumer "orders";
   BNext 1; BSeekAll 1 0; BDrop 0; BCreate "orders" ex_cfg 1; BList].

Lemma ex_clients : clients_rep (R := log_refines) ex_bw ex_bp ex_bk empty [].
Proof. split; [exact (proj1 ex_broker)|]. intros name c t Hin. by apply elem_of_nil in Hin. Qed.

(** Where a call through a handle leads. *)
Lemma ex_send_inv now i key value ts hs r s' name t :
  astep now (BSend i key value) (ts, hs) r s' -> hs !! i = Some (name, None) -> ts !! name = Some t ->
  exists ls, length ls = length (at_logs t) /\ s' = (<[name := mkATopic ls (at_config t)]> ts, hs).
Proof.
  intros Hstep Hh Ht. inversion Hstep; subst.
  match goal with E : hs !! i = Some _ |- _ => rewrite Hh in E; injection E as <- end.
  match goal with E : ts !! name = Some _ |- _ => rewrite Ht in E; injection E as <- end.
  eexists. split; [|reflexivity]. by rewrite length_insert.
Qed.

Lemma ex_tick_inv now name i ts hs r s' t :
  astep now (BTick name i) (ts, hs) r s' -> ts !! name = Some t ->
  exists ls, length ls = length (at_logs t) /\ s' = (<[name := mkATopic ls (at_config t)]> ts, hs).
Proof.
  intros Hstep Ht. inversion Hstep; subst.
  match goal with E : ts !! name = Some _ |- _ => rewrite Ht in E; injection E as <- end.
  eexists. split; [|reflexivity]. by rewrite length_insert.
Qed.

Lemma ex_consumer_inv now name ts hs r s' t :
  astep now (BConsumer name) (ts, hs) r s' -> ts !! name = Some t ->
  exists c, s' = (ts, hs ++ [(name, Some c)]).
Proof. intros Hstep Ht. inversion Hstep; subst; [by eexists|congruence]. Qed.

Lemma ex_take_inv now i ts hs r s' name c :
  astep now (BNext i) (ts, hs) r s' -> hs !! i = Some (name, Some c) ->
  exists c', s' = (ts, <[i := (name, Some c')]> hs).
Proof.
  intros Hstep Hh. inversion Hstep; subst.
  match goal with E : hs !! i = Some _ |- _ => rewrite Hh in E; injection E as <- <- end. by eexists.
Qed.

Lemma ex_seek_all_inv now i off ts hs r s' name c :
  astep now (BSeekAll i off) (ts, hs) r s' -> hs !! i = Some (name, Some c) ->
  exists c', s' = (ts, <[i := (name, Some c')]> hs).
Proof.
  intros Hstep Hh. inversion Hstep; subst.
  match goal with E : hs !! i = Some _ |- _ => rewrite Hh in E; injection E as <- <- end. by eexists.
Qed.

Lemma ex_drop_inv now i ts hs r s' : astep now (BDrop i) (ts, hs) r s' -> s' = (ts, delete i hs).
Proof. intros Hstep. by inversion Hstep. Qed.

Lemma ex_ops_ok : ops_ok ex_bw ex_ops (empty, []).
Proof.
  destruct ex_b_env as [Hnow Hlim]. assert (Hst : stamp ex_bw = 1700000000000) by (unfold stamp; by rewrite Hnow).
  split; [split; [lia|split_and!; [exact ex_plain|discriminate..]]|]. intros r s' Hstep. rewrite Hst in Hstep.
  inversion Hstep; subst; [|by rewrite lookup_empty in *]. clear Hstep.
  split; [exact I|]. intros r s' Hstep. rewrite Hst in Hstep. inversion Hstep; subst; [|by rewrite lookup_insert_eq in *]. clear Hstep.
  split.
  { exists "orders", (empty_topic 2 ex_cfg). simpl. rewrite lookup_insert_eq, Hst. do 2 (split; [reflexivity|]). split; [|split].
    - pose proof (ex_storable CNone) as Hs. by apply Forall_cons in Hs as [Hs _].
    - by apply ex_room_one.
    - intros a Ha. do 2 (apply elem_of_cons in Ha as [->|Ha]; [reflexivity|]).
      destruct (proj1 (elem_of_nil _) Ha). }
  intros r s' Hstep. rewrite Hst in Hstep.
  destruct (ex_send_inv _ _ _ _ _ _ _ _ _ _ Hstep eq_refl (lookup_insert_eq _ _ _)) as (ls & Hls & ->). clear Hstep.
  split; [eexists; split; [apply lookup_insert_eq|simpl; rewrite Hls; simpl; lia]|]. intros r0 s' Hstep.
  destruct (ex_tick_inv _ _ _ _ _ _ _ _ Hstep (lookup_insert_eq _ _ _)) as (ls' & Hls' & ->). clear Hstep.
  split; [exact I|]. intros r1 s' Hstep. destruct (ex_consumer_inv _ _ _ _ _ _ _ Hstep (lookup_insert_eq _ _ _)) as (c & ->).
  clear Hstep. split.
  { do 3 eexists. simpl. split; [reflexivity|]. rewrite lookup_insert_eq. split; [reflexivity|]. by apply ex_room_nil. }
  intros r2 s' Hstep. destruct (ex_take_inv _ _ _ _ _ _ _ _ Hstep eq_refl) as (c' & ->). clear Hstep.
  split; [split; [split; [lia|reflexivity]|exists "orders", c'; reflexivity]|].
  intros r3 s' Hstep. destruct (ex_seek_all_inv _ _ _ _ _ _ _ _ _ Hstep eq_refl) as (c'' & ->). clear Hstep.
  split; [simpl; lia|]. intros r4 s' Hstep. pose proof (ex_drop_inv _ _ _ _ _ _ Hstep) as ->. clear Hstep.
  split; [split; [lia|split_and!; [exact ex_plain|discriminate..]]|]. intros r5 s' _. by split.
Qed.

(** ** A topic, a producer's handle and a consumer of a group *)
Definition ex_bmade := create_topic_inner "orders" ex_cfg 2 (ex_bw, (ex_bp, ex_bk)).
Definition ex_bw1 : World := fst (snd ex_bmade).
Definition ex_bp1 : Process := fst (snd (snd ex_bmade)).
Definition ex_bk1 : Kafko := snd (snd (snd ex_bmade)).

Definition ex_ts : gmap string atopic := <["orders" := empty_topic 2 ex_cfg]> empty.

Lemma ex_ts_orders : ex_ts !! "orders" = Some (empty_topic 2 ex_cfg).
Proof. apply lookup_insert_eq. Qed.

Lemma ex_broker1_run :
  create_topic_inner "orders" ex_cfg 2 (ex_bw, (ex_bp, ex_bk)) = (Ok tt, (ex_bw1, (ex_bp1, ex_bk1)))
  /\ broker_rep (R := log_refines) ex_bw1 ex_bp1 ex_bk1 ex_ts [] /\ dir ex_bk1 = ex_data.
Proof.
  destruct ex_broker as [Hb Hd].
  destruct (create_topic_run (R := log_refines) ex_bw ex_bp ex_bk empty [] "orders" ex_cfg 2 ltac:(discriminate) Hb)
    as (w & p & k & Hrun & Hb' & Hd' & _).
  - apply lookup_empty.
  - exact ex_plain.
  - discriminate.
  - lia.
  - unfold ex_bw1, ex_bp1, ex_bk1, ex_bmade. rewrite Hrun. rewrite Hd in Hd'.
    exact (conj eq_refl (conj Hb' Hd')).
Qed.

Lemma ex_broker1 : broker_rep (R := log_refines) ex_bw1 ex_bp1 ex_bk1 ex_ts [] /\ dir ex_bk1 = ex_data.
Proof. exact (proj2 ex_broker1_run). Qed.

#[global] Opaque ex_bmade ex_bw1 ex_bp1 ex_bk1.

Definition ex_bound := consumer_for_group "orders" "readers" (ex_bw1, (ex_bp1, ex_bk1)).
Definition ex_bw2 : World := fst (snd ex_bound).
Definition ex_bp2 : Process := fst (snd (snd ex_bound)).
Definition ex_bc : Consumer := match fst ex_bound with Ok (_, c) => c | _ => mkConsumer [] 0 None end.
Definition ex_bid : nat := match fst ex_bound with Ok (id, _) => id | _ => 0%nat end.

Definition ex_boffsets : path := offsets_dir (ex_data ++ ["orders"]).

Lemma ex_bnone x : nodes ex_bw1 !! ex_boffsets = None /\ (x = "readers" \/ x = "readers" +:+ TEMP_SUFFIX -> nodes ex_bw1 !! (ex_boffsets ++ [x]) = None).
Proof. split; [vm_compute; reflexivity|]. intros [->| ->]; vm_compute; reflexivity. Qed.

(** The consumer is new: it starts at the beginning of both partitions. *)
Lemma ex_broker2_run :
  consumer_for_group "orders" "readers" (ex_bw1, (ex_bp1, ex_bk1)) = (Ok (ex_bid, ex_bc), (ex_bw2, (ex_bp2, ex_bk1)))
  /\ broker_rep (R := log_refines) ex_bw2 ex_bp2 ex_bk1 ex_ts [("orders", ex_bid)]
  /\ cursors ex_bc = [0; 0] /\ exists s, store ex_bc = Some s /\ store_ok ex_bw2 ex_boffsets s.
Proof.
  destruct ex_broker1 as [Hb Hd]. destruct (ex_bnone "readers") as [Hn1 Hn2].
  destruct (ex_bnone ("readers" +:+ TEMP_SUFFIX)) as [_ Hn3].
  pose proof (consumer_for_group_run (R := log_refines) ex_bw1 ex_bp1 ex_bk1 ex_ts [] "orders" _ "readers" Hb ex_ts_orders) as Hg.
  cbv zeta in Hg. rewrite Hd in Hg. fold ex_boffsets in Hg.
  destruct Hg as (id & w & p & s & Hrun & Hb' & Hok & _ & _ & Hz & _).
  - reflexivity.
  - by right.
  - rewrite Hn2 by by left. done.
  - rewrite Hn3 by by right. done.
  - rewrite (Hz (Hn2 ltac:(by left))) in Hrun.
    unfold ex_bid, ex_bc, ex_bw2, ex_bp2, ex_bound. rewrite Hrun.
    split; [reflexivity|]. split; [exact Hb'|]. split; [reflexivity|]. exists s. split; [reflexivity|exact Hok].
Qed.

Lemma ex_broker2 :
  broker_rep (R := log_refines) ex_bw2 ex_bp2 ex_bk1 ex_ts [("orders", ex_bid)]
  /\ cursors ex_bc = [0; 0] /\ exists s, store ex_bc = Some s /\ store_ok ex_bw2 ex_boffsets s.
Proof. exact (proj2 ex_broker2_run). Qed.

#[global] Opaque ex_bound ex_bw2 ex_bp2 ex_bc ex_bid.
