(* ===== verification/BrokerTheorems.v ===== *)
(** * Properties of the broker

    The registry of topics as an abstract map - retention timers included - the
    directory lock, deletion, consumer groups across a restart, and creations of
    one topic that overlap. *)

From S2P Require Import Prelude Bytes Error Compression LogRecord Fs Names Search.
From S2P Require Import Segment SparseIndex Faults Log LogInv LogOps LogRecover LogCrash LogSpec LogStore LogOpenFaults LogReopen.
From S2P Require Import OffsetStore Partition PartitionSpec Topic Producer TopicSpec TopicStore.
From S2P Require Import Consumer ConsumerSpec GroupSpec Broker BrokerSpec Registry BrokerStore BrokerOpen BrokerStart BrokerCreate BrokerRace.
From S2P Require Import BrokerRefine BrokerGroup Examples ServiceExamples BrokerExamples.

Section theorems.
Context {B : Buf} {H : Crc32} {C : Codecs} {F : Flock} {FL : FlockLaws F} {HL : Crc32Laws H}.
Context {R S : World -> Log -> alog -> Prop} {D : World -> path -> alog -> Prop}.
Context {LC : LogContract R} {LS : LogStore R S D} {LR : LogReopen R D}.

(** C12: whatever sequence of admin calls, of sends through producer handles
    and of takes and seeks through consumers a client makes, and whichever
    partitions' retention timers fire between them, the broker answers as a map
    from topic names to logs does: creating adds empty partitions or reports the
    topic that is there, deleting removes it or reports that it is missing or in
    use by any handle, a send appends to one partition of its topic and to
    nothing else, a timer takes some of the oldest records from its own
    partition and none where the topic's configuration limits neither age nor
    size, a consumer starts at the beginning and takes what its cursors and the
    scan order pick from the logs as they are, and listing gives the names in
    order. *)
Theorem broker_refines_topic_map w p k ts hs os :
  clients_rep (R := R) w p k ts hs -> ops_ok w os (ts, forget hs) ->
  exists rs w' p' k' ts' hs', exec_all os hs (w, (p, k)) = (Ok (rs, hs'), (w', (p', k')))
    /\ asteps (stamp w) os (ts, forget hs) rs (ts', forget hs') /\ clients_rep (R := R) w' p' k' ts' hs'.
Proof.
  intros Hb Hok. destruct (exec_all_run w p k ts hs os Hb Hok) as (rs & w' & p' & k' & ts' & hs' & H1 & H2 & H3 & _).
  by exists rs, w', p', k', ts', hs'.
Qed.

(** C38: a topic that still has producers or consumers when the broker shuts
    down is not closed: its writer tasks go on, and the directory's lock is
    free all the same. *)
Theorem shutdown_leaves_used_topics_running rt w p k ts hs name t :
  broker_rep (R := R) w p k ts hs -> ts !! name = Some t -> handles_of name hs <> [] ->
  exists w1 p1 id tp, Broker.shutdown rt (w, (p, k)) = (Ok tt, (w1, (p1, set_topics empty k)))
    /\ ~ locked (dir_lock k) (flocks p1) /\ topics k !! name = Some id
    /\ arcs p1 !! id = Some (tp, length (handles_of name hs))
    /\ topic_rep (R := R) w1 (dir k ++ [name]) tp (at_logs t)
    /\ forall i q, partitions tp !! i = Some q -> status q = Running.
Proof.
  intros Hb Ht Hh. destruct (shutdown_run rt w p k ts hs Hb) as (w1 & p1 & Hrun & Hset & _ & Hl).
  destruct (Hset name t Ht) as (id & Hi & t' & Ht' & Hs). simpl in Ht', Hs. rewrite Ht in Ht'. injection Ht' as <-.
  destruct (handles_of name hs) as [|h l]; [done|]. simpl in Hs. destruct Hs as (tp & Ha & Hr & _).
  exists w1, p1, id, tp. do 5 (split; [done|]). intros i q Hq.
  pose proof (lookup_lt_Some _ _ _ Hq) as Hlt. rewrite (tr_len _ _ _ _ Hr) in Hlt.
  destruct (lookup_lt_is_Some_2 _ _ Hlt) as [a Hla]. apply (tr_part _ _ _ _ Hr i q a Hq Hla).
Qed.

(** While a broker has a data directory open, opening it again fails with
    [AlreadyOpen] and changes nothing, on disk or in memory. *)
Theorem second_open_is_refused w p k ts hs cfg :
  broker_rep (R := R) w p k ts hs ->
  open_with_config (dir k) cfg (w, p) = (Err (AlreadyOpen (dir k)), (w, p)).
Proof.
  intros Hb. pose proof Hb as [B1 B2 B3 B4 B5 B6 B7 B8 B9 B10 B11 [f B12] B13 B14].
  rewrite B13 in B14. unfold open_with_config.
  rewrite (bind_Ok _ _ _ _ _ (in_world_run _ _ _ p _ (io_Ok _ _ _ _ (create_dir_all_made _ _ B3 B2)))).
  apply bind_Err. by eapply acquire_busy.
Qed.

(** A data directory in which one directory holds no partitions - a topic
    whose name contained a slash, say - cannot be opened at all: the start
    fails with [InvalidTopicLayout] whatever the other topics are, and gives
    the lock back. *)
Theorem foreign_directory_blocks_open w0 w p d cfg ts x :
  usable cfg -> data_dir (D := D) w0 d ts -> ts !! x = None -> x <> LOCK_FILENAME -> outside (d ++ [x]) w0 w ->
  dirs_made w d -> nodes w !! (d ++ [x]) = Some NDir ->
  (forall y k, nodes w !! ((d ++ [x]) ++ [y]) = Some NDir -> parse_u32 y <> Some k) ->
  ~ locked (d ++ [LOCK_FILENAME]) (flocks p) ->
  (forall id, is_Some (arcs p !! id) -> (id < next_arc p)%nat) ->
  exists w' p', open_with_config d cfg (w, p) = (Err (InvalidTopicLayout x layout_none), (w', p'))
    /\ ~ locked (d ++ [LOCK_FILENAME]) (flocks p').
Proof. apply broker_open_foreign. Qed.

(** Deleting a topic that nobody uses closes its partitions, removes its
    directory and everything below it, and disturbs no other topic; with a
    handle outstanding nothing happens at all. *)
Theorem delete_topic_is_all_or_nothing w p k ts hs name t :
  broker_rep (R := R) w p k ts hs -> ts !! name = Some t ->
  (handles_of name hs = [] -> exists w' p' k', delete_topic name (w, (p, k)) = (Ok tt, (w', (p', k')))
     /\ broker_rep (R := R) w' p' k' (delete name ts) hs
     /\ (forall q, (dir k ++ [name]) `prefix_of` q -> nodes w' !! q = None)
     /\ (forall q, ~ (dir k ++ [name]) `prefix_of` q -> nodes w' !! q = nodes w !! q))
  /\ (handles_of name hs <> [] -> delete_topic name (w, (p, k)) = (Err (TopicInUse name), (w, (p, k)))).
Proof.
  intros Hb Ht. split; intros Hh; [|by eapply delete_topic_in_use].
  destruct (delete_topic_run w p k ts hs name t Hb Ht Hh) as (w' & p' & k' & Hrun & Hb' & Hd & Ho).
  exists w', p', k'. do 2 (split; [done|]). split; [|apply Ho]. intros q Hq.
  apply (br_clean _ _ _ _ _ Hb' name); [apply lookup_delete_eq|exact (br_not_lock _ _ _ _ _ _ _ Hb Ht)|by rewrite Hd].
Qed.


(** C15: a consumer of a group that commits resumes, after the broker was shut
    down, crashed and was started again, exactly at the committed position of
    every partition. *)
Theorem group_resumes_after_restart rt w p k ts name id t c s :
  broker_rep (R := R) w p k ts [(name, id)] -> ts !! name = Some t ->
  store c = Some s -> store_ok w (offsets_dir (dir k ++ [name])) s ->
  Forall is_u64 (cursors c) -> length (cursors c) = length (at_logs t) ->
  (forall i o a, cursors c !! i = Some o -> at_logs t !! i = Some a -> o <= a_next a) ->
  exists w1 p1 p2 w2 p3,
    on_consumer id Consumer.commit (w, (p, c)) = (Ok tt, (w1, (p1, set_store (Some (set_committed (cursors c) s)) c)))
    /\ on_process (arc_drop id) (w1, (p1, k)) = (Ok tt, (w1, (p2, k)))
    /\ Broker.shutdown rt (w1, (p2, k)) = (Ok tt, (w2, (p3, set_topics empty k)))
    /\ forall w3 p4 cfg, usable cfg -> crash w2 w3 -> ~ locked (dir k ++ [LOCK_FILENAME]) (flocks p4) ->
         (forall id, is_Some (arcs p4 !! id) -> (id < next_arc p4)%nat) ->
         exists w4 p5 k' w5 p6 id' c', open_with_config (dir k) cfg (w3, p4) = (Ok k', (w4, p5))
           /\ consumer_for_group name (OffsetStore.group s) (w4, (p5, k')) = (Ok (id', c'), (w5, (p6, k')))
           /\ cursors c' = cursors c.
Proof.
  intros Hb Ht Hs Hok Hu Hl Hle.
  destruct (group_resume_run rt w p k ts name id t c s Hb Ht Hs Hok Hu Hl Hle) as (w1 & p1 & p2 & w2 & p3 & H1 & H2 & H3 & H4).
  exists w1, p1, p2, w2, p3. do 3 (split; [done|]). intros w3 p4 cfg Hu0 Hc Hlk Hids.
  destruct (H4 w3 p4 cfg Hu0 Hc Hlk Hids) as (w4 & p5 & k' & w5 & p6 & id' & c' & K1 & K2 & K3 & _).
  by exists w4, p5, k', w5, p6, id', c'.
Qed.

End theorems.

Section drop.
Context {B : Buf} {H : Crc32} {C : Codecs} {F : Flock}.

(** C36: dropping a broker on a multi-threaded runtime does exactly what
    [shutdown] does, in every state and with every outcome. *)
Theorem drop_is_shutdown rt s : drop_kafko MultiThread s = Broker.shutdown rt s.
Proof. apply drop_multi_thread. Qed.

End drop.

(** ** Witnesses *)
Lemma broker_refines_topic_map_witness :
  exists rs w' p' k' ts' hs', exec_all ex_ops [] (ex_bw, (ex_bp, ex_bk)) = (Ok (rs, hs'), (w', (p', k')))
    /\ asteps (stamp ex_bw) ex_ops (empty, []) rs (ts', forget hs').
Proof.
  destruct (broker_refines_topic_map (R := log_refines) ex_bw ex_bp ex_bk empty [] ex_ops ex_clients ex_ops_ok)
    as (rs & w' & p' & k' & ts' & hs' & H1 & H2 & _).
  exists rs, w', p', k', ts', hs'. exact (conj H1 H2).
Defined.

Lemma shutdown_leaves_used_topics_running_witness :
  exists w1 p1 tp, Broker.shutdown MultiThread (ex_bw2, (ex_bp2, ex_bk1)) = (Ok tt, (w1, (p1, set_topics empty ex_bk1)))
    /\ exists id, arcs p1 !! id = Some (tp, 1%nat).
Proof.
  destruct (shutdown_leaves_used_topics_running (R := log_refines) MultiThread ex_bw2 ex_bp2 ex_bk1 ex_ts
    [("orders", ex_bid)] "orders" _ (proj1 ex_broker2) ex_ts_orders) as (w1 & p1 & id & tp & Hrun & _ & _ & Ha & _).
  - discriminate.
  - exists w1, p1, tp. split; [exact Hrun|]. exists id. exact Ha.
Defined.

Lemma second_open_is_refused_witness :
  open_with_config ex_data ex_cfg (ex_bw1, ex_bp1) = (Err (AlreadyOpen ex_data), (ex_bw1, ex_bp1)).
Proof.
  pose proof (second_open_is_refused (R := log_refines) ex_bw1 ex_bp1 ex_bk1 ex_ts [] ex_cfg (proj1 ex_broker1)) as Ho.
  rewrite (proj2 ex_broker1) in Ho. exact Ho.
Defined.

(** The data directory holds a stray directory [a], as after creating a topic
    called [a/b]. *)
Definition ex_swept : World := mkWorld {[ ["data"] := NDir ]} 1700000000000 [] 2147479552.
Definition ex_stray : World := set_nodes <[["data"; "a"] := NDir]> ex_swept.

Lemma ex_swept_node q : q <> ex_data -> nodes ex_swept !! q = None.
Proof. intros Hq. unfold ex_swept. simpl. apply lookup_insert_None. split; [apply lookup_empty|]. intros E. by apply Hq. Qed.

Lemma ex_swept_dir : data_dir (D := log_openable) ex_swept ex_data empty.
Proof.
  assert (Hlong : forall (name : string) q, (ex_data ++ [name]) `prefix_of` q -> q <> ex_data).
  { intros name q Hq ->. apply prefix_length in Hq. simpl in Hq. lia. }
  split.
  - discriminate.
  - reflexivity.
  - discriminate.
  - intros q Hq Hne. destruct (decide (q = ex_data)) as [->|Hd]; [by left|right; by apply ex_swept_node].
  - by intros Hne.
  - intros name als Hn. by rewrite lookup_empty in Hn.
  - intros name q _ _ Hq. apply ex_swept_node. by eapply Hlong.
  - rewrite ex_swept_node; [discriminate|]. intros E. discriminate E.
Qed.

Lemma foreign_directory_blocks_open_witness :
  exists w' p', open_with_config ex_data ex_cfg (ex_stray, fresh_process)
    = (Err (InvalidTopicLayout "a" layout_none), (w', p')).
Proof.
  destruct (foreign_directory_blocks_open (R := log_refines) ex_swept ex_stray fresh_process ex_data ex_cfg empty "a"
    ltac:(discriminate) ex_swept_dir) as (w' & p' & Ho & _).
  - apply lookup_empty.
  - discriminate.
  - split; [reflexivity|]. split; [reflexivity|]. split; [reflexivity|]. intros q Hq.
    unfold ex_stray. rewrite nodes_set_nodes. apply lookup_insert_ne. intros <-. apply Hq. exists []. reflexivity.
  - intros q (z & E) Hne. destruct q as [|x [|y q]]; [by destruct Hne| |discriminate E]. injection E as <- _. reflexivity.
  - reflexivity.
  - intros y k Hy. unfold ex_stray in Hy. rewrite nodes_set_nodes, lookup_insert_ne in Hy by (intros E; discriminate E).
    rewrite ex_swept_node in Hy by (intros E; discriminate E). discriminate Hy.
  - apply not_elem_of_empty.
  - intros id [x Hx]. simpl in Hx. by rewrite lookup_empty in Hx.
  - exists w', p'. exact Ho.
Defined.

Lemma delete_topic_is_all_or_nothing_witness :
  (exists w' p' k', delete_topic "orders" (ex_bw1, (ex_bp1, ex_bk1)) = (Ok tt, (w', (p', k'))))
  /\ delete_topic "orders" (ex_bw2, (ex_bp2, ex_bk1)) = (Err (TopicInUse "orders"), (ex_bw2, (ex_bp2, ex_bk1))).
Proof.
  split.
  - destruct (delete_topic_is_all_or_nothing (R := log_refines) ex_bw1 ex_bp1 ex_bk1 ex_ts [] "orders" _
      (proj1 ex_broker1) ex_ts_orders) as [H1 _].
    destruct (H1 eq_refl) as (w' & p' & k' & Hrun & _). exists w', p', k'. exact Hrun.
  - apply (delete_topic_is_all_or_nothing (R := log_refines) ex_bw2 ex_bp2 ex_bk1 ex_ts [("orders", ex_bid)] "orders" _
      (proj1 ex_broker2) ex_ts_orders). discriminate.
Defined.

Lemma group_resumes_after_restart_witness :
  exists w1 p1 c1 w2, on_consumer ex_bid Consumer.commit (ex_bw2, (ex_bp2, ex_bc)) = (Ok tt, (w1, (p1, c1)))
    /\ forall w3, crash w2 w3 -> exists k' w4 p5 c', open_with_config ex_data ex_cfg (w3, fresh_process) = (Ok k', (w4, p5))
         /\ cursors c' = [0; 0].
Proof.
  destruct ex_broker2 as (Hb & Hc & s & Hs & Hok).
  destruct (group_resumes_after_restart (R := log_refines) MultiThread ex_bw2 ex_bp2 ex_bk1 ex_ts "orders" ex_bid
    (empty_topic 2 ex_cfg) ex_bc s Hb ex_ts_orders Hs) as (w1 & p1 & p2 & w2 & p3 & Hrun & _ & _ & Hnext).
  - rewrite (proj2 ex_broker1). exact Hok.
  - rewrite Hc. repeat (apply Forall_cons; split); try apply Forall_nil; vm_compute; split; congruence.
  - rewrite Hc. reflexivity.
  - rewrite Hc. intros [|[|i]] o a; simpl; [intros [= <-] [= <-]; vm_compute; congruence..|intros E; discriminate E].
  - eexists w1, p1, _, w2. split; [exact Hrun|]. intros w3 Hcr.
    destruct (Hnext w3 fresh_process ex_cfg ltac:(discriminate) Hcr) as (w4 & p5 & k' & w5 & p6 & id' & c' & Ho & _ & Hcur).
    + apply not_elem_of_empty.
    + intros id [x Hx]. simpl in Hx. by rewrite lookup_empty in Hx.
    + rewrite (proj2 ex_broker1) in Ho. rewrite Hc in Hcur. exists k', w4, p5, c'. exact (conj Ho Hcur).
Defined.

(** Two calls for the same topic, with two and with three partitions. *)
Definition ex_specs : list (LogConfig * Z) := [(ex_cfg, 2); (ex_cfg, 3)].
Definition ex_schedule : list nat := [0; 1; 1; 0; 0; 1]%nat.


(** The first one registers first; the third partition's directory stays. *)
Example ex_race :
  (let '(o, (w, _)) := race "orders" ex_schedule (map arrive ex_specs) (ex_bw, (ex_bp, ex_bk)) in
   (match o with
    | Ok calls => map (fun c => match cc_phase c with Answered (inl _) => true | _ => false end) calls
    | _ => []
    end, bool_decide (nodes w !! (ex_data ++ ["orders"; "2"]) = Some NDir))) = ([true; false], true).
Proof. vm_compute. reflexivity. Qed.
