(* ===== verification/RestartTheorems.v ===== *)
(** * Properties of reads, retention, starts and creations that fail

    Reads and retention under any failure script; recovery interrupted by failing system
    calls - of one log and of the whole broker - and tried again; what a
    shutdown, a killed process and a creation that fails half way leave behind. *)

From S2P Require Import Prelude Bytes Error Compression LogRecord Fs Names Search.
From S2P Require Import Segment SparseIndex Faults Log LogInv LogOps LogRetain LogRecover LogCrash LogSpec LogStore LogOpenFaults LogReadFaults LogReopen LogRetainFaults.
From S2P Require Import OffsetStore Partition PartitionSpec Topic Producer TopicSpec TopicStore.
From S2P Require Import Consumer ConsumerSpec GroupSpec Broker BrokerSpec Registry BrokerStore BrokerOpen BrokerStart BrokerCreate.
From S2P Require Import Examples ServiceExamples BrokerExamples.

Section log.
Context {B : Buf} {BL : BufLaws B} {H : Crc32} {HL : Crc32Laws H} {C : Codecs} {CL : CodecLaws C}.

(** C3: whatever a crash leaves of the unsynced bytes, a start opens the log
    with the records from its first offset up to some point, each at its old
    offset: a torn batch loses a suffix, nothing else. And recovery can itself
    be interrupted, at any of its system calls and any number of times: what
    the first start that succeeds finds was settled by the crash. *)
Theorem recovery_is_restartable w w1 l a :
  log_refines w l a -> crash w w1 ->
  exists n, forall w2, rtc (failed_open (Log.dir l)) w1 w2 -> forall cfg,
    exists w3 l3, Log.open (Log.dir l) cfg (calm w2) = (Ok l3, w3)
      /\ log_refines w3 l3 (mkALog (a_start a) (take n (a_recs a))).
Proof.
  intros Hr Hc. destruct (crashed_openable w w1 l a Hr Hc) as (n & Hd). exists n. intros w2 Hf cfg.
  rewrite <- (calm_of_quiet w1) in Hd by apply Hc.
  pose proof (failed_opens_keep (R := log_refines) (S := log_synced) _ _ _ _ Hd Hf) as Hd2.
  destruct (ls_open (R := log_refines) (S := log_synced) (calm w2) (Log.dir l) _ cfg Hd2) as (w3 & l3 & Ho & Hr3 & _).
  by exists w3, l3.
Qed.

(** C6: reads that fail do no harm: under any failure script, each of any
    sequence of reads answers what the log holds at its offset or with an I/O
    error - never with another record, never with none in place of one -, the
    log stays what it was, and a read in which no call fails finds its record
    again. *)
Theorem failed_reads_are_harmless w l a offs :
  log_refines (calm w) l a -> Forall (fun off => 0 <= off) offs ->
  exists rs w' l', read_each offs (w, l) = (Ok rs, (w', l')) /\ Forall2 (right_or_failed a) offs rs
    /\ log_refines (calm w') l' a /\ calm w' = calm w
    /\ forall off, 0 <= off -> exists s, Log.read_record_at off (calm w', l') = (Ok (a_read off a), s).
Proof.
  intros Hr Ho. destruct (read_each_runs w l a offs Hr Ho) as (rs & w' & l' & Hrun & Hf & Hr' & Hw).
  exists rs, w', l'. do 4 (split; [done|]). intros off H0.
  destruct (read_refines _ _ _ off Hr' H0) as (w2 & l2 & Hrd & _). by eexists.
Qed.

(** C27: retention under any failure script. It deletes exactly the oldest
    sealed segments its policies name - by age, then by size from the rest -
    and never the active one, or a call fails and it stops with an error after
    the first [n] of them; the records left keep their offsets. When it stops,
    one more segment ([k = n + 1]) may have been taken out of the log although
    its file is still there: reads no longer find its records, and the next
    start does. *)
Theorem retention_deletes_oldest_or_stops w l start cs c :
  log_rep (calm w) l start cs c ->
  let a := age_deletes (calm w) l in
  let total := (a + size_deletes l (drop a (segments l)))%nat in
  let after n := a_drop (length (concat (take n cs))) (mkALog start (records_of cs c)) in
  (total <= length cs)%nat
  /\ exists o w' l' n k,
       apply_retention (w, l) = (o, (w', l')) /\ (n <= k <= total)%nat /\ (k <= S n)%nat
       /\ (o = Ok (Z.of_nat total) /\ n = total \/ faults w <> [] /\ exists e, o = Err (Io e))
       /\ (k = n -> log_rep (calm w') l' (start + len (concat (take n cs))) (drop n cs) c)
       /\ (forall off, 0 <= off -> exists s, Log.read_record_at off (calm w', l') = (Ok (a_read off (after k)), s))
       /\ forall cfg, exists w2 l2, Log.open (Log.dir l) cfg (calm w') = (Ok l2, w2) /\ log_refines w2 l2 (after n).
Proof.
  intros Hr a total after. pose proof (deletes_le (calm w) l start cs c Hr) as Hle. split; [exact Hle|].
  destruct (apply_retention_any w l start cs c Hr) as (o & w' & l' & Hrun & Hret).
  destruct (retained_reads _ _ _ _ _ _ _ _ _ _ Hret Hle) as (n & k & Hk & Hk1 & Ho & Hsame & Hreads & Href).
  exists o, w', l', n, k. split; [exact Hrun|]. do 2 (split; [done|]). split; [|split; [exact Hsame|split; [exact Hreads|]]].
  - destruct Ho as [[-> ->]|[e ->]]; [by left|right]. split; [|by eexists]. intros Hq.
    destruct (apply_retention_run (calm w) l start cs c (calm_quiet w) Hr) as (w2 & l2 & Hrun2 & _).
    rewrite (calm_of_quiet w Hq), Hrun in Hrun2. discriminate.
  - intros cfg. pose proof (lr_abandon (R := log_refines) _ _ _ Href) as Hd.
    destruct (ls_open (R := log_refines) (S := log_synced) (calm w') (Log.dir l) _ cfg Hd) as (w3 & l3 & Hopen & Hr3 & _).
    by exists w3, l3.
Qed.
End log.

Section broker.
Context {B : Buf} {H : Crc32} {C : Codecs} {F : Flock} {FL : FlockLaws F}.
Context {R S : World -> Log -> alog -> Prop} {D : World -> path -> alog -> Prop}.
Context {LC : LogContract R} {LS : LogStore R S D} {LR : LogReopen R D}.

(** C13: a shutdown while clients use some of the topics, a crash, any number
    of starts that fail - each at any of its system calls - and a start that
    does not bring back every topic: one that was not in use with every record
    it had, one in use with a beginning of each partition's records at their
    old offsets.  What is left is settled by the crash.  The shutdown frees the
    directory's lock, and each failing start leaves it free for the next. *)
Theorem restarts_lose_nothing rt w p k ts hs :
  broker_rep (R := R) w p k ts hs ->
  exists w1 p1, Broker.shutdown rt (w, (p, k)) = (Ok tt, (w1, (p1, set_topics empty k)))
    /\ ~ locked (dir_lock k) (flocks p1)
    /\ forall w2, crash w1 w2 -> exists ts2, map_Forall2 (remains hs) ts ts2
    /\ forall p2 w3 p3 cfg, usable cfg -> ~ locked (dir k ++ [LOCK_FILENAME]) (flocks p2) ->
         (forall id, is_Some (arcs p2 !! id) -> (id < next_arc p2)%nat) ->
         rtc (failed_start (dir k)) (w2, p2) (w3, p3) ->
         exists w4 p4 k', open_with_config (dir k) cfg (calm w3, p3) = (Ok k', (w4, p4))
           /\ broker_rep (R := R) w4 p4 k' ((fun als => mkATopic als cfg) <$> ts2) [].
Proof.
  intros Hb. destruct (shutdown_run rt w p k ts hs Hb) as (w1 & p1 & Hrun & Hset & Hap & Hl).
  exists w1, p1. do 2 (split; [done|]). intros w2 Hc.
  destruct (shutdown_remains w p k ts hs w1 p1 w2 Hb Hset Hap Hc) as (ts2 & Hrem & Hdd).
  exists ts2. split; [done|]. intros p2 w3 p3 cfg Hu Hl2 Hids Hr.
  rewrite <- (calm_of_quiet w2) in Hdd by apply Hc.
  destruct (failed_starts_keep (R := R) (S := S) (dir k) ts2 _ _ (Build_startable _ _ (w2, p2) Hdd Hl2 Hids) Hr)
    as [S1 S2 S3].
  destruct (broker_open_run (R := R) (S := S) _ _ (dir k) cfg _ Hu S1 S2 S3) as (w4 & p4 & k' & Ho & Hb' & _).
  by exists w4, p4, k'.
Qed.

(** C14: a broker whose process is killed at any time between two calls, with
    clients still using it, loses nothing either - not even what was never
    synced: once the lock has gone with the process, and after any number of
    starts that fail, a start serves every topic with every record it had. *)
Theorem killed_broker_loses_nothing w p k ts hs p2 w3 p3 cfg :
  usable cfg -> broker_rep (R := R) w p k ts hs -> ~ locked (dir k ++ [LOCK_FILENAME]) (flocks p2) ->
  (forall id, is_Some (arcs p2 !! id) -> (id < next_arc p2)%nat) ->
  rtc (failed_start (dir k)) (w, p2) (w3, p3) ->
  exists w4 p4 k', open_with_config (dir k) cfg (calm w3, p3) = (Ok k', (w4, p4))
    /\ broker_rep (R := R) w4 p4 k' ((fun t => mkATopic (at_logs t) cfg) <$> ts) [].
Proof.
  intros Hu Hb Hl Hids Hr. pose proof (broker_data_dir (R := R) (D := D) _ _ _ _ _ Hb) as Hdd.
  rewrite <- (calm_of_quiet w) in Hdd by by eapply br_quiet.
  destruct (failed_starts_keep (R := R) (S := S) (dir k) (at_logs <$> ts) _ _ (Build_startable _ _ (w, p2) Hdd Hl Hids) Hr)
    as [S1 S2 S3].
  destruct (broker_open_run (R := R) (S := S) _ _ (dir k) cfg _ Hu S1 S2 S3) as (w4 & p4 & k' & Ho & Hb' & _).
  exists w4, p4, k'. split; [done|]. by rewrite <- map_fmap_compose in Hb'.
Qed.

(** C40: a [create_topic] whose system calls fail leaves the registry as it was,
    but not the disk: the first [m] partitions may be there, and the next
    start takes them for the topic - with fewer partitions than were asked
    for.  The other topics keep everything. *)
Theorem failed_create_leaves_partial_topic w p k ts hs name cfg n :
  usable cfg -> broker_rep (R := R) (calm w) p k ts hs -> ts !! name = None -> plain name -> name <> LOCK_FILENAME -> 0 < n < 2 ^ 32 ->
  (exists fs, create_topic_inner name cfg n (w, (p, k)) = resume fs (create_topic_inner name cfg n (calm w, (p, k))))
  \/ exists e w' m, create_topic_inner name cfg n (w, (p, k)) = (Err (Io e), (w', (p, k))) /\ (m <= Z.to_nat n)%nat
       /\ forall p2 cfg2, usable cfg2 -> ~ locked (dir k ++ [LOCK_FILENAME]) (flocks p2) ->
            (forall id, is_Some (arcs p2 !! id) -> (id < next_arc p2)%nat) ->
            exists w3 p3 k', open_with_config (dir k) cfg2 (calm w', p2) = (Ok k', (w3, p3))
              /\ broker_rep (R := R) w3 p3 k'
                   ((fun als => mkATopic als cfg2) <$> with_partial name m (at_logs <$> ts)) [].
Proof.
  intros Hu Hb Hn Hp Hl Hr.
  destruct (create_topic_runs (R := R) (S := S) (D := D) w p k ts hs name cfg n Hu Hb Hn Hp Hl Hr)
    as [Hrun|(e & w' & s & Hrun & -> & m & Hm & Hdd)]; [by left|right].
  exists e, w', m. split; [done|]. split; [done|]. intros p2 cfg2 Hu2 Hl2 Hids.
  destruct (broker_open_run (R := R) (S := S) _ _ (dir k) cfg2 _ Hu2 Hdd Hl2 Hids) as (w3 & p3 & k' & Ho & Hb' & _).
  by exists w3, p3, k'.
Qed.
End broker.

(** ** Witnesses *)

(** All system calls but the [n]-th succeed. *)
Definition ex_fail (n : nat) : list (option fault) := replicate n None ++ [Some (Fault (OtherKind 5) 0)].

(** After a crash that tore the log's last record the first start fails when
    it makes the new index - the tail is cut off, the old index gone - and the
    second one when it reads the segment. *)
Definition ex_try (n : nat) (w : World) : World := snd (Log.open (Log.dir ex_l1) ex_cfg (with_faults (ex_fail n) w)).
Definition ex_tries : World := ex_try 5 (ex_try 8 (ex_torn 35)).

Lemma ex_try_fails n w :
  match fst (Log.open (Log.dir ex_l1) ex_cfg (with_faults (ex_fail n) w)) with Err _ => true | _ => false end = true ->
  failed_open (Log.dir ex_l1) w (ex_try n w).
Proof.
  intros He. exists ex_cfg, (ex_fail n). unfold ex_try. destruct (Log.open _ _ _) as [[a|e|s|] w']; try done. by exists e.
Qed.

Lemma recovery_is_restartable_witness :
  exists n w3 l3, Log.open (Log.dir ex_l1) ex_cfg (calm ex_tries) = (Ok l3, w3)
    /\ log_refines w3 l3 (mkALog 0 (take n [ex_rec1; ex_rec2])).
Proof.
  destruct (recovery_is_restartable ex_w1 (ex_torn 35) ex_l1 _ ex_refines1 (ex_crash 35)) as (n & Hn).
  exists n. apply (Hn ex_tries).
  apply (rtc_l _ _ (ex_try 8 (ex_torn 35))); [|apply rtc_once]; apply ex_try_fails; vm_compute; reflexivity.
Defined.

(** The second read fails when it reads, the third when it seeks. *)
Definition ex_read_faults : list (option fault) :=
  [None; None; None; Some (Fault (OtherKind 5) 0); Some (Fault (OtherKind 5) 0)].

Lemma failed_reads_are_harmless_witness :
  exists rs w' l', read_each [0; 1; 0; 1] (with_faults ex_read_faults ex_w1, ex_l1) = (Ok rs, (w', l'))
    /\ Forall2 (right_or_failed (mkALog 0 [ex_rec1; ex_rec2])) [0; 1; 0; 1] rs.
Proof.
  destruct (failed_reads_are_harmless (with_faults ex_read_faults ex_w1) ex_l1 (mkALog 0 [ex_rec1; ex_rec2]) [0; 1; 0; 1])
    as (rs & w' & l' & Hrun & Hf & _).
  - rewrite calm_with_faults, calm_of_quiet by reflexivity. exact ex_refines1.
  - repeat (apply Forall_cons; split); try apply Forall_nil; lia.
  - exists rs, w', l'. exact (conj Hrun Hf).
Defined.

Example ex_reads :
  map (fun r => match r with inl (Some r) => Some (value r) | _ => None end)
    (match fst (read_each [0; 1; 0; 1] (with_faults ex_read_faults ex_w1, ex_l1)) with Ok rs => rs | _ => [] end)
  = [Some (value ex_rec1); None; None; Some (value ex_rec2)].
Proof. vm_compute. reflexivity. Qed.

(** The removal of the sealed segment's file fails. *)
Definition ex_stuck : World := with_faults (ex_fail 1) ex_w3.

Lemma retention_deletes_oldest_or_stops_witness :
  exists o w' l' n k, apply_retention (ex_stuck, ex_l3) = (o, (w', l')) /\ (n <= k <= 1)%nat
    /\ (o = Ok 1 /\ n = 1%nat \/ faults ex_stuck <> [] /\ exists e, o = Err (Io e)).
Proof.
  destruct ex_rep3 as [Hr Hq].
  assert (Hn : (age_deletes (calm ex_stuck) ex_l3
                + size_deletes ex_l3 (drop (age_deletes (calm ex_stuck) ex_l3) (segments ex_l3)))%nat = 1%nat)
    by (vm_compute; reflexivity).
  destruct (retention_deletes_oldest_or_stops ex_stuck ex_l3 0 [wires Zstd [ex_rec1]] []) as (_ & Hp).
  - unfold ex_stuck. rewrite calm_with_faults, calm_of_quiet by exact Hq. exact Hr.
  - rewrite Hn in Hp. destruct Hp as (o & w' & l' & n & k & Hrun & Hk & _ & Ho & _).
    exists o, w', l', n, k. exact (conj Hrun (conj Hk Ho)).
Defined.

(** The values at the first three offsets. *)
Definition ex_values (s : World * Log) : list (option (list byte)) :=
  map (fun r => match r with inl (Some r) => Some (value r) | _ => None end)
    (match fst (read_each [0; 1; 2] s) with Ok rs => rs | _ => [] end).

Definition ex_reopened (w : World) : World * Log :=
  let r := Log.open (Log.dir ex_l3) (Log.config ex_l3) w in (snd r, result_or ex_l3 r).

(** The segment is forgotten, until the next start brings it back. *)
Example ex_forgotten :
  (let '(o, s) := apply_retention (ex_stuck, ex_l3) in
   (match o with Err _ => true | _ => false end, ex_values s, ex_values (ex_reopened (fst s))))
  = (true, [None; None; None], [Some (value ex_rec1); None; None]).
Proof. vm_compute. reflexivity. Qed.

(** Two more segments; retention fails on the first one and, later, deletes the
    second. The next start finds a log with a hole at offset 1, at which a
    reader in offset order gets nothing for good. *)
Definition ex_three : outcome KafkoError unit * (World * Log) :=
  (let* _ := Log.append ex_rec2 in
   let* _ := rotate_active_segment in
   let* _ := Log.append ex_rec1 in
   ret tt) (ex_w3, ex_l3).

Definition ex_hole : World :=
  let '(w, l) := snd ex_three in
  let '(w, l) := snd (apply_retention (with_faults (ex_fail 1) w, l)) in
  fst (snd (apply_retention (w, l))).

Example ex_three_segments : ex_values (snd ex_three) = [Some (value ex_rec1); Some (value ex_rec2); Some (value ex_rec1)].
Proof. vm_compute. reflexivity. Qed.

Example ex_hole_after_restart :
  (ex_values (ex_reopened ex_hole), next_offset (snd (ex_reopened ex_hole)))
  = ([Some (value ex_rec1); None; Some (value ex_rec1)], 3).
Proof. vm_compute. reflexivity. Qed.

(** A start whose first system call fails. *)
Lemma first_call_fails d w p : failed_start d (w, p) (calm w, p).
Proof. exists ex_cfg, (ex_fail 0). eexists. split; [discriminate|reflexivity]. Qed.

(** With a client on the topic; the first system call of a start fails, then
    that of the next one. *)
Lemma restarts_lose_nothing_witness :
  exists w1 p1, Broker.shutdown MultiThread (ex_bw2, (ex_bp2, ex_bk1)) = (Ok tt, (w1, (p1, set_topics empty ex_bk1)))
    /\ forall w2, crash w1 w2 -> exists w4 p4 k', open_with_config ex_data ex_cfg (calm w2, fresh_process) = (Ok k', (w4, p4)).
Proof.
  destruct (restarts_lose_nothing (R := log_refines) MultiThread ex_bw2 ex_bp2 ex_bk1 ex_ts [("orders", ex_bid)] (proj1 ex_broker2))
    as (w1 & p1 & Hrun & _ & Hnext).
  exists w1, p1. split; [exact Hrun|]. intros w2 Hc.
  destruct (Hnext w2 Hc) as (ts2 & _ & Hstart).
  destruct (Hstart fresh_process (calm w2) fresh_process ex_cfg) as (w4 & p4 & k' & Ho & _).
  - discriminate.
  - apply not_elem_of_empty.
  - intros id [x Hx]. simpl in Hx. by rewrite lookup_empty in Hx.
  - rewrite (proj2 ex_broker1). apply (rtc_l _ _ (calm w2, fresh_process)).
    + apply first_call_fails.
    + apply rtc_once. exact (first_call_fails ex_data (calm w2) fresh_process).
  - rewrite (proj2 ex_broker1) in Ho. exists w4, p4, k'. exact Ho.
Defined.

(** With clients on the topic, and a first start that fails. *)
Lemma killed_broker_loses_nothing_witness :
  exists w4 p4 k', open_with_config ex_data ex_cfg (calm (calm ex_bw2), fresh_process) = (Ok k', (w4, p4)).
Proof.
  pose proof (killed_broker_loses_nothing (R := log_refines) ex_bw2 ex_bp2 ex_bk1 ex_ts [("orders", ex_bid)] fresh_process
    (calm ex_bw2) fresh_process ex_cfg ltac:(discriminate) (proj1 ex_broker2)) as Hk.
  rewrite (proj2 ex_broker1) in Hk. destruct Hk as (w4 & p4 & k' & Ho & _).
  - apply not_elem_of_empty.
  - intros id [x Hx]. simpl in Hx. by rewrite lookup_empty in Hx.
  - apply rtc_once, first_call_fails.
  - exists w4, p4, k'. exact Ho.
Defined.

(** The first system call for the second of two partitions fails. *)
Definition ex_create (fs : list (option fault)) :=
  create_topic_inner "orders" ex_cfg 2 (with_faults fs ex_bw, (ex_bp, ex_bk)).

Lemma not_resumed {S E A} (r r' : outcome E A * (World * S)) fs :
  r = resume fs r' -> match fst r, fst r' with Err _, Ok _ => true | _, _ => false end = true -> False.
Proof. intros ->. unfold resume. simpl. by destruct (fst r'). Qed.

Lemma failed_create_leaves_partial_topic_witness :
  exists e w' m, ex_create (ex_fail 5) = (Err (Io e), (w', (ex_bp, ex_bk))) /\ (m <= 2)%nat
    /\ exists w3 p3 k', open_with_config ex_data ex_cfg (calm w', fresh_process) = (Ok k', (w3, p3)).
Proof.
  assert (Hbad : match fst (ex_create (ex_fail 5)),
      fst (create_topic_inner "orders" ex_cfg 2 (calm (with_faults (ex_fail 5) ex_bw), (ex_bp, ex_bk)))
    with Err _, Ok _ => true | _, _ => false end = true).
  { vm_compute. reflexivity. }
  destruct ex_broker as [Hb Hd].
  destruct (failed_create_leaves_partial_topic (R := log_refines) (with_faults (ex_fail 5) ex_bw) ex_bp ex_bk empty [] "orders" ex_cfg 2)
    as [[fs Hrun]|(e & w' & m & Hrun & Hm & Hnext)].
  - discriminate.
  - rewrite calm_with_faults, calm_of_quiet by exact (br_quiet _ _ _ _ _ Hb). exact Hb.
  - apply lookup_empty.
  - exact ex_plain.
  - discriminate.
  - split; reflexivity.
  - destruct (not_resumed _ _ _ Hrun Hbad).
  - exists e, w', m. split; [exact Hrun|]. split; [exact Hm|].
    destruct (Hnext fresh_process ex_cfg) as (w3 & p3 & k' & Ho & _).
    + discriminate.
    + apply not_elem_of_empty.
    + intros id [x Hx]. simpl in Hx. by rewrite lookup_empty in Hx.
    + rewrite Hd in Ho. exists w3, p3, k'. exact Ho.
Defined.

(** The topic of one partition that the restart serves. *)
Example ex_partial_topic :
  (let '(_, (w, _)) := ex_create (ex_fail 5) in
   match open_with_config ex_data ex_cfg (w, fresh_process) with
   | (Ok k, (w, p)) => fst (Broker.partition_count "orders" (w, (p, k)))
   | _ => Ok None
   end) = Ok (Some 1).
Proof. vm_compute. reflexivity. Qed.
