(* ===== verification/Wakeup.v ===== *)
(** * Waking parked consumers (topic.rs, consumer.rs, partition.rs)

    A consumer that has caught up parks until some partition's writer task
    signals.  [Wakeup] is the shared counter and notifier; [step] interleaves
    the consumer's loop, the writer tasks' turns and everybody else, at the
    grain of their atomic accesses.  The writer's load of the counter is
    relaxed: it may return any value not older than what the writer has
    synchronised with, and only receiving a message synchronises. *)

From S2P Require Import Prelude.

Open Scope nat_scope.

(** ** tokio's [Notify]

    The state one [Notified] future sees. *)
Class Notify : Type := {
  waiter : Type;
  notified : waiter;
  enable : waiter -> waiter;
  notify_waiters : waiter -> waiter;
  ready : waiter -> bool;
}.

(** Documented behaviour: [notify_waiters] completes every future enabled
    before it, and a completed future stays so. *)
Class NotifyLaws (N : Notify) : Type := {
  enabled : waiter -> Prop;
  nl_enable w : enabled (enable w);
  nl_wakes w : enabled w -> ready (notify_waiters w) = true;
  nl_stays w : enabled w -> enabled (notify_waiters w);
}.

Section wakeup.
Context {N : Notify}.

(** [parked] is the modification order of the counter, the oldest value
    first. *)
Record Wakeup : Type := mkWakeup { parked : list nat; notify : waiter }.

Definition load (v : Wakeup) : nat := default 0 (last (parked v)).

(** A relaxed load that returns the [i]-th value. *)
Definition signal (i : nat) (v : Wakeup) : Wakeup :=
  match parked v !! i with
  | Some (S _) => mkWakeup (parked v) (notify_waiters (notify v))
  | _ => v
  end.

Definition mark_parked (v : Wakeup) : Wakeup := mkWakeup (parked v ++ [S (load v)]) (notify v).
Definition unmark_parked (v : Wakeup) : Wakeup := mkWakeup (parked v ++ [pred (load v)]) (notify v).
Definition set_notify (x : waiter) (v : Wakeup) : Wakeup := mkWakeup (parked v) x.

(** ** The tasks *)

(** What reaches a writer: the consumer's read, with what the consumer has
    seen of the counter, an append, or another command. *)
Inductive cmd : Type := CRead (view : nat) | CAppend | COther.

(** A writer task: how many records its partition has, its queue, what it has
    seen of the counter, whether it is about to call [signal], and whether it
    still takes commands. *)
Record wtask : Type := mkTask { t_len : nat; t_inbox : list cmd; t_view : nat; t_signal : bool; t_alive : bool }.

(** The answer to a read: a record, none, or an error - of the log, or because
    the task has ended. *)
Inductive answer : Type := Found | Empty | Failed.

(** Where the consumer is in [next_with_position]: asking the partitions left,
    waiting for one's answer, between marking and enabling, parked, or
    returning a record or an error. [true] is the scan made while parked. *)
Inductive cpc : Type :=
| Scanning (tail : bool) (todo : list nat)
| Asked (tail : bool) (p : nat) (todo : list nat)
| Marked
| Waiting
| Got (p : nat)
| Broken.

Record state : Type := mkState {
  wake : Wakeup;
  tasks : list wtask;
  cursors : list nat;
  scan_start : nat;
  pc : cpc;
  reply : option answer;
  view : nat;
}.

(** The partitions in the order of one pass. *)
Definition rotation (start n : nat) : list nat := map (fun i => (start + i) mod n) (seq 0 n).

Definition set_wake (x : Wakeup) (s : state) : state :=
  mkState x (tasks s) (cursors s) (scan_start s) (pc s) (reply s) (view s).
Definition set_task (p : nat) (x : wtask) (s : state) : state :=
  mkState (wake s) (<[p := x]> (tasks s)) (cursors s) (scan_start s) (pc s) (reply s) (view s).
Definition set_pc (x : cpc) (s : state) : state :=
  mkState (wake s) (tasks s) (cursors s) (scan_start s) x (reply s) (view s).
Definition set_reply (x : option answer) (s : state) : state :=
  mkState (wake s) (tasks s) (cursors s) (scan_start s) (pc s) x (view s).

(** A read-modify-write sees the newest value. *)
Definition mark (s : state) : state :=
  mkState (mark_parked (wake s)) (tasks s) (cursors s) (scan_start s) Marked (reply s) (length (parked (wake s))).
Definition unmark (s : state) : state :=
  mkState (unmark_parked (wake s)) (tasks s) (cursors s) (scan_start s) (pc s) (reply s) (length (parked (wake s))).

Definition send (c : cmd) (t : wtask) : wtask := mkTask (t_len t) (t_inbox t ++ [c]) (t_view t) (t_signal t) (t_alive t).

Definition is_read (c : cmd) : bool := match c with CRead _ => true | _ => false end.

(** The consumer counts as parked. *)
Definition is_parked (c : cpc) : bool :=
  match c with Scanning true _ | Asked true _ _ | Marked | Waiting => true | _ => false end.

Inductive step : state -> state -> Prop :=
(* the consumer *)
| s_ask s tail p todo t :
    pc s = Scanning tail (p :: todo) -> tasks s !! p = Some t -> t_alive t = true ->
    step s (set_pc (Asked tail p todo) (set_task p (send (CRead (view s)) t) s))
| s_ask_dead s tail p todo t :
    pc s = Scanning tail (p :: todo) -> tasks s !! p = Some t -> t_alive t = false ->
    step s (set_reply (Some Failed) (set_pc (Asked tail p todo) s))
| s_none s tail p todo :
    pc s = Asked tail p todo -> reply s = Some Empty ->
    step s (set_reply None (set_pc (Scanning tail todo) s))
| s_found s p todo :
    pc s = Asked false p todo -> reply s = Some Found ->
    step s (set_reply None (set_pc (Got p) s))
| s_found_tail s p todo :
    pc s = Asked true p todo -> reply s = Some Found ->
    step s (unmark (set_reply None (set_pc (Got p) s)))
| s_error s p todo :
    pc s = Asked false p todo -> reply s = Some Failed ->
    step s (set_reply None (set_pc Broken s))
| s_error_tail s p todo :
    pc s = Asked true p todo -> reply s = Some Failed ->
    step s (unmark (set_reply None (set_pc Broken s)))
| s_retry s :
    pc s = Broken -> step s (set_pc (Scanning false (rotation (scan_start s) (length (tasks s)))) s)
| s_mark s : pc s = Scanning false [] -> step s (mark s)
| s_enable s :
    pc s = Marked ->
    step s (set_pc (Scanning true (rotation (scan_start s) (length (tasks s))))
             (set_wake (set_notify (enable notified) (wake s)) s))
| s_wait s : pc s = Scanning true [] -> step s (set_pc Waiting s)
| s_wake s :
    pc s = Waiting -> ready (notify (wake s)) = true ->
    step s (unmark (set_pc (Scanning false (rotation (scan_start s) (length (tasks s)))) s))
| s_next s p c :
    pc s = Got p -> cursors s !! p = Some c ->
    step s (mkState (wake s) (tasks s) (<[p := S c]> (cursors s)) ((p + 1) mod length (tasks s))
              (Scanning false (rotation ((p + 1) mod length (tasks s)) (length (tasks s)))) (reply s) (view s))
(* a writer task: one turn of the loop, then the signal *)
| s_recv_append s p t rest :
    tasks s !! p = Some t -> t_signal t = false -> t_inbox t = CAppend :: rest ->
    step s (set_task p (mkTask (S (t_len t)) rest (t_view t) true (t_alive t)) s)
| s_recv_other s p t rest :
    tasks s !! p = Some t -> t_signal t = false -> t_inbox t = COther :: rest ->
    step s (set_task p (mkTask (t_len t) rest (t_view t) true (t_alive t)) s)
| s_recv_read s p t v rest c :
    tasks s !! p = Some t -> t_signal t = false -> t_inbox t = CRead v :: rest -> cursors s !! p = Some c ->
    step s (set_reply (Some (if c <? t_len t then Found else Empty))
             (set_task p (mkTask (t_len t) rest (Nat.max (t_view t) v) true (t_alive t)) s))
| s_recv_fail s p t v rest :
    tasks s !! p = Some t -> t_signal t = false -> t_inbox t = CRead v :: rest ->
    step s (set_reply (Some Failed)
             (set_task p (mkTask (t_len t) rest (Nat.max (t_view t) v) true (t_alive t)) s))
(* it panics: no signal, and the answers it owes never come *)
| s_panic s p t :
    tasks s !! p = Some t -> t_signal t = false -> t_inbox t <> [] ->
    step s (set_reply (if existsb is_read (t_inbox t) then Some Failed else reply s)
             (set_task p (mkTask (t_len t) [] (t_view t) false false) s))
(* its queue is closed and empty: it ends with a signal *)
| s_exit s p t :
    tasks s !! p = Some t -> t_signal t = false -> t_inbox t = [] ->
    step s (set_task p (mkTask (t_len t) [] (t_view t) true false) s)
| s_signal s p t i :
    tasks s !! p = Some t -> t_signal t = true -> t_view t <= i < length (parked (wake s)) ->
    step s (set_wake (signal i (wake s))
             (set_task p (mkTask (t_len t) (t_inbox t) i false (t_alive t)) s))
(* producers and other consumers *)
| s_send s p t c :
    tasks s !! p = Some t -> t_alive t = true -> c = CAppend \/ c = COther ->
    step s (set_task p (send c t) s)
| s_other_mark s : step s (set_wake (mark_parked (wake s)) s)
| s_other_unmark s :
    (if is_parked (pc s) then 1 else 0) < load (wake s) ->
    step s (set_wake (unmark_parked (wake s)) s).

Definition initial (n : nat) : state :=
  mkState (mkWakeup [0] notified) (replicate n (mkTask 0 [] 0 false true)) (replicate n 0) 0
    (Scanning false (rotation 0 n)) None 0.

Definition reachable (n : nat) (s : state) : Prop := rtc step (initial n) s.

(** ** The invariant *)

(** It has enabled its future. *)
Definition is_enabled (c : cpc) : bool :=
  match c with Scanning true _ | Asked true _ _ | Waiting => true | _ => false end.

(** The partitions whose answer the tail scan already has. *)
Definition rescanned (c : cpc) (r : option answer) (q : nat) : Prop :=
  match c with
  | Scanning true todo => q ∉ todo
  | Asked true p todo => (q ∉ todo) /\ (q <> p \/ r = Some Empty)
  | Waiting => True
  | _ => False
  end.

Definition reads (l : list cmd) : list cmd :=
  filter (fun c => is_read c = true) l.

(** The consumer's only read in flight is the one it waits for. *)
Definition in_flight (s : state) (q : nat) : list cmd :=
  match pc s, reply s with
  | Asked _ p _, None => if decide (p = q) then [CRead (view s)] else []
  | _, _ => []
  end.

Context {NL : NotifyLaws N}.

Record inv (n : nat) (s : state) : Prop := {
  in_tasks : length (tasks s) = n;
  in_cursors : length (cursors s) = n;
  in_view : view s < length (parked (wake s));
  in_views : forall q t, tasks s !! q = Some t -> t_view t < length (parked (wake s));
  (* since the consumer marked itself the counter has not been zero *)
  in_marked : is_parked (pc s) = true -> forall i x, view s <= i -> parked (wake s) !! i = Some x -> 1 <= x;
  in_enabled : is_enabled (pc s) = true -> enabled (notify (wake s));
  in_reads : forall q t, tasks s !! q = Some t -> reads (t_inbox t) = in_flight s q;
  in_reply : forall b, reply s = Some b -> exists tail p todo, pc s = Asked tail p todo;
  (* a writer that answered the tail scan has woken the consumer or is about to *)
  in_scanned : forall q t, rescanned (pc s) (reply s) q -> tasks s !! q = Some t ->
    view s <= t_view t /\ (t_signal t = true \/ ready (notify (wake s)) = true);
}.

Lemma in_rotation start n q : q < n -> q ∈ rotation start n.
Proof.
  intros Hq. unfold rotation. apply list_elem_of_fmap. exists ((q + n - start mod n) mod n).
  pose proof (Nat.mod_upper_bound start n ltac:(lia)) as Hs. split.
  - rewrite Nat.Div0.add_mod_idemp_r. rewrite (Nat.div_mod_eq start n) at 1.
    replace (n * (start / n) + start mod n + (q + n - start mod n)) with (q + (start / n + 1) * n) by lia.
    by rewrite Nat.Div0.mod_add, Nat.mod_small.
  - apply elem_of_seq. pose proof (Nat.mod_upper_bound (q + n - start mod n) n ltac:(lia)). lia.
Qed.

Lemma rescanned_enabled c r q : rescanned c r q -> is_enabled c = true.
Proof. by destruct c as [[]| []| | | |]. Qed.

Lemma enabled_parked c : is_enabled c = true -> is_parked c = true.
Proof. by destruct c as [[]| []| | | |]. Qed.

Lemma reads_snoc l c : reads (l ++ [c]) = reads l ++ reads [c].
Proof. apply filter_app. Qed.

Lemma initial_inv n : inv n (initial n).
Proof.
  split; simpl; try done.
  - apply length_replicate.
  - apply length_replicate.
  - lia.
  - intros q t Ht. apply lookup_replicate in Ht as [-> _]. simpl. lia.
  - intros q t Ht. by apply lookup_replicate in Ht as [-> _].
Qed.

(** Only one task changes. *)
Lemma task_lookup s p t' q t :
  tasks (set_task p t' s) !! q = Some t -> q = p /\ t = t' \/ q <> p /\ tasks s !! q = Some t.
Proof.
  simpl. rewrite list_lookup_insert_Some. intros [(<- & <- & _)|[Hne Ht]]; [by left|right]. split; [congruence|done].
Qed.

(** A task that changed in no way the consumer can tell, but may be about to
    signal. *)
Lemma task_inv n s p t t' :
  inv n s -> tasks s !! p = Some t -> t_view t' = t_view t -> reads (t_inbox t') = reads (t_inbox t) ->
  t_signal t' = t_signal t \/ t_signal t' = true -> inv n (set_task p t' s).
Proof.
  intros [I1 I2 I3 I4 I5 I6 I7 I8 I9] Ht Hv Hr Hs. split; try done.
  - simpl. by rewrite length_insert.
  - intros q x [[-> ->]|[_ Hx]]%task_lookup; [rewrite Hv; by apply (I4 p)|by apply (I4 q)].
  - intros q x [[-> ->]|[_ Hx]]%task_lookup; [rewrite Hr; by apply (I7 p)|by apply (I7 q)].
  - intros q x Hq [[-> ->]|[_ Hx]]%task_lookup; [|by apply (I9 q)].
    destruct (I9 p t Hq Ht) as [H1 H2]. rewrite Hv. split; [done|]. destruct Hs as [-> | ->]; auto.
Qed.

(** The counter changed, but not to zero under a parked consumer. *)
Lemma counter_inv n s x :
  inv n s -> (is_parked (pc s) = true -> 1 <= x) ->
  inv n (set_wake (mkWakeup (parked (wake s) ++ [x]) (notify (wake s))) s).
Proof.
  intros [I1 I2 I3 I4 I5 I6 I7 I8 I9] Hx. split; try done; simpl; rewrite ?length_app; simpl.
  - lia.
  - intros q t Ht. specialize (I4 q t Ht). lia.
  - intros Hp i y Hi Hy. apply lookup_app_Some in Hy as [Hy|[_ Hy]]; [by eapply I5|].
    apply list_lookup_singleton_Some in Hy as [_ <-]. by apply Hx.
Qed.

(** The consumer leaves the parked state. *)
Lemma unmark_inv n s : inv n s -> is_parked (pc s) = false -> reply s = None ->
  (forall tail p todo, pc s <> Asked tail p todo) -> inv n (unmark s).
Proof.
  intros Hi Hp Hr Hna. pose proof (counter_inv n s (pred (load (wake s))) Hi ltac:(congruence)) as [I1 I2 I3 I4 I5 I6 I7 I8 I9].
  simpl in *. split; simpl; try done.
  - rewrite length_app. simpl. lia.
  - congruence.
  - intros q t Ht. rewrite (I7 q t Ht). unfold in_flight. simpl.
    destruct (pc s) as [| ? ? ?| | | |]; try done. by destruct (Hna _ _ _ eq_refl).
  - intros q t Hq. apply rescanned_enabled, enabled_parked in Hq. congruence.
Qed.

(** ** Every step keeps the invariant *)
Lemma no_flight n s q t :
  inv n s -> tasks s !! q = Some t -> (forall tail todo, pc s <> Asked tail q todo) \/ reply s <> None ->
  reads (t_inbox t) = [].
Proof.
  intros Hi Ht Hc. rewrite (in_reads _ _ Hi q t Ht). unfold in_flight.
  destruct (pc s) as [| tail p todo| | | |]; try done. destruct (reply s); [done|]. case_decide; [subst p|done].
  destruct Hc as [Hc|Hc]; [by destruct (Hc tail todo)|done].
Qed.

Lemma no_reply n s : inv n s -> (forall tail p todo, pc s <> Asked tail p todo) -> reply s = None.
Proof.
  intros Hi Hc. destruct (reply s) as [b|] eqn:E; [|done].
  destruct (in_reply _ _ Hi b E) as (tail & p & todo & Hp). by destruct (Hc tail p todo).
Qed.

Lemma ask_inv n s tail p todo t :
  inv n s -> pc s = Scanning tail (p :: todo) -> tasks s !! p = Some t ->
  inv n (set_pc (Asked tail p todo) (set_task p (send (CRead (view s)) t) s)).
Proof.
  intros Hi Hpc Ht. pose proof Hi as [I1 I2 I3 I4 I5 I6 I7 I8 I9].
  assert (Hr : reply s = None) by (eapply no_reply; [done|]; intros; congruence).
  assert (Hnf : forall q x, tasks s !! q = Some x -> reads (t_inbox x) = []).
  { intros q x Hx. eapply no_flight; [done|done|]. left. intros; congruence. }
  rewrite Hpc in I5, I6, I9. split; try done.
  - simpl. by rewrite length_insert.
  - intros q x Hx. change (tasks (set_task p (send (CRead (view s)) t) s) !! q = Some x) in Hx.
    apply task_lookup in Hx as [[-> ->]|[_ Hx]]; [exact (I4 p t Ht)|exact (I4 q x Hx)].
  - intros q x Hx. change (tasks (set_task p (send (CRead (view s)) t) s) !! q = Some x) in Hx.
    unfold in_flight. simpl. rewrite Hr. apply task_lookup in Hx as [[-> ->]|[Hne Hx]].
    + simpl. rewrite reads_snoc, (Hnf p t Ht), decide_True by done. done.
    + rewrite decide_False by done. by eapply Hnf.
  - simpl. intros b Hb. eauto.
  - intros q x Hq Hx. change (tasks (set_task p (send (CRead (view s)) t) s) !! q = Some x) in Hx.
    simpl in Hq. rewrite Hr in Hq. destruct tail; [|done]. destruct Hq as [Hq1 [Hq2|Hq2]]; [|done].
    apply task_lookup in Hx as [[-> ->]|[_ Hx]]; [done|]. apply (I9 q); [|done]. simpl.
    by apply not_elem_of_cons.
Qed.

Lemma recv_read_inv n s p t v rest ans :
  inv n s -> tasks s !! p = Some t -> t_inbox t = CRead v :: rest ->
  inv n (set_reply (Some ans) (set_task p (mkTask (t_len t) rest (Nat.max (t_view t) v) true (t_alive t)) s)).
Proof.
  intros Hi Ht Hin. pose proof Hi as [I1 I2 I3 I4 I5 I6 I7 I8 I9].
  pose proof (I7 p t Ht) as Hrd. rewrite Hin in Hrd. unfold in_flight in Hrd.
  destruct (pc s) as [| tail p' todo| | | |] eqn:Hpc; try done. destruct (reply s) as [b|] eqn:Hr; [done|].
  case_decide as Hpp; [subst p'|done]. unfold reads in Hrd. rewrite filter_cons_True in Hrd by done. injection Hrd as -> Hrest.
  assert (Hlook : forall q x, tasks (set_reply (Some ans)
      (set_task p (mkTask (t_len t) rest (Nat.max (t_view t) (view s)) true (t_alive t)) s)) !! q = Some x ->
      q = p /\ x = mkTask (t_len t) rest (Nat.max (t_view t) (view s)) true (t_alive t) \/ q <> p /\ tasks s !! q = Some x).
  { intros q x Hx. by apply task_lookup. }
  split; try done.
  - simpl. by rewrite length_insert.
  - intros q x [[-> ->]|[_ Hx]]%Hlook; [|by apply (I4 q)]. simpl. specialize (I4 p t Ht). lia.
  - by rewrite <- Hpc in I5.
  - by rewrite <- Hpc in I6.
  - intros q x [[-> ->]|[Hne Hx]]%Hlook; unfold in_flight; simpl; rewrite Hpc; [exact Hrest|].
    rewrite (I7 q x Hx). unfold in_flight. rewrite Hpc, Hr. by rewrite decide_False.
  - simpl. intros b _. rewrite Hpc. eauto.
  - intros q x Hq Hx. simpl in Hq. rewrite Hpc in Hq. apply Hlook in Hx as [[-> ->]|[Hne Hx]].
    + simpl. split; [lia|]. by left.
    + apply (I9 q x); [|done]. simpl in *. destruct tail; [|done]. destruct Hq as [Hq _]. by split; [|left].
Qed.

Lemma signal_inv n s p t i :
  inv n s -> tasks s !! p = Some t -> t_view t <= i < length (parked (wake s)) ->
  inv n (set_wake (signal i (wake s)) (set_task p (mkTask (t_len t) (t_inbox t) i false (t_alive t)) s)).
Proof.
  intros Hi Ht Hii. pose proof Hi as [I1 I2 I3 I4 I5 I6 I7 I8 I9].
  destruct (lookup_lt_is_Some_2 (parked (wake s)) i ltac:(lia)) as [x Hx].
  assert (Hpk : parked (signal i (wake s)) = parked (wake s)) by (unfold signal; rewrite Hx; by destruct x).
  assert (Hen : is_enabled (pc s) = true -> enabled (notify (signal i (wake s)))).
  { intros He. unfold signal. rewrite Hx. destruct x; [by apply I6|]. simpl. by apply nl_stays, I6. }
  assert (Hrd : is_enabled (pc s) = true -> ready (notify (wake s)) = true -> ready (notify (signal i (wake s))) = true).
  { intros He Hr. unfold signal. rewrite Hx. destruct x; [done|]. simpl. by apply nl_wakes, I6. }
  assert (Hlook : forall q y, tasks (set_wake (signal i (wake s)) (set_task p (mkTask (t_len t) (t_inbox t) i false (t_alive t)) s)) !! q
      = Some y -> q = p /\ y = mkTask (t_len t) (t_inbox t) i false (t_alive t) \/ q <> p /\ tasks s !! q = Some y).
  { intros q y Hy. by apply task_lookup. }
  split; try done; simpl; rewrite ?Hpk; try done.
  - by rewrite length_insert.
  - intros q y [[-> ->]|[_ Hy]]%Hlook; [simpl; lia|exact (I4 q y Hy)].
  - intros q y [[-> ->]|[_ Hy]]%Hlook; [exact (I7 p t Ht)|exact (I7 q y Hy)].
  - intros q y Hq Hy. pose proof (rescanned_enabled _ _ _ Hq) as He.
    apply Hlook in Hy as [[-> ->]|[_ Hy]].
    + destruct (I9 p t Hq Ht) as [H1 H2]. simpl. split; [lia|]. right.
      pose proof (I5 (enabled_parked _ He) i x ltac:(lia) Hx) as Hx1. unfold signal. rewrite Hx.
      destruct x; [lia|]. simpl. by apply nl_wakes, I6.
    + destruct (I9 q y Hq Hy) as [H1 H2]. split; [done|]. destruct H2 as [H2|H2]; auto.
Qed.

Lemma ask_dead_inv n s tail p todo :
  inv n s -> pc s = Scanning tail (p :: todo) -> inv n (set_reply (Some Failed) (set_pc (Asked tail p todo) s)).
Proof.
  intros Hi Hpc. pose proof Hi as [I1 I2 I3 I4 I5 I6 I7 I8 I9]. rewrite Hpc in I5, I6, I9. split; try done; simpl.
  - intros q t Ht. unfold in_flight. simpl. eapply no_flight; [done|done|]. left. intros; congruence.
  - eauto.
  - intros q t Hq Ht. apply (I9 q t); [|done]. destruct tail; [|done]. destruct Hq as [Hq1 [Hq2|Hq2]]; [|done].
    simpl. by apply not_elem_of_cons.
Qed.

Lemma reads_none l : existsb is_read l = false -> reads l = [].
Proof.
  intros Hl. induction l as [|c l IH]; [done|]. simpl in Hl. apply orb_false_iff in Hl as [Hc Hl].
  unfold reads. rewrite filter_cons_False by congruence. by apply IH.
Qed.

Lemma panic_inv n s p t :
  inv n s -> tasks s !! p = Some t -> t_signal t = false ->
  inv n (set_reply (if existsb is_read (t_inbox t) then Some Failed else reply s)
           (set_task p (mkTask (t_len t) [] (t_view t) false false) s)).
Proof.
  intros Hi Ht Hsg. pose proof Hi as [I1 I2 I3 I4 I5 I6 I7 I8 I9]. pose proof (I7 p t Ht) as Hrd.
  destruct (existsb is_read (t_inbox t)) eqn:Hx.
  - assert (Hne : reads (t_inbox t) <> []).
    { apply existsb_exists in Hx as (c & Hc & Hr). apply list_elem_of_In in Hc. intros E.
      apply (not_elem_of_nil c). rewrite <- E. by apply list_elem_of_filter. }
    rewrite Hrd in Hne. unfold in_flight in Hne.
    destruct (pc s) as [| tail p' todo| | | |] eqn:Hpc; try done. destruct (reply s) as [b|] eqn:Hr; [done|].
    case_decide; [subst p'|done]. split; try done; simpl.
    + by rewrite length_insert.
    + intros q x Hq%task_lookup. destruct Hq as [[-> ->]|[_ Hq]]; [exact (I4 p t Ht)|exact (I4 q x Hq)].
    + by rewrite <- Hpc in I5.
    + by rewrite <- Hpc in I6.
    + intros q x Hq%task_lookup. unfold in_flight. simpl. rewrite Hpc. destruct Hq as [[-> ->]|[Hne' Hq]]; [done|].
      rewrite (I7 q x Hq). unfold in_flight. rewrite Hpc, Hr. by rewrite decide_False.
    + rewrite Hpc. eauto.
    + intros q x Hq Hl%task_lookup. rewrite Hpc in Hq. destruct tail; [|done]. destruct Hq as [Hq1 [Hq2|Hq2]]; [|done].
      destruct Hl as [[-> ->]|[_ Hl]]; [done|]. apply (I9 q x); [|done]. simpl. auto.
  - apply reads_none in Hx. split; try done; simpl.
    + by rewrite length_insert.
    + intros q x Hq%task_lookup. destruct Hq as [[-> ->]|[_ Hq]]; [exact (I4 p t Ht)|exact (I4 q x Hq)].
    + intros q x Hq%task_lookup. destruct Hq as [[-> ->]|[_ Hq]]; [|exact (I7 q x Hq)].
      change (@nil cmd = in_flight s p). by rewrite <- Hrd, Hx.
    + intros q x Hq Hl%task_lookup. destruct Hl as [[-> ->]|[_ Hl]]; [|exact (I9 q x Hq Hl)].
      destruct (I9 p t Hq Ht) as [H1 H2]. split; [done|]. rewrite Hsg in H2. destruct H2; [done|by right].
Qed.

(** What a step of the consumer leaves alone: the reads in flight, and that no
    answer has come unless it has asked. *)
Ltac same_flight I7 :=
  let q := fresh in let t := fresh in let Ht := fresh in
  intros q t Ht; rewrite (I7 q t Ht); unfold in_flight; simpl;
  repeat match goal with E : pc _ = _ |- _ => rewrite E | E : reply _ = _ |- _ => rewrite E end; done.
Ltac no_answer I8 := let b := fresh in let Hb := fresh in intros b Hb; destruct (I8 b Hb) as (? & ? & ? & ?); congruence.

Lemma step_inv n s s' : inv n s -> step s s' -> inv n s'.
Proof.
  intros Hi Hst. pose proof Hi as [I1 I2 I3 I4 I5 I6 I7 I8 I9].
  destruct Hst as [s tail p todo t Hpc Ht _|s tail p todo t Hpc Ht _|s tail p todo Hpc Hr|s p todo Hpc Hr|s p todo Hpc Hr
    |s p todo Hpc Hr|s p todo Hpc Hr|s Hpc|s Hpc|s Hpc|s Hpc|s Hpc Hrdy
    |s p c Hpc Hc|s p t rest Ht Hsg Hin|s p t rest Ht Hsg Hin|s p t v rest c Ht Hsg Hin Hc|s p t v rest Ht Hsg Hin
    |s p t Ht Hsg Hin|s p t Ht Hsg Hin|s p t i Ht Hsg Hii|s p t c Ht _ Hcm|s|s Hlt].
  - by apply ask_inv.
  - by apply ask_dead_inv.
  - rewrite Hpc in I5, I6, I9. rewrite Hr in I9. split; try done; simpl.
    + same_flight I7.
    + intros q t Hq. apply (I9 q t). destruct tail; [|done]. simpl in *. split; [done|].
      destruct (decide (q = p)) as [->|Hne]; [by right|by left].
  - rewrite Hpc in I5, I6, I9. split; try done; simpl.
    same_flight I7.
  - apply unmark_inv; try done. split; try done; simpl.
    same_flight I7.
  - rewrite Hpc in I5, I6, I9. split; try done; simpl.
    same_flight I7.
  - apply unmark_inv; try done. split; try done; simpl.
    same_flight I7.
  - rewrite Hpc in I5, I6, I9. split; try done; simpl.
    + same_flight I7.
    + no_answer I8.
  - pose proof (counter_inv n s (S (load (wake s))) Hi ltac:(lia)) as [J1 J2 J3 J4 J5 J6 J7 J8 J9].
    simpl in *. split; simpl; try done.
    + rewrite length_app. simpl. lia.
    + intros _ i x Hge Hx. apply lookup_app_Some in Hx as [Hx|[_ Hx]]; [apply lookup_lt_Some in Hx; lia|].
      apply list_lookup_singleton_Some in Hx as [_ <-]. lia.
    + same_flight I7.
    + no_answer I8.
  - rewrite Hpc in I5, I6, I9. split; try done; simpl.
    + intros _. apply nl_enable.
    + same_flight I7.
    + no_answer I8.
    + intros q t Hq Ht. destruct Hq. apply in_rotation. by eapply lookup_lt_Some.
  - rewrite Hpc in I5, I6, I9. split; try done; simpl.
    + same_flight I7.
    + no_answer I8.
    + intros q t _. apply I9. by apply not_elem_of_nil.
  - assert (Hnr : reply s = None) by (eapply no_reply; [done|]; intros; congruence).
    apply unmark_inv; try done. split; try done; simpl; try congruence.
    same_flight I7.
  - split; try done; simpl.
    + by rewrite length_insert.
    + same_flight I7.
    + no_answer I8.
  - apply (task_inv n s p t); try done; simpl; [|by right]. rewrite Hin. done.
  - apply (task_inv n s p t); try done; simpl; [|by right]. rewrite Hin. done.
  - by apply recv_read_inv.
  - by apply recv_read_inv.
  - by apply panic_inv.
  - apply (task_inv n s p t); try done; simpl; [|by right]. by rewrite Hin.
  - by apply signal_inv.
  - apply (task_inv n s p t); try done; simpl; [|by left]. rewrite reads_snoc. destruct Hcm as [-> | ->]; by rewrite app_nil_r.
  - apply counter_inv; [done|lia].
  - apply counter_inv; [done|]. intros Hp. rewrite Hp in Hlt. lia.
Qed.

Lemma reachable_inv n s : reachable n s -> inv n s.
Proof.
  intros Hr. assert (Hg : forall a, inv n a -> rtc step a s -> inv n s).
  { intros a Ha Hs. induction Hs as [|a b c Hab _ IH]; [done|]. apply IH; [done|]. by eapply step_inv. }
  by eapply Hg, Hr; apply initial_inv.
Qed.

End wakeup.
