(* ===== verification/WakeupTheorems.v ===== *)
(** * Properties of the wakeup protocol *)

From S2P Require Import Prelude Wakeup.

Open Scope nat_scope.

Section theorems.
Context {N : Notify} {NL : NotifyLaws N}.

(** C16: no wakeup is lost. In every state the interleaving of one consumer,
    the writer tasks - failing reads, panicking, ending - the producers and
    other consumers can reach: when the consumer is parked, then for every
    partition - in particular one that has meanwhile received a record -
    either the consumer has been woken, or that partition's writer is about to
    signal, and the signal wakes it whichever value its relaxed load of the
    counter returns. *)
Theorem no_lost_wakeup n s q t :
  reachable n s -> pc s = Waiting -> tasks s !! q = Some t ->
  ready (notify (wake s)) = true
  \/ t_signal t = true /\ t_view t < length (parked (wake s))
     /\ forall i, t_view t <= i < length (parked (wake s)) -> ready (notify (signal i (wake s))) = true.
Proof.
  intros Hr Hw Ht. destruct (reachable_inv n s Hr) as [_ _ _ I4 I5 I6 _ _ I9]. rewrite Hw in I5, I6, I9.
  destruct (I9 q t I Ht) as [Hv [Hs|Hrd]]; [right|by left]. do 2 (split; [by eauto|]).
  intros i [Hi Hl]. destruct (lookup_lt_is_Some_2 _ _ Hl) as [x Hx]. unfold signal. rewrite Hx.
  pose proof (I5 eq_refl i x ltac:(lia) Hx). destruct x; [lia|]. simpl. by apply nl_wakes, I6.
Qed.

(** C37: a parked consumer does not stay parked even if nothing happens: each
    writer signals after answering the tail scan, at a time when the consumer
    counts as parked. So it wakes with no record in any partition, after at
    most one step of a writer, and scans again. *)
Theorem parked_consumer_spins n s :
  reachable n s -> 0 < n -> pc s = Waiting ->
  exists s1, (s1 = s \/ step s s1) /\ map t_len (tasks s1) = map t_len (tasks s)
    /\ exists s2, step s1 s2 /\ pc s2 = Scanning false (rotation (scan_start s) n).
Proof.
  intros Hr Hn Hw. destruct (reachable_inv n s Hr) as [I1 _ _ I4 I5 I6 _ _ I9]. rewrite Hw in I5, I6, I9.
  destruct (lookup_lt_is_Some_2 (tasks s) 0 ltac:(lia)) as [t Ht].
  destruct (I9 0 t I Ht) as [Hv Hs].
  destruct (decide (ready (notify (wake s)) = true)) as [Hrd|Hrd].
  { exists s. split; [by left|]. split; [done|]. eexists. split; [by apply s_wake|]. simpl. by rewrite I1. }
  destruct Hs as [Hs|Hrd2]; [|done].
  pose proof (I4 0 t Ht) as Hl. destruct (lookup_lt_is_Some_2 _ _ Hl) as [x Hx].
  eexists. split; [right; apply (s_signal s 0 t (t_view t) Ht Hs); lia|]. split.
  { simpl. apply list_eq. intros i. rewrite !list_lookup_fmap, list_lookup_insert. case_decide as Hi; [|done].
    destruct Hi as [<- _]. by rewrite Ht. }
  eexists. split; [apply s_wake; [done|]|].
  - simpl. unfold signal. rewrite Hx. pose proof (I5 eq_refl (t_view t) x Hv Hx). destruct x; [lia|].
    simpl. by apply nl_wakes, I6.
  - simpl. by rewrite length_insert, I1.
Qed.

End theorems.

(** ** Witnesses *)

(** A notifier: whether the future is enabled, and whether it is done. *)
#[export] Instance notify_flags : Notify := {
  waiter := (bool * bool)%type;
  notified := (false, false);
  enable w := (true, snd w);
  notify_waiters w := (fst w, fst w || snd w);
  ready := snd;
}.

#[export] Instance notify_flags_laws : NotifyLaws notify_flags.
Proof.
  refine {| enabled := (fun w => fst w = true) : @waiter notify_flags -> Prop |}.
  - done.
  - intros [e r]. simpl. by intros ->.
  - done.
Defined.

(** One empty partition: the consumer finds nothing twice and parks; the
    writer that answered it has not signalled yet. *)
Definition ex_parked : state :=
  mkState (mkWakeup [0; 1] (true, false)) [mkTask 0 [] 1 true true] [0] 0 Waiting None 1.

Lemma ex_parked_reachable : reachable 1 ex_parked.
Proof.
  unfold reachable. eapply rtc_l; [eapply (s_ask _ false 0 []); reflexivity|].
  eapply rtc_l; [eapply (s_recv_read _ 0); reflexivity|].
  eapply rtc_l; [eapply (s_signal _ 0 _ 0); [reflexivity|reflexivity|simpl; lia]|].
  eapply rtc_l; [eapply s_none; reflexivity|].
  eapply rtc_l; [eapply s_mark; reflexivity|].
  eapply rtc_l; [eapply s_enable; reflexivity|].
  eapply rtc_l; [eapply (s_ask _ true 0 []); reflexivity|].
  eapply rtc_l; [eapply (s_recv_read _ 0); reflexivity|].
  eapply rtc_l; [eapply s_none; reflexivity|].
  eapply rtc_l; [eapply s_wait; reflexivity|].
  apply rtc_refl.
Qed.

Lemma no_lost_wakeup_witness :
  ready (notify (wake ex_parked)) = true
  \/ true = true /\ 1 < 2 /\ forall i, 1 <= i < 2 -> ready (notify (signal i (wake ex_parked))) = true.
Proof. exact (no_lost_wakeup 1 ex_parked 0 _ ex_parked_reachable eq_refl eq_refl). Defined.

Lemma parked_consumer_spins_witness :
  exists s1, (s1 = ex_parked \/ step ex_parked s1) /\ map t_len (tasks s1) = [0]
    /\ exists s2, step s1 s2 /\ pc s2 = Scanning false (rotation 0 1).
Proof. exact (parked_consumer_spins 1 ex_parked ex_parked_reachable Nat.lt_0_1 eq_refl). Defined.
