(* ===== verification/Http.v ===== *)
(** * The HTTP front end (kafko-http/src/main.rs)

    The handlers, which forward to producers on three topics, and the startup
    of [main] up to the listener.  [HttpMain] has the rest of [main]: the routes
    and the requests.  [display] is the text of an error, any function here. *)

From S2P Require Import Prelude Bytes Error Compression LogRecord Fs Names Search.
From S2P Require Import Segment SparseIndex Log LogInv LogOps LogRecover LogCrash LogSpec LogStore.
From S2P Require Import OffsetStore Partition PartitionSpec Topic Producer TopicSpec TopicStore.
From S2P Require Import Consumer ConsumerSpec GroupSpec Broker BrokerSpec Registry BrokerStore BrokerOpen.
From S2P Require Import BrokerRefine.

Inductive request : Type :=
| Post (codec : string) (body : list byte)
| GetHwm.

Inductive StatusCode : Type := BAD_REQUEST | INTERNAL_SERVER_ERROR.

Abbreviation response := (string + StatusCode * string)%type.

(** The addresses of the topics' [Arc]s. *)
Record AppState : Type := mkAppState {
  producer_none : nat;
  producer_lz4 : nat;
  producer_zstd : nat;
  topic_none : nat;
}.

Definition bad_codec (other : string) : string :=
  "unknown codec: '" +:+ other +:+ "'. Expected 'none', 'lz4', or 'zstd'".

(** [LogConfig { compression, ..Default::default() }]. *)
Definition bench_config (c : Compression) : LogConfig :=
  let d := default_config in
  mkLogConfig (segment_size_threshold d) (index_interval d) (max_segment_age d) (max_partition_bytes d)
    (retention_check_interval d) (batch_max_records d) (batch_max_bytes d) c.

Section http.
Context {B : Buf} {H : Crc32} {C : Codecs} {F : Flock}.
Context (display : KafkoError -> string).

Definition produce_handler (state : AppState) (codec : string) (body : list byte)
    : KM (World * Process) response :=
  let producer :=
    if String.eqb codec "none" then Some (producer_none state)
    else if String.eqb codec "lz4" then Some (producer_lz4 state)
    else if String.eqb codec "zstd" then Some (producer_zstd state)
    else None in
  match producer with
  | None => ret (inr (BAD_REQUEST, bad_codec codec))
  | Some producer =>
      let* r := attempt (on_arc producer (Producer.send None body)) in
      ret (match r with
           | inl pos => inl (u64_to_string (offset pos))
           | inr e => inr (INTERNAL_SERVER_ERROR, display e)
           end)
  end.

Definition hwm_handler (state : AppState) : KM (World * Process) string :=
  let* t := arc_get (topic_none state) in
  match partitions t !! 0%nat with
  | Some p => ret (u64_to_string (high_water_mark p))
  | None => panic "topic has at least one partition"
  end.

Definition ensure_topic (name : string) (compression : Compression) : KM (World * (Process * Kafko)) unit :=
  let* has := has_topic name in
  if has then ret tt
  else create_topic_with_config name (bench_config compression).

(** [main] after the broker has been opened, up to [Router::new]. *)
Definition bind_handles : KM (World * (Process * Kafko)) AppState :=
  let* _ := ensure_topic "bench_none" CNone in
  let* _ := ensure_topic "bench_lz4" Lz4 in
  let* _ := ensure_topic "bench_zstd" Zstd in
  let* producer_none := producer_for "bench_none" in
  let* producer_lz4 := producer_for "bench_lz4" in
  let* producer_zstd := producer_for "bench_zstd" in
  let* topic_none := topic "bench_none" in
  match topic_none with
  | Some topic_none => ret (mkAppState producer_none producer_lz4 producer_zstd topic_none)
  | None => panic "topic 'bench_none' exists after create"
  end.

(** Code that has a [broker] of its own, and hands it on. *)
Definition with_broker {A} (broker : Kafko) (m : KM (World * (Process * Kafko)) A) : KM (World * Process) (A * Kafko) :=
  fun '(w, p) =>
    match m (w, (p, broker)) with
    | (Ok a, (w', (p', k'))) => (Ok (a, k'), (w', p'))
    | (Err e, (w', (p', _))) => (Err e, (w', p'))
    | (Panic m, (w', (p', _))) => (Panic m, (w', p'))
    | (NoFuel, (w', (p', _))) => (NoFuel, (w', p'))
    end.

(** An early return drops the broker. *)
Definition or_drop {A} (m : KM (World * (Process * Kafko)) A) : KM (World * (Process * Kafko)) A :=
  fun s =>
    match m s with
    | (Err e, s') => (let* _ := drop_kafko MultiThread in throw e) s'
    | r => r
    end.

(** [main]: [reset] is whether KAFKO_RESET is set. *)
Definition startup (data_dir : path) (reset : bool) : KM (World * Process) (AppState * Kafko) :=
  let* _ := (if reset then let* _ := attempt (in_world (io (remove_dir_all data_dir))) in ret tt else ret tt) in
  let* broker := Broker.open data_dir in
  with_broker broker (or_drop bind_handles).

(** Requests one after another. *)
Definition handle_request (st : AppState) (q : request) : KM (World * Process) response :=
  match q with
  | Post codec body => produce_handler st codec body
  | GetHwm => let* s := hwm_handler st in ret (inl s)
  end.

Fixpoint serve (st : AppState) (qs : list request) : KM (World * Process) (list response) :=
  match qs with
  | [] => ret []
  | q :: qs => let* r := handle_request st q in let* rs := serve st qs in ret (r :: rs)
  end.

(** ** What the handlers answer *)
Context {FL : FlockLaws F}.
Context {R S : World -> Log -> alog -> Prop} {D : World -> path -> alog -> Prop}.
Context {LC : LogContract R} {LS : LogStore R S D}.

Definition codec_topic (codec : string) : option string :=
  if String.eqb codec "none" then Some "bench_none"
  else if String.eqb codec "lz4" then Some "bench_lz4"
  else if String.eqb codec "zstd" then Some "bench_zstd"
  else None.

Definition codec_name (c : Compression) : string :=
  match c with CNone => "none" | Lz4 => "lz4" | Zstd => "zstd" end.

Definition bench_handles (st : AppState) : list handle :=
  [("bench_none", producer_none st); ("bench_lz4", producer_lz4 st); ("bench_zstd", producer_zstd st);
   ("bench_none", topic_none st)].

(** The server as three logs: a POST appends its body to its codec's log and
    answers with the offset it got, GET answers with the next offset of the
    uncompressed log. *)
Inductive hstep (now : Z) : request -> gmap string atopic -> response -> gmap string atopic -> Prop :=
| h_post codec body ts name t a :
    codec_topic codec = Some name -> ts !! name = Some t -> at_logs t = [a] ->
    hstep now (Post codec body) ts (inl (u64_to_string (a_next a)))
      (<[name := mkATopic [a_append [LogRecord.new now None body] a] (at_config t)]> ts)
| h_unknown codec body ts :
    codec_topic codec = None -> hstep now (Post codec body) ts (inr (BAD_REQUEST, bad_codec codec)) ts
| h_hwm ts t a :
    ts !! "bench_none" = Some t -> at_logs t = [a] -> hstep now GetHwm ts (inl (u64_to_string (a_next a))) ts.

Inductive hsteps (now : Z) : list request -> gmap string atopic -> list response -> gmap string atopic -> Prop :=
| hsteps_nil ts : hsteps now [] ts [] ts
| hsteps_cons q qs ts r ts1 rs ts2 :
    hstep now q ts r ts1 -> hsteps now qs ts1 rs ts2 -> hsteps now (q :: qs) ts (r :: rs) ts2.

(** The topics have one partition each, and the bodies fit. *)
Definition req_ok (w : World) (q : request) (ts : gmap string atopic) : Prop :=
  match q with
  | GetHwm => exists t a, ts !! "bench_none" = Some t /\ at_logs t = [a]
  | Post codec body => forall name, codec_topic codec = Some name -> exists t a,
      ts !! name = Some t /\ at_logs t = [a]
      /\ storable (compression (at_config t)) (LogRecord.new (stamp w) None body)
      /\ room w (at_config t) [LogRecord.new (stamp w) None body] /\ a_next a + 1 < 2 ^ 64
  end.

Fixpoint reqs_ok (w : World) (qs : list request) (ts : gmap string atopic) : Prop :=
  match qs with
  | [] => True
  | q :: qs => req_ok w q ts /\ forall r ts', hstep (stamp w) q ts r ts' -> reqs_ok w qs ts'
  end.

Lemma req_ok_env w w' q ts : same_env w w' -> req_ok w q ts -> req_ok w' q ts.
Proof.
  intros [E1 E2]. destruct q as [codec body|]; [|done]. simpl. unfold stamp. rewrite E1.
  intros Hq name Hc. destruct (Hq name Hc) as (t & a & H1 & H2 & H3 & [G1 G2 G3] & H5). exists t, a.
  do 3 (split; [done|]). split; [|done].
  assert (E : seg_limit w' = seg_limit w) by (unfold seg_limit; by rewrite E2). split; try done; by rewrite E.
Qed.

Lemma reqs_ok_env w w' qs ts : same_env w w' -> reqs_ok w qs ts -> reqs_ok w' qs ts.
Proof.
  intros He. revert ts. induction qs as [|q qs IH]; [done|]. intros ts [H1 H2].
  split; [by eapply req_ok_env|]. rewrite (stamp_env _ _ He). eauto.
Qed.

Lemma on_process_inv {A} (m : KM (World * Process) A) w p k o w' p' k' :
  on_process m (w, (p, k)) = (o, (w', (p', k'))) -> m (w, p) = (o, (w', p')).
Proof. unfold on_process, zoom. simpl. destruct (m (w, p)) as [o1 [w1 p1]]. by intros [= -> -> -> _]. Qed.

(** The producer of a codec is the handle on its topic. *)
Lemma produce_as st codec name :
  codec_topic codec = Some name -> exists id i, bench_handles st !! i = Some (name, id)
    /\ forall body, produce_handler st codec body =
         let* r := attempt (on_arc id (Producer.send None body)) in
         ret (match r with
              | inl pos => inl (u64_to_string (offset pos))
              | inr e => inr (INTERNAL_SERVER_ERROR, display e)
              end).
Proof.
  unfold codec_topic, produce_handler.
  destruct (String.eqb codec "none"); [intros [= <-]; by exists (producer_none st), 0%nat|].
  destruct (String.eqb codec "lz4"); [intros [= <-]; by exists (producer_lz4 st), 1%nat|].
  destruct (String.eqb codec "zstd"); [intros [= <-]; by exists (producer_zstd st), 2%nat|done].
Qed.

Lemma produce_unknown st codec body s :
  codec_topic codec = None -> produce_handler st codec body s = (Ok (inr (BAD_REQUEST, bad_codec codec)), s).
Proof.
  unfold codec_topic, produce_handler.
  destruct (String.eqb codec "none"); [done|]. destruct (String.eqb codec "lz4"); [done|].
  by destruct (String.eqb codec "zstd").
Qed.

Lemma request_run st w p k ts q :
  broker_rep (R := R) w p k ts (bench_handles st) -> req_ok w q ts ->
  exists r w' p' ts', handle_request st q (w, p) = (Ok r, (w', p')) /\ hstep (stamp w) q ts r ts'
    /\ broker_rep (R := R) w' p' k ts' (bench_handles st) /\ same_env w w'.
Proof.
  intros Hb Hok. destruct q as [codec body|]; cbn [handle_request].
  - destruct (codec_topic codec) as [name|] eqn:Hc; cycle 1.
    { eexists _, w, p, ts. split; [by apply produce_unknown|]. by split_and!; [constructor|..]. }
    destruct (Hok name Hc) as (t & a & Ht & Ha & Hst & Hro & Hn).
    destruct (produce_as st codec name Hc) as (id & i & Hh & E).
    destruct (send_handle_run w p k ts _ i name id t None body Hb Hh Ht Hst Hro)
      as (w' & p' & n & a' & Hrun & Hla & _ & Hb' & Ho).
    { intros x Hx. rewrite Ha in Hx. apply list_elem_of_singleton in Hx as ->. done. }
    rewrite Ha in Hla, Hb'. apply list_lookup_singleton_Some in Hla as [-> <-].
    apply on_process_inv in Hrun. eexists _, w', p', _. split; [|split; [by econstructor|split; [exact Hb'|]]].
    + rewrite E. by rewrite (bind_Ok _ _ _ _ _ (attempt_Ok _ _ _ _ Hrun)).
    + by eapply outside_env.
  - destruct Hok as (t & a & Ht & Ha).
    destruct (handle_topic _ _ _ _ _ 3%nat _ _ Hb eq_refl) as (_ & t' & Ht' & (tp & Hp & Hr & _) & _).
    rewrite Ht in Ht'. injection Ht' as <-. rewrite Ha in Hr.
    destruct (topic_rep_lookup _ _ _ _ 0%nat Hr) as (q & a' & Hq & [= <-] & Hprep & _); [simpl; lia|].
    eexists _, w, p, ts. split; [|split; [by econstructor|by split]].
    unfold hwm_handler, bind, arc_get. rewrite Hp, Hq. by rewrite (prep_hwm _ _ _ Hprep).
Qed.

Lemma serve_run st w p k ts qs :
  broker_rep (R := R) w p k ts (bench_handles st) -> reqs_ok w qs ts ->
  exists rs w' p' ts', serve st qs (w, p) = (Ok rs, (w', p')) /\ hsteps (stamp w) qs ts rs ts'
    /\ broker_rep (R := R) w' p' k ts' (bench_handles st).
Proof.
  revert w p ts. induction qs as [|q qs IH]; intros w p ts Hb Hok.
  { eexists _, w, p, ts. split; [reflexivity|]. split; [constructor|done]. }
  destruct Hok as [Hq Hok].
  destruct (request_run st w p k ts q Hb Hq) as (r & w1 & p1 & ts1 & Hrun & Hs & Hb1 & He).
  destruct (IH w1 p1 ts1 Hb1 (reqs_ok_env _ _ _ _ He (Hok _ _ Hs))) as (rs & w2 & p2 & ts2 & Hrun2 & Hs2 & Hb2).
  rewrite (stamp_env _ _ He) in Hs2. eexists _, w2, p2, ts2. split; [|split; [by econstructor|exact Hb2]].
  cbn [serve]. rewrite (bind_Ok _ _ _ _ _ Hrun). by rewrite (bind_Ok _ _ _ _ _ Hrun2).
Qed.

(** ** Starting up *)

(** What [ensure_topic] promises: a topic that is there is left alone, its
    codec whatever it is. *)
Definition ensured (name : string) (c : Compression) (ts : gmap string atopic) : gmap string atopic :=
  if ts !! name is Some _ then ts else <[name := empty_topic 1 (bench_config c)]> ts.

Definition benched (ts : gmap string atopic) : gmap string atopic :=
  ensured "bench_zstd" Zstd (ensured "bench_lz4" Lz4 (ensured "bench_none" CNone ts)).

Lemma ensured_keeps name c ts x t : ts !! x = Some t -> ensured name c ts !! x = Some t.
Proof.
  intros Ht. unfold ensured. destruct (ts !! name) eqn:E; [exact Ht|].
  rewrite lookup_insert_ne; [exact Ht|]. intros ->. congruence.
Qed.

Lemma benched_keeps ts x t : ts !! x = Some t -> benched ts !! x = Some t.
Proof. intros Ht. unfold benched. by do 3 apply ensured_keeps. Qed.

Lemma ensured_other name c ts x : x <> name -> ensured name c ts !! x = ts !! x.
Proof. intros Hx. unfold ensured. destruct (ts !! name); [done|]. by apply lookup_insert_ne. Qed.

Lemma ensured_same name c ts :
  ensured name c ts !! name = Some (default (empty_topic 1 (bench_config c)) (ts !! name)).
Proof. unfold ensured. destruct (ts !! name) eqn:E; [exact E|apply lookup_insert_eq]. Qed.

Lemma benched_topic codec name ts :
  codec_topic codec = Some name ->
  exists c, codec = codec_name c
    /\ benched ts !! name = Some (default (empty_topic 1 (bench_config c)) (ts !! name)).
Proof.
  unfold codec_topic, benched.
  destruct (String.eqb_spec codec "none") as [->|_]; [intros [= <-]; exists CNone|].
  { split; [done|]. do 2 (rewrite ensured_other by done). apply ensured_same. }
  destruct (String.eqb_spec codec "lz4") as [->|_]; [intros [= <-]; exists Lz4|].
  { split; [done|]. rewrite ensured_other, ensured_same by done. by rewrite ensured_other. }
  destruct (String.eqb_spec codec "zstd") as [->|_]; [intros [= <-]; exists Zstd|done].
  split; [done|]. rewrite ensured_same. by do 2 (rewrite ensured_other by done).
Qed.

Lemma ensure_new w p k ts hs name c :
  broker_rep (R := R) w p k ts hs -> ts !! name = None -> plain name -> name <> LOCK_FILENAME ->
  exists w' p' k', ensure_topic name c (w, (p, k)) = (Ok tt, (w', (p', k')))
    /\ broker_rep (R := R) w' p' k' (<[name := empty_topic 1 (bench_config c)]> ts) hs
    /\ same_env w w' /\ dir k' = dir k.
Proof.
  intros Hb Hn Hp Hl.
  destruct (create_topic_run w p k ts hs name (bench_config c) 1 default_usable Hb Hn Hp Hl ltac:(lia)) as (w' & p' & k' & Hrun & Hb' & Hdk & Ho).
  exists w', p', k'. split; [|split; [done|split; [by eapply outside_env|done]]]. unfold ensure_topic, has_topic. unfold bind at 1 2, kafko, ret. cbn [snd].
  rewrite (br_only _ _ _ _ _ Hb _ Hn). exact Hrun.
Qed.

Lemma ensure_there w p k ts hs name c t :
  broker_rep (R := R) w p k ts hs -> ts !! name = Some t ->
  ensure_topic name c (w, (p, k)) = (Ok tt, (w, (p, k))).
Proof.
  intros Hb Ht. destruct (br_topic _ _ _ _ _ Hb _ _ Ht) as (id & Hi & _).
  unfold ensure_topic, has_topic, bind, kafko, ret. cbn [snd]. by rewrite Hi.
Qed.

Lemma ensure_run w p k ts hs name c :
  broker_rep (R := R) w p k ts hs -> plain name -> name <> LOCK_FILENAME ->
  exists w' p' k', ensure_topic name c (w, (p, k)) = (Ok tt, (w', (p', k')))
    /\ broker_rep (R := R) w' p' k' (ensured name c ts) hs /\ same_env w w' /\ dir k' = dir k.
Proof.
  intros Hb Hp Hl. unfold ensured. destruct (ts !! name) as [t|] eqn:E.
  - exists w, p, k. split; [by eapply ensure_there|]. by split.
  - by apply ensure_new.
Qed.

Lemma bind_handles_run w p k ts :
  broker_rep (R := R) w p k ts [] ->
  exists st w' p' k', bind_handles (w, (p, k)) = (Ok st, (w', (p', k')))
    /\ broker_rep (R := R) w' p' k' (benched ts) (bench_handles st) /\ same_env w w' /\ dir k' = dir k.
Proof.
  intros Hb. assert (Hpl : forall s : string, s = "bench_none" \/ s = "bench_lz4" \/ s = "bench_zstd" -> plain s /\ s <> LOCK_FILENAME).
  { intros s [->|[-> | ->]]; (split; [split; [reflexivity|split_and!; discriminate]|discriminate]). }
  destruct (Hpl "bench_none" ltac:(auto)) as [P1 L1]. destruct (Hpl "bench_lz4" ltac:(auto)) as [P2 L2].
  destruct (Hpl "bench_zstd" ltac:(auto)) as [P3 L3].
  destruct (ensure_run _ _ _ _ _ _ CNone Hb P1 L1) as (w1 & p1 & k1 & R1 & B1 & E1 & K1).
  destruct (ensure_run _ _ _ _ _ _ Lz4 B1 P2 L2) as (w2 & p2 & k2 & R2 & B2 & E2 & K2).
  destruct (ensure_run _ _ _ _ _ _ Zstd B2 P3 L3) as (w3 & p3 & k3 & R3 & B3 & E3 & K3). fold (benched ts) in B3.
  destruct (benched_topic "none" _ ts eq_refl) as (c1 & _ & T1).
  destruct (benched_topic "lz4" _ ts eq_refl) as (c2 & _ & T2).
  destruct (benched_topic "zstd" _ ts eq_refl) as (c3 & _ & T3).
  destruct (topic_run _ _ _ _ _ _ _ B3 T1) as (i1 & p4 & R4 & _ & B4).
  destruct (topic_run _ _ _ _ _ _ _ B4 T2) as (i2 & p5 & R5 & _ & B5).
  destruct (topic_run _ _ _ _ _ _ _ B5 T3) as (i3 & p6 & R6 & _ & B6).
  destruct (topic_run _ _ _ _ _ _ _ B6 T1) as (i4 & p7 & R7 & _ & B7).
  exists (mkAppState i1 i2 i3 i4), w3, p7, k3.
  split; [|split; [exact B7|split; [exact (same_env_trans _ _ _ E1 (same_env_trans _ _ _ E2 E3))|congruence]]].
  unfold bind_handles. rewrite (bind_Ok _ _ _ _ _ R1), (bind_Ok _ _ _ _ _ R2), (bind_Ok _ _ _ _ _ R3).
  rewrite (bind_Ok _ _ _ _ _ R4), (bind_Ok _ _ _ _ _ R5), (bind_Ok _ _ _ _ _ R6).
  unfold topic_or_not_found in R7. apply bind_Ok_inv in R7 as ([id|] & s & R7 & E); [|done].
  injection E as -> ->. by rewrite (bind_Ok _ _ _ _ _ R7).
Qed.

Lemma startup_run w p d reset ts :
  data_dir (D := D) w d ts -> ~ locked (d ++ [LOCK_FILENAME]) (flocks p) ->
  (forall id, is_Some (arcs p !! id) -> (id < next_arc p)%nat) ->
  exists st k w' p', startup d reset (w, p) = (Ok (st, k), (w', p'))
    /\ broker_rep (R := R) w' p' k
         (benched (reopened (if reset then empty else ts))) (bench_handles st)
    /\ same_env w w' /\ dir k = d.
Proof.
  intros Hd Hl Hi.
  assert (Hr : exists w1, (if reset then let* _ := attempt (in_world (io (remove_dir_all d))) in ret tt else ret tt)
                (w, p) = (Ok tt : outcome KafkoError unit, (w1, p)) /\ data_dir (D := D) w1 d (if reset then empty else ts) /\ same_env w w1).
  { destruct reset; [|by exists w]. destruct (reset_run w d ts Hd) as (r & w1 & Hrun & Hd1 & He). exists w1. split; [|done].
    unfold bind, attempt, in_world, zoom in *. simpl in *. by destruct (io (remove_dir_all d) w) as [[] ?]; simplify_eq. }
  destruct Hr as (w1 & R0 & Hd1 & E1).
  destruct (broker_open_run w1 p d default_config _ default_usable Hd1 Hl Hi) as (w2 & p2 & k & R1 & Hb & K2 & _ & _ & E2).
  destruct (bind_handles_run _ _ _ _ Hb) as (st & w3 & p3 & k3 & R2 & Hb3 & E3 & K3).
  exists st, k3, w3, p3.
  split; [|split; [exact Hb3|split; [exact (same_env_trans _ _ _ E1 (same_env_trans _ _ _ E2 E3))|congruence]]]. unfold startup. rewrite (bind_Ok _ _ _ _ _ R0).
  unfold Broker.open. rewrite (bind_Ok _ _ _ _ _ R1). unfold with_broker, or_drop. by rewrite R2.
Qed.

End http.
