(* ===== verification/HttpMain.v ===== *)
(** * The HTTP server from the environment to the answers (kafko-http/src/main.rs)

    [main]: the environment, the broker, the router's table, the listener, and
    requests as they come over the wire.  The web framework is a parameter:
    [dispatch] is its routing and its extractors, [into_response] its
    conversion of what a handler returns; [AxumLaws] is what its documentation
    says of them for any table of routes.  [axum::serve] does not return; the requests
    are those of a run, one after another. *)

From S2P Require Import Prelude Bytes Error Compression LogRecord Fs Names Display Search.
From S2P Require Import Segment SparseIndex Log LogInv LogOps LogRecover LogCrash LogSpec LogStore.
From S2P Require Import OffsetStore Partition PartitionSpec Topic Producer TopicSpec TopicStore.
From S2P Require Import Consumer ConsumerSpec GroupSpec Broker BrokerSpec Registry BrokerStore BrokerOpen.
From S2P Require Import BrokerRefine Http.
From Stdlib Require Import Ascii.

(** ** The wire *)
Inductive Method : Type := GET | HEAD | POST | OtherMethod (name : string).

Record http_request : Type := mkRequest { method : Method; uri_path : string; body : list byte }.
Record http_response : Type := mkResponse { status : Z; text : string }.

(** ** The table of routes *)
Inductive endpoint : Type := produce_endpoint | hwm_endpoint.
Inductive MethodRouter : Type := post (e : endpoint) | get (e : endpoint).

Definition app : list (string * MethodRouter) :=
  [("/produce/:codec", post produce_endpoint); ("/hwm", get hwm_endpoint)].

(** What a handler takes from a request: the captured segments of the path, in
    order, and for [produce_handler] the body. *)
Definition extract (e : endpoint) (params : list string) (body : list byte) : option request :=
  match e, params with
  | produce_endpoint, [codec] => Some (Post codec body)
  | hwm_endpoint, [] => Some GetHwm
  | _, _ => None
  end.

Definition takes_body (e : endpoint) : bool := match e with produce_endpoint => true | hwm_endpoint => false end.

(** The framework refuses a request itself, or calls a handler with what its
    extractors found. *)
Class Axum : Type := {
  dispatch : list (string * MethodRouter) -> http_request -> http_response + request;
  into_response : response -> http_response;
}.

(** *** Matching a path

    Patterns and paths are compared segment by segment; a segment [:name] of
    the pattern captures any segment that is not empty. *)
Fixpoint match_segments (pattern path : list string) : option (list string) :=
  match pattern, path with
  | [], [] => Some []
  | String ":" _ :: pattern', s :: path' =>
      if String.eqb s "" then None else cons s <$> match_segments pattern' path'
  | p :: pattern', s :: path' => if String.eqb p s then match_segments pattern' path' else None
  | _, _ => None
  end.

Definition match_path (pattern path : string) : option (list string) :=
  match_segments (path_components "" pattern) (path_components "" path).

(** The routes of a table that a path matches, with what they capture. *)
Definition routes (table : list (string * MethodRouter)) (path : string) : list (MethodRouter * list string) :=
  omap (fun '(pattern, r) => (fun params => (r, params)) <$> match_path pattern path) table.

Definition handler (r : MethodRouter) : endpoint := match r with post e | get e => e end.

(** [get] also takes HEAD requests, whose answers lose their bodies. *)
Definition accepts (r : MethodRouter) (m : Method) : bool :=
  match r, m with post _, POST | get _, GET => true | _, _ => false end.
Definition refuses (r : MethodRouter) (m : Method) : bool :=
  match r, m with post _, POST | get _, (GET | HEAD) => false | _, _ => true end.

(** A path segment in which nothing is escaped. *)
Definition unreserved (c : ascii) : bool :=
  let n := nat_of_ascii c in
  (48 <=? n)%nat && (n <=? 57)%nat || (65 <=? n)%nat && (n <=? 90)%nat || (97 <=? n)%nat && (n <=? 122)%nat
  || Ascii.eqb c "-" || Ascii.eqb c "." || Ascii.eqb c "_" || Ascii.eqb c "~".

Fixpoint all_unreserved (s : string) : bool :=
  match s with
  | EmptyString => true
  | String c s' => unreserved c && all_unreserved s'
  end.

Definition segment (s : string) : bool := negb (String.eqb s "") && all_unreserved s.

(** [axum::extract::DefaultBodyLimit]. *)
Definition BODY_LIMIT : Z := 2097152.

Definition reply (r : response) : http_response :=
  match r with
  | inl s => mkResponse 200 s
  | inr (BAD_REQUEST, s) => mkResponse 400 s
  | inr (INTERNAL_SERVER_ERROR, s) => mkResponse 500 s
  end.

Definition no_method (m : Method) (path : string) : Prop :=
  (path = "/hwm" /\ m <> GET /\ m <> HEAD)
  \/ exists codec, path = "/produce/" +:+ codec /\ segment codec = true /\ m <> POST.

Definition no_slash (s : string) : bool := all_chars (fun c => negb (Ascii.eqb c "/")) s.

Definition no_route (path : string) : Prop :=
  path <> "/hwm" /\ forall s, path = "/produce/" +:+ s -> s = "" \/ no_slash s = false.

(** What the documentation says of requests that match one route of a table,
    or none: captured segments come as they are if nothing in them is escaped,
    a body above the limit is refused where a handler takes it, a method
    without a handler is refused, and so is a path without a route. *)
Class AxumLaws (A : Axum) : Prop := {
  ax_call table q r params rq :
    routes table (uri_path q) = [(r, params)] -> accepts r (method q) = true ->
    forallb all_unreserved params = true -> takes_body (handler r) = false \/ len (body q) <= BODY_LIMIT ->
    extract (handler r) params (body q) = Some rq -> dispatch table q = inr rq;
  ax_too_large table q r params :
    routes table (uri_path q) = [(r, params)] -> accepts r (method q) = true ->
    forallb all_unreserved params = true -> takes_body (handler r) = true -> BODY_LIMIT < len (body q) ->
    exists s, dispatch table q = inl (mkResponse 413 s);
  ax_method table q r params :
    routes table (uri_path q) = [(r, params)] -> refuses r (method q) = true ->
    exists s, dispatch table q = inl (mkResponse 405 s);
  ax_path table q : routes table (uri_path q) = [] -> exists s, dispatch table q = inl (mkResponse 404 s);
  ax_reply r : into_response r = reply r;
}.

(** ** [main] *)
Inductive Error : Type := Kafka (e : KafkoError) | Listener (e : io_error).

Record Serving : Type := mkServing { stderr : list string; answers : list http_response; broker : Kafko }.

Definition banner (bind : string) : list string :=
  ["kafko HTTP server listening on http://" +:+ bind;
   "  POST /produce/none  (Compression::None)";
   "  POST /produce/lz4   (Compression::Lz4)";
   "  POST /produce/zstd  (Compression::Zstd)"].

Section main.
Context {B : Buf} {H : Crc32} {C : Codecs} {F : Flock} {A : Axum}.
Context (display : KafkoError -> string).
Context (env : string -> option string) (cwd : path) (tcp_bind : string -> option io_error).

Definition answer (st : AppState) (q : http_request) : KM (World * Process) http_response :=
  match dispatch app q with
  | inl r => ret r
  | inr q => let* r := handle_request display st q in ret (into_response r)
  end.

Fixpoint axum_serve (st : AppState) (qs : list http_request) : KM (World * Process) (list http_response) :=
  match qs with
  | [] => ret []
  | q :: qs => let* r := answer st q in let* rs := axum_serve st qs in ret (r :: rs)
  end.

(** The router goes with the state it holds, then the broker. *)
Definition drop_all (st : AppState) (broker : Kafko) : KM (World * Process) (unit * Kafko) :=
  with_broker broker
    (let* _ := for_each [producer_none st; producer_lz4 st; producer_zstd st; topic_none st]
                 (fun id => on_process (arc_drop id)) in
     drop_kafko MultiThread).

Definition http_data_dir : path := join cwd (default "./kafko-http_data" (env "KAFKO_DATA_DIR")).
Definition reset : bool := if env "KAFKO_RESET" is Some _ then true else false.

Definition main (requests : list http_request) : M (World * Process) Error Serving :=
  let* started := map_err Kafka (startup http_data_dir reset) in
  let '(state, broker) := started in
  let bind_addr := default "127.0.0.1:9091" (env "KAFKO_BIND") in
  match tcp_bind bind_addr with
  | Some e => let* _ := map_err Kafka (drop_all state broker) in throw (Listener e)
  | None =>
      let* answers := map_err Kafka (axum_serve state requests) in
      ret (mkServing (banner bind_addr) answers broker)
  end.

(** ** The routes of the server *)
Lemma unreserved_no_slash s : all_unreserved s = true -> no_slash s = true.
Proof.
  induction s as [|c s IH]; [done|]. cbn. intros [Hc Hs]%andb_prop. apply andb_true_intro. split; [|by apply IH].
  destruct (Ascii.eqb_spec c "/") as [->|]; [discriminate Hc|done].
Qed.

Lemma path_components_join cur s : String.concat "/" (path_components cur s) = cur +:+ s.
Proof.
  revert cur. induction s as [|c s IH]; intros cur; [simpl; by rewrite app_string_nil|]. cbn [path_components].
  destruct (Ascii.eqb_spec c "/") as [->|Hc]; [|by rewrite IH, string_app_assoc].
  destruct (path_components "" s) as [|x l] eqn:E; [by destruct (path_components_nonempty "" s)|].
  specialize (IH ""). rewrite E in IH. change (cur +:+ "/" +:+ String.concat "/" (x :: l) = cur +:+ String "/" s).
  by rewrite IH.
Qed.

Lemma routes_produce codec :
  segment codec = true -> routes app ("/produce/" +:+ codec) = [(post produce_endpoint, [codec])].
Proof.
  intros Hs. pose proof Hs as [Hne Hu]%andb_prop. unfold routes, app, match_path. cbn [omap list_omap].
  change (path_components "" ("/produce/" +:+ codec)) with ("" :: "produce" :: path_components "" codec).
  rewrite (path_components_plain "" codec) by by apply unreserved_no_slash.
  change ("" +:+ codec) with codec.
  change (match_segments (path_components "" "/produce/:codec") ["" ; "produce"; codec])
    with (if String.eqb codec "" then None else cons codec <$> Some []).
  by destruct (String.eqb codec "").
Qed.

Lemma routes_hwm : routes app "/hwm" = [(get hwm_endpoint, [])].
Proof. reflexivity. Qed.

Lemma match_produce path params :
  match_path "/produce/:codec" path = Some params -> exists s, path = "/produce/" +:+ s /\ s <> "" /\ no_slash s = true.
Proof.
  unfold match_path. pose proof (path_components_join "" path) as Hj. pose proof (path_components_no_slash "" path eq_refl) as Hf.
  change (path_components "" "/produce/:codec") with [""; "produce"; ":codec"].
  destruct (path_components "" path) as [|s1 [|s2 [|s3 [|s4 l]]]]; cbn [match_segments]; try done.
  all: destruct (String.eqb_spec "" s1) as [<-|]; try done.
  all: destruct (String.eqb_spec "produce" s2) as [<-|]; try done.
  all: destruct (String.eqb_spec s3 "") as [|Hne]; try done.
  intros _. exists s3. split; [exact (eq_sym Hj)|]. split; [done|]. by apply (Forall_lookup_1 _ _ 2 _ Hf).
Qed.

Lemma match_hwm path params : match_path "/hwm" path = Some params -> path = "/hwm".
Proof.
  unfold match_path. pose proof (path_components_join "" path) as Hj.
  change (path_components "" "/hwm") with [""; "hwm"].
  destruct (path_components "" path) as [|s1 [|s2 [|s3 l]]]; cbn [match_segments]; try done.
  all: destruct (String.eqb_spec "" s1) as [<-|]; try done.
  all: destruct (String.eqb_spec "hwm" s2) as [<-|]; try done.
Qed.

Lemma routes_none path : no_route path -> routes app path = [].
Proof.
  intros [H1 H2]. unfold routes, app. cbn [omap list_omap].
  destruct (match_path "/produce/:codec" path) as [ps|] eqn:E1.
  { apply match_produce in E1 as (s & -> & Hne & Hs). destruct (H2 s eq_refl); congruence. }
  destruct (match_path "/hwm" path) as [ps|] eqn:E2; [by apply match_hwm in E2|done].
Qed.

Lemma routes_method m path :
  no_method m path -> exists r params, routes app path = [(r, params)] /\ refuses r m = true.
Proof.
  intros [(-> & H1 & H2)|(codec & -> & Hs & Hm)].
  - exists (get hwm_endpoint), []. split; [done|]. by destruct m.
  - exists (post produce_endpoint), [codec]. split; [by apply routes_produce|]. by destruct m.
Qed.

(** ** What the server answers *)
Context {FL : FlockLaws F} {AL : AxumLaws A}.
Context {R S : World -> Log -> alog -> Prop} {D : World -> path -> alog -> Prop}.
Context {LC : LogContract R} {LS : LogStore R S D}.

Inductive wstep (now : Z) : http_request -> gmap string atopic -> http_response -> gmap string atopic -> Prop :=
| w_produce codec b ts r ts' :
    segment codec = true -> len b <= BODY_LIMIT -> hstep now (Post codec b) ts r ts' ->
    wstep now (mkRequest POST ("/produce/" +:+ codec) b) ts (reply r) ts'
| w_too_large codec b s ts :
    segment codec = true -> BODY_LIMIT < len b ->
    wstep now (mkRequest POST ("/produce/" +:+ codec) b) ts (mkResponse 413 s) ts
| w_hwm b ts r ts' : hstep now GetHwm ts r ts' -> wstep now (mkRequest GET "/hwm" b) ts (reply r) ts'
| w_method m path b s ts : no_method m path -> wstep now (mkRequest m path b) ts (mkResponse 405 s) ts
| w_path m path b s ts : no_route path -> wstep now (mkRequest m path b) ts (mkResponse 404 s) ts.

Inductive wsteps (now : Z) : list http_request -> gmap string atopic -> list http_response -> gmap string atopic -> Prop :=
| wsteps_nil ts : wsteps now [] ts [] ts
| wsteps_cons q qs ts r ts1 rs ts2 :
    wstep now q ts r ts1 -> wsteps now qs ts1 rs ts2 -> wsteps now (q :: qs) ts (r :: rs) ts2.

(** Requests whose paths have nothing escaped, and whose bodies fit. *)
Inductive wreq_ok (w : World) (ts : gmap string atopic) : http_request -> Prop :=
| wok_produce codec b :
    segment codec = true -> (len b <= BODY_LIMIT -> req_ok w (Post codec b) ts) ->
    wreq_ok w ts (mkRequest POST ("/produce/" +:+ codec) b)
| wok_hwm b : req_ok w GetHwm ts -> wreq_ok w ts (mkRequest GET "/hwm" b)
| wok_method m path b : no_method m path -> wreq_ok w ts (mkRequest m path b)
| wok_path m path b : no_route path -> wreq_ok w ts (mkRequest m path b).

Fixpoint wreqs_ok (w : World) (qs : list http_request) (ts : gmap string atopic) : Prop :=
  match qs with
  | [] => True
  | q :: qs => wreq_ok w ts q /\ forall r ts', wstep (stamp w) q ts r ts' -> wreqs_ok w qs ts'
  end.

Lemma wreqs_ok_env w w' qs ts : same_env w w' -> wreqs_ok w qs ts -> wreqs_ok w' qs ts.
Proof.
  intros He. revert ts. induction qs as [|q qs IH]; [done|]. intros ts [H1 H2]. split.
  - destruct H1 as [codec b Hs Hr|b Hr|m path b Hm|m path b Hp].
    + apply wok_produce; [done|]. intros Hl. eapply req_ok_env; [exact He|auto].
    + apply wok_hwm. by eapply req_ok_env.
    + by apply wok_method.
    + by apply wok_path.
  - rewrite (stamp_env _ _ He). eauto.
Qed.

Lemma answer_run st w p k ts q :
  broker_rep (R := R) w p k ts (bench_handles st) -> wreq_ok w ts q ->
  exists r w' p' ts', answer st q (w, p) = (Ok r, (w', p')) /\ wstep (stamp w) q ts r ts'
    /\ broker_rep (R := R) w' p' k ts' (bench_handles st) /\ same_env w w'.
Proof.
  intros Hb Hok. unfold answer. destruct Hok as [codec b Hs Hr|b Hr|m path b Hm|m path b Hp].
  - pose proof Hs as [_ Hu]%andb_prop. destruct (Z.le_gt_cases (len b) BODY_LIMIT) as [Hl|Hl].
    + rewrite (ax_call app _ (post produce_endpoint) [codec] (Post codec b)); try done;
        [|by apply routes_produce|by cbn; rewrite Hu|by right].
      destruct (request_run display st w p k ts _ Hb (Hr Hl)) as (r & w' & p' & ts' & Hrun & Hst & Hb' & He).
      eexists _, w', p', ts'. rewrite (bind_Ok _ _ _ _ _ Hrun), ax_reply. by split_and!; [|apply w_produce|..].
    + destruct (ax_too_large app (mkRequest POST ("/produce/" +:+ codec) b) (post produce_endpoint) [codec]) as [s ->];
        [by apply routes_produce|done|by cbn; rewrite Hu|done|simpl; lia|]. eexists _, w, p, ts.
      split; [done|]. split; [apply w_too_large; [done|lia]|]. by split.
  - rewrite (ax_call app _ (get hwm_endpoint) [] GetHwm) by (done || by left). destruct (request_run display st w p k ts _ Hb Hr) as (r & w' & p' & ts' & Hrun & Hst & Hb' & He).
    eexists _, w', p', ts'. rewrite (bind_Ok _ _ _ _ _ Hrun), ax_reply. by split_and!; [|apply w_hwm|..].
  - destruct (routes_method m path Hm) as (r & params & Hr & Hrf).
    destruct (ax_method app (mkRequest m path b) r params Hr Hrf) as [s ->]. eexists _, w, p, ts. by split_and!; [|apply w_method|..].
  - destruct (ax_path app (mkRequest m path b) (routes_none path Hp)) as [s ->]. eexists _, w, p, ts. by split_and!; [|apply w_path|..].
Qed.

Lemma axum_serve_run st w p k ts qs :
  broker_rep (R := R) w p k ts (bench_handles st) -> wreqs_ok w qs ts ->
  exists rs w' p' ts', axum_serve st qs (w, p) = (Ok rs, (w', p')) /\ wsteps (stamp w) qs ts rs ts'
    /\ broker_rep (R := R) w' p' k ts' (bench_handles st).
Proof.
  revert w p ts. induction qs as [|q qs IH]; intros w p ts Hb Hok.
  { eexists _, w, p, ts. split; [reflexivity|]. split; [constructor|done]. }
  destruct Hok as [Hq Hok].
  destruct (answer_run st w p k ts q Hb Hq) as (r & w1 & p1 & ts1 & Hrun & Hs & Hb1 & He).
  destruct (IH w1 p1 ts1 Hb1 (wreqs_ok_env _ _ _ _ He (Hok _ _ Hs))) as (rs & w2 & p2 & ts2 & Hrun2 & Hs2 & Hb2).
  rewrite (stamp_env _ _ He) in Hs2. eexists _, w2, p2, ts2. split; [|split; [by econstructor|exact Hb2]].
  cbn [axum_serve]. rewrite (bind_Ok _ _ _ _ _ Hrun). by rewrite (bind_Ok _ _ _ _ _ Hrun2).
Qed.

(** The topics the server starts with. *)
Definition served (ts : gmap string (list alog)) : gmap string atopic :=
  benched (reopened (if reset then empty else ts)).

Lemma main_run w p ts qs :
  data_dir (D := D) w http_data_dir ts -> ~ locked (http_data_dir ++ [LOCK_FILENAME]) (flocks p) ->
  (forall id, is_Some (arcs p !! id) -> (id < next_arc p)%nat) ->
  tcp_bind (default "127.0.0.1:9091" (env "KAFKO_BIND")) = None -> wreqs_ok w qs (served ts) ->
  exists v w' p' st ts', main qs (w, p) = (Ok v, (w', p'))
    /\ stderr v = banner (default "127.0.0.1:9091" (env "KAFKO_BIND"))
    /\ wsteps (stamp w) qs (served ts) (answers v) ts'
    /\ broker_rep (R := R) w' p' (broker v) ts' (bench_handles st).
Proof.
  intros Hd Hl Hi Hbind Hok.
  destruct (startup_run (R := R) (S := S) (D := D) w p http_data_dir reset ts Hd Hl Hi) as (st & k & w1 & p1 & Hrun & Hb & He & Hdk).
  destruct (axum_serve_run st w1 p1 k _ qs Hb (wreqs_ok_env _ _ _ _ He Hok)) as (rs & w2 & p2 & ts' & Hs & Hst & Hb2).
  rewrite (stamp_env _ _ He) in Hst.
  exists (mkServing (banner (default "127.0.0.1:9091" (env "KAFKO_BIND"))) rs k), w2, p2, st, ts'.
  split; [|split; [done|split; [exact Hst|exact Hb2]]].
  unfold main. rewrite (bind_Ok _ _ _ _ _ (map_err_Ok _ _ _ _ _ Hrun)). cbv iota zeta. rewrite Hbind.
  by rewrite (bind_Ok _ _ _ _ _ (map_err_Ok _ _ _ _ _ Hs)).
Qed.

(** *** The listener's address is taken *)
Lemma drop_handles_run w p k ts hs :
  broker_rep (R := R) w p k ts hs ->
  exists p', for_each hs.*2 (fun id => on_process (arc_drop id)) (w, (p, k)) = (Ok tt, (w, (p', k)))
    /\ broker_rep (R := R) w p' k ts [].
Proof.
  revert p. induction hs as [|[name id] hs IH]; intros p Hb; [by exists p|].
  destruct (drop_handle_run w p k ts _ 0 name id Hb eq_refl) as (p1 & Hrun & Hb1).
  destruct (IH p1 Hb1) as (p' & Hrun' & Hb'). exists p'. split; [|done].
  cbn [fmap list_fmap for_each snd]. by rewrite (bind_Ok _ _ _ _ _ Hrun).
Qed.

Lemma main_bind_run w p ts qs e :
  data_dir (D := D) w http_data_dir ts -> ~ locked (http_data_dir ++ [LOCK_FILENAME]) (flocks p) ->
  (forall id, is_Some (arcs p !! id) -> (id < next_arc p)%nat) ->
  tcp_bind (default "127.0.0.1:9091" (env "KAFKO_BIND")) = Some e ->
  exists w' p', main qs (w, p) = (Err (Listener e), (w', p'))
    /\ ~ locked (http_data_dir ++ [LOCK_FILENAME]) (flocks p')
    /\ forall w2, crash w' w2 -> data_dir (D := D) w2 http_data_dir (at_logs <$> served ts).
Proof.
  intros Hd Hl Hi Hbind.
  destruct (startup_run (R := R) (S := S) (D := D) w p http_data_dir reset ts Hd Hl Hi) as (st & k & w1 & p1 & Hrun & Hb & He & Hdk).
  destruct (drop_handles_run _ _ _ _ _ Hb) as (p2 & Hdrop & Hb2).
  destruct (shutdown_run (R := R) (S := S) (D := D) MultiThread w1 p2 k _ [] Hb2) as (w3 & p3 & Hsd & Hset & Hap & Hlk).
  rewrite <- Hdk. exists w3, p3. split; [|split].
  - unfold main. rewrite (bind_Ok _ _ _ _ _ (map_err_Ok _ _ _ _ _ Hrun)). cbv iota zeta. rewrite Hbind.
    assert (E1 : drop_all st k (w1, p1) = (Ok (tt, set_topics empty k), (w3, p3))).
    { unfold drop_all, with_broker. cbn [bench_handles fmap list_fmap snd] in Hdrop.
      by rewrite (bind_Ok _ _ _ _ _ Hdrop), (drop_multi_thread MultiThread), Hsd. }
    by rewrite (bind_Ok _ _ _ _ _ (map_err_Ok _ _ _ _ _ E1)).
  - by rewrite <- (br_lock_path _ _ _ _ _ Hb2).
  - intros w4 Hc. exact (shutdown_data_dir _ _ _ _ _ _ _ Hb2 Hset Hap Hc).
Qed.

End main.
