(* ===== verification/HttpTheorems.v ===== *)
(** * Properties of the HTTP front end *)

From S2P Require Import Prelude Bytes Error Compression LogRecord Fs Names Search.
From S2P Require Import Segment SparseIndex Log LogInv LogOps LogRecover LogCrash LogSpec LogStore.
From S2P Require Import OffsetStore Partition PartitionSpec Topic Producer TopicSpec TopicStore.
From S2P Require Import Consumer ConsumerSpec GroupSpec Broker BrokerSpec Registry BrokerStore BrokerOpen.
From S2P Require Import BrokerRefine Display Examples BrokerExamples Http HttpMain.
From Stdlib Require Import Ascii.

Section theorems.
Context {B : Buf} {H : Crc32} {C : Codecs} {F : Flock} {FL : FlockLaws F} {HL : Crc32Laws H}.
Context {R S : World -> Log -> alog -> Prop} {D : World -> path -> alog -> Prop}.
Context {LC : LogContract R} {LS : LogStore R S D}.

(** Any sequence of requests is answered as three append-only logs would:
    a POST appends its body to the log of its codec and answers with the
    offset that body got, an unknown codec is refused with 400 and changes
    nothing, and GET /hwm answers with the next offset of the uncompressed
    log. *)
Theorem http_server_is_three_logs display st w p k ts qs :
  broker_rep (R := R) w p k ts (bench_handles st) -> reqs_ok w qs ts ->
  exists rs w' p' ts', serve display st qs (w, p) = (Ok rs, (w', p')) /\ hsteps (stamp w) qs ts rs ts'
    /\ broker_rep (R := R) w' p' k ts' (bench_handles st).
Proof. intros Hb Hok. exact (serve_run display st w p k ts qs Hb Hok). Qed.

(** C20: the server, from its environment to its answers: on a data directory
    that no broker has open, [main] brings back the topics that are there -
    none after KAFKO_RESET -, makes the bench topics that are missing, and
    answers any sequence of requests as three append-only logs would. A POST to
    /produce/none, /produce/lz4 or /produce/zstd appends its body to the log of
    its codec and answers 200 with the offset that body got; another codec is
    answered with 400, a body above the limit with 413, GET /hwm with the next
    offset of the uncompressed log, another method with 405 and another path
    with 404, and none of these changes a log. The framework is one that routes
    as documented whatever its table; which handler a request reaches is read
    off the server's own table. *)
Theorem http_server_answers_as_three_logs {A : Axum} {AL : AxumLaws A} display env cwd tcp_bind w p ts qs :
  data_dir (D := D) w (http_data_dir env cwd) ts ->
  ~ locked (http_data_dir env cwd ++ [LOCK_FILENAME]) (flocks p) ->
  (forall id, is_Some (arcs p !! id) -> (id < next_arc p)%nat) ->
  tcp_bind (default "127.0.0.1:9091" (env "KAFKO_BIND")) = None -> wreqs_ok w qs (served env ts) ->
  exists v w' p' st ts', main display env cwd tcp_bind qs (w, p) = (Ok v, (w', p'))
    /\ wsteps (stamp w) qs (served env ts) (answers v) ts'
    /\ broker_rep (R := R) w' p' (broker v) ts' (bench_handles st).
Proof.
  intros Hd Hl Hi Hb Hok.
  destruct (main_run (R := R) (S := S) (D := D) display env cwd tcp_bind w p ts qs Hd Hl Hi Hb Hok)
    as (v & w' & p' & st & ts' & H1 & _ & H3 & H4).
  by exists v, w', p', st, ts'.
Qed.

(** If the listener cannot be bound, [main] fails, but not before everything
    is closed: the lock is free and a crash costs no record. *)
Theorem http_bind_failure_closes_broker {A : Axum} display env cwd tcp_bind w p ts qs e :
  data_dir (D := D) w (http_data_dir env cwd) ts ->
  ~ locked (http_data_dir env cwd ++ [LOCK_FILENAME]) (flocks p) ->
  (forall id, is_Some (arcs p !! id) -> (id < next_arc p)%nat) ->
  tcp_bind (default "127.0.0.1:9091" (env "KAFKO_BIND")) = Some e ->
  exists w' p', main display env cwd tcp_bind qs (w, p) = (Err (Listener e), (w', p'))
    /\ ~ locked (http_data_dir env cwd ++ [LOCK_FILENAME]) (flocks p')
    /\ forall w2, crash w' w2 -> data_dir (D := D) w2 (http_data_dir env cwd) (at_logs <$> served env ts).
Proof. exact (main_bind_run (R := R) (S := S) (D := D) display env cwd tcp_bind w p ts qs e). Qed.

(** Started on a data directory, the server keeps every topic that is
    there, creates the bench topics that are missing with their codecs, and
    its handles go to them. A bench topic of an earlier run keeps its records
    but not its codec: it is opened with the default configuration. With
    KAFKO_RESET the start is as on an empty directory, whatever was there. *)
Theorem http_startup_serves_bench_topics w p d reset ts :
  data_dir (D := D) w d ts -> ~ locked (d ++ [LOCK_FILENAME]) (flocks p) ->
  (forall id, is_Some (arcs p !! id) -> (id < next_arc p)%nat) ->
  exists st k w' p' ts', startup d reset (w, p) = (Ok (st, k), (w', p'))
    /\ broker_rep (R := R) w' p' k ts' (bench_handles st)
    /\ (forall codec name, codec_topic codec = Some name -> exists c,
          codec_name c = codec
          /\ ts' !! name = Some (if reset then empty_topic 1 (bench_config c)
                                 else match ts !! name with
                                      | Some als => mkATopic als default_config
                                      | None => empty_topic 1 (bench_config c)
                                      end))
    /\ (reset = false -> forall name als, ts !! name = Some als -> ts' !! name = Some (mkATopic als default_config)).
Proof.
  intros Hd Hl Hi. destruct (startup_run (R := R) (S := S) (D := D) w p d reset ts Hd Hl Hi) as (st & k & w' & p' & Hrun & Hb & _).
  exists st, k, w', p'. eexists. split; [exact Hrun|]. split; [exact Hb|]. split.
  - intros codec name Hc. destruct (benched_topic codec name (reopened (if reset then empty else ts)) Hc) as (c & -> & E).
    exists c. split; [by destruct c|]. rewrite E. unfold reopened. rewrite lookup_fmap.
    destruct reset; [by rewrite lookup_empty|]. by destruct (ts !! name).
  - intros -> name als Hn. apply benched_keeps. unfold reopened. by rewrite lookup_fmap, Hn.
Qed.

End theorems.

(** ** Witnesses *)
Definition ex_started := startup ex_data false (ex_world, fresh_process).
Definition ex_hw : World := fst (snd ex_started).
Definition ex_hp : Process := snd (snd ex_started).
Definition ex_hst : AppState := match fst ex_started with Ok (st, _) => st | _ => mkAppState 0 0 0 0 end.
Definition ex_hk : Kafko := match fst ex_started with Ok (_, k) => k | _ => mkKafko [] empty ex_cfg [] end.

Lemma ex_h_env : now_ms ex_hw = 1700000000000 /\ seg_limit ex_hw = 2147479552.
Proof. vm_compute. split; reflexivity. Qed.

Lemma no_arcs id : is_Some (arcs fresh_process !! id) -> (id < next_arc fresh_process)%nat.
Proof. intros [x Hx]. simpl in Hx. by rewrite lookup_empty in Hx. Qed.

Lemma ex_data_empty : data_dir (D := log_openable) ex_world ex_data empty.
Proof. apply ex_data_dir. discriminate. Qed.

Lemma ex_start :
  startup ex_data false (ex_world, fresh_process) = (Ok (ex_hst, ex_hk), (ex_hw, ex_hp))
  /\ broker_rep (R := log_refines) ex_hw ex_hp ex_hk (benched (reopened empty)) (bench_handles ex_hst).
Proof.
  destruct (startup_run (R := log_refines) (S := log_synced) (D := log_openable) ex_world fresh_process ex_data false empty
    ex_data_empty (not_elem_of_empty _) no_arcs) as (st & k & w & p & Hrun & Hb & _).
  unfold ex_hst, ex_hk, ex_hw, ex_hp, ex_started. rewrite Hrun. exact (conj eq_refl Hb).
Qed.

#[global] Opaque ex_started ex_hw ex_hp ex_hst ex_hk.

(** Two records, the high-water mark, and a codec nobody knows. *)
Definition ex_requests : list request :=
  [Post "none" [x68; x69]; Post "gzip" [x68; x69]; Post "lz4" [x68; x69]; GetHwm].

Lemma ex_bench codec name :
  codec_topic codec = Some name -> exists c, codec = codec_name c
  /\ benched (reopened empty) !! name = Some (empty_topic 1 (bench_config c)).
Proof. intros Hc. exact (benched_topic codec name (reopened empty) Hc). Qed.

Definition ex_posted : record := LogRecord.new 1700000000000 None [x68; x69].

Lemma ex_posted_ok c w :
  seg_limit w = 2147479552 -> storable c ex_posted /\ room w (bench_config c) [ex_posted].
Proof.
  intros E. split.
  - destruct c; (split; [vm_compute; split; congruence|]); (split; [reflexivity|]);
      (split; [right; vm_compute; congruence|]); vm_compute; reflexivity.
  - split; rewrite ?E; destruct c; vm_compute; congruence.
Qed.

Lemma ex_requests_ok : reqs_ok ex_hw ex_requests (benched (reopened empty)).
Proof.
  destruct ex_h_env as [Hn Hs]. assert (Hst : stamp ex_hw = 1700000000000) by (unfold stamp; by rewrite Hn).
  assert (Hpost : forall codec ts, (forall name, codec_topic codec = Some name -> exists t a c,
      ts !! name = Some t /\ at_logs t = [a] /\ at_config t = bench_config c /\ a_next a = 0) ->
    req_ok ex_hw (Post codec [x68; x69]) ts).
  { intros codec ts Ht name Hc. destruct (Ht name Hc) as (t & a & c & H1 & H2 & H3 & H4).
    exists t, a. rewrite H3, H4, Hst. destruct (ex_posted_ok c ex_hw Hs). by split_and!. }
  unfold ex_requests. split.
  { apply Hpost. intros name Hc. destruct (ex_bench _ _ Hc) as (c & _ & E). exists (empty_topic 1 (bench_config c)), (mkALog 0 []), c. by split_and!. }
  intros r ts1 H1. rewrite Hst in H1. inversion H1 as [codec body ts name t a Hc Ht Ha| |]; subst; [|discriminate].
  split; [apply Hpost; intros x Hx; discriminate Hx|].
  intros r ts2 H2. rewrite Hst in H2. inversion H2; subst; [discriminate|].
  injection Hc as <-. split.
  { apply Hpost. intros name [= <-]. rewrite lookup_insert_ne by discriminate.
    destruct (ex_bench "lz4" "bench_lz4" eq_refl) as (c & _ & E).
    exists (empty_topic 1 (bench_config c)), (mkALog 0 []), c. by split_and!. }
  intros r ts3 H3. rewrite Hst in H3. inversion H3 as [codec body ts' name' t' a' Hc Ht' Ha'| |]; subst; [|discriminate].
  injection Hc as <-. split; [|intros r ts4 _; exact I]. eexists _, _.
  rewrite lookup_insert_ne by discriminate. rewrite lookup_insert_eq. split; reflexivity.
Qed.

Lemma http_server_is_three_logs_witness :
  exists rs w' p' ts', serve (fun _ => "error") ex_hst ex_requests (ex_hw, ex_hp) = (Ok rs, (w', p'))
    /\ hsteps (stamp ex_hw) ex_requests (benched (reopened empty)) rs ts'.
Proof.
  destruct (http_server_is_three_logs (R := log_refines) (fun _ => "error") ex_hst ex_hw ex_hp ex_hk _ ex_requests
    (proj2 ex_start) ex_requests_ok) as (rs & w' & p' & ts' & H1 & H2 & _).
  exists rs, w', p', ts'. exact (conj H1 H2).
Defined.

(** A router. *)
#[local] Instance small_axum : Axum := {
  dispatch table q :=
    match routes table (uri_path q) with
    | [] => inl (mkResponse 404 "")
    | (r, params) :: _ =>
        if refuses r (method q) then inl (mkResponse 405 "")
        else if takes_body (handler r) && (BODY_LIMIT <? len (body q)) then inl (mkResponse 413 "")
        else match extract (handler r) params (body q) with
             | Some rq => inr rq
             | None => inl (mkResponse 500 "")
             end
    end;
  into_response := reply;
}.

Lemma accepted r m : accepts r m = true -> refuses r m = false.
Proof. by destruct r, m. Qed.

#[local] Instance small_axum_laws : AxumLaws small_axum.
Proof.
  split; cbn [dispatch small_axum into_response].
  - intros table q r params rq -> Hm%accepted _ Hb ->. rewrite Hm.
    destruct Hb as [->|Hb]; [done|]. by rewrite (proj2 (Z.ltb_ge _ _) Hb), andb_false_r.
  - intros table q r params -> Hm%accepted _ -> Hb. rewrite Hm, (proj2 (Z.ltb_lt _ _) Hb). by eexists.
  - intros table q r params -> ->. by eexists.
  - intros table q ->. by eexists.
  - done.
Qed.

Definition ex_http_env (name : string) : option string :=
  if String.eqb name "KAFKO_DATA_DIR" then Some "/data" else None.

(** A record for a log, the high-water mark, a codec nobody knows, a DELETE
    and two paths that lead nowhere. *)
Definition ex_wire : list http_request :=
  [mkRequest POST "/produce/zstd" [x68; x69]; mkRequest GET "/hwm" []; mkRequest POST "/produce/gzip" [x68];
   mkRequest (OtherMethod "DELETE") "/hwm" []; mkRequest GET "/" []; mkRequest POST "/produce/none/2" [x68]].

Lemma ex_wire_ok : wreqs_ok ex_world ex_wire (served ex_http_env empty).
Proof.
  assert (Hst : stamp ex_world = 1700000000000) by reflexivity.
  assert (Hbench : forall codec name, codec_topic codec = Some name -> exists c,
    served ex_http_env empty !! name = Some (empty_topic 1 (bench_config c))).
  { intros codec name Hc. destruct (ex_bench codec name Hc) as (c & _ & E). by exists c. }
  revert Hbench. generalize (served ex_http_env empty). intros ts Hbench.
  split.
  { apply (wok_produce _ _ "zstd"); [reflexivity|]. intros _ name Hc. destruct (Hbench _ _ Hc) as (c & E).
    exists (empty_topic 1 (bench_config c)), (mkALog 0 []). rewrite Hst.
    destruct (ex_posted_ok c ex_world ltac:(reflexivity)). by split_and!. }
  intros r ts1 H1. rewrite Hst in H1. assert (Hnone : ts1 !! "bench_none" = ts !! "bench_none").
  { inversion H1 as [codec b ts0 r0 ts0' _ _ Hh Ec| | |m path b s ts0 Hn|m path b s ts0 Hn]; subst; try reflexivity.
    change (codec = "zstd") in Ec. subst codec. inversion Hh as [c b0 ts0 name t a Hc| |]; subst; [|reflexivity]. injection Hc as <-.
    by rewrite lookup_insert_ne. }
  split.
  { apply wok_hwm. destruct (Hbench "none" "bench_none" eq_refl) as (c & E). rewrite <- Hnone in E. by eexists _, _. }
  intros r2 ts2 _. split.
  { apply (wok_produce _ _ "gzip"); [reflexivity|]. intros _ name Hc. discriminate Hc. }
  intros r3 ts3 _. split; [apply wok_method; left; by split_and!|].
  intros r4 ts4 _. split; [|intros r5 ts5 _; split; [|intros; exact I]]; apply wok_path; (split; [discriminate|]).
  - by intros s E.
  - intros s E. injection E as E. change ("" +:+ s) with s in E. rewrite <- E. by right.
Qed.

Lemma http_server_answers_as_three_logs_witness :
  exists v w' p' ts', main (Display.to_string (fun s => s) (fun _ => "data")) ex_http_env [] (fun _ => None) ex_wire (ex_world, fresh_process)
      = (Ok v, (w', p'))
    /\ wsteps (stamp ex_world) ex_wire (served ex_http_env empty) (answers v) ts'.
Proof.
  destruct (http_server_answers_as_three_logs (R := log_refines) (S := log_synced) (D := log_openable)
    (Display.to_string (fun s => s) (fun _ => "data")) ex_http_env [] (fun _ => None) ex_world fresh_process empty ex_wire
    (ex_data_dir (http_data_dir ex_http_env []) ltac:(vm_compute; discriminate)) (not_elem_of_empty _) no_arcs eq_refl ex_wire_ok)
    as (v & w' & p' & st & ts' & H1 & H2 & _).
  exists v, w', p', ts'. exact (conj H1 H2).
Defined.

(** What it prints and answers. *)
Example ex_wire_answers :
  match fst (main (Display.to_string (fun s => s) (fun _ => "data")) ex_http_env [] (fun _ => None) ex_wire (ex_world, fresh_process)) with
  | Ok v => map (fun r => (status r, text r)) (answers v)
  | _ => []
  end = [(200, "0"); (200, "0"); (400, bad_codec "gzip"); (405, ""); (404, ""); (404, "")].
Proof. vm_compute. reflexivity. Qed.

Lemma http_startup_serves_bench_topics_witness :
  exists st k w' p', startup ex_data true (ex_world, fresh_process) = (Ok (st, k), (w', p')).
Proof.
  destruct (http_startup_serves_bench_topics (R := log_refines) (S := log_synced) (D := log_openable) ex_world fresh_process
    ex_data true empty ex_data_empty (not_elem_of_empty _) no_arcs) as (st & k & w' & p' & ts' & Hrun & _).
  exists st, k, w', p'. exact Hrun.
Defined.
