(* ===== verification/Fuzz.v ===== *)
(** * The fuzz targets (fuzz/fuzz_targets)

    Each target as a function of the fuzzer's input: what it builds, the calls
    it makes and what it asserts.  A failing assertion, [unwrap] or [expect] is
    a panic, which the fuzzer reports as a crash.  The temporary directory of a
    target is the path [dir] it is given. *)

From S2P Require Import Prelude Bytes Error Compression LogRecord Fs Names Search.
From S2P Require Import Segment SparseIndex Log OffsetStore Partition Topic Producer Consumer Broker.

(** ** What the targets share *)
Definition unwrap {S A} (m : KM S A) : KM S A :=
  fun s =>
    match m s with
    | (Err _, s') => (Panic "called `Result::unwrap()` on an `Err` value", s')
    | (o, s') => (o, s')
    end.

(** [let _ = m]. *)
Definition ignore {S A} (m : KM S A) : KM S unit := let* _ := attempt (E := KafkoError) m in ret tt.

Definition assert {S} (b : bool) (msg : string) : KM S unit := if b then ret tt else panic msg.

Definition expect {S A} (o : option A) (msg : string) : KM S A :=
  match o with Some a => ret a | None => panic msg end.

(** [File::create(p).unwrap()] and [let _ = f.write_all(data)]. *)
Definition write_fixture (p : path) (data : list byte) : KM World unit :=
  let* _ := unwrap (io (create_file p)) in
  ignore (with_local (mkFile p 0) (io (write_all data))).

(** [std::fs::write(p, data)]. *)
Definition fs_write (p : path) (data : list byte) : KM World unit :=
  let* _ := io (create_file p) in
  let* _ := with_local (mkFile p 0) (io (write_all data)) in
  ret tt.

Definition FIRST_SEGMENT : string := "00000000000000000000.log".
Definition FIRST_INDEX : string := "00000000000000000000.index".

Section fuzz.
Context {B : Buf} {H : Crc32} {C : Codecs} {F : Flock}.

(** ** decode_record.rs *)
Definition decode_record (data : list byte) : KM (list byte) unit :=
  fun _ => ignore LogRecord.decode data.

(** ** decode_record_structured.rs *)
Record FuzzedRecord : Type := mkFuzzed {
  fz_flag : byte;
  fz_timestamp_ms : Z;
  fz_key : option (list byte);
  fz_payload : list byte;
}.

(** The buffer the target lays out. *)
Definition structured_buf (input : FuzzedRecord) : list byte :=
  let key_part_len := match fz_key input with None => 4 | Some k => 4 + len k end in
  let val_part_len := 4 + len (fz_payload input) in
  let payload_field_len := 1 + 8 + key_part_len + val_part_len in
  let total_len := 4 + payload_field_len in
  let buf := to_be_bytes 4 (as_u32 total_len) in
  let crc_pos := length buf in
  let buf := buf ++ replicate 4 x00 in
  let payload_start := length buf in
  let buf := buf ++ [fz_flag input] in
  let buf := buf ++ to_be_bytes 8 (as_u64 (fz_timestamp_ms input)) in
  let buf :=
    match fz_key input with
    | None => buf ++ to_be_bytes 4 KEY_NULL_SENTINEL
    | Some k => (buf ++ to_be_bytes 4 (as_u32 (len k))) ++ k
    end in
  let buf := buf ++ to_be_bytes 4 (as_u32 (len (fz_payload input))) in
  let buf := buf ++ fz_payload input in
  let crc := crc32 (drop payload_start buf) in
  splice crc_pos (to_be_bytes 4 crc) buf.

Definition decode_record_structured (input : FuzzedRecord) : KM (list byte) unit :=
  fun _ => ignore LogRecord.decode (structured_buf input).

(** ** recovery_torn_tail.rs *)
Definition recovery_torn_tail (dir : path) (data : list byte) : KM World unit :=
  let log_path := dir ++ [FIRST_SEGMENT] in
  let* _ := write_fixture log_path data in
  let* result := attempt (Log.open dir default_config) in
  match result with
  | inl log =>
      let n := next_offset log in
      let* _ := with_local log
        (for_each (seq 0 (Z.to_nat n)) (fun i =>
           let* r := unwrap (Log.read_record_at (Z.of_nat i)) in
           assert (bool_decide (is_Some r)) "acked offset unreadable after recovery")) in
      ret tt
  | inr _ => ret tt
  end.

(** ** sparse_index_parse.rs *)
Definition sparse_index_parse (dir : path) (data : list byte) : KM World unit :=
  let '(lookup_target, file_bytes) :=
    if 8 <=? len data then (from_le_bytes (take 8 data), drop 8 data) else (0, data) in
  let index_path := dir ++ [FIRST_INDEX] in
  let* _ := write_fixture index_path file_bytes in
  let* index := attempt (SparseIndex.open dir 0 4096) in
  match index with
  | inl index =>
      let* _ := SparseIndex.lookup index lookup_target in
      let* _ := SparseIndex.lookup index 0 in
      let* _ := SparseIndex.lookup index (2 ^ 64 - 1) in
      ret tt
  | inr _ => ret tt
  end.

(** ** log_op_sequence.rs *)
Definition LOG_MAX_OPS : nat := 64.
Definition LOG_MAX_VALUE_LEN : Z := 1024.

(** [len : u16] and [offset : u64] are the numbers of their bytes. *)
Inductive Op : Type :=
| OpAppend (len : Z)
| OpSync
| OpRead (offset : Z)
| OpRetention.

Record LogCase : Type := mkLogCase {
  segment_size_kb : byte;
  index_interval_kb : byte;
  ops : list Op;
}.

Definition case_config (case : LogCase) : LogConfig :=
  mkLogConfig (Z.max (Z_of_byte (segment_size_kb case)) 1 * 1024)
    (Z.max (Z_of_byte (index_interval_kb case)) 1 * 1024)
    (max_segment_age default_config) (max_partition_bytes default_config)
    (retention_check_interval default_config) (batch_max_records default_config)
    (batch_max_bytes default_config) (compression default_config).

(** [vec![(len & 0xFF) as u8; len]]. *)
Definition fuzz_value (len : Z) : list byte :=
  replicate (Z.to_nat len) (byte_of_Z (Z.land len 255)).

(** One turn of the loop over the operations. *)
Definition log_op (op : Op) (expected_values : list (list byte)) : KM (World * Log) (list (list byte)) :=
  match op with
  | OpAppend len =>
      let value := fuzz_value (Z.min len LOG_MAX_VALUE_LEN) in
      let* r := attempt (Log.append (LogRecord.new 0 None value)) in
      match r with
      | inl offset =>
          let* _ := assert (offset =? Prelude.len expected_values) "append assigned non-sequential offset" in
          ret (expected_values ++ [value])
      | inr _ => ret expected_values
      end
  | OpSync => let* _ := ignore Log.sync in ret expected_values
  | OpRead offset => let* _ := ignore (Log.read_record_at offset) in ret expected_values
  | OpRetention => let* _ := ignore Log.apply_retention in ret expected_values
  end.

Fixpoint log_ops (ops : list Op) (expected_values : list (list byte)) : KM (World * Log) (list (list byte)) :=
  match ops with
  | [] => ret expected_values
  | op :: ops' => let* expected_values := log_op op expected_values in log_ops ops' expected_values
  end.

Definition check_suffix (expected_values : list (list byte)) : KM (World * Log) unit :=
  let n := length expected_values in
  for_each (seq (n - 8) (n - (n - 8))) (fun i =>
    let* result := attempt (Log.read_record_at (Z.of_nat i)) in
    match result with
    | inl (Some record) =>
        let* expected := expect (expected_values !! i) "index out of bounds" in
        assert (bool_decide (value record = expected)) "value at offset corrupted"
    | _ => ret tt
    end).

Definition log_op_sequence (dir : path) (case : LogCase) : KM World unit :=
  let* log := attempt (Log.create dir (case_config case)) in
  match log with
  | inr _ => ret tt
  | inl log =>
      let* _ := with_local log
        (let* expected_values := log_ops (take LOG_MAX_OPS (ops case)) [] in
         check_suffix expected_values) in
      ret tt
  end.

(** ** topic_routing.rs *)
Definition TOPIC_MAX_OPS : nat := 64.
Definition TOPIC_MAX_VALUE_LEN : Z := 256.
Definition MAX_PARTITIONS : Z := 16.

Record SendOp : Type := mkSendOp { so_key : option byte; so_len : Z }.

(** The bookkeeping: where each key went, the next offset and the values of
    each partition. *)
Record Books : Type := mkBooks {
  key_partition : gmap Z Z;
  next_offsets : list Z;
  values : list (list (list byte));
}.

(** [key_partition.entry(k).or_insert(p)]: the value there is then. *)
Definition entry_or_insert (m : gmap Z Z) (k : byte) (p : Z) : Z * gmap Z Z :=
  match m !! Z_of_byte k with
  | Some q => (q, m)
  | None => (p, <[Z_of_byte k := p]> m)
  end.

Definition send_op (partition_count : Z) (op : SendOp) (b : Books) : KM (World * Topic) Books :=
  let value := fuzz_value (Z.min (so_len op) TOPIC_MAX_VALUE_LEN) in
  let key := (fun k => [k]) <$> so_key op in
  let* r := attempt (send_record (LogRecord.new 0 key value)) in
  match r with
  | inr _ => ret b
  | inl pos =>
      let p := partition pos in
      let* _ := assert (p <? partition_count) "routed to out-of-range partition" in
      let pi := Z.to_nat p in
      let* keys :=
        match so_key op with
        | Some k =>
            let '(mapped, m) := entry_or_insert (key_partition b) k p in
            let* _ := assert (mapped =? p) "key routed to two different partitions" in
            ret m
        | None => ret (key_partition b)
        end in
      let* next := expect (next_offsets b !! pi) "index out of bounds" in
      let* _ := assert (offset pos =? next) "non-sequential offset in partition" in
      let* vs := expect (values b !! pi) "index out of bounds" in
      ret (mkBooks keys (<[pi := u64_add next 1]> (next_offsets b)) (<[pi := vs ++ [value]]> (values b)))
  end.

Fixpoint send_ops (partition_count : Z) (ops : list SendOp) (b : Books) : KM (World * Topic) Books :=
  match ops with
  | [] => ret b
  | op :: ops' => let* b := send_op partition_count op b in send_ops partition_count ops' b
  end.

(** [topic.partition(pi)]. *)
Definition partition_or_panic (pi : nat) : KM (World * Topic) unit :=
  let* t := self in
  let* _ := expect (partitions t !! pi) "partition in range" in
  ret tt.

Definition read_back (values : list (list (list byte))) : KM (World * Topic) unit :=
  for_each (imap pair values) (fun '(pi, partition_values) =>
    let* _ := partition_or_panic pi in
    for_each (imap pair partition_values) (fun '(offset, expected) =>
      let* r := attempt (on_partition pi (Partition.read_record_at (Z.of_nat offset))) in
      match r with
      | inl (Some record) => assert (bool_decide (value record = expected)) "value mismatch"
      | inl None => panic "acked record missing"
      | inr _ => ret tt
      end)).

Definition topic_routing (dir : path) (partitions : byte) (ops : list SendOp) : KM World unit :=
  let partition_count := Z_of_byte partitions mod MAX_PARTITIONS + 1 in
  let* topic := attempt (Topic.create dir "t" partition_count default_config) in
  match topic with
  | inr _ => ret tt
  | inl topic =>
      let n := Z.to_nat partition_count in
      let* _ := with_local topic
        (let* b := send_ops partition_count (take TOPIC_MAX_OPS ops)
                     (mkBooks empty (replicate n 0) (replicate n [])) in
         let* _ := read_back (values b) in
         Topic.shutdown) in
      ret tt
  end.

(** ** topic_layout_recovery.rs *)
Definition MAX_DIRS : nat := 8.
Definition MAX_SEGMENT_LEN : nat := 4096.

Record PartitionDir : Type := mkPartitionDir { pd_index : byte; pd_segment : list byte }.

Record LayoutCase : Type := mkLayoutCase {
  lc_dirs : list PartitionDir;
  junk_subdir : bool;
  stray_file : bool;
}.

Definition lay_partition (topic_dir : path) (pd : PartitionDir) : KM World unit :=
  let sub := topic_dir ++ [u32_to_string (Z_of_byte (pd_index pd))] in
  let* _ := unwrap (io (create_dir_all sub)) in
  write_fixture (sub ++ [FIRST_SEGMENT]) (take MAX_SEGMENT_LEN (pd_segment pd)).

Definition lay_out (topic_dir : path) (case : LayoutCase) : KM World unit :=
  let* _ := unwrap (io (create_dir_all topic_dir)) in
  let* _ := for_each (take MAX_DIRS (lc_dirs case)) (lay_partition topic_dir) in
  let* _ :=
    (if junk_subdir case then ignore (io (create_dir_all (topic_dir ++ ["not-a-number"]))) else ret tt) in
  if stray_file case then ignore (fs_write (topic_dir ++ ["stray.txt"]) [x6a; x75; x6e; x6b]) else ret tt.

Definition read_all : KM (World * Topic) unit :=
  let* t := self in
  for_each (seq 0 (Z.to_nat (Topic.partition_count t))) (fun p =>
    let* t := self in
    let* partition := expect (partitions t !! p) "partition in range" in
    let n := high_water_mark partition in
    for_each (seq 0 (Z.to_nat n)) (fun offset =>
      let* r := unwrap (on_partition p (Partition.read_record_at (Z.of_nat offset))) in
      assert (bool_decide (is_Some r)) "recovered offset unreadable")).

Definition topic_layout_recovery (dir : path) (case : LayoutCase) : KM World unit :=
  let topic_dir := dir ++ ["t"] in
  let* _ := lay_out topic_dir case in
  let* result := attempt (Topic.open topic_dir "t" default_config) in
  match result with
  | inl topic =>
      let* _ := with_local topic (let* _ := read_all in Topic.shutdown) in
      ret tt
  | inr _ => ret tt
  end.

(** ** offset_store_parse.rs *)
Definition lay_offsets (dir : path) (data : list byte) : KM World unit :=
  let topic_dir := dir ++ ["t"] in
  let* _ := unwrap (io (create_dir_all (topic_dir ++ ["0"]))) in
  let* _ := unwrap (io (create_dir_all (topic_dir ++ ["offsets"]))) in
  unwrap (fs_write (topic_dir ++ ["offsets"; "g"]) data).

Definition offset_store_parse (dir : path) (data : list byte) : KM (World * Process) unit :=
  let* _ := in_world (lay_offsets dir data) in
  let* broker := attempt (Broker.open dir) in
  match broker with
  | inr _ => ret tt
  | inl broker =>
      let m : KM (World * (Process * Kafko)) unit :=
        let* c := attempt (consumer_for_group "t" "g") in
        let* _ :=
          match c with
          | inl (id, consumer) =>
              let* _ := assert (position 0 consumer =? 0) "cursor not clamped to high-water-mark" in
              on_process (arc_drop id)
          | inr _ => ret tt
          end in
        ignore (Broker.shutdown CurrentThread) in
      fun '(w, p) => let '(o, (w', (p', _))) := m (w, (p, broker)) in (o, (w', p'))
  end.

End fuzz.
