(* ===== verification/FuzzSpec.v ===== *)
(** * Runs of the fuzz targets

    No input makes a target fail.  The targets on bytes need only that nothing
    panics ([LogBytes]); those that keep books of what they did are simulated
    by the abstract logs; those on topics are in [FuzzTopic]. *)

From S2P Require Import Prelude Bytes Error Compression LogRecord Fs Names Search.
From S2P Require Import Segment SparseIndex Log LogInv LogOps LogRead LogRetain LogRecover LogCrash LogSpec LogStore LogBytes.
From S2P Require Import OffsetStore Partition PartitionSpec Topic Producer TopicSpec TopicStore.
From S2P Require Import Consumer ConsumerSpec GroupSpec Broker BrokerSpec Registry BrokerStore BrokerOpen BrokerGroup.
From S2P Require Import Fuzz.

(** A target passes: it ends, and no assertion fails. *)
Definition passes {S} (m : KM S unit) (s : S) : Prop := exists s', m s = (Ok tt, s').

(** A fresh temporary directory; no call fails. *)
Record temp_dir (w : World) (dir : path) : Prop := {
  td_quiet : quiet w;
  td_nonempty : dir <> [];
  td_made : dirs_made w dir;
  td_empty : forall q, dir `prefix_of` q -> q <> dir -> nodes w !! q = None;
  td_read : 0 <= read_max w;
}.

Section helpers.
Context {S : Type}.
Implicit Types (s : S).

Lemma ignore_Ok {A} (m : KM S A) s a s' : m s = (Ok a, s') -> ignore m s = (Ok tt, s').
Proof. intros Hm. unfold ignore. by rewrite (bind_Ok _ _ _ _ _ (attempt_Ok _ _ _ _ Hm)). Qed.

Lemma ignore_Err {A} (m : KM S A) s e s' : m s = (Err e, s') -> ignore m s = (Ok tt, s').
Proof. intros Hm. unfold ignore. by rewrite (bind_Ok _ _ _ _ _ (attempt_Err _ _ _ _ Hm)). Qed.

Lemma unwrap_Ok {A} (m : KM S A) s a s' : m s = (Ok a, s') -> unwrap m s = (Ok a, s').
Proof. unfold unwrap. by intros ->. Qed.

Lemma assert_true (b : bool) msg s : b = true -> assert b msg s = (Ok tt, s).
Proof. by intros ->. Qed.

(** A loop whose body keeps an invariant. *)
Lemma for_each_inv {A} (I : S -> Prop) (l : list A) (body : A -> KM S unit) s :
  I s -> (forall x s, x ∈ l -> I s -> exists s', body x s = (Ok tt, s') /\ I s') ->
  exists s', for_each l body s = (Ok tt, s') /\ I s'.
Proof.
  revert s. induction l as [|x l IH]; intros s HI Hb; [by exists s|]. cbn [for_each].
  destruct (Hb x s ltac:(by left) HI) as (s1 & Hrun & HI1). rewrite (bind_Ok _ _ _ _ _ Hrun).
  apply IH; [done|]. intros y s2 Hy. apply Hb. by right.
Qed.

End helpers.

Lemma with_local_pass {T A} (t : T) (m : KM (World * T) A) w a w' t' :
  m (w, t) = (Ok a, (w', t')) -> (let* _ := with_local t m in ret tt) w = (Ok tt, w').
Proof. intros Hm. by rewrite (bind_Ok _ _ _ _ _ (with_local_run _ _ _ _ _ _ Hm)). Qed.

Lemma temp_dir_node w dir : temp_dir w dir -> nodes w !! dir = Some NDir.
Proof. intros Ht. apply (td_made _ _ Ht); [done|apply Ht]. Qed.

Lemma temp_dir_child w dir x : temp_dir w dir -> nodes w !! (dir ++ [x]) = None.
Proof.
  intros Ht. apply (td_empty _ _ Ht); [by eexists|]. intros E. apply (f_equal length) in E.
  rewrite length_app in E. simpl in E. lia.
Qed.

Lemma parent_snoc w dir x : nodes w !! dir = Some NDir -> parent_is_dir (dir ++ [x]) w = true.
Proof. intros Hd. unfold parent_is_dir. rewrite removelast_last. destruct dir; [done|]. by rewrite Hd. Qed.

(** A fixture file holds what was written, whatever was there. *)
Lemma write_new_run w p data :
  quiet w -> nodes w !! p <> Some NDir -> parent_is_dir p w = true ->
  exists f fd, f_data f = data /\ create_file p w = (Ok tt, set_nodes <[p := NFile (FNode [] [] (now_ms w))]> w)
    /\ write_all data (set_nodes <[p := NFile (FNode [] [] (now_ms w))]> w, mkFile p 0)
       = (Ok tt, (set_nodes <[p := NFile f]> w, fd)).
Proof.
  intros Hq Hn Hp. set (w1 := set_nodes <[p := NFile (FNode [] [] (now_ms w))]> w).
  exists (FNode data [] (now_ms w)), (mkFile p (0 + len data)). split; [done|]. split.
  - unfold create_file. rewrite syscall_quiet by done. unfold bind, get_node.
    destruct (nodes w !! p) as [[f|]|]; [done|done|by rewrite Hp].
  - assert (Hf : nodes w1 !! p = Some (NFile (FNode [] [] (now_ms w)))) by apply lookup_insert_eq.
    assert (Hq1 : quiet w1) by done. rewrite (write_all_run w1 Hq1 data p 0 _ Hf).
    assert (Hw : write_at (Z.to_nat 0) data (f_data (FNode [] [] (now_ms w))) = data).
    { unfold write_at. simpl. by rewrite drop_nil, app_nil_r. }
    rewrite Hw. unfold w1, set_nodes. simpl. by rewrite insert_insert_eq.
Qed.

Lemma write_fixture_run w p data :
  quiet w -> nodes w !! p <> Some NDir -> parent_is_dir p w = true ->
  exists f, write_fixture p data w = (Ok tt, set_nodes <[p := NFile f]> w) /\ f_data f = data.
Proof.
  intros Hq Hn Hp. destruct (write_new_run w p data Hq Hn Hp) as (f & fd & Hd & Hc & Hw). exists f. split; [|done].
  unfold write_fixture. rewrite (bind_Ok _ _ _ _ _ (unwrap_Ok _ _ _ _ (io_Ok _ _ _ _ Hc))).
  exact (ignore_Ok _ _ _ _ (with_local_run _ _ _ _ _ _ (io_Ok _ _ _ _ Hw))).
Qed.

Lemma fs_write_run w p data :
  quiet w -> nodes w !! p <> Some NDir -> parent_is_dir p w = true ->
  exists f, fs_write p data w = (Ok tt, set_nodes <[p := NFile f]> w) /\ f_data f = data.
Proof.
  intros Hq Hn Hp. destruct (write_new_run w p data Hq Hn Hp) as (f & fd & Hd & Hc & Hw). exists f. split; [|done].
  unfold fs_write. rewrite (bind_Ok _ _ _ _ _ (io_Ok _ _ _ _ Hc)).
  by rewrite (bind_Ok _ _ _ _ _ (with_local_run _ _ _ _ _ _ (io_Ok _ _ _ _ Hw))).
Qed.

Lemma first_segment dir : dir ++ [FIRST_SEGMENT] = segment_path dir 0.
Proof. unfold segment_path, FIRST_SEGMENT. reflexivity. Qed.

Lemma first_index dir : dir ++ [FIRST_INDEX] = index_path dir 0.
Proof. unfold index_path, FIRST_INDEX. reflexivity. Qed.

(** ** Parsers *)
Section parsers.
Context {B : Buf} {BL : BufLaws B} {H : Crc32} {HL : Crc32Laws H} {C : Codecs}.

Lemma ignore_decode_pass data : passes (ignore LogRecord.decode) data.
Proof.
  destruct (decode_cases data) as [(fr & r & rest & Hd & _)|(e & s & Hd)]; eexists;
    [by apply (ignore_Ok _ _ _ _ Hd)|by apply (ignore_Err _ _ _ _ Hd)].
Qed.

Lemma sparse_index_run w dir data : temp_dir w dir -> passes (sparse_index_parse dir data) w.
Proof.
  intros Ht. unfold passes, sparse_index_parse. destruct (if _ <=? _ then _ else _) as [target bytes]. cbv zeta.
  destruct (write_fixture_run w (dir ++ [FIRST_INDEX]) bytes (td_quiet _ _ Ht)) as (f & Hrun & Hd).
  { by rewrite (temp_dir_child _ _ _ Ht). }
  { by apply parent_snoc, temp_dir_node. }
  rewrite (bind_Ok _ _ _ _ _ Hrun). rewrite first_index.
  set (w1 := set_nodes _ w). assert (Hq1 : quiet w1) by apply (td_quiet _ _ Ht).
  destruct (index_open_run w1 dir 0 4096 f Hq1) as (ix & Ho & _); [apply lookup_insert_eq|].
  rewrite (bind_Ok _ _ _ _ _ (attempt_Ok _ _ _ _ Ho)).
  destruct (lookup_total ix target) as [r1 L1]. destruct (lookup_total ix 0) as [r2 L2].
  destruct (lookup_total ix (2 ^ 64 - 1)) as [r3 L3].
  rewrite (bind_Ok _ _ _ _ _ (L1 _ _)), (bind_Ok _ _ _ _ _ (L2 _ _)), (bind_Ok _ _ _ _ _ (L3 _ _)). by eexists.
Qed.

(** A frame with any flag. *)
Definition raw_payload (f : Z) (stored : list byte) (r : record) : list byte :=
  to_be_bytes 1 f ++ to_be_bytes 8 (as_u64 (timestamp_ms r)) ++ key_field (key r)
  ++ to_be_bytes 4 (as_u32 (len stored)) ++ stored.

Definition raw_frame (f : Z) (stored : list byte) (r : record) : list byte :=
  to_be_bytes 4 (as_u32 (4 + len (raw_payload f stored r)))
  ++ to_be_bytes 4 (crc32 (raw_payload f stored r)) ++ raw_payload f stored r.

Definition fuzzed_record (input : FuzzedRecord) : record := Rec (fz_timestamp_ms input) (fz_key input) [].

Lemma len_raw_payload f stored r : len (raw_payload f stored r) = 1 + 8 + key_part (key r) + (4 + len stored).
Proof. unfold raw_payload. autorewrite with len. rewrite len_key_field. lia. Qed.

Lemma structured_buf_layout input :
  structured_buf input = raw_frame (Z_of_byte (fz_flag input)) (fz_payload input) (fuzzed_record input).
Proof.
  unfold structured_buf. cbv zeta. set (hd := to_be_bytes 4 (as_u32 _)). set (f := Z_of_byte _).
  set (r := fuzzed_record input). set (st := fz_payload input).
  assert (Hkey : forall out, match fz_key input with
      | None => out ++ to_be_bytes 4 KEY_NULL_SENTINEL
      | Some k => (out ++ to_be_bytes 4 (as_u32 (len k))) ++ k end = out ++ key_field (key r)).
  { intros out. simpl. destruct (fz_key input); simpl; by rewrite <- ?app_assoc. }
  rewrite Hkey. rewrite <- to_be_bytes_1. fold f.
  replace ((((((hd ++ replicate 4 x00) ++ to_be_bytes 1 f) ++ to_be_bytes 8 (as_u64 (fz_timestamp_ms input)))
    ++ key_field (key r)) ++ to_be_bytes 4 (as_u32 (len st))) ++ st)
    with (hd ++ replicate 4 x00 ++ raw_payload f st r) by (unfold raw_payload; by rewrite <- !app_assoc).
  assert (Hd : drop (length (hd ++ replicate 4 x00)) (hd ++ replicate 4 x00 ++ raw_payload f st r) = raw_payload f st r).
  { rewrite app_assoc. apply drop_app_length. }
  rewrite Hd, splice_app by by rewrite length_to_be_bytes. unfold raw_frame.
  f_equal. unfold hd. do 2 f_equal. rewrite len_raw_payload.
  change (key r) with (fz_key input). unfold key_part, st. destruct (fz_key input); lia.
Qed.

Lemma decompress_outcome c stored : exists o, forall S (s : S), decompress c stored s = (o, s).
Proof.
  destruct c; simpl; unfold lz4_decompress, zstd_decompress; repeat case_match; by eexists.
Qed.

(** Whatever the flag and the payload, the frame gets past the checksum: what
    it decodes to is up to the flag and the decompressor. *)
Lemma decode_raw_frame f stored r :
  is_i64 (timestamp_ms r) -> 4 + 1 + 8 + key_part (key r) + 4 + len stored < 2 ^ 32 -> is_u8 f ->
  fst (LogRecord.decode (raw_frame f stored r)) =
  fst ((let* c := from_flag f in
        let* v := decompress c stored in
        ret (Rec (timestamp_ms r) (key r) v)) tt).
Proof.
  intros Hts Hlen Hf. pose proof (len_nonneg stored). pose proof (key_part_pos (key r)).
  destruct (decide (0 <= f <= 2)) as [Hknown|Hunknown].
  - assert (exists c, f = flag c) as [c ->].
    { assert (f = 0 \/ f = 1 \/ f = 2) as [->|[->| ->]] by lia; [by exists CNone|by exists Lz4|by exists Zstd]. }
    pose proof (decode_frame c stored r [] ltac:(split; [done|lia])) as Hd. rewrite app_nil_r in Hd.
    change (raw_frame (flag c) stored r) with (frame c stored r). rewrite Hd, (bind_Ok _ _ _ _ _ (from_flag_flag c tt)).
    destruct (decompress_outcome c stored) as [o Ho]. unfold bind at 1 3. rewrite !Ho.
    destruct o as [v| | |]; try done. by rewrite (bind_Ok _ _ _ _ _ (advance_app stored [])).
  - rewrite (bind_Err _ _ _ _ _ (from_flag_unknown f tt Hunknown)).
    pose proof (len_raw_payload f stored r) as Hp. unfold LogRecord.decode, raw_frame. rewrite bind_remaining.
    rewrite as_u32_small by (split; lia). rewrite (proj2 (Z.ltb_ge _ _)) by lens. mrun @get_u32_app.
    rewrite (proj2 (Z.ltb_ge _ _)) by (unfold MIN_TOTAL_LEN; lia).
    rewrite bind_remaining, (proj2 (Z.ltb_ge _ _)) by lens.
    rewrite (bind_Ok _ _ _ _ _ (get_u32_app _ _ (crc32_range _))). cbn zeta.
    replace (4 + len (raw_payload f stored r) - 4) with (len (raw_payload f stored r)) by lia.
    rewrite <- (app_nil_r (raw_payload f stored r)) at 2.
    rewrite (bind_Ok _ _ _ _ _ (take_slice_app _ _)), Z.eqb_refl. cbn [negb]. unfold raw_payload. rewrite <- !app_assoc.
    rewrite (bind_Ok _ _ _ _ _ (get_u8_app _ _ Hf)).
    by rewrite (bind_Err _ _ _ _ _ (from_flag_unknown f _ Hunknown)).
Qed.

End parsers.

(** ** Recovery *)
Section recovery.
Context {B : Buf} {BL : BufLaws B} {H : Crc32} {HL : Crc32Laws H} {C : Codecs}.

(** A directory with nothing but a first segment of some bytes. *)
Lemma one_segment_laid w dir f :
  dirs_made w dir -> nodes w !! dir = Some NDir ->
  (forall x n, nodes w !! (dir ++ [x]) = Some n -> dir ++ [x] = segment_path dir 0) ->
  len (f_data f) <= seg_limit w ->
  one_segment (set_nodes <[dir ++ [FIRST_SEGMENT] := NFile f]> w) dir f.
Proof.
  intros Hm Hd He Hl. split; simpl; rewrite ?first_segment.
  - intros q Hq Hne. simpl. rewrite lookup_insert_ne; [by apply Hm|]. intros <-. apply prefix_length in Hq.
    unfold segment_path in Hq. rewrite length_app in Hq. simpl in Hq. lia.
  - rewrite lookup_insert_ne; [done|]. apply not_eq_sym, snoc_ne.
  - intros name n Hn. apply lookup_insert_Some in Hn as [[<- _]|[_ Hn]]; [done|by eapply He].
  - apply lookup_insert_eq.
  - done.
Qed.

Lemma recovery_torn_tail_run w dir data :
  temp_dir w dir -> len data <= seg_limit w -> passes (recovery_torn_tail dir data) w.
Proof.
  intros Ht Hl. unfold passes, recovery_torn_tail. cbv zeta.
  destruct (write_fixture_run w (dir ++ [FIRST_SEGMENT]) data (td_quiet _ _ Ht)) as (f & Hrun & Hd).
  { by rewrite (temp_dir_child _ _ _ Ht). }
  { by apply parent_snoc, temp_dir_node. }
  rewrite (bind_Ok _ _ _ _ _ Hrun). set (w1 := set_nodes _ w).
  assert (Hq1 : quiet w1) by apply (td_quiet _ _ Ht).
  assert (Hos : one_segment w1 dir f).
  { apply one_segment_laid; [apply Ht|by apply temp_dir_node|intros x n Hx; by rewrite (temp_dir_child _ _ _ Ht) in Hx|by rewrite Hd]. }
  destruct (open_any w1 dir default_config f Hq1 Hos) as (w2 & Htc & [(e & Ho)|(c & l & Ho & Hsc & Hdl)]).
  { rewrite (bind_Ok _ _ _ _ _ (attempt_Err _ _ _ _ Ho)). by eexists. }
  rewrite (bind_Ok _ _ _ _ _ (attempt_Ok _ _ _ _ Ho)). pose proof (touches_quiet _ _ _ Htc Hq1) as Hq2.
  rewrite (sl_next _ _ _ Hsc). exists w2.
  destruct (for_each_inv (fun s => fst s = w2 /\ scanned w2 (snd s) c) (seq 0 (Z.to_nat (len c)))
    (fun i => let* r := unwrap (Log.read_record_at (Z.of_nat i)) in
              assert (bool_decide (is_Some r)) "acked offset unreadable after recovery") (w2, l))
    as ([w' l'] & Hloop & [E _]); [done| |].
  - intros i [w' l'] Hi%elem_of_seq [E Hsc']. simpl in E, Hsc'. subst w'.
    destruct (scanned_read w2 l' c (Z.of_nat i) Hq2 Hsc' ltac:(lia)) as (l2 & Hrd & Hsc2 & _).
    rewrite Nat2Z.id in Hrd. destruct (lookup_lt_is_Some_2 c i) as [x Hx]; [unfold len in Hi; lia|].
    rewrite Hx in Hrd. rewrite (bind_Ok _ _ _ _ _ (unwrap_Ok _ _ _ _ Hrd)). exists (w2, l2).
    split; [|done]. by apply assert_true, bool_decide_eq_true_2.
  - simpl in E. subst w'. by eapply with_local_pass.
Qed.

End recovery.

(** ** Uncompressed records that surely fit *)
Section plain.
Context {B : Buf} {BL : BufLaws B} {H : Crc32} {HL : Crc32Laws H} {C : Codecs}.

Lemma len_plain_wire r : is_i64 (timestamp_ms r) -> len (wire CNone r) = wire_size r.
Proof. intros Ht. unfold wire. rewrite (encode_with_run r CNone (value r) [] Ht eq_refl). cbn [snd app]. apply len_frame. Qed.

Lemma plain_storable r : is_i64 (timestamp_ms r) -> wire_size r < 2 ^ 32 -> storable CNone r.
Proof. intros Ht Hw. split; [done|]. split; [done|]. split; [by left|]. rewrite len_plain_wire by done. lia. Qed.

Lemma plain_room w cfg r :
  compression cfg = CNone -> is_i64 (timestamp_ms r) -> 0 <= segment_size_threshold cfg -> wire_size r < 2 ^ 32 ->
  segment_size_threshold cfg + wire_size r <= seg_limit w -> room w cfg [r].
Proof.
  intros Hc Ht H0 Hw Hl. split; [done| |].
  - rewrite Hc. simpl. rewrite app_nil_r, len_plain_wire by done. lia.
  - simpl. lia.
Qed.

Lemma len_fuzz_value n m : 0 <= n -> 0 <= m -> len (fuzz_value (Z.min n m)) <= m.
Proof. intros Hn Hm. unfold fuzz_value. unfold len. rewrite length_replicate. lia. Qed.

End plain.

(** ** Sequences of operations on a log *)
Section log_ops.
Context {B : Buf} {H : Crc32} {C : Codecs}.
Context {R : World -> Log -> alog -> Prop} {LC : LogContract R}.

(** What the target expects of the log is what it holds, where retention has
    left it. *)
Record agrees (a : alog) (expected : list (list byte)) : Prop := {
  ag_next : a_next a = len expected;
  ag_read : forall i r, a_read (Z.of_nat i) a = Some r -> expected !! i = Some (value r);
}.

Lemma a_read_next off a : 0 <= a_start a -> a_next a <= off -> a_read off a = None.
Proof.
  intros H0 Hn. unfold a_read, a_next in *. destruct (_ <? _); [done|]. apply lookup_ge_None_2. unfold len in Hn. lia.
Qed.

Lemma agrees_append a expected r :
  0 <= a_start a -> agrees a expected -> agrees (a_append [r] a) (expected ++ [value r]).
Proof.
  intros H0 [Hn Hr]. split.
  - rewrite a_next_append, len_app, Hn. done.
  - intros i r'. destruct (Z.lt_trichotomy (Z.of_nat i) (a_next a)) as [Hlt|[Heq|Hgt]].
    + rewrite a_read_stable by done. intros Hi%Hr. by apply lookup_app_l_Some.
    + pose proof (a_read_append [r] a 0) as Ha. rewrite Z.add_0_r, <- Heq in Ha. rewrite Ha by (simpl; lia).
      intros [= <-]. rewrite lookup_app_r by (unfold len in Hn; lia).
      replace (i - length expected)%nat with 0%nat by (unfold len in Hn; lia). done.
    + rewrite a_read_next; [done|done|]. rewrite a_next_append. change (len [r]) with 1. lia.
Qed.

Lemma agrees_drop n a expected : (n <= length (a_recs a))%nat -> agrees a expected -> agrees (a_drop n a) expected.
Proof.
  intros Hle [Hn Hr]. split; [by rewrite a_next_drop|]. intros i r Hi.
  destruct (Z.ltb_spec (Z.of_nat i) (a_start (a_drop n a))) as [Hlt|Hge].
  { unfold a_read in Hi. by rewrite (proj2 (Z.ltb_lt _ _) Hlt) in Hi. }
  apply Hr. by rewrite <- (a_read_drop n) by exact Hge.
Qed.

Definition log_inv (cfg : LogConfig) (lim : Z) (expected : list (list byte)) (s : World * Log) : Prop :=
  let '(w, l) := s in exists a, R w l a /\ Log.config l = cfg /\ seg_limit w = lim /\ agrees a expected.

Lemma log_inv_keeps cfg lim expected w l a w' l' a' :
  R w' l' a' -> keeps w l w' l' -> Log.config l = cfg -> seg_limit w = lim -> agrees a' expected ->
  (R w l a -> log_inv cfg lim expected (w', l')).
Proof.
  intros Hr (Kc & _ & Ks) Hc Hl Ha _. exists a'. split; [done|]. split; [congruence|]. split; [|done].
  rewrite (stays_limit _ _ _ Ks). done.
Qed.

(** Every append of the target fits. *)
Definition roomy (cfg : LogConfig) (lim : Z) : Prop :=
  compression cfg = CNone /\ 0 <= segment_size_threshold cfg
  /\ segment_size_threshold cfg + 25 + LOG_MAX_VALUE_LEN <= lim.

Definition op_in_range (op : Op) : Prop :=
  match op with OpAppend n => 0 <= n | OpRead off => 0 <= off | _ => True end.

Context {BL : BufLaws B} {HL : Crc32Laws H}.

Lemma log_op_run cfg lim op expected s :
  roomy cfg lim -> op_in_range op -> len expected + 1 < 2 ^ 64 -> log_inv cfg lim expected s ->
  exists expected' s', log_op op expected s = (Ok expected', s') /\ log_inv cfg lim expected' s'
    /\ len expected' <= len expected + 1.
Proof.
  intros (Hz & H0 & Hlim) Hop Hb. destruct s as [w l]. intros (a & Hr & Hc & Hl & Ha).
  pose proof (lc_bound _ _ _ Hr) as [Hst _]. destruct op as [n| |off|]; simpl in Hop; cbn [log_op].
  - set (v := fuzz_value _). pose proof (len_fuzz_value n LOG_MAX_VALUE_LEN Hop ltac:(done)) as Hv. fold v in Hv.
    set (r := LogRecord.new 0 None v). unfold LOG_MAX_VALUE_LEN in *.
    assert (Hw : wire_size r = 25 + len v) by done.
    destruct (lc_append w l a r Hr) as (w' & l' & Hrun & Hr' & Hk).
    { rewrite Hc, Hz. apply plain_storable; [done|]. lia. }
    { rewrite Hc. apply plain_room; try done; rewrite Hw; lia. }
    { rewrite (ag_next _ _ Ha). done. }
    rewrite (bind_Ok _ _ _ _ _ (attempt_Ok _ _ _ _ Hrun)). cbv iota.
    rewrite (ag_next _ _ Ha). unfold assert. rewrite Z.eqb_refl, bind_ret.
    eexists _, (w', l'). split; [reflexivity|]. split; [|by rewrite len_app].
    eapply log_inv_keeps; [exact Hr'|exact Hk|done|done| |exact Hr]. by apply (agrees_append a expected r).
  - destruct (lc_sync w l a Hr) as (w' & l' & Hrun & Hr' & Hk). rewrite (bind_Ok _ _ _ _ _ (ignore_Ok _ _ _ _ Hrun)).
    eexists _, (w', l'). split; [reflexivity|]. split; [|lia]. by eapply log_inv_keeps.
  - destruct (lc_read w l a off Hr Hop) as (w' & l' & Hrun & Hr' & Hk). rewrite (bind_Ok _ _ _ _ _ (ignore_Ok _ _ _ _ Hrun)).
    eexists _, (w', l'). split; [reflexivity|]. split; [|lia]. by eapply log_inv_keeps.
  - destruct (lc_retention w l a Hr) as (k & n & w' & l' & Hrun & [Hn _] & Hr' & Hk).
    rewrite (bind_Ok _ _ _ _ _ (ignore_Ok _ _ _ _ Hrun)).
    eexists _, (w', l'). split; [reflexivity|]. split; [|lia].
    eapply log_inv_keeps; [exact Hr'|exact Hk|done|done| |exact Hr]. by apply agrees_drop.
Qed.

Lemma log_ops_run cfg lim os expected s :
  roomy cfg lim -> Forall op_in_range os -> len expected + len os < 2 ^ 64 -> log_inv cfg lim expected s ->
  exists expected' s', log_ops os expected s = (Ok expected', s') /\ log_inv cfg lim expected' s'.
Proof.
  intros Hro Hos. revert expected s. induction Hos as [|op os Hop _ IH]; intros expected s Hb HI.
  { by exists expected, s. }
  rewrite len_cons in Hb. pose proof (len_nonneg os). cbn [log_ops].
  destruct (log_op_run cfg lim op expected s Hro Hop ltac:(lia) HI) as (e1 & s1 & Hrun & HI1 & Hl1).
  rewrite (bind_Ok _ _ _ _ _ Hrun). apply IH; [lia|done].
Qed.

Lemma check_suffix_run cfg lim expected s :
  log_inv cfg lim expected s -> exists s', check_suffix expected s = (Ok tt, s') /\ log_inv cfg lim expected s'.
Proof.
  intros HI. unfold check_suffix. apply (for_each_inv (log_inv cfg lim expected)); [done|].
  intros i [w l] _ (a & Hr & Hc & Hl & Ha).
  destruct (lc_read w l a (Z.of_nat i) Hr ltac:(lia)) as (w' & l' & Hrun & Hr' & Hk).
  exists (w', l'). split; [|by eapply log_inv_keeps]. rewrite (bind_Ok _ _ _ _ _ (attempt_Ok _ _ _ _ Hrun)). cbv iota.
  destruct (a_read (Z.of_nat i) a) as [r|] eqn:E; [|done]. rewrite (ag_read _ _ Ha i r E). cbn [expect].
  rewrite bind_ret. by apply assert_true, bool_decide_eq_true_2.
Qed.

End log_ops.

Section log_target.
Context {B : Buf} {BL : BufLaws B} {H : Crc32} {HL : Crc32Laws H} {C : Codecs} {CL : CodecLaws C}.

(** The largest segment of a case, a full record more. *)
Definition LOG_CASE_LIMIT : Z := 255 * 1024 + 25 + LOG_MAX_VALUE_LEN.

Lemma log_op_sequence_run w dir case :
  temp_dir w dir -> Forall op_in_range (ops case) -> LOG_CASE_LIMIT <= seg_limit w ->
  passes (log_op_sequence dir case) w.
Proof.
  intros Ht Hos Hl. unfold passes, log_op_sequence.
  destruct (log_create_run w dir (case_config case) (td_quiet _ _ Ht) (td_made _ _ Ht) (temp_dir_node _ _ Ht) (td_read _ _ Ht))
    as (w1 & l & Hrun & Hrep & Hd & Hc & Hq & Hs); [intros x; by apply temp_dir_child|].
  rewrite (bind_Ok _ _ _ _ _ (attempt_Ok _ _ _ _ Hrun)). cbv iota.
  pose proof (stays_limit _ _ _ Hs) as Hlim.
  assert (HI : log_inv (R := log_refines) (case_config case) (seg_limit w) [] (w1, l)).
  { exists (mkALog 0 []). split; [by eapply log_refines_intro|]. do 2 (split; [done|]). split; [done|].
    intros i r. unfold a_read. simpl. destruct (Z.ltb_spec (Z.of_nat i) 0); [done|]. by rewrite lookup_nil. }
  destruct (log_ops_run (case_config case) (seg_limit w) (take LOG_MAX_OPS (ops case)) [] (w1, l))
    as (expected & s2 & Hops & HI2); [| | |done|].
  - pose proof (Z_of_byte_range (segment_size_kb case)). unfold LOG_CASE_LIMIT in Hl.
    split; [done|]. simpl. unfold LOG_MAX_VALUE_LEN in *. lia.
  - by apply Forall_take.
  - rewrite len_nil. unfold len. rewrite length_take. unfold LOG_MAX_OPS. lia.
  - destruct (check_suffix_run _ _ _ _ HI2) as ([w3 l3] & Hch & _). exists w3. eapply with_local_pass.
    by rewrite (bind_Ok _ _ _ _ _ Hops).
Qed.

End log_target.
