(* ===== verification/FuzzTopic.v ===== *)
(** * Runs of the fuzz targets on topics

    [topic_routing] keeps books that the abstract logs of the topic account
    for; [topic_layout_recovery] opens whatever the fuzzer has laid out, and
    [offset_store_parse] a group's file of any bytes. *)

From S2P Require Import Prelude Bytes Error Compression LogRecord Fs Names Search.
From S2P Require Import Segment SparseIndex Log LogInv LogOps LogRead LogRetain LogRecover LogCrash LogSpec LogStore LogBytes.
From S2P Require Import OffsetStore Partition PartitionSpec Topic Producer TopicSpec TopicStore.
From S2P Require Import Consumer ConsumerSpec GroupSpec Broker BrokerSpec Registry BrokerStore BrokerOpen BrokerGroup.
From S2P Require Import Fuzz FuzzSpec.

(** ** topic_routing.rs *)
Section routing.
Context {B : Buf} {BL : BufLaws B} {H : Crc32} {HL : Crc32Laws H} {C : Codecs}.
Context {R S : World -> Log -> alog -> Prop} {D : World -> path -> alog -> Prop}.
Context {LC : LogContract R} {LS : LogStore R S D}.

Definition values_of (a : alog) : list (list byte) := map value (a_recs a).

(** The target's books are those of the topic; [n] records were sent. *)
Record booked (dir : path) (lim : Z) (n : Z) (b : Books) (w : World) (t : Topic) (als : list alog) : Prop := {
  bk_topic : topic_rep (R := R) w dir t als;
  bk_config : Topic.config t = default_config;
  bk_limit : seg_limit w = lim;
  bk_start : Forall (fun a => a_start a = 0 /\ len (a_recs a) <= n) als;
  bk_next : next_offsets b = map a_next als;
  bk_values : values b = map values_of als;
  bk_keys : forall k q, key_partition b !! Z_of_byte k = Some q -> q = partition_index [k] (len als);
}.

Lemma booked_lookup dir lim n b w t als i a :
  booked dir lim n b w t als -> als !! i = Some a ->
  next_offsets b !! i = Some (len (a_recs a)) /\ values b !! i = Some (values_of a)
  /\ a_start a = 0 /\ a_next a = len (a_recs a) /\ len (a_recs a) <= n.
Proof.
  intros Hb Ha. pose proof (bk_start _ _ _ _ _ _ _ Hb) as Hs. rewrite Forall_forall in Hs.
  destruct (Hs a (list_elem_of_lookup_2 _ _ _ Ha)) as [H0 Hn].
  rewrite (bk_next _ _ _ _ _ _ _ Hb), (bk_values _ _ _ _ _ _ _ Hb), !list_lookup_fmap, Ha. simpl.
  unfold a_next. by rewrite H0.
Qed.

Definition ROUTING_LIMIT : Z := 2 ^ 30 + 26 + TOPIC_MAX_VALUE_LEN.

Lemma send_record_run w dir t als r :
  topic_rep (R := R) w dir t als -> storable (compression (Topic.config t)) r ->
  room w (Topic.config t) [r] -> (forall a, a ∈ als -> a_next a + 1 < 2 ^ 64) ->
  exists w' t' p a, send_record r (w, t) = (Ok (mkPosition (Z.of_nat p) (a_next a)), (w', t'))
    /\ als !! p = Some a /\ topic_rep (R := R) w' dir t' (<[p := a_append [r] a]> als)
    /\ (forall k, LogRecord.key r = Some k -> Z.of_nat p = partition_for_key k t)
    /\ topic_stays dir w w' /\ Topic.config t' = Topic.config t.
Proof.
  intros Ht Hs Hr Hb. destruct (route_run w dir t als (LogRecord.key r) Ht) as (Hrt & Hrg & Ht1).
  set (p := Z.to_nat (route_of t (LogRecord.key r))). unfold len in Hrg.
  destruct (lookup_lt_is_Some_2 als p ltac:(lia)) as [a Ha].
  assert (Hcf : Topic.config (rr_after t (LogRecord.key r)) = Topic.config t) by by destruct (LogRecord.key r).
  destruct (append_to_run w dir (rr_after t (LogRecord.key r)) als p a r Ht1 Ha) as (w' & t' & Hrun & Ht' & Hcf' & _ & Hsy);
    [by rewrite Hcf..|by apply Hb, list_elem_of_lookup_2 with p|].
  assert (E : Z.of_nat p = route_of t (LogRecord.key r)) by lia.
  exists w', t', p, a. split; [|split; [done|split; [done|split; [by intros k Hk; rewrite Hk in E|split; [done|congruence]]]]].
  unfold send_record. rewrite (bind_Ok _ _ _ _ _ Hrt), <- E. exact Hrun.
Qed.

Lemma entry_run b w t als dir lim n k p :
  booked dir lim n b w t als -> p = partition_index [k] (len als) ->
  exists m, entry_or_insert (key_partition b) k p = (p, m)
    /\ forall k' q, m !! Z_of_byte k' = Some q -> q = partition_index [k'] (len als).
Proof.
  intros Hb Hp. pose proof (bk_keys _ _ _ _ _ _ _ Hb) as Hk. unfold entry_or_insert.
  destruct (key_partition b !! Z_of_byte k) as [q|] eqn:E.
  - apply Hk in E. exists (key_partition b). split; [congruence|exact Hk].
  - eexists. split; [done|]. intros k' q. rewrite lookup_insert_Some. intros [[Ek <-]|[_ Hq]]; [|by apply Hk].
    apply Z_of_byte_inj in Ek. by subst k'.
Qed.

Lemma booked_insert dir lim n b w t als w' t' keys p a r :
  booked dir lim n b w t als -> als !! p = Some a -> topic_rep (R := R) w' dir t' (<[p := a_append [r] a]> als) ->
  Topic.config t' = Topic.config t -> seg_limit w' = seg_limit w -> n + 1 < 2 ^ 64 ->
  (forall k q, keys !! Z_of_byte k = Some q -> q = partition_index [k] (len als)) ->
  booked dir lim (n + 1)
    (mkBooks keys (<[p := u64_add (len (a_recs a)) 1]> (next_offsets b))
       (<[p := values_of a ++ [value r]]> (values b))) w' t' (<[p := a_append [r] a]> als).
Proof.
  intros Hb Ha Ht' Hc Hl Hn Hk. destruct (booked_lookup _ _ _ _ _ _ _ _ _ Hb Ha) as (_ & _ & H0 & _ & Hle).
  pose proof Hb as [_ B2 B3 B4 B5 B6 _]. split; simpl; try done; try congruence.
  - apply Forall_insert; [eapply Forall_impl; [exact B4|]; simpl; intros x [? ?]; split; [done|lia]|].
    simpl. rewrite len_app. change (len [r]) with 1. split; [done|lia].
  - rewrite B5. etrans; [|symmetry; apply (list_fmap_insert a_next)]. f_equal. rewrite a_next_append. unfold a_next. rewrite H0.
    pose proof (len_nonneg (a_recs a)). rewrite u64_add_small by lia. change (len [r]) with 1. lia.
  - rewrite B6. etrans; [|symmetry; apply (list_fmap_insert values_of)]. f_equal. unfold values_of. simpl. by rewrite map_app.
  - intros k q Hq. unfold len. rewrite length_insert. by apply Hk.
Qed.

Lemma send_op_run dir lim n b op w t als :
  booked dir lim n b w t als -> 0 <= so_len op -> n + 1 < 2 ^ 64 -> ROUTING_LIMIT <= lim ->
  exists b' w' t' als', send_op (len als) op b (w, t) = (Ok b', (w', t'))
    /\ booked dir lim (n + 1) b' w' t' als' /\ len als' = len als.
Proof.
  intros Hb Hlen Hn Hlim. unfold send_op. cbv zeta. set (v := fuzz_value _).
  pose proof (len_fuzz_value (so_len op) TOPIC_MAX_VALUE_LEN Hlen ltac:(done)) as Hv. fold v in Hv.
  set (key := (fun k => [k]) <$> so_key op). set (r := LogRecord.new 0 key v).
  unfold ROUTING_LIMIT, TOPIC_MAX_VALUE_LEN in *.
  assert (Hk0 : key_part key <= 5) by (unfold key; destruct (so_key op); done).
  assert (Hw : wire_size r <= 26 + len v).
  { unfold wire_size. change (LogRecord.key r) with key. change (value r) with v. lia. }
  pose proof (bk_topic _ _ _ _ _ _ _ Hb) as Ht. pose proof (bk_config _ _ _ _ _ _ _ Hb) as Hc.
  destruct (send_record_run w dir t als r Ht) as (w' & t' & p & a & Hrun & Ha & Ht' & Hkey & Hst & Hc').
  { rewrite Hc. apply plain_storable; [done|lia]. }
  { rewrite Hc. apply plain_room; try done; [lia|]. rewrite (bk_limit _ _ _ _ _ _ _ Hb).
    change (segment_size_threshold default_config) with (2 ^ 30). lia. }
  { intros x [i Hx]%list_elem_of_lookup. destruct (booked_lookup _ _ _ _ _ _ _ _ _ Hb Hx) as (_ & _ & _ & -> & ?). lia. }
  destruct (booked_lookup _ _ _ _ _ _ _ _ _ Hb Ha) as (Hnx & Hvs & _ & Han & _).
  rewrite (bind_Ok _ _ _ _ _ (attempt_Ok _ _ _ _ Hrun)). cbv iota. cbn [partition offset]. rewrite Nat2Z.id.
  pose proof (lookup_lt_Some _ _ _ Ha) as Hlt.
  rewrite (bind_Ok _ _ _ _ _ (assert_true (Z.of_nat p <? len als) _ _ ltac:(apply Z.ltb_lt; unfold len; lia))).
  assert (exists keys, (match so_key op with
      | Some k => let '(mapped, m) := entry_or_insert (key_partition b) k (Z.of_nat p) in
                  let* _ := assert (mapped =? Z.of_nat p) "key routed to two different partitions" in ret m
      | None => ret (key_partition b) end : KM (World * Topic) (gmap Z Z)) (w', t') = (Ok keys, (w', t'))
    /\ forall k q, keys !! Z_of_byte k = Some q -> q = partition_index [k] (len als)) as (keys & Hkeys & Hk).
  { subst key. destruct (so_key op) as [k|] eqn:Ek; [|eexists; split; [done|exact (bk_keys _ _ _ _ _ _ _ Hb)]].
    destruct (entry_run b w t als dir lim n k (Z.of_nat p) Hb) as (m & -> & Hm).
    { rewrite (Hkey [k] eq_refl). unfold partition_for_key. by rewrite (topic_rep_count _ _ _ _ Ht). }
    exists m. split; [|done]. unfold assert. by rewrite Z.eqb_refl. }
  rewrite (bind_Ok _ _ _ _ _ Hkeys), Hnx. cbn [expect]. rewrite bind_ret, Han.
  rewrite (bind_Ok _ _ _ _ _ (assert_true (len (a_recs a) =? len (a_recs a)) _ _ (Z.eqb_refl _))), Hvs. cbn [expect].
  rewrite bind_ret. eexists _, w', t', _. split; [reflexivity|]. split; [|unfold len; by rewrite length_insert].
  apply (booked_insert dir lim n b w t als w' t' keys p a r); try done. by eapply topic_stays_limit.
Qed.

Lemma send_ops_run dir lim os n b w t als :
  booked dir lim n b w t als -> Forall (fun op => 0 <= so_len op) os -> n + len os < 2 ^ 64 -> ROUTING_LIMIT <= lim ->
  exists n' b' w' t' als', send_ops (len als) os b (w, t) = (Ok b', (w', t')) /\ booked dir lim n' b' w' t' als'.
Proof.
  intros Hb Hos. revert n b w t als Hb. induction Hos as [|op os Hop _ IH]; intros n b w t als Hb Hn Hl.
  { by exists n, b, w, t, als. }
  rewrite len_cons in Hn. pose proof (len_nonneg os). cbn [send_ops].
  destruct (send_op_run dir lim n b op w t als Hb Hop ltac:(lia) Hl) as (b1 & w1 & t1 & als1 & Hrun & Hb1 & E).
  rewrite (bind_Ok _ _ _ _ _ Hrun), <- E. apply (IH (n + 1)); [done|lia|done].
Qed.

(** ** Reading back *)
Definition topic_same (dir : path) (lim : Z) (als : list alog) (s : World * Topic) : Prop :=
  let '(w, t) := s in topic_rep (R := R) w dir t als /\ Topic.config t = default_config /\ seg_limit w = lim.

Lemma read_one_run dir lim als s i a off :
  topic_same dir lim als s -> 2 ^ 30 <= lim -> als !! i = Some a -> 0 <= off ->
  exists s', on_partition i (Partition.read_record_at off) s = (Ok (a_read off a), s') /\ topic_same dir lim als s'.
Proof.
  destruct s as [w t]. intros (Ht & Hc & Hl) Hlim Ha H0.
  destruct (topic_rep_lookup _ _ _ _ i Ht (lookup_lt_Some _ _ _ Ha)) as (p & a' & Hp & Ha' & Hprep & Hcf).
  rewrite Ha in Ha'. injection Ha' as <-. rewrite Hc in Hcf.
  destruct (partition_read_run w p a off Hprep) as (w' & p' & Hrun & Hp' & Hk); [|done|].
  { rewrite Hcf. split; [done| |done]. rewrite Hl. simpl. exact Hlim. }
  destruct (on_partition_run _ _ _ _ _ _ i p a p' a _ Ht Hp Ha Hrun Hp' Hk) as (Hon & Ht' & Hsy).
  rewrite (list_insert_id als i a) in Ht' by exact Ha. eexists. split; [exact Hon|]. split; [done|]. split; [done|].
  by rewrite (topic_stays_limit _ _ _ Hsy).
Qed.

Lemma elem_of_imap_pair {A} (l : list A) x : x ∈ imap pair l -> l !! fst x = Some (snd x).
Proof. intros (i & y & -> & Hi)%elem_of_lookup_imap. done. Qed.

Lemma read_back_run dir lim als s :
  topic_same dir lim als s -> 2 ^ 30 <= lim -> Forall (fun a => a_start a = 0) als ->
  exists s', read_back (map values_of als) s = (Ok tt, s') /\ topic_same dir lim als s'.
Proof.
  intros Hs Hlim Hst. unfold read_back. apply (for_each_inv (topic_same dir lim als)); [done|].
  intros [i vs] s1 Hi%elem_of_imap_pair Hs1. simpl in Hi.
  apply list_lookup_fmap_Some in Hi as (a & -> & Ha).
  assert (Hp : partition_or_panic i s1 = (Ok tt, s1)).
  { destruct s1 as [w t]. destruct Hs1 as (Ht & _).
    destruct (topic_rep_lookup _ _ _ _ i Ht (lookup_lt_Some _ _ _ Ha)) as (p & _ & Hp & _).
    unfold partition_or_panic. rewrite bind_self, Hp. done. }
  rewrite (bind_Ok _ _ _ _ _ Hp). apply (for_each_inv (topic_same dir lim als)); [done|].
  intros [off v] s2 Hv%elem_of_imap_pair Hs2. simpl in Hv.
  destruct (read_one_run dir lim als s2 i a (Z.of_nat off) Hs2 Hlim Ha ltac:(lia)) as (s3 & Hrun & Hs3).
  exists s3. split; [|done]. rewrite (bind_Ok _ _ _ _ _ (attempt_Ok _ _ _ _ Hrun)). cbv iota.
  apply list_lookup_fmap_Some in Hv as (r & -> & Hr). rewrite Forall_forall in Hst.
  unfold a_read. rewrite (Hst a (list_elem_of_lookup_2 _ _ _ Ha)), Z.sub_0_r, Nat2Z.id.
  rewrite (proj2 (Z.ltb_ge _ _)) by lia. rewrite Hr. by apply assert_true, bool_decide_eq_true_2.
Qed.

Lemma grows_limit d w w' : grows d w w' -> seg_limit w' = seg_limit w.
Proof. intros (_ & _ & E & _). unfold seg_limit. by rewrite E. Qed.

Lemma topic_grows_limit dir w w' : topic_grows dir w w' -> seg_limit w' = seg_limit w.
Proof. induction 1 as [|w w1 w2 (x & _ & Hx) _ IH]; [done|]. rewrite IH. by eapply grows_limit. Qed.

Lemma topic_routing_run w dir partitions os :
  temp_dir w dir -> Forall (fun op => 0 <= so_len op) os -> ROUTING_LIMIT <= seg_limit w ->
  passes (topic_routing dir partitions os) w.
Proof.
  intros Ht Hos Hl. unfold passes, topic_routing. cbv zeta.
  set (n := Z_of_byte partitions mod MAX_PARTITIONS + 1).
  assert (Hn : 0 < n <= 16).
  { unfold n, MAX_PARTITIONS. pose proof (Z.mod_pos_bound (Z_of_byte partitions) 16 ltac:(lia)). lia. }
  destruct (topic_create_run (R := R) w dir "t" n default_config default_usable) as (w1 & t & Hrun & Htr & Hc & _ & _ & Hg); try apply Ht; [lia|..].
  { intros p Hp Hne. left. by apply (td_made _ _ Ht). }
  rewrite (bind_Ok _ _ _ _ _ (attempt_Ok _ _ _ _ Hrun)). cbv iota.
  set (als := replicate (Z.to_nat n) (mkALog 0 [])) in *.
  assert (Hla : len als = n) by (unfold len, als; rewrite length_replicate; lia).
  assert (Hb : booked dir (seg_limit w) 0 (mkBooks empty (replicate (Z.to_nat n) 0) (replicate (Z.to_nat n) [])) w1 t als).
  { split; simpl; try done.
    - by apply (topic_grows_limit dir).
    - apply Forall_replicate. by split.
    - exact (eq_sym (fmap_replicate a_next (Z.to_nat n) (mkALog 0 []))).
    - exact (eq_sym (fmap_replicate values_of (Z.to_nat n) (mkALog 0 []))). }
  destruct (send_ops_run dir (seg_limit w) (take TOPIC_MAX_OPS os) 0 _ w1 t als Hb) as (n' & b & w2 & t2 & als2 & Hops & Hb2).
  { by apply Forall_take. }
  { unfold len. rewrite length_take. unfold TOPIC_MAX_OPS. lia. }
  { done. }
  rewrite Hla in Hops.
  destruct (read_back_run dir (seg_limit w) als2 (w2, t2)) as ([w3 t3] & Hrd & Ht3 & _).
  { split; [apply Hb2|]. split; apply Hb2. }
  { unfold ROUTING_LIMIT, TOPIC_MAX_VALUE_LEN in Hl. lia. }
  { eapply Forall_impl; [exact (bk_start _ _ _ _ _ _ _ Hb2)|]. by intros x [? _]. }
  destruct (topic_shutdown_run w3 dir t3 als2 Ht3) as (w4 & t4 & Hsh & _).
  exists w4. eapply with_local_pass. rewrite (bind_Ok _ _ _ _ _ Hops), (bk_values _ _ _ _ _ _ _ Hb2).
  rewrite (bind_Ok _ _ _ _ _ Hrd). exact Hsh.
Qed.

End routing.

(** ** topic_layout_recovery.rs *)
Section layout.
Context {B : Buf} {BL : BufLaws B} {H : Crc32} {HL : Crc32Laws H} {C : Codecs}.

(** *** What the target lays out *)

(** [d] is not there, or holds one first segment. *)
Definition part_ok (w : World) (d : path) : Prop :=
  (nodes w !! d = None /\ forall y, nodes w !! (d ++ [y]) = None) \/ exists f, one_segment w d f.

(** The names the target gives to partitions. *)
Definition index_dir (x : string) : Prop := exists b : byte, x = u32_to_string (Z_of_byte b).

(** [extra]: what else there is. *)
Record laid (extra : list string) (w : World) (td : path) (lim : Z) : Prop := {
  ld_quiet : quiet w;
  ld_made : dirs_made w td;
  ld_ne : td <> [];
  ld_limit : seg_limit w = lim;
  ld_part : forall x, index_dir x -> part_ok w (td ++ [x]);
  ld_other : forall x, ~ index_dir x -> nodes w !! (td ++ [x]) = None \/ x ∈ extra;
}.

Lemma part_ok_same w w' td x :
  dirs_made w' td -> seg_limit w' = seg_limit w ->
  (forall q, (td ++ [x]) `prefix_of` q -> nodes w' !! q = nodes w !! q) ->
  part_ok w (td ++ [x]) -> part_ok w' (td ++ [x]).
Proof.
  intros Hm Hl Hs [[H1 H2]|(f & [O1 O2 O3 O4 O5])]; [left|right; exists f].
  - split; [by rewrite Hs|]. intros y. rewrite Hs; [done|by eexists].
  - split.
    + intros q [->|Hq]%prefix_snoc_inv Hne; [by rewrite Hs|by apply Hm].
    + by rewrite Hs.
    + intros y n Hn. rewrite Hs in Hn by by eexists. by eapply O3.
    + rewrite Hs; [done|by eexists].
    + by rewrite Hl.
Qed.

Lemma index_dir_parse b : parse_u32 (u32_to_string (Z_of_byte b)) = Some (Z_of_byte b).
Proof. apply parse_u32_to_string. pose proof (Z_of_byte_range b). split; lia. Qed.

Lemma dirs_made_insert w d p f : ~ p `prefix_of` d -> dirs_made w d -> dirs_made (set_nodes <[p := NFile f]> w) d.
Proof. intros Hp Hm q Hq Hne. simpl. rewrite lookup_insert_ne; [by apply Hm|]. by intros <-. Qed.

Lemma snoc_not_prefix_self (d : path) x : ~ (d ++ [x]) `prefix_of` d.
Proof. intros Hp%prefix_length. rewrite length_app in Hp. simpl in Hp. lia. Qed.

Lemma made_below w td x :
  dirs_made w td -> nodes w !! (td ++ [x]) = Some NDir -> dirs_made w (td ++ [x]).
Proof. intros Hm Hn q [->|Hq]%prefix_snoc_inv Hne; [done|by apply Hm]. Qed.

(** [create_dir_all] one level below what is there. *)
Lemma create_child_run w td x :
  quiet w -> dirs_made w td -> td <> [] -> nodes w !! (td ++ [x]) = Some NDir \/ nodes w !! (td ++ [x]) = None ->
  exists w', create_dir_all (td ++ [x]) w = (Ok tt, w') /\ quiet w' /\ seg_limit w' = seg_limit w
    /\ read_max w' = read_max w
    /\ dirs_made w' (td ++ [x]) /\ (forall q, q <> td ++ [x] -> nodes w' !! q = nodes w !! q).
Proof.
  intros Hq Hm Hne Hx.
  destruct (create_dir_all_run w (td ++ [x]) Hq) as (w' & Hrun & Hq' & Hr & Hmade & _ & Hs).
  { intros q [->|Hp]%prefix_snoc_inv Hn; [done|left; by apply Hm]. }
  exists w'. do 2 (split; [done|]). split; [unfold seg_limit; by rewrite Hr|]. do 2 (split; [done|]).
  intros q Hne'. destruct (decide (q `prefix_of` td ++ [x])) as [Hp|Hp]; [|by apply Hs; left].
  destruct (decide (q = [])) as [->|Hn]; [apply Hs; by right|].
  pose proof Hp as Hp'. apply prefix_snoc_inv in Hp as [->|Hp]; [done|]. rewrite (Hm q Hp Hn). by apply Hmade.
Qed.

Lemma lay_partition_run extra td lim pd w :
  laid extra w td lim -> Z.of_nat MAX_SEGMENT_LEN <= lim ->
  exists w', lay_partition td pd w = (Ok tt, w') /\ laid extra w' td lim.
Proof.
  intros [L1 L2 L3 L4 L5 L6] Hlim. unfold lay_partition. cbv zeta.
  set (x := u32_to_string (Z_of_byte (pd_index pd))). set (sub := td ++ [x]).
  assert (Hx : index_dir x) by by eexists.
  destruct (create_child_run w td x L1 L2 L3) as (w1 & Hmk & Hq1 & Hl1 & Hr1 & Hm1 & Hs1).
  { destruct (L5 x Hx) as [[H1 _]|(f & Hf)]; [by right|left; apply (os_dir _ _ _ Hf)]. }
  fold sub in Hmk, Hm1, Hs1. rewrite (bind_Ok _ _ _ _ _ (unwrap_Ok _ _ _ _ (io_Ok _ _ _ _ Hmk))).
  assert (Hsub : nodes w1 !! sub = Some NDir) by (apply Hm1; [done|by destruct td]).
  assert (Honly : forall y n, nodes w1 !! (sub ++ [y]) = Some n -> sub ++ [y] = segment_path sub 0).
  { intros y n. rewrite Hs1 by (apply not_eq_sym, snoc_ne).
    destruct (L5 x Hx) as [[_ H2]|(f & Hf)]; [by rewrite H2|apply (os_only _ _ _ Hf)]. }
  destruct (write_fixture_run w1 (sub ++ [FIRST_SEGMENT]) (take MAX_SEGMENT_LEN (pd_segment pd)) Hq1) as (f & Hrun & Hd).
  { rewrite first_segment, Hs1 by (apply not_eq_sym, snoc_ne). destruct (L5 x Hx) as [[_ H2]|(f & Hf)].
    - fold sub in H2. unfold segment_path. by rewrite H2.
    - fold sub in Hf. by rewrite (os_seg _ _ _ Hf). }
  { by apply parent_snoc. }
  eexists. split; [exact Hrun|].
  assert (Htd : dirs_made (set_nodes <[sub ++ [FIRST_SEGMENT] := NFile f]> w1) td).
  { apply dirs_made_insert.
    - intros Hp%prefix_length. unfold sub in Hp. rewrite !length_app in Hp. simpl in Hp. lia.
    - intros q Hq Hne. apply Hm1; [|done]. by apply prefix_app_r. }
  split; try done.
  - change (seg_limit w1 = lim). congruence.
  - intros z Hz. destruct (decide (z = x)) as [->|Hne].
    + right. exists f. apply one_segment_laid; [done|done|done|]. rewrite Hd, Hl1, L4. unfold len.
      rewrite length_take. lia.
    + eapply (part_ok_same w); [exact Htd|exact Hl1| |by apply L5]. intros q [q' ->]. simpl.
      rewrite lookup_insert_ne.
      * apply Hs1. unfold sub. rewrite <- app_assoc. intros E. apply app_inv_head in E. simpl in E. congruence.
      * unfold sub. rewrite <- !app_assoc. intros E. apply app_inv_head in E. simpl in E. congruence.
  - intros z Hz. destruct (L6 z Hz) as [Hn|Hn]; [left|by right]. simpl. rewrite lookup_insert_ne.
    + rewrite Hs1; [done|]. intros E. apply app_inj_2 in E as [_ E]; [|done]. injection E as ->. done.
    + intros E. apply (f_equal length) in E. unfold sub in E. rewrite !length_app in E. simpl in E. lia.
Qed.

Lemma lay_parts_run extra td lim pds w :
  laid extra w td lim -> Z.of_nat MAX_SEGMENT_LEN <= lim ->
  exists w', for_each pds (lay_partition td) w = (Ok tt, w') /\ laid extra w' td lim.
Proof.
  intros HI Hl. apply (for_each_inv (fun w => laid extra w td lim)); [done|].
  intros pd w' _ Hw. by apply lay_partition_run.
Qed.

(** An entry that is no partition. *)
Lemma laid_extra extra td lim x w w' :
  laid extra w td lim -> ~ index_dir x -> quiet w' -> seg_limit w' = seg_limit w ->
  (forall q, q <> td ++ [x] -> nodes w' !! q = nodes w !! q) -> laid (x :: extra) w' td lim.
Proof.
  intros [L1 L2 L3 L4 L5 L6] Hx Hq Hl Hs.
  assert (Hm : dirs_made w' td).
  { intros q Hp Hne. rewrite Hs; [by apply L2|]. intros ->. by apply snoc_not_prefix_self in Hp. }
  split; [done|done|done|congruence|..].
  - intros z Hz. eapply (part_ok_same w); [done|done| |by apply L5]. intros q [q' ->]. apply Hs.
    rewrite <- app_assoc. intros E. apply app_inv_head in E. injection E as -> _. done.
  - intros z Hz. destruct (decide (z = x)) as [->|Hne]; [right; by left|].
    rewrite Hs by (intros E; apply snoc_inj in E as [_ E]; done).
    destruct (L6 z Hz) as [Hn|Hn]; [by left|right; by right].
Qed.

Lemma index_dir_dec x : index_dir x \/ ~ index_dir x.
Proof.
  destruct (parse_u32 x) as [k|] eqn:Hk; [|right; intros [b ->]; by rewrite index_dir_parse in Hk].
  destruct (decide (0 <= k < 256 /\ x = u32_to_string k)) as [[Hr E]|Hn].
  - left. exists (byte_of_Z k). by rewrite Z_of_byte_of_Z, Z.mod_small.
  - right. intros [b ->]. rewrite index_dir_parse in Hk. injection Hk as <-. apply Hn.
    split; [apply Z_of_byte_range|done].
Qed.

Lemma not_index x : parse_u32 x = None -> ~ index_dir x.
Proof. intros Hx [b ->]. by rewrite index_dir_parse in Hx. Qed.

Lemma lay_out_run w td case :
  quiet w -> td <> [] -> dirs_free w td -> (forall q, td `prefix_of` q -> nodes w !! q = None) ->
  Z.of_nat MAX_SEGMENT_LEN <= seg_limit w ->
  exists w', lay_out td case w = (Ok tt, w') /\ laid ["stray.txt"; "not-a-number"] w' td (seg_limit w).
Proof.
  intros Hq Hne Hf He Hl. unfold lay_out.
  destruct (create_dir_all_run w td Hq Hf) as (w0 & Hmk & Hq0 & Hr0 & Hm0 & _ & Hs0).
  rewrite (bind_Ok _ _ _ _ _ (unwrap_Ok _ _ _ _ (io_Ok _ _ _ _ Hmk))).
  assert (Hl0 : seg_limit w0 = seg_limit w) by (unfold seg_limit; by rewrite Hr0).
  assert (Hbelow : forall x q, nodes w0 !! ((td ++ [x]) ++ q) = None).
  { intros x q. rewrite Hs0, <- app_assoc; [apply He; by eexists|]. left. intros Hp%prefix_length.
    rewrite !length_app in Hp. simpl in Hp. lia. }
  assert (L0 : laid [] w0 td (seg_limit w)).
  { split; try done.
    - intros x _. left. split; [by rewrite <- (app_nil_r (td ++ [x]))|intros y; apply Hbelow].
    - intros x _. left. by rewrite <- (app_nil_r (td ++ [x])). }
  destruct (lay_parts_run [] td (seg_limit w) (take MAX_DIRS (lc_dirs case)) w0 L0 Hl) as (w1 & Hps & L1).
  rewrite (bind_Ok _ _ _ _ _ Hps).
  assert (exists w2, (if junk_subdir case then ignore (io (create_dir_all (td ++ ["not-a-number"]))) else ret tt) w1 = (Ok tt, w2)
    /\ laid ["not-a-number"] w2 td (seg_limit w)) as (w2 & Hj & L2).
  { assert (Hnj : ~ index_dir "not-a-number") by by apply not_index.
    destruct (junk_subdir case).
    - destruct (create_child_run w1 td "not-a-number") as (w2 & Hc & Hq2 & Hl2 & _ & _ & Hs2); [apply L1|apply L1|done|..].
      { right. by destruct (ld_other _ _ _ _ L1 _ Hnj) as [?|?%elem_of_nil]. }
      exists w2. split; [exact (ignore_Ok _ _ _ _ (io_Ok _ _ _ _ Hc))|]. by eapply laid_extra.
    - exists w1. split; [done|]. eapply laid_extra; [exact L1|done|apply L1|done|done]. }
  rewrite (bind_Ok _ _ _ _ _ Hj). assert (Hns : ~ index_dir "stray.txt") by by apply not_index.
  destruct (stray_file case).
  - destruct (fs_write_run w2 (td ++ ["stray.txt"]) [x6a; x75; x6e; x6b]) as (f & Hw & _); [apply L2|..].
    { by destruct (ld_other _ _ _ _ L2 _ Hns) as [->|[=]%list_elem_of_singleton]. }
    { apply parent_snoc. apply (ld_made _ _ _ _ L2); [done|done]. }
    eexists. split; [exact (ignore_Ok _ _ _ _ Hw)|]. eapply laid_extra; [exact L2|done|apply L2|done|].
    intros q Hq'. simpl. by rewrite lookup_insert_ne.
  - exists w2. split; [done|]. eapply laid_extra; [exact L2|done|apply L2|done|done].
Qed.

(** *** What opening it gives *)
Lemma one_segment_stays d w w' d' f : stays d w w' -> apart d d' -> one_segment w d' f -> one_segment w' d' f.
Proof.
  intros (_ & _ & Hm & Hs) [Hl Hne] [O1 O2 O3 O4 O5].
  assert (Hchild : forall y, nodes w' !! (d' ++ [y]) = nodes w !! (d' ++ [y])).
  { intros y. apply Hs. intros x E. apply snoc_inj in E as [E _]. congruence. }
  assert (Hpre : forall q, q `prefix_of` d' -> nodes w' !! q = nodes w !! q).
  { intros q Hq%prefix_length. apply Hs. intros x ->. rewrite length_app in Hq. simpl in Hq. lia. }
  split.
  - intros q Hq Hn. rewrite Hpre by done. by apply O1.
  - by rewrite Hpre.
  - intros y n. rewrite Hchild. apply O3.
  - unfold segment_path. by rewrite Hchild.
  - unfold seg_limit. by rewrite Hm.
Qed.

(** A partition whose log reads as [c]. *)
Record readable (w : World) (p : Partition) (c : list erec) : Prop := {
  rd_log : scanned w (log (writer p)) c;
  rd_hwm : high_water_mark p = len c;
  rd_running : status p = Running;
  rd_ids : Forall (fun x => (fst x < next_reply p)%nat) (sent (writer p));
}.

Lemma readable_stays d w w' p c : stays d w w' -> apart d (pdir p) -> readable w p c -> readable w' p c.
Proof. intros Hs Ha [R1 R2 R3 R4]. split; try done. by eapply scanned_stays. Qed.

Lemma partition_open_any w d cfg f :
  usable cfg -> quiet w -> one_segment w d f ->
  exists w', quiet w' /\ stays d w w' /\
  ((exists e, Partition.open d cfg w = (Err e, w'))
   \/ exists c p, Partition.open d cfg w = (Ok p, w') /\ readable w' p c /\ pdir p = d).
Proof.
  intros Hu Hq Ho. destruct (open_any w d cfg f Hq Ho) as (w' & Ht & Hcase). exists w'.
  split; [by eapply touches_quiet|]. split; [by eapply seg_files_stays|]. unfold Partition.open.
  destruct Hcase as [(e & Hl)|(c & l & Hl & Hs & Hd)].
  - left. exists e. by rewrite (bind_Err _ _ _ _ _ Hl).
  - right. eexists c, _. rewrite (bind_Ok _ _ _ _ _ Hl). split; [reflexivity|]. split; [|done].
    rewrite (proj2 (Z.eqb_neq _ _) Hu).
    split; simpl; [done|apply (sl_next _ _ _ Hs)|done|constructor].
Qed.

Definition index_apart (td : path) (ps : list Partition) (indices : list Z) : Prop :=
  forall p, p ∈ ps -> exists j, is_u32 j /\ pdir p = td ++ [u32_to_string j] /\ j ∉ indices.

Lemma open_partitions_any td cfg indices w ps :
  usable cfg -> quiet w -> NoDup indices ->
  (forall i, i ∈ indices -> is_u32 i /\ exists f, one_segment w (td ++ [u32_to_string i]) f) ->
  (forall p, p ∈ ps -> exists c, readable w p c) -> index_apart td ps indices ->
  exists w', quiet w' /\
  ((exists e, open_partitions td cfg indices ps w = (Err e, w'))
   \/ exists ps', open_partitions td cfg indices ps w = (Ok ps', w')
      /\ forall p, p ∈ ps' -> exists c, readable w' p c).
Proof.
  intros Hu0. revert w ps. induction indices as [|i indices IH]; intros w ps Hq Hnd Hs Hps Hap.
  { exists w. split; [done|]. right. by exists ps. }
  apply NoDup_cons in Hnd as [Hi Hnd]. destruct (Hs i ltac:(by left)) as (Hu & f & Hf). cbn [open_partitions].
  assert (Hne : forall j, is_u32 j -> j <> i -> apart (td ++ [u32_to_string i]) (td ++ [u32_to_string j])).
  { intros j Hj Hji. split; [by rewrite !length_app|]. intros E. apply snoc_inj in E as [_ E].
    apply u32_to_string_inj in E; [by subst|done|done]. }
  destruct (partition_open_any w _ cfg f Hu0 Hq Hf) as (w1 & Hq1 & Hst & [(e & Ho)|(c & p & Ho & Hr & Hd)]).
  { exists w1. split; [done|]. left. exists e. by rewrite (bind_Err _ _ _ _ _ Ho). }
  rewrite (bind_Ok _ _ _ _ _ Ho). apply IH; try done.
  - intros j Hj. destruct (Hs j ltac:(by right)) as (Hju & g & Hg). split; [done|]. exists g.
    eapply one_segment_stays; [exact Hst| |exact Hg]. apply Hne; [done|]. by intros ->.
  - intros p' [Hp'| ->%list_elem_of_singleton]%elem_of_app; [|by exists c].
    destruct (Hps p' Hp') as [c' Hc']. destruct (Hap p' Hp') as (j & Hj & Hdj & Hjn). exists c'.
    eapply readable_stays; [exact Hst| |done]. rewrite Hdj. apply Hne; [done|]. intros ->. apply Hjn. by left.
  - intros p' [Hp'| ->%list_elem_of_singleton]%elem_of_app.
    + destruct (Hap p' Hp') as (j & Hj & Hdj & Hjn). exists j. do 2 (split; [done|]). intros Hin. apply Hjn. by right.
    + by exists i.
Qed.

Lemma discover_any extra w td lim :
  laid extra w td lim -> Forall (fun x => parse_u32 x = None) extra ->
  exists found, discover_partition_indices td w = (Ok found, w) /\ NoDup found
    /\ forall i, i ∈ found -> is_u32 i /\ exists f, one_segment w (td ++ [u32_to_string i]) f.
Proof.
  intros [L1 L2 L3 L4 L5 L6] Hex. assert (Hd : nodes w !! td = Some NDir) by (by apply L2).
  eexists. split.
  { unfold discover_partition_indices. erewrite bind_Ok; [reflexivity|]. apply io_Ok.
    unfold read_dir. by rewrite syscall_quiet, Hd. }
  set (f := fun e : string * node => match snd e with NDir => parse_u32 (fst e) | NFile _ => None end).
  rewrite Forall_forall in Hex.
  assert (Hin : forall e k, e ∈ children w td -> f e = Some k ->
    e = (u32_to_string k, NDir) /\ is_u32 k /\ exists g, one_segment w (td ++ [u32_to_string k]) g).
  { intros [name [fl|]] k He Hk; [done|]. unfold f in Hk. simpl in Hk. apply elem_of_children in He.
    destruct (decide (name ∈ extra)) as [Hx|Hx]; [by rewrite (Hex _ Hx) in Hk|].
    destruct (index_dir_dec name) as [[b ->]|Hn].
    2: { destruct (L6 name Hn) as [E|E]; [by rewrite E in He|done]. }
    rewrite index_dir_parse in Hk. injection Hk as <-. split; [done|].
    split; [pose proof (Z_of_byte_range b); split; lia|].
    destruct (L5 (u32_to_string (Z_of_byte b)) ltac:(by eexists)) as [[E _]|Hg]; [by rewrite E in He|done]. }
  split.
  - apply NoDup_omap_inj; [apply children_NoDup|]. intros x y k Hx Hy Ex Ey.
    destruct (Hin x k Hx Ex) as [-> _], (Hin y k Hy Ey) as [-> _]. done.
  - intros i Hi. apply list_elem_of_omap in Hi as (e & He & Ek). by apply (Hin e i).
Qed.

Lemma topic_open_any extra w td nm cfg lim :
  usable cfg -> laid extra w td lim -> Forall (fun x => parse_u32 x = None) extra ->
  exists w', quiet w' /\
  ((exists e, Topic.open td nm cfg w = (Err e, w'))
   \/ exists t, Topic.open td nm cfg w = (Ok t, w')
      /\ forall p, p ∈ partitions t -> exists c, readable w' p c).
Proof.
  intros Hu Hl Hex. destruct (discover_any extra w td lim Hl Hex) as (found & Hf & Hnd & Hs).
  pose proof (ld_quiet _ _ _ _ Hl) as Hq. unfold Topic.open. rewrite (bind_Ok _ _ _ _ _ Hf). cbv zeta.
  pose proof (merge_sort_Permutation Z.le found) as Hp. set (indices := merge_sort Z.le found) in *.
  assert (Hnd' : NoDup indices) by by rewrite Hp.
  assert (Hs' : forall i, i ∈ indices -> is_u32 i /\ exists f, one_segment w (td ++ [u32_to_string i]) f).
  { intros i Hi. apply Hs. by rewrite <- Hp. }
  clearbody indices. destruct indices as [|i0 rest]; [exists w; split; [done|]; left; by eexists|].
  destruct (first_gap 0 (i0 :: rest)) as [[ex ac]|]; [exists w; split; [done|]; left; by eexists|].
  destruct (open_partitions_any td cfg (i0 :: rest) w [] Hu Hq Hnd' Hs') as (w' & Hq' & Hcase).
  { intros p Hp'. by apply elem_of_nil in Hp'. } { intros p Hp'. by apply elem_of_nil in Hp'. }
  exists w'. split; [done|]. destruct Hcase as [(e & Ho)|(ps & Ho & Hps)].
  - left. exists e. by rewrite (bind_Err _ _ _ _ _ Ho).
  - right. eexists. rewrite (bind_Ok _ _ _ _ _ Ho). split; [reflexivity|done].
Qed.

(** *** Reading it *)
Lemma reader_run w p c off :
  quiet w -> readable w p c -> 0 <= off ->
  exists p', Partition.read_record_at off (w, p) = (Ok (snd <$> c !! Z.to_nat off), (w, p'))
    /\ readable w p' c /\ pdir p' = pdir p.
Proof.
  intros Hq [R1 R2 R3 R4] H0. destruct (scanned_read w _ c off Hq R1 H0) as (l' & Hrun & Hs & Hd).
  eexists. split; [|split].
  - unfold Partition.read_record_at, call. unfold bind at 1. rewrite R3. unfold writer_turn. rewrite bind_self.
    cbn [inbox set_inbox]. rewrite bind_modify_self. unfold process_with_batching, handle_single_command.
    rewrite bind_bind, (bind_Ok _ _ _ _ _ (on_log_Ok _ w (set_inbox [] (set_inbox [ReadAt off (next_reply p)] (writer p))) _ _ _ Hrun)).
    unfold reply_send, publish, signal. rewrite ?bind_bind, !bind_modify_self. simpl. rewrite (find_reply_app _ _ _ R4). reflexivity.
  - split; simpl; [done|done|done|]. apply Forall_app. split.
    + eapply Forall_impl; [exact R4|]. intros x Hx. simpl in *. lia.
    + apply Forall_singleton. simpl. lia.
  - exact Hd.
Qed.

(** Every partition reads; nothing else of the world matters. *)
Definition all_readable (n : nat) (s : World * Topic) : Prop :=
  quiet (fst s) /\ length (partitions (snd s)) = n
  /\ forall i p, partitions (snd s) !! i = Some p -> exists c, readable (fst s) p c.

Lemma on_reader_run n s i p c off :
  all_readable n s -> partitions (snd s) !! i = Some p -> readable (fst s) p c -> 0 <= off ->
  exists s' p', on_partition i (Partition.read_record_at off) s = (Ok (snd <$> c !! Z.to_nat off), s')
    /\ all_readable n s' /\ partitions (snd s') !! i = Some p' /\ readable (fst s') p' c.
Proof.
  destruct s as [w t]. intros (Hq & Hn & Hr) Hp Hc H0. simpl in *.
  destruct (reader_run w p c off Hq Hc H0) as (p' & Hrun & Hc' & _).
  pose proof (lookup_lt_Some _ _ _ Hp) as Hlt. eexists _, p'. split; [unfold on_partition; by rewrite Hp, Hrun|].
  simpl. split; [|split; [by rewrite list_lookup_insert_eq|done]].
  split; [done|]. simpl. split; [by rewrite length_insert|]. intros j q Hj.
  destruct (decide (i = j)) as [<-|Hne].
  - rewrite list_lookup_insert_eq in Hj by done. injection Hj as <-. by exists c.
  - rewrite list_lookup_insert_ne in Hj by done. by eapply Hr.
Qed.

Lemma read_all_run n s : all_readable n s -> exists s', read_all s = (Ok tt, s') /\ all_readable n s'.
Proof.
  intros Hs. pose proof Hs as (_ & Hl & _). destruct s as [w t]. unfold read_all. rewrite bind_self.
  apply (for_each_inv (all_readable n)); [done|].
  intros i [w1 t1] Hi%elem_of_seq Hs1. pose proof Hs1 as (_ & Hn1 & Hr1). rewrite bind_self. set (s1 := (w1, t1)) in *.
  destruct (lookup_lt_is_Some_2 (partitions (snd s1)) i) as [p Hp].
  { unfold Topic.partition_count, as_u32, len in Hi.
    pose proof (Z.mod_le (Z.of_nat (length (partitions t))) (2 ^ 32)). simpl in *. lia. }
  change (partitions t1 !! i = Some p) in Hp. rewrite Hp. cbn [expect]. rewrite bind_ret.
  destruct (Hr1 i p Hp) as [c Hc]. cbv zeta.
  destruct (for_each_inv (fun s => all_readable n s /\ exists p, partitions (snd s) !! i = Some p /\ readable (fst s) p c)
    (seq 0 (Z.to_nat (high_water_mark p))) (fun offset =>
        let* r := unwrap (on_partition i (Partition.read_record_at (Z.of_nat offset))) in
        assert (bool_decide (is_Some r)) "recovered offset unreadable") s1) as (s2 & Hrun & Hs2 & _).
  { split; [done|by exists p]. }
  2: { by exists s2. }
  intros off s2 Hoff%elem_of_seq [Hs2 (q & Hq & Hqc)].
  destruct (on_reader_run n s2 i q c (Z.of_nat off) Hs2 Hq Hqc ltac:(lia)) as (s3 & q' & Hrun & Hs3 & Hq' & Hc').
  exists s3. split; [|split; [done|by exists q']]. rewrite (bind_Ok _ _ _ _ _ (unwrap_Ok _ _ _ _ Hrun)).
  apply assert_true, bool_decide_eq_true_2. rewrite Nat2Z.id. apply fmap_is_Some, lookup_lt_is_Some.
  rewrite (rd_hwm _ _ _ Hc) in Hoff. unfold len in Hoff. lia.
Qed.

(** *** Shutting it down *)
Lemma sync_data_ends s : fst (sync_data s) = Ok tt \/ exists e, fst (sync_data s) = Err e.
Proof.
  destruct s as [[ns now flts rm] f].
  unfold sync_data, on_world, zoom, syscall, next_fault, lookup_file, get_node, put_file, bind, ret, throw. simpl.
  destruct flts as [|[fa|] flts]; simpl; [|by eauto|]; destruct (ns !! fd_path f) as [[fn|]|]; simpl; eauto.
Qed.

Lemma sync_ends s : fst (Log.sync s) <> NoFuel.
Proof.
  destruct s as [w l]. unfold Log.sync, bind, on_active. destruct (last (segments l)) as [s0|] eqn:E; [|done].
  unfold on_seg, Segment.sync, Segment.on_file, on_idx, SparseIndex.sync, SparseIndex.on_file, zoom, io, map_err.
  destruct (sync_data_ends (w, Segment.file (segment s0))) as [E1|[e E1]]; simpl;
    destruct (sync_data (w, _)) as [o [w1 f1]]; simpl in E1; subst o; simpl; [|done].
  rewrite last_snoc. destruct (sync_data_ends (w1, SparseIndex.file (index s0))) as [E1|[e E1]]; simpl;
    destruct (sync_data (w1, _)) as [o [w2 f2]]; simpl in E1; by subst o.
Qed.

Lemma shutdown_Ok s : exists s', Partition.shutdown s = (Ok tt, s').
Proof.
  destruct s as [w p]. unfold Partition.shutdown. destruct (status p); [|by eexists].
  cbn [serve writer_turn]. rewrite bind_bind, bind_self. cbn [inbox set_inbox]. rewrite bind_ret.
  unfold on_log, bind, attempt, zoom. simpl. pose proof (sync_ends (w, log (writer p))) as Hn.
  destruct (Log.sync _) as [[[]|e|msg|] [w' l']]; simpl; eauto. done.
Qed.

Lemma topic_shutdown_Ok s : exists s', Topic.shutdown s = (Ok tt, s').
Proof.
  destruct s as [w0 t0]. unfold Topic.shutdown. rewrite bind_self. set (n := length (partitions t0)).
  destruct (for_each_inv (fun s => length (partitions (snd s)) = n) (seq 0 n)
    (fun i => on_partition i Partition.shutdown) (w0, t0)) as (s' & Hrun & _); [done| |by exists s'].
  intros i [w t] Hi%elem_of_seq Hn. simpl in Hn.
  destruct (lookup_lt_is_Some_2 (partitions t) i ltac:(lia)) as [p Hp].
  destruct (shutdown_Ok (w, p)) as ([w' p'] & Hrun). eexists. split; [unfold on_partition; by rewrite Hp, Hrun|].
  simpl. by rewrite length_insert.
Qed.

Lemma temp_dir_below w dir td :
  temp_dir w dir -> dir `prefix_of` td -> td <> dir ->
  dirs_free w td /\ forall q, td `prefix_of` q -> nodes w !! q = None.
Proof.
  intros Ht Hp Hne. split.
  - intros q Hq Hn. destruct (prefix_weak_total _ _ _ Hq Hp) as [Hqd|Hqd]; [left; by apply (td_made _ _ Ht)|].
    destruct (decide (q = dir)) as [->|Hqn]; [left; by eapply temp_dir_node|right; by apply (td_empty _ _ Ht)].
  - intros q Hq. apply (td_empty _ _ Ht); [by etrans|]. intros ->. by apply Hne, (anti_symm prefix).
Qed.

Lemma topic_layout_recovery_run w dir case :
  temp_dir w dir -> Z.of_nat MAX_SEGMENT_LEN <= seg_limit w -> passes (topic_layout_recovery dir case) w.
Proof.
  intros Ht Hl. unfold passes, topic_layout_recovery. cbv zeta.
  destruct (temp_dir_below w dir (dir ++ ["t"]) Ht) as [Hf He]; [by eexists|apply not_eq_sym, snoc_ne|].
  destruct (lay_out_run w (dir ++ ["t"]) case) as (w1 & Hlay & L); [apply Ht|by destruct dir|done..|].
  rewrite (bind_Ok _ _ _ _ _ Hlay).
  destruct (topic_open_any _ w1 _ "t" default_config _ default_usable L) as (w2 & Hq2 & [(e & Ho)|(t & Ho & Hr)]).
  { by repeat constructor. }
  - exists w2. by rewrite (bind_Ok _ _ _ _ _ (attempt_Err _ _ _ _ Ho)).
  - rewrite (bind_Ok _ _ _ _ _ (attempt_Ok _ _ _ _ Ho)). cbv iota.
    destruct (read_all_run (length (partitions t)) (w2, t)) as (s3 & Hra & _).
    { split; [done|]. split; [done|]. intros i p Hp. apply Hr. by eapply list_elem_of_lookup_2. }
    destruct (topic_shutdown_Ok s3) as ([w4 t4] & Hsh).
    exists w4. eapply with_local_pass. rewrite (bind_Ok _ _ _ _ _ Hra). exact Hsh.
Qed.

End layout.
