(* ===== verification/FuzzOffsets.v ===== *)
(** * Runs of offset_store_parse

    The broker opens a data directory whose one group file holds any bytes:
    the consumer of that group starts at the end of the empty partition. *)

From S2P Require Import Prelude Bytes Error Compression LogRecord Fs Names Search.
From S2P Require Import Segment SparseIndex Log LogInv LogOps LogRead LogRetain LogRecover LogCrash LogSpec LogStore LogBytes.
From S2P Require Import OffsetStore Partition PartitionSpec Topic Producer TopicSpec TopicStore.
From S2P Require Import Consumer ConsumerSpec GroupSpec Broker BrokerSpec Registry BrokerStore BrokerOpen BrokerGroup.
From S2P Require Import Fuzz FuzzSpec FuzzTopic.

Section offsets.
Context {B : Buf} {H : Crc32} {C : Codecs} {F : Flock} {FL : FlockLaws F} {HL : Crc32Laws H}.
Context {R S : World -> Log -> alog -> Prop} {D : World -> path -> alog -> Prop}.
Context {LC : LogContract R} {LS : LogStore R S D}.

(** What the target lays out: an empty partition and the group's file. *)
Record offsets_laid (w : World) (dir : path) (data : list byte) : Prop := {
  ol_quiet : quiet w;
  ol_read : 0 <= read_max w;
  ol_dirs : dirs_made w (dir ++ ["t"; "0"]);
  ol_offsets : nodes w !! (dir ++ ["t"; "offsets"]) = Some NDir;
  ol_file : exists f, nodes w !! (dir ++ ["t"; "offsets"; "g"]) = Some (NFile f) /\ f_data f = data;
  ol_only : forall q, nodes w !! (dir ++ q) <> None ->
    q = [] \/ q = ["t"] \/ q = ["t"; "0"] \/ q = ["t"; "offsets"] \/ q = ["t"; "offsets"; "g"];
}.

Lemma prefix_of_app_inv (q d e : path) : q `prefix_of` d ++ e -> q `prefix_of` d \/ exists r, q = d ++ r /\ r `prefix_of` e.
Proof.
  intros Hq. destruct (prefix_weak_total q d (d ++ e) Hq ltac:(by eexists)) as [Hp|[r ->]]; [by left|right].
  exists r. split; [done|]. by apply prefix_app_inv in Hq.
Qed.

Lemma lay_offsets_run w dir data :
  temp_dir w dir -> exists w', lay_offsets dir data w = (Ok tt, w') /\ offsets_laid w' dir data.
Proof.
  intros Ht. pose proof (td_quiet _ _ Ht) as Hq. unfold lay_offsets. cbv zeta.
  destruct (temp_dir_below w dir ((dir ++ ["t"]) ++ ["0"]) Ht) as [Hf He].
  { rewrite <- app_assoc. by eexists. }
  { intros E. apply (f_equal length) in E. rewrite !length_app in E. simpl in E. lia. }
  destruct (create_dir_all_run w _ Hq Hf) as (w1 & Hmk & Hq1 & Hr1 & Hm1 & _ & Hs1).
  rewrite (bind_Ok _ _ _ _ _ (unwrap_Ok _ _ _ _ (io_Ok _ _ _ _ Hmk))).
  assert (Hm1' : dirs_made w1 (dir ++ ["t"])) by (intros q Hp; apply Hm1; by apply prefix_app_r).
  assert (Hnew : forall q, q <> [] -> nodes w !! (dir ++ q) = None).
  { intros q Hne. apply (td_empty _ _ Ht); [by eexists|]. intros E. apply Hne. rewrite <- (app_nil_r dir) in E at 2.
    by apply app_inv_head in E. }
  assert (Hold : forall q, ~ q `prefix_of` ["t"; "0"] -> nodes w1 !! (dir ++ q) = None).
  { intros q Hn. rewrite Hs1; [apply Hnew; intros ->; by apply Hn, prefix_nil|]. left. rewrite <- app_assoc.
    by intros Hp%prefix_app_inv. }
  destruct (create_child_run w1 (dir ++ ["t"]) "offsets" Hq1 Hm1') as (w2 & Hmk2 & Hq2 & _ & Hr2 & Hm2 & Hs2).
  { by destruct dir. }
  { right. rewrite <- app_assoc. apply Hold. by intros (? & ?). }
  rewrite (bind_Ok _ _ _ _ _ (unwrap_Ok _ _ _ _ (io_Ok _ _ _ _ Hmk2))).
  destruct (fs_write_run w2 ((dir ++ ["t"]) ++ ["offsets"; "g"]) data Hq2) as (f & Hw & Hfd).
  { rewrite Hs2, <- app_assoc; [rewrite Hold; [done|by intros (? & ?)]|].
    intros E. apply (f_equal length) in E. rewrite !length_app in E. simpl in E. lia. }
  { change ["offsets"; "g"] with (["offsets"] ++ ["g"]). rewrite app_assoc. apply parent_snoc, Hm2; [done|by destruct dir]. }
  rewrite <- app_assoc in *. simpl app in *.
  eexists. split; [exact (unwrap_Ok _ _ _ _ Hw)|].
  set (w3 := set_nodes _ w2).
  assert (H3 : forall q, q <> ["t"; "offsets"; "g"] -> nodes w3 !! (dir ++ q) = nodes w2 !! (dir ++ q)).
  { intros q Hne. apply lookup_insert_ne. by intros E%app_inv_head. }
  assert (H2 : forall q, q <> ["t"; "offsets"] -> nodes w2 !! (dir ++ q) = nodes w1 !! (dir ++ q)).
  { intros q Hne. apply Hs2. by intros E%app_inv_head. }
  split.
  - exact Hq2.
  - change (0 <= read_max w2). rewrite Hr2, Hr1. apply (td_read _ _ Ht).
  - intros q Hp Hne. assert (Hn : nodes w1 !! q = Some NDir) by by apply Hm1.
    destruct (prefix_of_app_inv q dir _ Hp) as [Hqd|(r & -> & Hr)].
    + unfold w3. simpl. rewrite lookup_insert_ne, Hs2; [done|intros ->|intros <-];
        apply prefix_length in Hqd; rewrite length_app in Hqd; simpl in Hqd; lia.
    + rewrite H3, H2; [done|..]; by intros ->; destruct Hr.
  - rewrite H3 by done. apply Hm2; [done|by destruct dir].
  - exists f. split; [apply lookup_insert_eq|done].
  - intros q Hq'. destruct (decide (q = ["t"; "offsets"; "g"])) as [|Hg]; [by do 4 right|].
    destruct (decide (q = ["t"; "offsets"])) as [|Ho]; [by do 3 right; left|]. rewrite H3, H2 in Hq' by done.
    destruct (decide (q `prefix_of` ["t"; "0"])) as [[r E]|Hn]; [|by rewrite Hold in Hq'].
    destruct q as [|a [|b [|c q]]]; simplify_list_eq; auto.
Qed.

(** The broker finds one topic with one empty partition. *)
Lemma offsets_data_dir w dir data :
  offsets_laid w dir data -> dir <> [] -> data_dir (D := D) w dir {["t" := [mkALog 0 []]]}.
Proof.
  intros [O1 O2 O3 O4 O5 O6] Hne.
  assert (Hno : forall q, q <> [] -> q <> ["t"] -> q <> ["t"; "0"] -> q <> ["t"; "offsets"] ->
    q <> ["t"; "offsets"; "g"] -> nodes w !! (dir ++ q) = None).
  { intros q N1 N2 N3 N4 N5. destruct (nodes w !! (dir ++ q)) eqn:E; [|done].
    destruct (O6 q) as [?|[?|[?|[?|?]]]]; [by rewrite E|done..]. }
  assert (Hm : dirs_made w dir) by (intros q Hq; apply O3; by apply prefix_app_r).
  split; try done.
  - intros q Hq Hn. left. by apply Hm.
  - intros name als [<- <-]%lookup_singleton_Some. do 2 (split; [done|]). split; [done|]. split.
    + split.
      * apply O3; [|by destruct dir]. apply prefix_app. by exists ["0"].
      * intros i Hi. simpl in Hi. assert (i = 0)%nat as -> by lia. rewrite <- app_assoc. apply O3; [done|by destruct dir].
      * intros name k Hn Hk. exists 0%nat. split; [simpl; lia|]. rewrite <- app_assoc in Hn.
        destruct (O6 (["t"] ++ [name]) ltac:(by rewrite Hn)) as [E|[E|[E|[E|E]]]]; simplify_list_eq.
        split; vm_compute; reflexivity.
    + intros i a Hi. apply list_lookup_singleton_Some in Hi as [-> <-]. apply ls_fresh; [done|by destruct dir|..|done|].
      * intros q Hq Hn. left. apply O3; [|done]. unfold pd in Hq. by rewrite <- app_assoc in Hq.
      * intros x. unfold pd. rewrite <- !app_assoc. by apply Hno.
  - intros name q Hn _ [r ->]. rewrite <- app_assoc. apply lookup_singleton_None in Hn.
    apply Hno; simpl; congruence.
  - rewrite Hno; [done|done|..]; done.
Qed.

(** A process that has not opened the directory. *)
Definition not_open_yet (p : Process) (dir : path) : Prop :=
  ~ locked (dir ++ [LOCK_FILENAME]) (flocks p) /\ forall id, is_Some (arcs p !! id) -> (id < next_arc p)%nat.

Lemma offset_store_parse_run w p dir data :
  temp_dir w dir -> not_open_yet p dir -> passes (offset_store_parse dir data) (w, p).
Proof.
  intros Ht [Hl Hids]. unfold passes, offset_store_parse.
  destruct (lay_offsets_run w dir data Ht) as (w1 & Hlay & Ho).
  rewrite (bind_Ok _ _ _ _ _ (in_world_run _ _ _ p _ Hlay)).
  pose proof (offsets_data_dir _ _ _ Ho (td_nonempty _ _ Ht)) as Hdd.
  destruct (broker_open_run (R := R) w1 p dir default_config _ default_usable Hdd Hl Hids) as (w2 & p2 & k & Hop & Hb & Hdk & _ & Hsp & _).
  unfold Broker.open. rewrite (bind_Ok _ _ _ _ _ (attempt_Ok _ _ _ _ Hop)). cbv iota zeta.
  set (ts := (fun als => mkATopic als default_config) <$> _) in Hb.
  assert (Hts : ts !! "t" = Some (mkATopic [mkALog 0 []] default_config)).
  { unfold ts. by rewrite lookup_fmap, lookup_singleton_eq. }
  assert (Hod : offsets_dir (dir ++ ["t"]) = dir ++ ["t"; "offsets"]) by (unfold offsets_dir; by rewrite <- app_assoc).
  assert (Hkeep : forall x, nodes w2 !! (offsets_dir (dir ++ ["t"]) ++ [x]) = nodes w1 !! (dir ++ ["t"; "offsets"; x])).
  { intros x. rewrite (Hsp "t"); [by rewrite Hod, <- app_assoc|done|by eexists]. }
  pose proof (consumer_for_group_run (R := R) w2 p2 k ts [] "t" _ "g" Hb Hts) as Hg. cbv zeta in Hg. rewrite Hdk in Hg.
  destruct Hg as (id & w3 & p3 & s & Hrun & Hb3 & _ & _ & [Hlen Hu] & _).
  { done. }
  { left. rewrite (Hsp "t"), Hod; [exact (ol_offsets _ _ _ Ho)|done|done]. }
  { rewrite Hkeep. destruct (ol_file _ _ _ Ho) as (f & -> & _). done. }
  { rewrite Hkeep. destruct (nodes w1 !! (dir ++ ["t"; "offsets"; "g" +:+ TEMP_SUFFIX])) eqn:E; [|done].
    destruct (ol_only _ _ _ Ho ["t"; "offsets"; "g" +:+ TEMP_SUFFIX]) as [?|[?|[?|[?|?]]]]; [by rewrite E|done..]. }
  rewrite (bind_Ok _ _ _ _ _ (attempt_Ok _ _ _ _ Hrun)). cbv iota.
  destruct (drop_handle_run w3 p3 k ts _ 0 "t" id Hb3 eq_refl) as (p4 & Hd & Hb4). simpl in Hb4.
  destruct (shutdown_run CurrentThread w3 p4 k ts [] Hb4) as (w5 & p5 & Hsd & _).
  exists (w5, p5). match goal with |- (let '(_, _) := ?m in _) = _ => assert (m = (Ok tt, (w5, (p5, set_topics empty k)))) as -> end; [|done].
  erewrite bind_Ok; [exact (ignore_Ok _ _ _ _ Hsd)|].
  erewrite bind_Ok; [exact Hd|]. apply assert_true, Z.eqb_eq.
  unfold position. simpl. destruct (OffsetStore.committed s) as [|o [|]]; [done| |done].
  apply Forall_singleton in Hu as [Hu _]. change (Z.min o 0 = 0). lia.
Qed.

End offsets.
