(* ===== verification/FuzzTheorems.v ===== *)
(** * The fuzz targets find nothing

    Each theorem is about a target as it is written, assertions included: it
    ends without a panic on every input the fuzzer can generate, provided no
    system call fails and the segments fit in one read. *)

From S2P Require Import Prelude Bytes Error Compression LogRecord Fs Names Search.
From S2P Require Import Segment SparseIndex Log LogInv LogOps LogRead LogRetain LogRecover LogCrash LogSpec LogStore LogBytes.
From S2P Require Import OffsetStore Partition PartitionSpec Topic Producer TopicSpec TopicStore.
From S2P Require Import Consumer ConsumerSpec GroupSpec Broker BrokerSpec Registry BrokerStore BrokerOpen BrokerGroup.
From S2P Require Import Fuzz FuzzSpec FuzzTopic FuzzOffsets Examples BrokerExamples.

Section theorems.
Context {B : Buf} {BL : BufLaws B} {H : Crc32} {HL : Crc32Laws H} {C : Codecs}.

(** C24: the three parser targets pass on any input: the record decoder, the
    record decoder behind a valid checksum, and the index parser with its
    lookups neither panic nor fail to return. *)
Theorem parser_targets_pass w dir data input :
  temp_dir w dir ->
  passes (decode_record data) data
  /\ passes (decode_record_structured input) []
  /\ passes (sparse_index_parse dir data) w.
Proof. intros Ht. split; [|split]; [apply ignore_decode_pass|apply ignore_decode_pass|by apply sparse_index_run]. Qed.

(** The structured target does reach the codecs: whatever flag, key and
    payload the fuzzer picks, the buffer passes the length and checksum tests,
    and what it decodes to is what the flag and the decompressor say. *)
Theorem structured_record_reaches_codec input :
  is_i64 (fz_timestamp_ms input) -> 4 + 1 + 8 + key_part (fz_key input) + 4 + len (fz_payload input) < 2 ^ 32 ->
  fst (LogRecord.decode (structured_buf input)) =
  fst ((let* c := from_flag (Z_of_byte (fz_flag input)) in
        let* v := decompress c (fz_payload input) in
        ret (Rec (fz_timestamp_ms input) (fz_key input) v)) tt).
Proof.
  intros Hts Hlen. rewrite structured_buf_layout. apply (decode_raw_frame _ _ (fuzzed_record input) Hts Hlen).
  apply Z_of_byte_range.
Qed.

(** C17: recovery on any bytes: [Log.open] on a directory whose first segment
    holds whatever the fuzzer wrote returns an error or a log whose every
    offset below [next_offset] reads back. *)
Theorem recovery_target_passes w dir data :
  temp_dir w dir -> len data <= seg_limit w -> passes (recovery_torn_tail dir data) w.
Proof. apply recovery_torn_tail_run. Qed.

(** C26: any layout of partition directories - gaps, any bytes in the
    segments, stray files and directories - opens as an error or as a topic
    whose every recovered offset reads back. *)
Theorem layout_target_passes w dir case :
  temp_dir w dir -> Z.of_nat MAX_SEGMENT_LEN <= seg_limit w -> passes (topic_layout_recovery dir case) w.
Proof. apply topic_layout_recovery_run. Qed.

(** C18: any sequence of appends, syncs, reads and retention passes over any
    segment and index sizes: offsets come out consecutive, and what is still
    there of the last eight values reads back unchanged. *)
Theorem log_ops_target_passes {CL : CodecLaws C} w dir case :
  temp_dir w dir -> Forall op_in_range (ops case) -> LOG_CASE_LIMIT <= seg_limit w ->
  passes (log_op_sequence dir case) w.
Proof. apply log_op_sequence_run. Qed.

Context {R S : World -> Log -> alog -> Prop} {D : World -> path -> alog -> Prop}.
Context {LC : LogContract R} {LS : LogStore R S D}.

(** Any sequence of keyed and keyless sends over any number of
    partitions: every record goes to a partition of the topic, a key always to
    the same one, offsets are consecutive in each, and every acknowledged
    record reads back. *)
Theorem routing_target_passes w dir partitions os :
  temp_dir w dir -> Forall (fun op => 0 <= so_len op) os -> ROUTING_LIMIT <= seg_limit w ->
  passes (topic_routing dir partitions os) w.
Proof. apply (topic_routing_run (R := R)). Qed.

(** A group's file of any bytes: the broker opens, and the group's
    consumer of the empty topic starts at offset 0 whatever the file claims. *)
Theorem offsets_target_passes {F : Flock} {FL : FlockLaws F} w p dir data :
  temp_dir w dir -> not_open_yet p dir -> passes (offset_store_parse dir data) (w, p).
Proof. apply (offset_store_parse_run (R := R)). Qed.

End theorems.

(** ** Witnesses *)
Definition ex_tmp : path := ["tmp"].
Definition ex_tmp_world : World := set_nodes <[ex_tmp := NDir]> ex_world.

Lemma ex_temp_dir : temp_dir ex_tmp_world ex_tmp.
Proof.
  split; [done|done|..|by vm_compute].
  - unfold ex_tmp. intros q [r E] Hne. destruct q as [|a [|b q]]; simplify_list_eq. apply lookup_insert_eq.
  - intros q _ Hne. simpl. rewrite lookup_insert_ne by (intros <-; by apply Hne). apply lookup_empty.
Qed.

Definition ex_fuzzed : FuzzedRecord := mkFuzzed x07 5 (Some [x61]) [x68; x69].

Lemma parser_targets_pass_witness :
  temp_dir ex_tmp_world ex_tmp
  /\ passes (decode_record [x00; x01]) [x00; x01]
  /\ passes (decode_record_structured ex_fuzzed) []
  /\ passes (sparse_index_parse ex_tmp [x00; x01]) ex_tmp_world.
Proof. split; [exact ex_temp_dir|exact (parser_targets_pass _ _ [x00; x01] ex_fuzzed ex_temp_dir)]. Defined.

(** Flag 7 is no codec's. *)
Lemma structured_record_reaches_codec_witness :
  fst (LogRecord.decode (structured_buf ex_fuzzed)) = Err (UnknownCompression 7).
Proof.
  rewrite (structured_record_reaches_codec ex_fuzzed); [reflexivity|split; vm_compute; congruence|vm_compute; reflexivity].
Defined.

Lemma recovery_target_passes_witness :
  len [x00; x00; x00; x09; xff] <= seg_limit ex_tmp_world
  /\ passes (recovery_torn_tail ex_tmp [x00; x00; x00; x09; xff]) ex_tmp_world.
Proof.
  split; [vm_compute; congruence|apply (recovery_target_passes _ _ _ ex_temp_dir); vm_compute; congruence].
Defined.

Definition ex_layout : LayoutCase := mkLayoutCase [mkPartitionDir x00 [x01]; mkPartitionDir x02 []] true true.

Lemma layout_target_passes_witness :
  Z.of_nat MAX_SEGMENT_LEN <= seg_limit ex_tmp_world /\ passes (topic_layout_recovery ex_tmp ex_layout) ex_tmp_world.
Proof.
  split; [vm_compute; congruence|apply (layout_target_passes _ _ _ ex_temp_dir); vm_compute; congruence].
Defined.

Definition ex_log_case : LogCase := mkLogCase x00 x01 [OpAppend 3; OpSync; OpAppend 2000; OpRead 1; OpRetention].

Lemma log_ops_target_passes_witness :
  Forall op_in_range (ops ex_log_case) /\ LOG_CASE_LIMIT <= seg_limit ex_tmp_world
  /\ passes (log_op_sequence ex_tmp ex_log_case) ex_tmp_world.
Proof.
  assert (Hr : Forall op_in_range (ops ex_log_case)) by (repeat constructor; simpl; lia).
  split; [exact Hr|]. split; [vm_compute; congruence|].
  apply (log_ops_target_passes _ _ _ ex_temp_dir Hr). vm_compute. congruence.
Defined.

Definition ex_sends : list SendOp := [mkSendOp (Some x61) 3; mkSendOp None 0; mkSendOp (Some x61) 700].

Lemma routing_target_passes_witness :
  Forall (fun op => 0 <= so_len op) ex_sends /\ ROUTING_LIMIT <= seg_limit ex_tmp_world
  /\ passes (topic_routing ex_tmp x02 ex_sends) ex_tmp_world.
Proof.
  assert (Hr : Forall (fun op => 0 <= so_len op) ex_sends) by (repeat constructor; simpl; lia).
  split; [exact Hr|]. split; [vm_compute; congruence|].
  apply (routing_target_passes (R := log_refines) _ _ x02 _ ex_temp_dir Hr). vm_compute. congruence.
Defined.

Lemma offsets_target_passes_witness :
  not_open_yet fresh_process ex_tmp
  /\ passes (offset_store_parse ex_tmp [x01; x02; x03]) (ex_tmp_world, fresh_process).
Proof.
  assert (Hn : not_open_yet fresh_process ex_tmp).
  { split; [apply not_elem_of_empty|]. intros id [x Hx]. simpl in Hx. by rewrite lookup_empty in Hx. }
  split; [exact Hn|]. exact (offsets_target_passes (R := log_refines) _ _ _ [x01; x02; x03] ex_temp_dir Hn).
Defined.
