(* ===== verification/UnitTests.v ===== *)
(** * The unit tests ([#[cfg(test)] mod tests] of each source file)

    Each [#[test]] as a function of nothing, or of the temporary directory it
    makes: what it builds, the calls it makes and what it asserts.  A failed
    assertion is a panic, of which the message is kept up to its arguments.
    A test that a Cargo feature turns off does nothing. *)

From Stdlib Require Import Strings.String.
From S2P Require Import Prelude Bytes Error Compression LogRecord Fs Names Display.
From S2P Require Import Log Topic OffsetStore Fuzz.

(** ** What the tests share *)
Definition assert_eq {S A} `{EqDecision A} (a b : A) : KM S unit :=
  assert (bool_decide (a = b)) "assertion `left == right` failed".

Definition assert_ne {S A} `{EqDecision A} (a b : A) : KM S unit :=
  assert (bool_decide (a <> b)) "assertion `left != right` failed".

(** [bytes[i] ^= mask]. *)
Definition xor_at {S} (i : nat) (mask : Z) (bytes : list byte) : KM S (list byte) :=
  let* b := expect (bytes !! i) "index out of bounds" in
  ret (<[i := byte_of_Z (Z.lxor (Z_of_byte b) mask)]> bytes).

(** [b"..."]. *)
Definition b_ : string -> list byte := list_byte_of_string.

(** [#[cfg(feature = ...)]] and [#[cfg(not(feature = ...))]]. *)
Definition cfg {S} (feature : bool) (test : KM S unit) : KM S unit := if feature then test else ret tt.

Section tests.
Context {B : Buf} {H : Crc32} {C : Codecs}.

(** ** record.rs *)
Definition sample : record := LogRecord.new 1700000000000 (Some (b_ "key")) (b_ "value").

Definition getters_return_constructor_inputs {S} : KM S unit :=
  let r := sample in
  let* _ := assert_eq (timestamp_ms r) 1700000000000 in
  let* _ := assert_eq (key r) (Some (b_ "key")) in
  assert_eq (value r) (b_ "value").

Definition roundtrip_with_key {S} : KM S unit :=
  let r := sample in
  let expected := r in
  let expected_size := wire_size r in
  let* (written, buf) := local [] (LogRecord.encode r) in
  let* _ := assert_eq (len buf) expected_size in
  let* _ := assert_eq written expected_size in
  let* (decoded, slice) := unwrap (local buf LogRecord.decode) in
  let* _ := assert_eq decoded expected in
  assert (bool_decide (slice = [])) "assertion failed: slice.is_empty()".

Definition roundtrip_null_key {S} : KM S unit :=
  let r := LogRecord.new 0 None (b_ "v") in
  let expected := r in
  let* (_, buf) := local [] (LogRecord.encode r) in
  let* (decoded, _) := unwrap (local buf LogRecord.decode) in
  assert_eq decoded expected.

Definition empty_key_is_distinct_from_null_key {S} : KM S unit :=
  let with_empty := LogRecord.new 0 (Some []) (b_ "v") in
  let with_null := LogRecord.new 0 None (b_ "v") in
  let* (_, buf_a) := local [] (LogRecord.encode with_empty) in
  let* (_, buf_b) := local [] (LogRecord.encode with_null) in
  let* _ := assert_ne buf_a buf_b in
  let* (a, _) := unwrap (local buf_a LogRecord.decode) in
  let* _ := assert_eq a with_empty in
  let* (b, _) := unwrap (local buf_b LogRecord.decode) in
  assert_eq b with_null.

Definition crc_tampering_detected {S} : KM S unit :=
  let r := sample in
  let* (_, buf) := local [] (LogRecord.encode r) in
  let* buf := xor_at 12 255 buf in
  let* result := attempt (local buf LogRecord.decode) in
  match result with
  | inr (CrcMismatch _ _) => ret tt
  | _ => panic "expected CrcMismatch, got {:?}"
  end.

Definition truncated_input_detected {S} : KM S unit :=
  let r := sample in
  let* (_, buf) := local [] (LogRecord.encode r) in
  let* truncated := OffsetStore.slice 0 (length buf - 1) buf in
  let* result := attempt (local truncated LogRecord.decode) in
  match result with
  | inr (Truncated _) => ret tt
  | _ => panic "expected Truncated, got {:?}"
  end.

Definition empty_input_truncated {S} : KM S unit :=
  let* result := attempt (local [] LogRecord.decode) in
  match result with
  | inr (Truncated _) => ret tt
  | _ => panic "expected Truncated, got {:?}"
  end.

Definition encode_consumes_self {S} : KM S unit :=
  let r := sample in
  let* (_, buf) := local [] (LogRecord.encode r) in
  assert_eq (len buf) (25 + 3 + 5).

Definition lz4_compression_roundtrip {S} : KM S unit := cfg compression_lz4 (
  let payload := replicate 1024 xab in
  let r := LogRecord.new 1700000000000 (Some (b_ "k")) payload in
  let* (actual_size, buf) := unwrap (local [] (LogRecord.encode_with r Lz4)) in
  let* _ := assert (actual_size <? 1024) "expected compressed output to be smaller than 1024 bytes, got {}" in
  let* (decoded, slice) := unwrap (local buf LogRecord.decode) in
  let* _ := assert_eq (value decoded) payload in
  assert (bool_decide (slice = [])) "assertion failed: slice.is_empty()").

Definition zstd_compression_roundtrip {S} : KM S unit := cfg compression_zstd (
  let payload := replicate 1024 xab in
  let r := LogRecord.new 1700000000000 (Some (b_ "k")) payload in
  let* (actual_size, buf) := unwrap (local [] (LogRecord.encode_with r Zstd)) in
  let* _ := assert (actual_size <? 1024) "expected zstd-compressed output to be smaller than 1024 bytes, got {}" in
  let* (decoded, slice) := unwrap (local buf LogRecord.decode) in
  let* _ := assert_eq (value decoded) payload in
  assert (bool_decide (slice = [])) "assertion failed: slice.is_empty()").

Definition lz4_record_decodes_without_caller_knowing_compression {S} : KM S unit := cfg compression_lz4 (
  let payload := replicate 2048 xff in
  let r := LogRecord.new 42 None payload in
  let* (_, buf) := unwrap (local [] (LogRecord.encode_with r Lz4)) in
  let* (decoded, _) := unwrap (local buf LogRecord.decode) in
  assert_eq (value decoded) payload).

(** The record that the last two tests lay out byte by byte. *)
Definition crafted_wire (payload_bytes : list byte) : list byte :=
  let KEY_NULL_SENTINEL_LOCAL := u32_max in
  let payload_field_len := 1 + 8 + 4 + (4 + len payload_bytes) in
  let total_len := 4 + payload_field_len in
  let wire := to_be_bytes 4 (as_u32 total_len) in
  let crc_pos := length wire in
  let wire := wire ++ replicate 4 x00 in
  let payload_start := length wire in
  let wire := wire ++ [byte_of_Z (flag Lz4)] in
  let wire := wire ++ to_be_bytes 8 0 in
  let wire := wire ++ to_be_bytes 4 KEY_NULL_SENTINEL_LOCAL in
  let wire := wire ++ to_be_bytes 4 (as_u32 (len payload_bytes)) in
  let wire := wire ++ payload_bytes in
  let crc := crc32 (drop payload_start wire) in
  splice crc_pos (to_be_bytes 4 crc) wire.

Definition decode_rejects_lz4_record_with_oversized_decompressed_size_claim {S} : KM S unit := cfg compression_lz4 (
  let hostile_lz4_payload := [x55; xff; xff; xff; x00] in
  let wire := crafted_wire hostile_lz4_payload in
  let* result := attempt (local wire LogRecord.decode) in
  match result with
  | inr DecompressionFailed => ret tt
  | _ => panic "expected DecompressionFailed, got {:?}"
  end).

Definition decode_lz4_record_in_build_without_lz4_returns_compression_unavailable {S} : KM S unit :=
  cfg (negb compression_lz4) (
  let payload_bytes := [x00; x00; x00; x00] in
  let wire := crafted_wire payload_bytes in
  let* result := attempt (local wire LogRecord.decode) in
  match result with
  | inr (CompressionUnavailable Lz4) => ret tt
  | _ => panic "expected CompressionUnavailable(Lz4), got {:?}"
  end).

(** ** compression.rs *)
Definition lz4_decompress_rejects_oversized_size_prefix {S} : KM S unit := cfg compression_lz4 (
  let payload := [x55; xff; xff; xff; x00] in
  let* result := attempt (decompress Lz4 payload) in
  match result with
  | inr DecompressionFailed => ret tt
  | _ => panic "expected DecompressionFailed, got {:?}"
  end).

Definition lz4_decompress_rejects_payload_shorter_than_size_prefix {S} : KM S unit := cfg compression_lz4 (
  for_each (seq 0 4) (fun len =>
    let buf := replicate len x00 in
    let* result := attempt (decompress Lz4 buf) in
    match result with
    | inr DecompressionFailed => ret tt
    | _ => panic "len={len}: expected DecompressionFailed, got {:?}"
    end)).

Definition lz4_decompress_accepts_normally_sized_payload {S} : KM S unit := cfg compression_lz4 (
  let raw := replicate 4096 xab in
  let* (_, compressed) := unwrap (local [] (compress Lz4 raw)) in
  let* decompressed := unwrap (decompress Lz4 compressed) in
  assert_eq decompressed raw).

(** [zstd::bulk::Compressor::compress] compresses into a buffer of
    [compress_bound] bytes. *)
Definition zstd_decompress_rejects_oversized_claim {S} : KM S unit := cfg compression_zstd (
  let raw := replicate (Z.to_nat (DECOMPRESS_MAX_SIZE + 1)) x00 in
  let* frame := expect (zstd_compress_to_buffer raw (zstd_compress_bound (len raw)))
                  "called `Result::unwrap()` on an `Err` value" in
  let* result := attempt (decompress Zstd frame) in
  match result with
  | inr DecompressionFailed => ret tt
  | _ => panic "expected DecompressionFailed, got {:?}"
  end).

Definition lz4_calls_return_unavailable_when_feature_off {S} : KM S unit := cfg (negb compression_lz4) (
  let* result := attempt (local [] (compress Lz4 (b_ "hello"))) in
  let* _ :=
    match result with
    | inr (CompressionUnavailable Lz4) => ret tt
    | _ => panic "expected CompressionUnavailable(Lz4), got {:?}"
    end in
  let* result := attempt (decompress Lz4 [x00; x00; x00; x00]) in
  match result with
  | inr (CompressionUnavailable Lz4) => ret tt
  | _ => panic "expected CompressionUnavailable(Lz4), got {:?}"
  end).

Definition zstd_calls_return_unavailable_when_feature_off {S} : KM S unit := cfg (negb compression_zstd) (
  let* result := attempt (local [] (compress Zstd (b_ "hello"))) in
  let* _ :=
    match result with
    | inr (CompressionUnavailable Zstd) => ret tt
    | _ => panic "expected CompressionUnavailable(Zstd), got {:?}"
    end in
  let* result := attempt (decompress Zstd [x00; x00; x00; x00]) in
  match result with
  | inr (CompressionUnavailable Zstd) => ret tt
  | _ => panic "expected CompressionUnavailable(Zstd), got {:?}"
  end).

Definition is_available_reports_truth_about_this_build {S} : KM S unit :=
  let* _ := assert (is_available CNone) "assertion failed: Compression::None.is_available()" in
  let* _ := assert_eq (is_available Lz4) compression_lz4 in
  assert_eq (is_available Zstd) compression_zstd.

(** ** error.rs

    [debug] is the derived [Debug] of [KafkoError]. *)
Definition clone_io_preserves_kind_and_message {S} : KM S unit :=
  let original := Io (io_error_new PermissionDenied "denied") in
  match clone original with
  | Io e =>
      let* _ := assert_eq (kind e) PermissionDenied in
      assert_eq (message e) "denied"
  | _ => panic "expected Io after clone, got {other:?}"
  end.

Definition every_variant : list KafkoError :=
  [Io (io_error_new (OtherKind 0) "io");
   Truncated 7;
   CrcMismatch 0xdeadbeef 0x0badf00d;
   InvalidLength 3;
   Closed;
   TopicAlreadyExists "orders";
   TopicNotFound "orders";
   TopicInUse "orders";
   UnknownCompression 9;
   DecompressionFailed;
   CompressionUnavailable CNone;
   AlreadyOpen ["data"];
   PartitionPanicked "boom";
   InvalidPartitionCount 0;
   InvalidGroupName "bad/name";
   InvalidTopicLayout "orders" "no partition subdirectories"].

Definition clone_round_trips_every_variant {S} (debug : KafkoError -> string)
    (str_debug : string -> string) (path_display : path -> string) : KM S unit :=
  for_each every_variant (fun original =>
    let cloned := clone original in
    let* _ := assert_eq (debug original) (debug cloned) in
    assert_eq (to_string str_debug path_display original) (to_string str_debug path_display cloned)).

(** ** segment.rs and sparse_index.rs *)
Definition assert_file_name {S} (p : path) (expected : string) : KM S unit :=
  let* name := expect (last p) "called `Option::unwrap()` on a `None` value" in
  assert_eq name expected.

Definition segment_path_is_zero_padded_20_digits {S} : KM S unit :=
  let* _ := assert_file_name (segment_path ["data"] 42) "00000000000000000042.log" in
  let* _ := assert_file_name (segment_path ["data"] 0) "00000000000000000000.log" in
  assert_file_name (segment_path ["data"] 10000000) "00000000000010000000.log".

Definition index_path_is_zero_padded_20_digits {S} : KM S unit :=
  assert_file_name (index_path ["data"] 42) "00000000000000000042.index".

(** ** topic.rs *)
Definition partition_index_is_in_range_and_deterministic {S} : KM S unit :=
  for_each [1; 2; 3; 7; 16] (fun count =>
    for_each [[]; b_ "a"; b_ "customer-42"; [x00; xff; x10]] (fun key =>
      let p := partition_index key count in
      let* _ := assert (p <? count) "index {p} out of range for count {count}" in
      assert_eq p (partition_index key count))).

Definition partition_index_spreads_keys_across_partitions {S} : KM S unit :=
  let count := 8 in
  let seen := fold_left (fun (seen : gset Z) i =>
      {[ partition_index (b_ ("key-" +:+ u32_to_string (Z.of_nat i))) count ]} ∪ seen)
    (seq 0 1000) ∅ in
  assert_eq (Z.of_nat (size seen)) count.

(** ** offset_store.rs *)
Definition encode_decode_roundtrip {S} : KM S unit :=
  let offsets := [3; 0; 17; 1000000] in
  let* decoded := OffsetStore.decode (OffsetStore.encode offsets) 4 in
  assert_eq decoded offsets.

Definition decode_rejects_corrupt_and_short_inputs {S} : KM S unit :=
  let* d := OffsetStore.decode [] 3 in
  let* _ := assert_eq d [0; 0; 0] in
  let* d := OffsetStore.decode [x01; x02; x03] 3 in
  let* _ := assert_eq d [0; 0; 0] in
  let bad := OffsetStore.encode [5; 6; 7] in
  let last := (length bad - 1)%nat in
  let* bad := xor_at last 255 bad in
  let* d := OffsetStore.decode bad 3 in
  let* _ := assert_eq d [0; 0; 0] in
  let full := OffsetStore.encode [5; 6; 7] in
  let* truncated := OffsetStore.slice 0 (length full - 12) full in
  let* d := OffsetStore.decode truncated 3 in
  assert_eq d [0; 0; 0].

Definition decode_ignores_out_of_range_partitions {S} : KM S unit :=
  let* decoded := OffsetStore.decode (OffsetStore.encode [1; 2; 3; 4]) 2 in
  assert_eq decoded [1; 2].

Definition open_commit_reopen_resumes (dir : path) : KM World unit :=
  let* _ :=
    (let* store := unwrap (OffsetStore.open dir "billing" 3) in
     let* _ := assert_eq (committed store) [0; 0; 0] in
     unwrap (with_local store (commit [7; 0; 42]))) in
  let* store := unwrap (OffsetStore.open dir "billing" 3) in
  assert_eq (committed store) [7; 0; 42].

Definition groups_are_independent (dir : path) : KM World unit :=
  let* store := unwrap (OffsetStore.open dir "a" 2) in
  let* _ := unwrap (with_local store (commit [1; 1])) in
  let* store := unwrap (OffsetStore.open dir "b" 2) in
  let* _ := unwrap (with_local store (commit [9; 9])) in
  let* store := unwrap (OffsetStore.open dir "a" 2) in
  let* _ := assert_eq (committed store) [1; 1] in
  let* store := unwrap (OffsetStore.open dir "b" 2) in
  assert_eq (committed store) [9; 9].

Definition corrupt_file_resumes_from_zero (dir : path) : KM World unit :=
  let* _ := unwrap (fs_write (dir ++ ["g"]) (b_ "garbage")) in
  let* store := unwrap (OffsetStore.open dir "g" 2) in
  assert_eq (committed store) [0; 0].

Definition invalid_group_names_rejected (dir : path) : KM World unit :=
  for_each [""; "."; ".."; "a/b"; "a b"; "grp:1"] (fun bad =>
    let* result := attempt (OffsetStore.open dir bad 1) in
    assert (match result with inr (InvalidGroupName _) => true | _ => false end)
      "group name {bad:?} should be rejected").

(** ** The suite *)
Definition record_tests : list (KM unit unit) :=
  [getters_return_constructor_inputs; roundtrip_with_key; roundtrip_null_key;
   empty_key_is_distinct_from_null_key; crc_tampering_detected; truncated_input_detected;
   empty_input_truncated; encode_consumes_self; lz4_compression_roundtrip; zstd_compression_roundtrip;
   lz4_record_decodes_without_caller_knowing_compression;
   decode_rejects_lz4_record_with_oversized_decompressed_size_claim;
   decode_lz4_record_in_build_without_lz4_returns_compression_unavailable].

Definition compression_tests : list (KM unit unit) :=
  [lz4_decompress_rejects_oversized_size_prefix; lz4_decompress_rejects_payload_shorter_than_size_prefix;
   lz4_decompress_accepts_normally_sized_payload; zstd_decompress_rejects_oversized_claim;
   lz4_calls_return_unavailable_when_feature_off; zstd_calls_return_unavailable_when_feature_off;
   is_available_reports_truth_about_this_build].

Definition error_tests (debug : KafkoError -> string) (str_debug : string -> string)
    (path_display : path -> string) : list (KM unit unit) :=
  [clone_io_preserves_kind_and_message; clone_round_trips_every_variant debug str_debug path_display].

Definition path_tests : list (KM unit unit) :=
  [segment_path_is_zero_padded_20_digits; index_path_is_zero_padded_20_digits].

Definition topic_tests : list (KM unit unit) :=
  [partition_index_is_in_range_and_deterministic; partition_index_spreads_keys_across_partitions].

Definition offset_tests : list (KM unit unit) :=
  [encode_decode_roundtrip; decode_rejects_corrupt_and_short_inputs; decode_ignores_out_of_range_partitions].

Definition store_tests : list (path -> KM World unit) :=
  [open_commit_reopen_resumes; groups_are_independent; corrupt_file_resumes_from_zero; invalid_group_names_rejected].

End tests.
