(* ===== verification/UnitTestTheorems.v ===== *)
(** * The unit tests

    On every build - any choice of the two codec features, any codecs with
    their documented laws - and in any temporary directory; the tests that
    assert how small a codec makes a run of bytes pass or stop at that
    assertion. *)

From Stdlib Require Import Strings.String.
From S2P Require Import Prelude Bytes Error Compression LogRecord Fs Names Display.
From S2P Require Import LogInv LogCrash Topic OffsetStore Fuzz FuzzSpec UnitTests Examples FuzzTheorems.

(** What a test expects of zstd beyond [CodecLaws]: a frame that decompresses
    to more than the capacity it is given is an error. *)
Class ZstdCapacity (C : Codecs) : Prop := {
  zstd_over_capacity raw frame max :
    zstd_compress_to_buffer raw (zstd_compress_bound (len raw)) = Some frame ->
    max < len raw -> zstd_bulk_decompress frame max = None;
}.

Lemma passes_ret {S} (s : S) : passes (ret tt) s.
Proof. by exists s. Qed.

Definition passes_or_stops {S} (msg : string) (test : KM S unit) (s : S) : Prop :=
  passes test s \/ exists s', test s = (Panic msg, s').

Lemma cfg_pass_or_stop {S} (feature : bool) msg (test : KM S unit) s :
  (feature = true -> passes_or_stops msg test s) -> passes_or_stops msg (cfg feature test) s.
Proof. destruct feature; simpl; [by auto|]. intros _. left. apply passes_ret. Qed.

Lemma cfg_pass {S} (feature : bool) (test : KM S unit) s : (feature = true -> passes test s) -> passes (cfg feature test) s.
Proof. destruct feature; simpl; [by intros; auto|intros _; apply passes_ret]. Qed.

Lemma assert_eq_same {S A} `{EqDecision A} (a : A) (s : S) : assert_eq a a s = (Ok tt, s).
Proof. unfold assert_eq. by rewrite bool_decide_eq_true_2. Qed.

Lemma local_Ok {S T A} (t t' : T) (m : KM T A) a (s : S) : m t = (Ok a, t') -> local t m s = (Ok (a, t'), s).
Proof. unfold local. by intros ->. Qed.

Lemma local_Err {S T A} (t t' : T) (m : KM T A) e (s : S) : m t = (Err e, t') -> local t m s = (Err e, s).
Proof. unfold local. by intros ->. Qed.

(** ** Tests that only compute *)
Section computed.
Context {C : Codecs}.

Ltac run := repeat (apply Forall_cons; split; [eexists; vm_compute; reflexivity|]); apply Forall_nil_2.

Lemma path_tests_pass : Forall (fun t => passes t tt) path_tests.
Proof. run. Qed.

Lemma topic_tests_pass : Forall (fun t => passes t tt) topic_tests.
Proof. run. Qed.

Lemma offset_tests_pass : Forall (fun t => passes t tt) offset_tests.
Proof. run. Qed.

Lemma plain_record_tests_pass : Forall (fun t => passes t tt) (take 8 record_tests).
Proof. run. Qed.

Lemma error_tests_pass debug sd pd : Forall (fun t => passes t tt) (error_tests debug sd pd).
Proof.
  apply Forall_cons. split; [by eexists|]. apply Forall_singleton. unfold clone_round_trips_every_variant.
  destruct (for_each_inv (fun _ : unit => True) every_variant (fun original =>
    let cloned := clone original in
    let* _ := assert_eq (debug original) (debug cloned) in
    assert_eq (to_string sd pd original) (to_string sd pd cloned)) tt I) as (s & Hrun & _); [|by exists s].
  intros e s _ _. exists s. split; [|done]. cbv zeta. rewrite clone_id.
  by rewrite (bind_Ok _ _ _ _ _ (assert_eq_same _ _)), assert_eq_same.
Qed.

End computed.

(** ** Tests of the codecs *)
Section codecs.
Context {B : Buf} {BL : BufLaws B} {H : Crc32} {HL : Crc32Laws H}.
Context {C : Codecs} {CL : CodecLaws C} {CZ : ZstdCapacity C}.

Lemma len_replicate {A} n (x : A) : len (replicate n x) = Z.of_nat n.
Proof. unfold len. by rewrite length_replicate. Qed.

(** A compressed record in a buffer of its own, and back if it is small. *)
Lemma frame_round_trip {S} c r (s : S) :
  is_available c = true -> c <> CNone -> len (value r) <= DECOMPRESS_MAX_SIZE ->
  is_i64 (timestamp_ms r) -> key_part (key r) < 64 ->
  exists stored, stores c r stored
    /\ unwrap (local [] (LogRecord.encode_with r c)) s = (Ok (len (frame c stored r), frame c stored r), s)
    /\ (len stored < 2 ^ 31 -> unwrap (local (frame c stored r) LogRecord.decode) s = (Ok (r, []), s)).
Proof.
  intros Ha Hc Hn Ht Hk. destruct (compress_available c (value r) [] Ha) as [stored Hs].
  assert (Hst : stores c r stored) by by destruct c. exists stored. split; [done|]. split.
  - apply unwrap_Ok, local_Ok. exact (encode_with_run r c stored [] Ht Hst).
  - intros Hl. apply unwrap_Ok, local_Ok. rewrite <- (app_nil_r (frame c stored r)).
    apply decode_frame_Ok; [split; [done|lia]|].
    intros x. apply (decompress_compress c (value r) []); [by destruct c|by right].
Qed.

(** A test that asserts the size of what it encodes: it passes, or that is the
    assertion at which it stops. *)
Lemma roundtrip_test {S} c r b n msg (s : S) :
  is_available c = true -> c <> CNone -> value r = replicate n b -> Z.of_nat n <= DECOMPRESS_MAX_SIZE ->
  is_i64 (timestamp_ms r) -> key_part (key r) < 64 ->
  passes_or_stops msg (let* (actual_size, buf) := unwrap (local [] (LogRecord.encode_with r c)) in
          let* _ := assert (actual_size <? 1024) msg in
          let* (decoded, slice) := unwrap (local buf LogRecord.decode) in
          let* _ := assert_eq (value decoded) (replicate n b) in
          assert (bool_decide (slice = [])) "assertion failed: slice.is_empty()") s.
Proof.
  intros Ha Hc Hv Hn Ht Hk.
  destruct (frame_round_trip c r s Ha Hc ltac:(by rewrite Hv, len_replicate) Ht Hk) as (stored & Hst & He & Hd).
  unfold passes_or_stops, passes. rewrite (bind_Ok _ _ _ _ _ He).
  pose proof (len_frame c stored r) as Hf. pose proof (key_part_pos (key r)).
  destruct (Z.ltb_spec (len (frame c stored r)) 1024) as [Hl|Hl]; [left|right; by eexists].
  exists s. rewrite (bind_Ok _ _ _ _ _ (assert_true _ _ _ eq_refl)), (bind_Ok _ _ _ _ _ (Hd ltac:(lia))), <- Hv.
  by rewrite (bind_Ok _ _ _ _ _ (assert_eq_same _ _)).
Qed.

(** Decoding a record laid out by hand is up to the decompressor. *)
Lemma decode_crafted_wire {S} payload_bytes e (s : S) :
  len payload_bytes < 2 ^ 16 -> decompress Lz4 payload_bytes tt = (Err e, tt) ->
  attempt (E' := KafkoError) (local (crafted_wire payload_bytes) LogRecord.decode) s = (Ok (inr e), s).
Proof.
  intros Hl Hd. pose proof (len_nonneg payload_bytes).
  assert (E : crafted_wire payload_bytes = raw_frame (flag Lz4) payload_bytes (Rec 0 None [])).
  { pose proof (structured_buf_layout (mkFuzzed x01 0 None payload_bytes)) as E. unfold fuzzed_record, structured_buf in E.
    cbn [fz_payload fz_key fz_flag fz_timestamp_ms] in E. change (Z_of_byte x01) with 1 in E. change (flag Lz4) with 1.
    rewrite <- E. unfold crafted_wire. change (byte_of_Z (flag Lz4)) with x01. change (as_u64 0) with 0. reflexivity. }
  pose proof (decode_raw_frame (flag Lz4) payload_bytes (Rec 0 None []) ltac:(split; simpl; lia) ltac:(simpl; lia) (flag_range Lz4)) as Hr.
  rewrite (bind_Ok _ _ _ _ _ (from_flag_flag Lz4 tt)), (bind_Err _ _ _ _ _ Hd) in Hr. rewrite E.
  destruct (LogRecord.decode _) as [o t] eqn:Ed. simpl in Hr. subst o.
  apply attempt_Err. by apply (local_Err _ t).
Qed.

(** The size prefix of the hostile payload. *)
Lemma hostile_rejected {S} (s : S) :
  compression_lz4 = true -> decompress Lz4 [x55; xff; xff; xff; x00] s = (Err DecompressionFailed, s).
Proof. intros Hf. simpl. unfold lz4_decompress. by rewrite Hf. Qed.

Lemma sized_record_tests :
  passes_or_stops "expected compressed output to be smaller than 1024 bytes, got {}" lz4_compression_roundtrip tt
  /\ passes_or_stops "expected zstd-compressed output to be smaller than 1024 bytes, got {}" zstd_compression_roundtrip tt.
Proof.
  split; apply cfg_pass_or_stop; intros Hf.
  - apply (roundtrip_test Lz4 (LogRecord.new _ _ _) xab 1024); [exact Hf|done|reflexivity|unfold DECOMPRESS_MAX_SIZE; lia|split; simpl; lia|by vm_compute].
  - apply (roundtrip_test Zstd (LogRecord.new _ _ _) xab 1024); [exact Hf|done|reflexivity|unfold DECOMPRESS_MAX_SIZE; lia|split; simpl; lia|by vm_compute].
Qed.

Lemma lz4_record_test :
  (forall stored, stores Lz4 (LogRecord.new 42 None (replicate 2048 xff)) stored -> len stored < 2 ^ 31) ->
  passes lz4_record_decodes_without_caller_knowing_compression tt.
Proof.
  intros Hsmall. apply cfg_pass. intros Hf. set (r := LogRecord.new 42 None (replicate 2048 xff)) in *.
  destruct (frame_round_trip Lz4 r tt Hf ltac:(done) ltac:(change (value r) with (replicate 2048 xff); rewrite len_replicate; unfold DECOMPRESS_MAX_SIZE; lia)
    ltac:(split; simpl; lia) ltac:(simpl; lia)) as (stored & Hst & He & Hd).
  exists tt. cbv zeta. fold r. rewrite (bind_Ok _ _ _ _ _ He), (bind_Ok _ _ _ _ _ (Hd (Hsmall _ Hst))). apply assert_eq_same.
Qed.

Lemma crafted_record_tests_pass : Forall (fun t => passes t tt) (drop 11 record_tests).
Proof.
  unfold record_tests. cbn [drop]. repeat (apply Forall_cons; split); try apply Forall_nil_2; apply cfg_pass; intros Hf.
  - pose proof (decode_crafted_wire [x55; xff; xff; xff; x00] _ tt eq_refl (hostile_rejected tt Hf)) as Hd. exists tt. by rewrite (bind_Ok _ _ _ _ _ Hd).
  - apply negb_true_iff in Hf.
    pose proof (decode_crafted_wire [x00; x00; x00; x00] _ tt eq_refl (decompress_unavailable Lz4 [x00; x00; x00; x00] tt Hf)) as Hd.
    exists tt. by rewrite (bind_Ok _ _ _ _ _ Hd).
Qed.

(** A raw frame over the cap, whatever its length. *)
Lemma zstd_oversized_run {S} raw (s : S) :
  compression_zstd = true -> DECOMPRESS_MAX_SIZE < len raw ->
  passes (let* frame := expect (zstd_compress_to_buffer raw (zstd_compress_bound (len raw)))
                          "called `Result::unwrap()` on an `Err` value" in
          let* result := attempt (decompress Zstd frame) in
          match result with
          | inr DecompressionFailed => ret tt
          | _ => panic "expected DecompressionFailed, got {:?}"
          end) s.
Proof.
  intros Hf Hl. destruct (zstd_compress_fits raw) as [frame Hz]. exists s. rewrite Hz.
  unfold expect. rewrite bind_ret. simpl. unfold zstd_decompress. by rewrite Hf, (zstd_over_capacity _ _ _ Hz Hl).
Qed.

(** A codec the build leaves out, asked for both ways. *)
Lemma unavailable_run {S} c raw bytes (s : S) :
  is_available c = false ->
  attempt (E' := KafkoError) (local [] (compress c raw)) s = (Ok (inr (CompressionUnavailable c)), s)
  /\ attempt (E' := KafkoError) (decompress c bytes) s = (Ok (inr (CompressionUnavailable c)), s).
Proof.
  intros Ha. split; apply attempt_Err; [|by apply decompress_unavailable].
  eapply local_Err. by apply compress_unavailable.
Qed.

Lemma compression_tests_pass : Forall (fun t => passes t tt) compression_tests.
Proof.
  unfold compression_tests. repeat (apply Forall_cons; split); try apply Forall_nil_2; try (apply cfg_pass; intros Hf).
  - exists tt. cbv zeta. by rewrite (bind_Ok _ _ _ _ _ (attempt_Err _ _ _ _ (hostile_rejected tt Hf))).
  - exists tt. cbn [for_each seq]. simpl. unfold lz4_decompress. by rewrite Hf.
  - destruct (compress_available Lz4 (replicate 4096 xab) [] Hf) as [out Hout]. exists tt. cbv zeta.
    rewrite (bind_Ok _ _ _ _ _ (unwrap_Ok _ _ _ _ (local_Ok _ _ _ _ tt Hout))). cbv beta iota.
    rewrite (bind_Ok _ _ _ _ _ (unwrap_Ok _ _ _ _ (decompress_compress Lz4 _ _ _ tt Hout ltac:(right; rewrite len_replicate; done)))).
    apply assert_eq_same.
  - unfold zstd_decompress_rejects_oversized_claim. cbv zeta. apply zstd_oversized_run; [done|].
    rewrite len_replicate. unfold DECOMPRESS_MAX_SIZE. lia.
  - apply negb_true_iff in Hf. destruct (unavailable_run Lz4 (b_ "hello") [x00; x00; x00; x00] tt Hf) as [H1 H2]. exists tt.
    by rewrite (bind_Ok _ _ _ _ _ H1), bind_ret, (bind_Ok _ _ _ _ _ H2).
  - apply negb_true_iff in Hf. destruct (unavailable_run Zstd (b_ "hello") [x00; x00; x00; x00] tt Hf) as [H1 H2]. exists tt.
    by rewrite (bind_Ok _ _ _ _ _ H1), bind_ret, (bind_Ok _ _ _ _ _ H2).
  - exists tt. unfold is_available_reports_truth_about_this_build.
    rewrite (bind_Ok _ _ _ _ _ (assert_true _ _ _ eq_refl)), (bind_Ok _ _ _ _ _ (assert_eq_same _ _)). apply assert_eq_same.
Qed.

End codecs.

(** ** Tests of the offset store *)
Section stores.
Context {H : Crc32} {HL : Crc32Laws H}.

(** A directory of group files. *)
Record groups_dir (w : World) (dir : path) : Prop := {
  gd_quiet : quiet w;
  gd_made : dirs_made w dir;
  gd_node : nodes w !! dir = Some NDir;
  gd_files : forall x, nodes w !! (dir ++ [x]) <> Some NDir;
}.

Definition group_file (w : World) (dir : path) (g : string) (o : option (list Z)) : Prop :=
  match o with
  | None => nodes w !! (dir ++ [g]) = None
  | Some os => exists t, nodes w !! (dir ++ [g]) = Some (NFile (FNode (encode os) (encode os) t))
  end.

Definition store_of (dir : path) (g : string) (os : list Z) : OffsetStore :=
  mkStore (dir ++ [g]) (dir ++ [g +:+ TEMP_SUFFIX]) g os.

Lemma temp_groups_dir w dir : temp_dir w dir -> groups_dir w dir.
Proof.
  intros Ht. split; [apply Ht|apply Ht|by apply temp_dir_node|].
  intros x. by rewrite (temp_dir_child _ _ _ Ht).
Qed.

Lemma open_group_run w dir g n o :
  groups_dir w dir -> validate_group_name (S := World) g w = (Ok tt, w) -> group_file w dir g o ->
  (forall os, o = Some os -> Forall is_u64 os /\ len os < 2 ^ 32) ->
  unwrap (OffsetStore.open dir g n) w = (Ok (store_of dir g (padded (Z.to_nat n) (default [] o))), w).
Proof.
  intros [Hq Hm Hd _] Hv Hg Ho. apply unwrap_Ok. destruct o as [os|]; simpl in Hg |- *.
  - destruct Hg as [t Hf]. destruct (Ho os eq_refl) as [Hu Hl].
    destruct (open_file_run w dir g n _ Hq Hm Hv Hf) as (os' & Hdec & Hop). rewrite Hop. simpl in Hdec.
    rewrite decode_encode in Hdec by done. by injection Hdec as <-.
  - rewrite (open_missing_run w dir g n Hq Hm Hv Hg). unfold store_of, padded.
    simpl. by rewrite Nat.sub_0_r, take_ge by (by rewrite length_replicate).
Qed.

Lemma commit_group_run w dir g os0 os :
  groups_dir w dir -> validate_group_name (S := World) g w = (Ok tt, w) ->
  exists w', unwrap (with_local (store_of dir g os0) (commit os)) w = (Ok (tt, store_of dir g os), w')
    /\ groups_dir w' dir /\ group_file w' dir g (Some os)
    /\ forall h o, h <> g -> h <> g +:+ TEMP_SUFFIX -> group_file w dir h o -> group_file w' dir h o.
Proof.
  intros Hg Hv. pose proof Hg as [Hq Hm Hd Hf].
  assert (Hok : store_ok w dir (store_of dir g os0)) by (split; try done; apply Hf).
  destruct (commit_run w dir (store_of dir g os0) os Hok) as (w' & Hrun & (Hq' & _) & t & Hn).
  exists w'. split; [apply unwrap_Ok; exact (with_local_run _ _ _ _ _ _ Hrun)|].
  assert (Hother : forall h, h <> g -> h <> g +:+ TEMP_SUFFIX -> nodes w' !! (dir ++ [h]) = nodes w !! (dir ++ [h]))
    by (intros h H1 H2; by eapply (commit_other w dir (store_of dir g os0) os _ _ h Hok Hrun)).
  assert (Hshort : forall q, (length q <= length dir)%nat -> nodes w' !! q = nodes w !! q).
  { intros q Hlen. rewrite Hn. simpl. rewrite lookup_insert_ne, lookup_delete_ne; [done|..];
      intros <-; rewrite length_app in Hlen; simpl in Hlen; lia. }
  split; [split|split].
  - done.
  - intros q Hpre Hne. rewrite Hshort by by apply prefix_length. by apply Hm.
  - rewrite Hshort by lia. done.
  - intros x. rewrite Hn. simpl. destruct (decide (dir ++ [x] = dir ++ [g])) as [E|E].
    { rewrite E, lookup_insert_eq. done. }
    rewrite lookup_insert_ne by by apply not_eq_sym. destruct (decide (dir ++ [x] = dir ++ [g +:+ TEMP_SUFFIX])) as [E2|E2].
    { by rewrite E2, lookup_delete_eq. }
    rewrite lookup_delete_ne by by apply not_eq_sym. apply Hf.
  - exists t. rewrite Hn. apply lookup_insert_eq.
  - intros h o H1 H2 Ho. unfold group_file in *. by rewrite Hother.
Qed.

(** The offsets the tests commit are small numbers. *)
Ltac small := intros ? [= <-]; split; [repeat (apply Forall_cons; split; [by split|]); apply Forall_nil_2|done].

Lemma store_tests_run w dir : temp_dir w dir -> Forall (fun t => passes (t dir) w) store_tests.
Proof.
  intros Ht. pose proof (temp_groups_dir w dir Ht) as Hg.
  assert (Hnone : forall g, group_file w dir g None) by (intros g; exact (temp_dir_child _ _ _ Ht)).
  unfold store_tests. repeat (apply Forall_cons; split); try apply Forall_nil_2.
  - unfold open_commit_reopen_resumes, passes.
    pose proof (open_group_run w dir "billing" 3 None Hg eq_refl (Hnone _) ltac:(done)) as R1.
    destruct (commit_group_run w dir "billing" [0; 0; 0] [7; 0; 42] Hg eq_refl) as (w1 & R2 & Hg1 & Hf1 & _).
    pose proof (open_group_run w1 dir "billing" 3 (Some [7; 0; 42]) Hg1 eq_refl Hf1 ltac:(small)) as R3.
    rewrite bind_bind, (bind_Ok _ _ _ _ _ R1), bind_bind. cbn [store_of committed].
    rewrite (bind_Ok _ _ _ _ _ (assert_eq_same _ _)), (bind_Ok _ _ _ _ _ R2), (bind_Ok _ _ _ _ _ R3). by eexists.
  - unfold groups_are_independent, passes.
    pose proof (open_group_run w dir "a" 2 None Hg eq_refl (Hnone _) ltac:(done)) as R1.
    destruct (commit_group_run w dir "a" [0; 0] [1; 1] Hg eq_refl) as (w1 & R2 & Hg1 & Hf1 & K1).
    pose proof (open_group_run w1 dir "b" 2 None Hg1 eq_refl (K1 "b" None ltac:(done) ltac:(done) (Hnone _)) ltac:(done)) as R3.
    destruct (commit_group_run w1 dir "b" [0; 0] [9; 9] Hg1 eq_refl) as (w2 & R4 & Hg2 & Hf2 & K2).
    pose proof (open_group_run w2 dir "a" 2 (Some [1; 1]) Hg2 eq_refl (K2 "a" (Some [1; 1]) ltac:(done) ltac:(done) Hf1) ltac:(small)) as R5.
    pose proof (open_group_run w2 dir "b" 2 (Some [9; 9]) Hg2 eq_refl Hf2 ltac:(small)) as R6.
    rewrite (bind_Ok _ _ _ _ _ R1), (bind_Ok _ _ _ _ _ R2), (bind_Ok _ _ _ _ _ R3), (bind_Ok _ _ _ _ _ R4).
    rewrite (bind_Ok _ _ _ _ _ R5).
    cbn [store_of committed]. rewrite (bind_Ok _ _ _ _ _ (assert_eq_same _ _)).
    rewrite (bind_Ok _ _ _ _ _ R6). by eexists.
  - unfold corrupt_file_resumes_from_zero, passes.
    destruct (fs_write_run w (dir ++ ["g"]) (b_ "garbage") (gd_quiet _ _ Hg)) as (f & R1 & Hd).
    { by rewrite (temp_dir_child _ _ _ Ht). }
    { by apply parent_snoc, gd_node. }
    rewrite (bind_Ok _ _ _ _ _ (unwrap_Ok _ _ _ _ R1)). set (w1 := set_nodes _ w).
    assert (Hm1 : dirs_made w1 dir).
    { intros q Hpre Hne. simpl. rewrite lookup_insert_ne; [by apply Hg|]. intros <-.
      apply prefix_length in Hpre. rewrite length_app in Hpre. simpl in Hpre. lia. }
    destruct (open_file_run w1 dir "g" 2 f (gd_quiet _ _ Hg) Hm1 eq_refl (lookup_insert_eq _ _ _)) as (os & Hdec & Hop).
    rewrite Hd in Hdec. injection Hdec as <-. rewrite (bind_Ok _ _ _ _ _ (unwrap_Ok _ _ _ _ Hop)). by eexists.
  - unfold invalid_group_names_rejected.
    destruct (for_each_inv (fun s => s = w) [""; "."; ".."; "a/b"; "a b"; "grp:1"] (fun bad =>
      let* result := attempt (OffsetStore.open dir bad 1) in
      assert (match result with inr (InvalidGroupName _) => true | _ => false end)
        "group name {bad:?} should be rejected") w eq_refl) as (s & Hrun & _); [|by exists s].
    intros bad s Hb ->. exists w. split; [|done].
    repeat (apply elem_of_cons in Hb as [->|Hb]; [reflexivity|]). by apply elem_of_nil in Hb.
Qed.

End stores.

(** The unit tests of the crate pass - those of the record format, of the
    codecs, of the errors, of the file names, of the routing and of the offset
    files in memory, and in a temporary directory those of the offset store -
    whichever codec features the build has, whatever codecs with the
    documented laws it links, and however strings, paths and errors print.
    Three of them depend on how well a codec compresses, which is nowhere
    documented: two assert that a kilobyte of equal bytes gets smaller, and
    pass unless that very assertion fails; the third passes if its block is
    not gigabytes long. *)
Theorem unit_tests_pass (C : Codecs) (CL : CodecLaws C) (CZ : ZstdCapacity C) debug str_debug path_display w dir :
  temp_dir w dir ->
  Forall (fun test => passes test tt)
    (take 8 record_tests ++ drop 11 record_tests ++ compression_tests ++ error_tests debug str_debug path_display
     ++ path_tests ++ topic_tests ++ offset_tests)
  /\ passes_or_stops "expected compressed output to be smaller than 1024 bytes, got {}" lz4_compression_roundtrip tt
  /\ passes_or_stops "expected zstd-compressed output to be smaller than 1024 bytes, got {}" zstd_compression_roundtrip tt
  /\ ((forall stored, stores Lz4 (LogRecord.new 42 None (replicate 2048 xff)) stored -> len stored < 2 ^ 31) ->
      passes lz4_record_decodes_without_caller_knowing_compression tt)
  /\ Forall (fun test => passes (test dir) w) store_tests.
Proof.
  intros Ht. destruct sized_record_tests as [H1 H2]. split; [|split; [done|split; [done|split; [exact lz4_record_test|by apply store_tests_run]]]].
  repeat (apply Forall_app; split);
    [apply plain_record_tests_pass|apply crafted_record_tests_pass|apply compression_tests_pass
    |apply error_tests_pass|apply path_tests_pass|apply topic_tests_pass|apply offset_tests_pass].
Qed.

(** ** Witness

    A codec that stores a run of one byte as the byte and its length. *)
Definition pack (raw : list byte) : list byte :=
  match raw with
  | b :: _ =>
      if bool_decide (raw = replicate (length raw) b) && (len raw <? 2 ^ 64)
      then x01 :: b :: to_le_bytes 8 (len raw) else x00 :: raw
  | [] => [x00]
  end.

Definition unpack (bs : list byte) : option (list byte) :=
  match bs with
  | x00 :: raw => Some raw
  | x01 :: b :: n => Some (replicate (Z.to_nat (from_le_bytes n)) b)
  | _ => None
  end.

Lemma unpack_pack raw : unpack (pack raw) = Some raw.
Proof.
  destruct raw as [|b raw]; [done|]. unfold pack. set (r := b :: raw).
  case_bool_decide as E; [|done]. destruct (Z.ltb_spec (len r) (2 ^ 64)) as [Hl|]; [|done].
  cbn [andb unpack]. rewrite from_to_le_bytes, Z.mod_small.
  - unfold len. by rewrite Nat2Z.id, <- E.
  - pose proof (len_nonneg r). change (256 ^ Z.of_nat 8) with (2 ^ 64). lia.
Qed.

Lemma len_pack raw : len (pack raw) <= len raw + 10.
Proof.
  destruct raw as [|b raw]; [done|]. unfold pack. destruct (_ && _); [|lens].
  pose proof (len_nonneg raw). lens.
Qed.

Definition run_codecs : Codecs := {|
  compression_lz4 := true;
  compression_zstd := true;
  lz4_get_maximum_output_size n := n + 10;
  lz4_compress_into raw cap := if len (pack raw) <=? cap then Some (pack raw) else None;
  lz4_decompress_size_prepended bs :=
    match unpack (drop 4 bs) with
    | Some raw => if from_le_bytes (take 4 bs) =? len raw then Some raw else None
    | None => None
    end;
  zstd_compress_bound n := n + 10;
  zstd_compress_to_buffer raw cap := if len (pack raw) <=? cap then Some (pack raw) else None;
  zstd_bulk_decompress frame max :=
    match unpack frame with
    | Some raw => if len raw <=? max then Some raw else None
    | None => None
    end;
|}.

Lemma run_codecs_laws : CodecLaws run_codecs.
Proof.
  assert (Hfit : forall raw, (len (pack raw) <=? len raw + 10) = true) by (intros; apply Z.leb_le, len_pack).
  split; simpl.
  - intros raw. exists (pack raw). rewrite Hfit. split; [done|apply len_pack].
  - intros raw block Hl. rewrite Hfit. intros [= <-]. pose proof (len_nonneg raw).
    rewrite take_app_length', drop_app_length', from_to_le_bytes, unpack_pack by (by rewrite length_to_le_bytes).
    rewrite Z.mod_small by (change (256 ^ Z.of_nat 4) with (2 ^ 32); lia). by rewrite Z.eqb_refl.
  - intros compressed raw. destruct (unpack _) as [r|]; [|done].
    destruct (Z.eqb_spec (from_le_bytes (take 4 compressed)) (len r)); [|done]. intros [= <-]. lia.
  - intros raw. exists (pack raw). by rewrite Hfit.
  - intros raw frame max. rewrite Hfit. intros [= <-] Hm. by rewrite unpack_pack, (proj2 (Z.leb_le _ _)).
  - intros frame max raw. destruct (unpack frame) as [r|]; [|done]. destruct (Z.leb_spec (len r) max); [|done].
    by intros [= <-].
Qed.

Lemma run_codecs_capacity : ZstdCapacity run_codecs.
Proof.
  split; simpl. intros raw frame max. case_match; [|done]. intros [= <-] Hm. by rewrite unpack_pack, (proj2 (Z.leb_gt _ _)).
Qed.

Lemma unit_tests_pass_witness :
  temp_dir ex_tmp_world ex_tmp
  /\ Forall (fun test => passes (test ex_tmp) ex_tmp_world) store_tests.
Proof.
  split; [exact ex_temp_dir|].
  apply (unit_tests_pass run_codecs run_codecs_laws run_codecs_capacity (fun _ => "error") id (fun _ => "path") _ _ ex_temp_dir).
Defined.

(** With it the tests that assert a size pass as well. *)
Example ex_sized_tests_pass : Forall (fun test => passes test tt) (record_tests (C := run_codecs)).
Proof. repeat (apply Forall_cons; split; [eexists; vm_compute; reflexivity|]). apply Forall_nil_2. Qed.
