(* ===== verification/Bench.v ===== *)
(** * The benchmark client (kafko-bench/src/main.rs)

    The five scenarios and [main].  Environment variables are a function
    [env]; elapsed times are not modelled, so a scenario returns the figures of
    its [report] instead of its duration.  Nothing is printed. *)

From S2P Require Import Prelude Bytes Error Compression LogRecord Fs Names.
From S2P Require Import Log Partition Topic Producer Broker.

(** [anyhow::Error]: a broker's error or a message. *)
Inductive Error : Type := Kafka (e : KafkoError) | Message (msg : string).

Definition SEQUENTIAL_TOPIC : string := "scenario_sequential".
Definition CONCURRENT_TOPIC : string := "scenario_concurrent".
Definition BATCH_TOPIC : string := "scenario_batch".
Definition LZ4_SEQUENTIAL_TOPIC : string := "scenario_lz4_sequential".
Definition ZSTD_SEQUENTIAL_TOPIC : string := "scenario_zstd_sequential".

Definition CONCURRENT_TASKS : Z := 16.
Definition BATCH_SIZE : Z := 1024.

(** [u64] arithmetic. *)
Definition u64_mul (a b : Z) : Z := as_u64 (a * b).
Definition div_ceil (a b : Z) : Z := if a mod b =? 0 then a / b else u64_add (a / b) 1.

(** The printed figures: bytes are the product of the total and the value
    size. *)
Record Report : Type := mkReport { r_name : string; r_total : Z; r_bytes : Z; r_tasks : option Z }.

Definition with_codec (c : Compression) : LogConfig :=
  let d := Log.default_config in
  mkLogConfig (segment_size_threshold d) (index_interval d) (max_segment_age d) (max_partition_bytes d)
    (retention_check_interval d) (batch_max_records d) (batch_max_bytes d) c.

Definition default_cfg : LogConfig := with_codec CNone.
Definition lz4_cfg : LogConfig := with_codec Lz4.
Definition zstd_cfg : LogConfig := with_codec Zstd.

Section bench.
Context {B : Buf} {H : Crc32} {C : Codecs} {F : Flock}.
(** The environment, and the working directory that a relative data directory
    starts at. *)
Context (env : string -> option string) (cwd : path).

Definition VALUE_SIZE : Z := default 256 (env "KAFKO_VALUE_SIZE" ≫= parse_u64).
Definition TOTAL_RECORDS_TARGET : Z := default 100000 (env "KAFKO_TOTAL_RECORDS" ≫= parse_u64).
Definition PARTITIONS : Z :=
  match env "KAFKO_PARTITIONS" ≫= parse_u32 with
  | Some n => if 1 <=? n then n else 1
  | None => 1
  end.

Definition payload : list byte := replicate (Z.to_nat VALUE_SIZE) x00.

Definition report (name : string) (total_records : Z) (tasks : option Z) : Report :=
  mkReport name total_records (u64_mul total_records VALUE_SIZE) tasks.

(** [?] on a broker's result. *)
Abbreviation Host := (Process * Kafko)%type.
Abbreviation BM A := (M (World * Host) Error A).
Definition try {A} (m : KM (World * Host) A) : BM A := map_err Kafka m.

(** The body of a scenario after [producer_for]: the producer is dropped
    whichever way it ends. *)
Definition with_producer {A} (topic : string) (body : nat -> BM A) : BM A :=
  let* producer := try (producer_for topic) in
  fun s =>
    let '(o, s') := body producer s in
    match on_process (arc_drop producer) s' with
    | (Ok _, s'') => (o, s'')
    | (Panic msg, s'') => (Panic msg, s'')
    | (_, s'') => (NoFuel, s'')
    end.

(** [producer.send(None, payload.clone()).await?]. *)
Definition send_one (producer : nat) : BM unit :=
  let* _ := try (on_process (on_arc producer (Producer.send None payload))) in ret tt.

(** [for _ in 0..n]. *)
Definition send_loop (producer : nat) (n : Z) : BM unit :=
  for_each (seq 0 (Z.to_nat n)) (fun _ => send_one producer).

Definition run_sequential : BM Report :=
  let* _ := try (create_topic_with_config_and_partitions SEQUENTIAL_TOPIC default_cfg PARTITIONS) in
  with_producer SEQUENTIAL_TOPIC (fun producer =>
    let n := TOTAL_RECORDS_TARGET in
    let* _ := send_loop producer n in
    ret (report "sequential" n None)).

Definition run_lz4_sequential : BM Report :=
  let* _ := try (create_topic_with_config_and_partitions LZ4_SEQUENTIAL_TOPIC lz4_cfg PARTITIONS) in
  with_producer LZ4_SEQUENTIAL_TOPIC (fun producer =>
    let n := TOTAL_RECORDS_TARGET in
    let* _ := send_loop producer n in
    ret (report "lz4_sequential" n None)).

Definition run_zstd_sequential : BM Report :=
  let* _ := try (create_topic_with_config_and_partitions ZSTD_SEQUENTIAL_TOPIC zstd_cfg PARTITIONS) in
  with_producer ZSTD_SEQUENTIAL_TOPIC (fun producer =>
    let n := TOTAL_RECORDS_TARGET in
    let* _ := send_loop producer n in
    ret (report "zstd_sequential" n None)).

Definition send_one_batch (producer : nat) : BM unit :=
  let items := replicate (Z.to_nat BATCH_SIZE) (@None (list byte), payload) in
  let* _ := try (on_process (on_arc producer (send_batch items))) in ret tt.

Definition run_batch : BM Report :=
  let* _ := try (create_topic_with_config_and_partitions BATCH_TOPIC default_cfg PARTITIONS) in
  with_producer BATCH_TOPIC (fun producer =>
    let batches := div_ceil TOTAL_RECORDS_TARGET BATCH_SIZE in
    let total := u64_mul batches BATCH_SIZE in
    let* _ := for_each (seq 0 (Z.to_nat batches)) (fun _ => send_one_batch producer) in
    ret (report "batch" total None)).

(** ** The concurrent scenario

    A spawned task sends one record after another; other tasks run between the
    routing of a send and its append.  [remaining] counts the sends still to do, the
    one under way included.  A task drops its producer when it ends. *)
Inductive task : Type :=
| Ready (remaining : nat)
| Routed (partition : Z) (remaining : nat)
| Finished (r : unit + KafkoError).

Definition finish (producer : nat) (r : unit + KafkoError) : KM (World * Host) task :=
  let* _ := on_process (arc_drop producer) in ret (Finished r).

Definition task_step (producer : nat) (t : task) : KM (World * Host) task :=
  match t with
  | Ready O => finish producer (inl tt)
  | Ready (S remaining) =>
      let* r := attempt (on_process (on_arc producer (route None))) in
      match r with
      | inl partition => ret (Routed partition remaining)
      | inr e => finish producer (inr e)
      end
  | Routed partition remaining =>
      let* r := attempt (on_process (on_arc producer
        (let* now := Producer.current_timestamp_ms in
         append_to partition (LogRecord.new now None payload)))) in
      match r with
      | inl _ => ret (Ready remaining)
      | inr e => finish producer (inr e)
      end
  | Finished r => ret t
  end.

(** The tasks run in any order: [schedule] says whose turn it is.  A send is
    its routing and its append, and each append is a turn of the writer task by
    itself: appends that the program coalesces into one batch are here
    consecutive, which changes neither the totals nor the logs. *)
Fixpoint run_tasks (producer : nat) (schedule : list nat) (tasks : list task) : KM (World * Host) (list task) :=
  match schedule with
  | [] => ret tasks
  | i :: schedule' =>
      match tasks !! i with
      | Some t =>
          let* t' := task_step producer t in run_tasks producer schedule' (<[i := t']> tasks)
      | None => run_tasks producer schedule' tasks
      end
  end.

(** [for h in handles { h.await??; }]. *)
Fixpoint join_all (tasks : list task) : BM unit :=
  match tasks with
  | [] => ret tt
  | Finished (inl _) :: tasks' => join_all tasks'
  | Finished (inr e) :: _ => throw (Kafka e)
  | _ :: _ => no_fuel
  end.

Definition run_concurrent (schedule : list nat) : BM Report :=
  let* _ := try (create_topic_with_config_and_partitions CONCURRENT_TOPIC default_cfg PARTITIONS) in
  with_producer CONCURRENT_TOPIC (fun producer =>
    let per_task := TOTAL_RECORDS_TARGET / CONCURRENT_TASKS in
    let total := u64_mul per_task CONCURRENT_TASKS in
    let* _ := for_each (seq 0 (Z.to_nat CONCURRENT_TASKS)) (fun _ =>
      let* _ := try (on_process (arc_clone producer)) in ret tt) in
    let* tasks := try (run_tasks producer schedule
      (replicate (Z.to_nat CONCURRENT_TASKS) (Ready (Z.to_nat per_task)))) in
    let* _ := join_all tasks in
    ret (report "concurrent" total (Some CONCURRENT_TASKS))).

(** ** [main] *)
Definition run_scenario (schedule : list nat) (scenario : string) : BM Report :=
  if String.eqb scenario "sequential" then run_sequential
  else if String.eqb scenario "concurrent" then run_concurrent schedule
  else if String.eqb scenario "batch" then run_batch
  else if String.eqb scenario "lz4_sequential" then
    if compression_lz4 then run_lz4_sequential
    else throw (Message "scenario 'lz4_sequential' requires the `compression-lz4` cargo feature")
  else if String.eqb scenario "zstd_sequential" then
    if compression_zstd then run_zstd_sequential
    else throw (Message "scenario 'zstd_sequential' requires the `compression-zstd` cargo feature")
  else throw (Message ("unknown scenario '" +:+ scenario +:+ "'")).

(** An early return drops the broker. *)
Definition main (schedule : list nat) : M (World * Process) Error Report :=
  let scenario := default "" (env "KAFKO_SCENARIO") in
  if String.eqb scenario "" then throw (Message "KAFKO_SCENARIO is required")
  else
    let data_dir := join cwd (default "./kafko-bench_data" (env "KAFKO_BENCH_DATA_DIR")) in
    let* _ :=
      match env "KAFKO_RESET" with
      | Some _ => let* _ := attempt (E := io_error) (in_world (remove_dir_all data_dir)) in ret tt
      | None => ret tt
      end in
    let* broker := map_err Kafka (Broker.open data_dir) in
    fun '(w, p) =>
      let '(o, s) := run_scenario schedule scenario (w, (p, broker)) in
      let '(o', (w', (p', _))) :=
        match o with
        | Ok r => (let* _ := try (Broker.shutdown MultiThread) in ret r) s
        | Err e => (let* _ := try (drop_kafko MultiThread) in throw e) s
        | _ => (o, s)
        end in
      (o', (w', p')).

End bench.
