(* ===== verification/BenchSpec.v ===== *)
(** * Runs of the benchmark client *)

From S2P Require Import Prelude Bytes Error Compression LogRecord Fs Names Search.
From S2P Require Import Segment SparseIndex Log LogInv LogOps LogRecover LogCrash LogSpec LogStore.
From S2P Require Import OffsetStore Partition PartitionSpec Topic Producer TopicSpec TopicStore.
From S2P Require Import Consumer ConsumerSpec GroupSpec Broker BrokerSpec Registry BrokerStore BrokerOpen.
From S2P Require Import BrokerRefine Bench.

(** ** How many records a topic has *)
Definition total (als : list alog) : nat := sum_list_with (fun a => length (a_recs a)) als.

Lemma total_split als n a : als !! n = Some a ->
  total als = (total (take n als) + (length (a_recs a) + total (drop (S n) als)))%nat.
Proof. intros Ha. unfold total. rewrite <- (take_drop_middle als n a Ha) at 1. by rewrite sum_list_with_app. Qed.

Lemma total_insert als n a a' : als !! n = Some a ->
  (total (<[n := a']> als) + length (a_recs a) = total als + length (a_recs a'))%nat.
Proof.
  intros Ha. pose proof (lookup_lt_Some _ _ _ Ha) as Hlt.
  rewrite (total_split als n a Ha), (total_split (<[n := a']> als) n a') by (by rewrite list_lookup_insert_eq).
  rewrite take_insert_ge, drop_insert_lt by lia. lia.
Qed.

Lemma total_le als a : a ∈ als -> (length (a_recs a) <= total als)%nat.
Proof. intros [n Ha]%list_elem_of_lookup. rewrite (total_split als n a Ha). lia. Qed.

Lemma total_empty n : total (replicate n (mkALog 0 [])) = 0%nat.
Proof. induction n as [|n IH]; [done|]. unfold total in *. simpl. exact IH. Qed.

Lemma sum_add {A} (f g : A -> nat) l :
  sum_list_with (fun x => f x + g x)%nat l = (sum_list_with f l + sum_list_with g l)%nat.
Proof. induction l as [|x l IH]; simpl; [done|]. rewrite IH. lia. Qed.

Lemma sum_ext {A} (f g : A -> nat) l :
  (forall x, x ∈ l -> f x = g x) -> sum_list_with f l = sum_list_with g l.
Proof.
  induction l as [|x l IH]; intros Hf; simpl; [done|]. rewrite (Hf x) by by left. rewrite IH; [done|].
  intros y Hy. apply Hf. by right.
Qed.

(** One of the numbers below [n] is [q]. *)
Lemma sum_one q s n : (s <= q < s + n)%nat ->
  sum_list_with (fun p => if Nat.eqb q p then 1 else 0)%nat (seq s n) = 1%nat.
Proof.
  revert s. induction n as [|n IH]; intros s Hq; [lia|]. cbn [seq sum_list_with]. destruct (Nat.eqb_spec q s) as [->|Hne].
  - rewrite (sum_ext _ (fun _ => 0%nat)); [|].
    + enough (forall l, sum_list_with (fun _ : nat => 0%nat) l = 0%nat) as -> by done. by induction l.
    + intros x Hx%elem_of_seq. by destruct (Nat.eqb_spec s x); [lia|].
  - rewrite IH by lia. done.
Qed.

Lemma total_buckets n idx rs ps :
  length ps = length rs -> Forall (fun p => 0 <= p < Z.of_nat n) ps ->
  sum_list_with (fun p => length (bucket_of (Z.of_nat p) idx rs ps)) (seq 0 n) = length rs.
Proof.
  revert idx ps. induction rs as [|r rs IH]; intros idx [|q ps] Hl Hf; try done.
  - cbn [bucket_of length]. induction (seq 0 n); simpl; done.
  - apply Forall_cons in Hf as [Hq Hf]. injection Hl as Hl. rewrite (sum_ext _ (fun p =>
      (if Nat.eqb (Z.to_nat q) p then 1 else 0) + length (bucket_of (Z.of_nat p) (S idx) rs ps))%nat).
    + rewrite sum_add, IH, sum_one by (done || lia). done.
    + intros p _. cbn [bucket_of]. rewrite length_app. f_equal.
      destruct (Z.eqb_spec q (Z.of_nat p)), (Nat.eqb_spec (Z.to_nat q) p); simpl; lia || done.
Qed.

Lemma total_imap (f : nat -> list record) als s :
  sum_list_with (fun a => length (a_recs a)) (imap (fun p a => a_append (f (s + p)%nat) a) als)
  = (total als + sum_list_with (fun p => length (f p)) (seq s (length als)))%nat.
Proof.
  revert s. induction als as [|a als IH]; intros s; [done|]. cbn [length seq]. rewrite imap_cons. simpl.
  rewrite length_app, Nat.add_0_r. specialize (IH (S s)).
  rewrite (imap_ext _ (fun p a => a_append (f (S s + p)%nat) a)); [|intros i x _; simpl; do 2 f_equal; lia].
  rewrite IH. unfold total. simpl. lia.
Qed.

(** Logs that hold [m] records, all of them the benchmark's. *)
Section filled.
Context (v : list byte).

Definition bench_record (r : record) : Prop := key r = None /\ value r = v.

Record filled (m : nat) (als : list alog) : Prop := {
  fl_total : total als = m;
  fl_recs : Forall (fun a => a_start a = 0 /\ Forall bench_record (a_recs a)) als;
}.

Lemma filled_empty n : filled 0 (replicate n (mkALog 0 [])).
Proof. split; [apply total_empty|]. by apply Forall_replicate. Qed.

Lemma filled_next m als a : filled m als -> a ∈ als -> a_next a <= Z.of_nat m.
Proof.
  intros [<- Hr] Ha. rewrite Forall_forall in Hr. destruct (Hr a Ha) as [H0 _]. pose proof (total_le als a Ha).
  unfold a_next, len. rewrite H0. lia.
Qed.

Lemma filled_append m als n a rs :
  filled m als -> als !! n = Some a -> Forall bench_record rs ->
  filled (m + length rs) (<[n := a_append rs a]> als).
Proof.
  intros [<- Hr] Ha Hrs. split.
  - pose proof (total_insert als n a (a_append rs a) Ha) as Ht. simpl in Ht. rewrite length_app in Ht. lia.
  - apply Forall_insert; [done|]. rewrite Forall_forall in Hr. destruct (Hr a (list_elem_of_lookup_2 _ _ _ Ha)).
    split; [done|]. by apply Forall_app.
Qed.

Lemma filled_batch m als rs ps :
  filled m als -> Forall bench_record rs -> length ps = length rs ->
  Forall (fun p => 0 <= p < len als) ps ->
  filled (m + length rs) (imap (fun p a => a_append (map snd (bucket_of (Z.of_nat p) 0 rs ps)) a) als).
Proof.
  intros [<- Hr] Hrs Hl Hps. split.
  - pose proof (total_imap (fun p => map snd (bucket_of (Z.of_nat p) 0 rs ps)) als 0) as Ht. cbn [Nat.add] in Ht.
    etrans; [exact Ht|]. f_equal.
    rewrite <- (total_buckets (length als) 0 rs ps Hl Hps). apply sum_ext. intros p _. apply length_map.
  - apply Forall_lookup_2. intros i x Hx. rewrite list_lookup_imap in Hx.
    destruct (als !! i) as [a|] eqn:Ha; [|done]. simpl in Hx. injection Hx as <-.
    rewrite Forall_forall in Hr. destruct (Hr a (list_elem_of_lookup_2 _ _ _ Ha)) as [H0 Hrec]. split; [done|].
    apply Forall_app. split; [done|]. rewrite Forall_forall in Hrs |- *. intros r Hin. by eapply Hrs, bucket_of_records.
Qed.

End filled.

(** ** Calls through a handle *)
Section handles.
Context {B : Buf} {H : Crc32} {C : Codecs} {F : Flock} {FL : FlockLaws F}.
Context {R S : World -> Log -> alog -> Prop} {D : World -> path -> alog -> Prop}.
Context {LC : LogContract R} {LS : LogStore R S D}.

(** Any call on the topic that keeps the topic's contract. *)
Lemma handle_call_run {A} (m : KM (World * Topic) A) (Q : A -> list alog -> Prop) w p k ts hs i name id t :
  broker_rep (R := R) w p k ts hs -> hs !! i = Some (name, id) -> ts !! name = Some t ->
  (forall tp, topic_rep (R := R) w (dir k ++ [name]) tp (at_logs t) -> Topic.config tp = at_config t ->
     exists x w' tp' als', m (w, tp) = (Ok x, (w', tp')) /\ topic_rep (R := R) w' (dir k ++ [name]) tp' als'
       /\ Topic.config tp' = Topic.config tp /\ Topic.name tp' = Topic.name tp
       /\ topic_stays (dir k ++ [name]) w w' /\ Q x als') ->
  exists x w' p' als', on_process (on_arc id m) (w, (p, k)) = (Ok x, (w', (p', k)))
    /\ broker_rep (R := R) w' p' k (<[name := mkATopic als' (at_config t)]> ts) hs
    /\ same_env w w' /\ Q x als'.
Proof.
  intros Hb Hh Ht Hm. destruct (handle_topic _ _ _ _ _ _ _ _ Hb Hh) as (Hi & t' & Ht' & (tp & Ha & Hr & Hc & Hn) & _).
  rewrite Ht in Ht'. injection Ht' as <-. destruct (Hm tp Hr Hc) as (x & w' & tp' & als' & Hrun & Hr' & Hc' & Hn' & Hs & HQ).
  pose proof (topic_stays_outside _ _ _ Hs) as Ho. eexists x, w', _, als'. split; [|split; [|split; [|done]]].
  - unfold on_process, zoom, on_arc. simpl. by rewrite Ha, Hrun.
  - eapply (rep_slot name w p k ts hs); try done; simpl; try congruence.
    intros j Hin. pose proof (br_handles _ _ _ _ _ Hb _ _ Hin). congruence.
  - by eapply outside_env.
Qed.

Lemma clone_handle_run w p k ts hs i name id :
  broker_rep (R := R) w p k ts hs -> hs !! i = Some (name, id) ->
  exists p', on_process (arc_clone id) (w, (p, k)) = (Ok id, (w, (p', k)))
    /\ broker_rep (R := R) w p' k ts (hs ++ [(name, id)]).
Proof.
  intros Hb Hh. destruct (handle_topic _ _ _ _ _ _ _ _ Hb Hh) as (Hi & t & Ht & (tp & Ha & Hr & Hc & Hn) & _).
  eexists. split.
  - unfold on_process, zoom, arc_clone. simpl. by rewrite Ha.
  - rewrite <- (insert_id ts name t Ht) at 1. eapply (rep_slot name w p k ts hs); try done.
    + rewrite handles_of_app, length_app. unfold handles_of at 3. rewrite filter_cons_True by done. simpl. lia.
    + intros b Hne. rewrite handles_of_app. unfold handles_of at 2. rewrite filter_cons_False by (simpl; congruence).
      by rewrite app_nil_r.
    + intros j Hin. apply elem_of_app in Hin as [Hin|Hin%list_elem_of_singleton]; [|by injection Hin].
      pose proof (br_handles _ _ _ _ _ Hb _ _ Hin). congruence.
Qed.

(** ** Names of topics do not change *)
Lemma bucket_records_name rs : forall idx bs w t o w' t',
  bucket_records idx rs bs (w, t) = (o, (w', t')) -> Topic.name t' = Topic.name t.
Proof.
  induction rs as [|r rs IH]; intros idx bs w t o w' t'; cbn [bucket_records]; [by intros [= _ _ <-]|].
  unfold bind at 1. destruct (route _ (w, t)) as [[q|e|msg|] [w1 t1]] eqn:E; apply route_name in E; try (intros [= _ _ <-]; exact E).
  destruct (bs !! Z.to_nat q); [|intros [= _ _ <-]; exact E]. intros Hr%IH. congruence.
Qed.

Lemma scatter_same p indices : forall offsets positions (s : World * Topic) o s',
  scatter p indices offsets positions s = (o, s') -> s' = s.
Proof.
  induction indices as [|i indices IH]; intros [|x offsets] positions s o s'; simpl; try (by intros [= _ <-]).
  destruct (positions !! i); [apply IH|by intros [= _ <-]].
Qed.

Lemma write_buckets_name bs : forall p positions w t o w' t',
  write_buckets p bs positions (w, t) = (o, (w', t')) -> Topic.name t' = Topic.name t.
Proof.
  induction bs as [|b bs IH]; intros p positions w t o w' t'; cbn [write_buckets]; [by intros [= _ _ <-]|].
  unfold bind at 1. destruct b as [|x b]; [apply IH|].
  unfold bind at 1. destruct (on_partition _ _ (w, t)) as [[offs|e|msg|] [w1 t1]] eqn:E; apply on_partition_name in E;
    try (intros [= _ _ <-]; exact E).
  destruct (scatter _ _ _ _ _) as [[ps|e|msg|] [w2 t2]] eqn:E2; apply scatter_same in E2; injection E2 as -> ->;
    try (intros [= _ _ <-]; exact E). intros Hr%IH. congruence.
Qed.

Lemma append_batch_routed_name rs w t o w' t' :
  append_batch_routed rs (w, t) = (o, (w', t')) -> Topic.name t' = Topic.name t.
Proof.
  unfold append_batch_routed. rewrite bind_self. unfold bind.
  destruct (bucket_records _ _ _ _) as [[bs|e|msg|] [w1 t1]] eqn:E; apply bucket_records_name in E;
    try (intros [= _ _ <-]; exact E). intros Hr%write_buckets_name. congruence.
Qed.

End handles.
