(* ===== verification/BenchRun.v ===== *)
(** * What the scenarios of the benchmark do *)

From S2P Require Import Prelude Bytes Error Compression LogRecord Fs Names Search.
From S2P Require Import Segment SparseIndex Log LogInv LogOps LogRecover LogCrash LogSpec LogStore.
From S2P Require Import OffsetStore Partition PartitionSpec Topic Producer TopicSpec TopicStore.
From S2P Require Import Consumer ConsumerSpec GroupSpec Broker BrokerSpec Registry BrokerStore BrokerOpen.
From S2P Require Import BrokerRefine Bench BenchSpec.

Lemma as_i64_range z : is_i64 (as_i64 z).
Proof.
  unfold as_i64. pose proof (Z.mod_pos_bound (z + 2 ^ 63) (2 ^ 64) ltac:(lia)). split; lia.
Qed.

Lemma stamp_range w : is_i64 (stamp w).
Proof. unfold stamp. destruct (now_ms w <? 0); [by split|apply as_i64_range]. Qed.

Section runs.
Context {B : Buf} {H : Crc32} {C : Codecs} {F : Flock} {FL : FlockLaws F}.
Context {R S : World -> Log -> alog -> Prop} {D : World -> path -> alog -> Prop}.
Context {LC : LogContract R} {LS : LogStore R S D}.
Lemma try_Ok {A} (m : KM (World * (Process * Kafko)) A) s a s' : m s = (Ok a, s') -> try m s = (Ok a, s').
Proof. intros Hm. unfold try, map_err. by rewrite Hm. Qed.

Lemma try_Err {A} (m : KM (World * (Process * Kafko)) A) s e s' : m s = (Err e, s') -> try m s = (Err (Kafka e), s').
Proof. intros Hm. unfold try, map_err. by rewrite Hm. Qed.

Context (env : string -> option string).
(** The topic [name] of the scenario and its configuration, [n] partitions,
    next to the topics [ts]. *)
Context (name : string) (cfg : LogConfig) (n : Z) (ts : gmap string atopic).

(** [m] records of the benchmark, stamped when they were sent, fit. *)
Definition fits_batch (w : World) (m : nat) : Prop :=
  forall now, is_i64 now -> let r := LogRecord.new now None (payload env) in
    storable (compression cfg) r /\ room w cfg (replicate m r).

Lemma fits_batch_env w w' m : same_env w w' -> fits_batch w m -> fits_batch w' m.
Proof.
  intros [_ E] Hf now Hn. destruct (Hf now Hn) as [Hs [G1 G2 G3]]. split; [done|].
  assert (El : seg_limit w' = seg_limit w) by (unfold seg_limit; by rewrite E). split; try done. by rewrite El.
Qed.

(** The topic holds [m] records; [c] handles are out. *)
Definition served (w : World) (p : Process) (k : Kafko) (id c m : nat) : Prop :=
  exists als, broker_rep (R := R) w p k (<[name := mkATopic als cfg]> ts) (replicate c (name, id))
    /\ filled (payload env) m als /\ len als = n.

Lemma served_handle c (id : nat) : (0 < c)%nat -> replicate c (name, id) !! 0%nat = Some (name, id).
Proof. destruct c; [lia|done]. Qed.

(** A call on the topic that adds records. *)
Lemma served_call {A} (m : KM (World * Topic) A) (Q : A -> Prop) w p k id c j j' :
  served w p k id c j -> (0 < c)%nat ->
  (forall als tp, filled (payload env) j als -> len als = n ->
     topic_rep (R := R) w (dir k ++ [name]) tp als -> Topic.config tp = cfg ->
     exists x w' tp' als', m (w, tp) = (Ok x, (w', tp')) /\ topic_rep (R := R) w' (dir k ++ [name]) tp' als'
       /\ Topic.config tp' = Topic.config tp /\ Topic.name tp' = Topic.name tp
       /\ topic_stays (dir k ++ [name]) w w' /\ filled (payload env) j' als' /\ len als' = n /\ Q x) ->
  exists x w' p', on_process (on_arc id m) (w, (p, k)) = (Ok x, (w', (p', k)))
    /\ served w' p' k id c j' /\ same_env w w' /\ Q x.
Proof.
  intros (als & Hb & Hf & Hn) Hc Hm.
  destruct (handle_call_run m (fun x als' => filled (payload env) j' als' /\ len als' = n /\ Q x)
    w p k _ _ 0 name id _ Hb (served_handle c id Hc) (lookup_insert_eq _ _ _)) as (x & w' & p' & als' & Hrun & Hb' & He & Hf' & Hn' & HQ).
  { intros tp Hr Hcf. exact (Hm als tp Hf Hn Hr Hcf). }
  exists x, w', p'. split; [exact Hrun|]. split; [|done]. exists als'. by rewrite insert_insert_eq in Hb'.
Qed.

Lemma room_one w : fits_batch w 1 -> forall r, is_i64 (timestamp_ms r) -> key r = None -> value r = payload env ->
  storable (compression cfg) r /\ room w cfg [r].
Proof. intros Hf [t key v] Ht Hk Hv. simpl in *. subst. exact (Hf t Ht). Qed.

Lemma append_payload_run w dir tp als j q now :
  filled (payload env) j als -> len als = n -> topic_rep (R := R) w dir tp als -> Topic.config tp = cfg ->
  fits_batch w 1 -> Z.of_nat j + 1 < 2 ^ 64 -> 0 <= q < n -> is_i64 now ->
  exists x w' tp' als', append_to q (LogRecord.new now None (payload env)) (w, tp) = (Ok x, (w', tp'))
    /\ topic_rep (R := R) w' dir tp' als' /\ Topic.config tp' = Topic.config tp /\ Topic.name tp' = Topic.name tp
    /\ topic_stays dir w w' /\ filled (payload env) (j + 1) als' /\ len als' = n.
Proof.
  intros Hf Hn Hr Hc Hfit Hj Hq Hnow. destruct (Hfit now Hnow) as [Hst Hro].
  destruct (lookup_lt_is_Some_2 als (Z.to_nat q)) as [a Ha]; [unfold len in Hn; lia|].
  destruct (append_to_run w dir tp als (Z.to_nat q) a (LogRecord.new now None (payload env)) Hr Ha)
    as (w' & tp' & Hrun & Hr' & Hc' & _ & Hs); rewrite ?Hc; try done.
  { pose proof (filled_next _ _ _ _ Hf (list_elem_of_lookup_2 _ _ _ Ha)). lia. }
  rewrite Z2Nat.id in Hrun by lia. eexists _, w', tp', _. split; [exact Hrun|]. split; [exact Hr'|].
  split; [congruence|]. split; [by eapply append_to_name|]. split; [done|]. split.
  - apply (filled_append (payload env) j als (Z.to_nat q) a [_] Hf Ha). by apply Forall_singleton.
  - unfold len. by rewrite length_insert.
Qed.

(** ** Sequential sends *)
Lemma send_one_run w p k id c j :
  served w p k id c j -> (0 < c)%nat -> fits_batch w 1 -> Z.of_nat j + 1 < 2 ^ 64 ->
  exists w' p', send_one env id (w, (p, k)) = (Ok tt, (w', (p', k))) /\ served w' p' k id c (j + 1) /\ same_env w w'.
Proof.
  intros Hs Hc Hfit Hj.
  destruct (served_call (Producer.send None (payload env)) (fun _ => True) w p k id c j (j + 1) Hs Hc)
    as (x & w' & p' & Hrun & Hs' & He & _).
  { intros als tp Hf Hn Hr Hcf. destruct (route_run w _ tp als None Hr) as (Hrt & Hrg & Hr1). rewrite Hn in Hrg.
    destruct (append_payload_run w _ (rr_after tp None) als j (route_of tp None) (stamp w) Hf Hn Hr1 Hcf Hfit Hj Hrg (stamp_range w))
      as (x & w' & tp' & als' & Hrun & Hr' & Hc' & Hn' & Hst & Hf' & Hl').
    exists x, w', tp', als'. split; [|by split_and!].
    unfold Producer.send. by rewrite (bind_Ok _ _ _ _ _ Hrt). }
  exists w', p'. split; [|done]. unfold send_one. by rewrite (bind_Ok _ _ _ _ _ (try_Ok _ _ _ _ Hrun)).
Qed.

Lemma repeat_run (body : M (World * (Process * Kafko)) Error unit) step w p k id c j l :
  served w p k id c j -> Z.of_nat j + Z.of_nat (length l * step) < 2 ^ 64 ->
  (forall w' p' j, served w' p' k id c j -> same_env w w' -> Z.of_nat j + Z.of_nat step < 2 ^ 64 ->
     exists w2 p2, body (w', (p', k)) = (Ok tt, (w2, (p2, k))) /\ served w2 p2 k id c (j + step) /\ same_env w' w2) ->
  exists w' p', for_each l (fun _ : nat => body) (w, (p, k)) = (Ok tt, (w', (p', k)))
    /\ served w' p' k id c (j + length l * step) /\ same_env w w'.
Proof.
  intros Hs Hj Hbody. cut (forall w1 p1 j, same_env w w1 -> served w1 p1 k id c j -> Z.of_nat j + Z.of_nat (length l * step) < 2 ^ 64 ->
    exists w' p', for_each l (fun _ : nat => body) (w1, (p1, k)) = (Ok tt, (w', (p', k)))
    /\ served w' p' k id c (j + length l * step) /\ same_env w w').
  { intros Hcut. by apply Hcut. }
  clear Hs Hj p j. induction l as [|x l IH]; intros w1 p1 j He Hs Hj.
  { exists w1, p1. simpl. by rewrite Nat.add_0_r. }
  simpl in Hj. destruct (Hbody w1 p1 j Hs He ltac:(lia)) as (w2 & p2 & Hrun & Hs2 & He2).
  destruct (IH w2 p2 (j + step)%nat) as (w3 & p3 & Hrun3 & Hs3 & He3); [by split; destruct He, He2; congruence|done|lia|].
  exists w3, p3. cbn [for_each]. rewrite (bind_Ok _ _ _ _ _ Hrun). split; [exact Hrun3|]. split; [|done].
  simpl. by rewrite Nat.add_assoc.
Qed.

Lemma send_loop_run w p k id c m :
  served w p k id c 0 -> (0 < c)%nat -> fits_batch w 1 -> 0 <= m < 2 ^ 64 ->
  exists w' p', send_loop env id m (w, (p, k)) = (Ok tt, (w', (p', k)))
    /\ served w' p' k id c (Z.to_nat m) /\ same_env w w'.
Proof.
  intros Hs Hc Hfit Hm.
  destruct (repeat_run (send_one env id) 1 w p k id c 0 (seq 0 (Z.to_nat m)) Hs) as (w' & p' & Hrun & Hs' & He).
  { rewrite length_seq. lia. }
  { intros w1 p1 j Hs1 He1 Hj. apply send_one_run; try done. by eapply fits_batch_env. }
  exists w', p'. split; [exact Hrun|]. rewrite length_seq, Nat.mul_1_r in Hs'. done.
Qed.

(** ** Batches *)
Lemma send_batch_replicate m v w (tp : Topic) :
  send_batch (replicate (Datatypes.S m) (@None (list byte), v)) (w, tp)
  = append_batch_routed (replicate (Datatypes.S m) (LogRecord.new (stamp w) None v)) (w, tp).
Proof.
  assert (E : forall q, map (fun i => LogRecord.new (stamp w) (fst i) (snd i)) (replicate q (@None (list byte), v))
    = replicate q (LogRecord.new (stamp w) None v)) by (induction q; simpl; congruence).
  rewrite <- E. done.
Qed.

Lemma send_one_batch_run w p k id c j :
  served w p k id c j -> (0 < c)%nat -> fits_batch w 1024 -> Z.of_nat j + Z.of_nat 1024 < 2 ^ 64 ->
  exists w' p', send_one_batch env id (w, (p, k)) = (Ok tt, (w', (p', k)))
    /\ served w' p' k id c (j + 1024) /\ same_env w w'.
Proof.
  intros Hs Hc Hfit Hj. unfold send_one_batch. change (Z.to_nat BATCH_SIZE) with 1024%nat in *.
  destruct (served_call (send_batch (replicate 1024 (@None (list byte), payload env))) (fun _ => True) w p k id c j (j + 1024) Hs Hc)
    as (x & w' & p' & Hrun & Hs' & He & _).
  { intros als tp Hf Hn Hr Hcf. set (rs := replicate 1024 (LogRecord.new (stamp w) None (payload env))).
    destruct (Hfit (stamp w) (stamp_range w)) as [Hst Hro]. fold rs in Hro.
    assert (Hl : len rs = Z.of_nat 1024) by (unfold len, rs; by rewrite length_replicate).
    destruct (append_batch_routed_run w _ tp als rs Hr) as (w' & tp' & ps & Hrun & Hr' & _ & _ & Hstay & Hc'); rewrite ?Hcf; try done.
    { by apply Forall_replicate. }
    { intros a Ha. pose proof (filled_next _ _ _ _ Hf Ha). lia. }
    eexists ps, w', tp', _. split; [|split; [exact Hr'|split; [congruence|split; [by eapply append_batch_routed_name|]]]].
    - rewrite send_batch_replicate. exact Hrun.
    - split; [done|]. split; [|split; [|done]].
      + replace 1024%nat with (length rs) by (unfold rs; apply length_replicate).
        apply filled_batch; [done|by apply Forall_replicate|apply length_route_all|]. apply (route_all_rep _ _ _ _ _ Hr).
      + unfold len. rewrite length_imap. exact Hn. }
  exists w', p'. split; [|done]. by rewrite (bind_Ok _ _ _ _ _ (try_Ok _ _ _ _ Hrun)).
Qed.

End runs.
