(* ===== verification/BenchTasks.v ===== *)
(** * The concurrent scenario under every schedule

    However the sixteen tasks are interleaved, between the routing of a send
    and its append too: once each has had its turns, all have ended and every
    record of every task is in the topic. *)

From S2P Require Import Prelude Bytes Error Compression LogRecord Fs Names Search.
From S2P Require Import Segment SparseIndex Log LogInv LogOps LogRecover LogCrash LogSpec LogStore.
From S2P Require Import OffsetStore Partition PartitionSpec Topic Producer TopicSpec TopicStore.
From S2P Require Import Consumer ConsumerSpec GroupSpec Broker BrokerSpec Registry BrokerStore BrokerOpen.
From S2P Require Import BrokerRefine Bench BenchSpec BenchRun.

(** ** What a task has left *)
Definition sends_left (t : task) : nat :=
  match t with Ready m => m | Routed _ m => Datatypes.S m | Finished _ => 0%nat end.

Definition steps_left (t : task) : nat :=
  match t with Ready m => 2 * m + 1 | Routed _ m => 2 * m + 2 | Finished _ => 0 end.

Definition alive (t : task) : nat := match t with Finished _ => 0%nat | _ => 1%nat end.

Definition task_ok (n : Z) (t : task) : Prop :=
  match t with Routed q _ => 0 <= q < n | Finished (inr _) => False | _ => True end.

Abbreviation sends ts := (sum_list_with sends_left ts).
Abbreviation living ts := (sum_list_with alive ts).

Lemma sum_insert (f : task -> nat) ts i t t' : ts !! i = Some t ->
  (sum_list_with f (<[i := t']> ts) + f t = sum_list_with f ts + f t')%nat.
Proof.
  intros Hi. pose proof (lookup_lt_Some _ _ _ Hi) as Hlt.
  rewrite <- (take_drop_middle ts i t Hi) at 2.
  rewrite <- (take_drop_middle (<[i := t']> ts) i t') by by apply list_lookup_insert_eq.
  rewrite !sum_list_with_app, take_insert_ge, drop_insert_lt by lia. simpl. lia.
Qed.

Lemma sum_at_least (f : task -> nat) ts i t : ts !! i = Some t -> (f t <= sum_list_with f ts)%nat.
Proof. intros Hi. rewrite <- (take_drop_middle ts i t Hi), sum_list_with_app. simpl. lia. Qed.

Lemma all_done (ts : list task) :
  (forall i t, ts !! i = Some t -> steps_left t = 0%nat) -> sends ts = 0%nat /\ living ts = 0%nat.
Proof.
  induction ts as [|t ts IH]; intros Hd; [done|]. destruct IH as [IH1 IH2]; [by intros i; apply (Hd (Datatypes.S i))|].
  specialize (Hd 0%nat t eq_refl). simpl. rewrite IH1, IH2. destruct t; simpl in *; lia.
Qed.

Section tasks.
Context {B : Buf} {H : Crc32} {C : Codecs} {F : Flock} {FL : FlockLaws F}.
Context {R S : World -> Log -> alog -> Prop} {D : World -> path -> alog -> Prop}.
Context {LC : LogContract R} {LS : LogStore R S D}.
Context (env : string -> option string) (name : string) (cfg : LogConfig) (n : Z) (ts : gmap string atopic).

Abbreviation served := (served (R := R) env name cfg n ts).

Lemma drop_one_run w p k id c j :
  served w p k id (Datatypes.S c) j ->
  exists p', on_process (arc_drop id) (w, (p, k)) = (Ok tt, (w, (p', k))) /\ served w p' k id c j.
Proof.
  intros (als & Hb & Hf). destruct (drop_handle_run w p k _ _ 0 name id Hb eq_refl) as (p' & Hrun & Hb').
  exists p'. split; [done|]. by exists als.
Qed.

Lemma clone_one_run w p k id c j :
  served w p k id (Datatypes.S c) j ->
  exists p', on_process (arc_clone id) (w, (p, k)) = (Ok id, (w, (p', k))) /\ served w p' k id (Datatypes.S (Datatypes.S c)) j.
Proof.
  intros (als & Hb & Hf). destruct (clone_handle_run w p k _ _ 0 name id Hb eq_refl) as (p' & Hrun & Hb').
  exists p'. split; [done|]. exists als. split; [|done]. by rewrite (replicate_S_end (Datatypes.S c)).
Qed.

Lemma task_step_run w p k id c j t :
  served w p k id (Datatypes.S (c + alive t)) j -> task_ok n t -> fits_batch env cfg w 1 ->
  Z.of_nat j + Z.of_nat (sends_left t) < 2 ^ 64 ->
  exists w' p' t', task_step env id t (w, (p, k)) = (Ok t', (w', (p', k)))
    /\ served w' p' k id (Datatypes.S (c + alive t')) (j + (sends_left t - sends_left t'))
    /\ task_ok n t' /\ same_env w w' /\ (sends_left t' <= sends_left t)%nat
    /\ steps_left t' = pred (steps_left t).
Proof.
  intros Hs Hok Hfit Hj. destruct t as [[|m]|q m|r]; cbn [task_step alive sends_left] in *.
  - rewrite Nat.add_1_r in Hs. destruct (drop_one_run _ _ _ _ _ _ Hs) as (p' & Hrun & Hs').
    exists w, p', (Finished (inl tt)). split; [unfold finish; by rewrite (bind_Ok _ _ _ _ _ Hrun)|].
    simpl. rewrite !Nat.add_0_r. by split.
  - destruct (served_call env name cfg n ts (route None) (fun q => 0 <= q < n) w p k id _ j j Hs ltac:(lia))
      as (q & w' & p' & Hrun & Hs' & He & Hq).
    { intros als tp Hf Hn Hr Hcf. destruct (route_run w _ tp als None Hr) as (Hrt & Hrg & Hr1). rewrite Hn in Hrg.
      exists (route_of tp None), w, (rr_after tp None), als. split; [exact Hrt|]. split; [exact Hr1|].
      do 2 (split; [done|]). split; [by apply rtc_refl|]. split; [done|]. split; [done|exact Hrg]. }
    exists w', p', (Routed q m). rewrite (bind_Ok _ _ _ _ _ (attempt_Ok _ _ _ _ Hrun)). split; [done|]. simpl.
    rewrite Nat.sub_diag, Nat.add_0_r. split_and!; try done; lia.
  - destruct (served_call env name cfg n ts (let* now := Producer.current_timestamp_ms in
         append_to q (LogRecord.new now None (payload env))) (fun _ => True) w p k id _ j (j + 1) Hs ltac:(lia))
      as (x & w' & p' & Hrun & Hs' & He & _).
    { intros als tp Hf Hn Hr Hcf.
      destruct (append_payload_run env cfg n w _ tp als j q (stamp w) Hf Hn Hr Hcf Hfit ltac:(lia) Hok (stamp_range w))
        as (x & w' & tp' & als' & Hrun & Hr' & Hc' & Hn' & Hst & Hf' & Hl').
      exists x, w', tp', als'. split; [exact Hrun|by split_and!]. }
    exists w', p', (Ready m). rewrite (bind_Ok _ _ _ _ _ (attempt_Ok _ _ _ _ Hrun)). split; [done|].
    cbn [sends_left alive steps_left task_ok]. replace (Datatypes.S m - m)%nat with 1%nat by lia.
    split; [done|]. split; [done|]. split; [done|]. lia.
  - exists w, p, (Finished r). split; [done|]. simpl. rewrite !Nat.add_0_r in *. by split.
Qed.

(** [i] has had at least as many turns as it has steps left. *)
Definition turns (schedule : list nat) (i : nat) : nat := count_occ Nat.eq_dec schedule i.

Lemma run_tasks_run schedule w p k id j tasks :
  served w p k id (Datatypes.S (living tasks)) j -> Forall (task_ok n) tasks -> fits_batch env cfg w 1 ->
  Z.of_nat j + Z.of_nat (sends tasks) < 2 ^ 64 ->
  exists w' p' tasks', run_tasks env id schedule tasks (w, (p, k)) = (Ok tasks', (w', (p', k)))
    /\ served w' p' k id (Datatypes.S (living tasks')) (j + (sends tasks - sends tasks'))
    /\ Forall (task_ok n) tasks' /\ same_env w w' /\ (sends tasks' <= sends tasks)%nat /\ length tasks' = length tasks
    /\ forall i t', tasks' !! i = Some t' -> exists t, tasks !! i = Some t
         /\ steps_left t' = (steps_left t - turns schedule i)%nat.
Proof.
  revert w p j tasks. induction schedule as [|i schedule IH]; intros w p j tasks Hs Hok Hfit Hj.
  { exists w, p, tasks. split; [done|]. rewrite Nat.sub_diag, Nat.add_0_r. split; [done|]. do 4 (split; [done|]).
    intros i t Ht. exists t. split; [done|]. unfold turns. simpl. lia. }
  cbn [run_tasks]. destruct (tasks !! i) as [t|] eqn:Hi.
  2: { destruct (IH w p j tasks Hs Hok Hfit Hj) as (w' & p' & tasks' & Hrun & Hs' & Hok' & He & Hle & Hl & Hst).
       exists w', p', tasks'. do 6 (split; [done|]). intros i' t' Ht'. destruct (Hst i' t' Ht') as (t & Ht & E).
       exists t. split; [done|]. rewrite E. unfold turns. rewrite count_occ_cons_neq; [done|]. intros ->. congruence. }
  pose proof (sum_at_least sends_left tasks i t Hi) as Hsl. pose proof (sum_at_least alive tasks i t Hi) as Hal.
  rewrite Forall_lookup in Hok.
  destruct (task_step_run w p k id (living tasks - alive t) j t) as (w1 & p1 & t1 & Hrun & Hs1 & Ht1 & He1 & Hle1 & Hst1).
  { by rewrite Nat.sub_add. } { by eapply Hok. } { done. } { lia. }
  rewrite (bind_Ok _ _ _ _ _ Hrun). pose proof (sum_insert sends_left tasks i t t1 Hi) as E1.
  pose proof (sum_insert alive tasks i t t1 Hi) as E2.
  destruct (IH w1 p1 (j + (sends_left t - sends_left t1))%nat (<[i := t1]> tasks))
    as (w2 & p2 & tasks2 & Hrun2 & Hs2 & Hok2 & He2 & Hle2 & Hl2 & Hst2).
  { by replace (living (<[i := t1]> tasks)) with (living tasks - alive t + alive t1)%nat by lia. }
  { apply Forall_insert; [by apply Forall_lookup|done]. }
  { by eapply fits_batch_env. }
  { lia. }
  exists w2, p2, tasks2. split; [exact Hrun2|]. split.
  { by replace (j + (sends tasks - sends tasks2))%nat
      with (j + (sends_left t - sends_left t1) + (sends (<[i := t1]> tasks) - sends tasks2))%nat by lia. }
  split; [done|]. split; [split; destruct He1, He2; congruence|]. split; [lia|].
  split; [by rewrite Hl2, length_insert|]. intros i' t' Ht'. destruct (Hst2 i' t' Ht') as (t2 & Ht2 & E). unfold turns.
  destruct (decide (i = i')) as [<-|Hne].
  - rewrite list_lookup_insert_eq in Ht2 by by eapply lookup_lt_Some. injection Ht2 as <-. exists t. split; [done|].
    rewrite count_occ_cons_eq by done. unfold turns in E. lia.
  - rewrite list_lookup_insert_ne in Ht2 by done. exists t2. split; [done|]. by rewrite count_occ_cons_neq.
Qed.

Lemma join_all_run tasks s :
  Forall (task_ok n) tasks -> (forall i t, tasks !! i = Some t -> steps_left t = 0%nat) -> join_all tasks s = (Ok tt, s).
Proof.
  induction 1 as [|t tasks Ht _ IH]; intros Hd; [done|]. specialize (Hd 0%nat t eq_refl) as H0.
  destruct t as [m|q m|[[]|e]]; simpl in *; [lia|lia| |done]. apply IH. intros i. apply (Hd (Datatypes.S i)).
Qed.

(** Everything the tasks were given to send is in the topic. *)
Lemma all_tasks_run schedule w p k id m c :
  served w p k id 1 0 -> fits_batch env cfg w 1 -> Z.of_nat (c * m) < 2 ^ 64 ->
  (forall i, (i < c)%nat -> (2 * m + 1 <= turns schedule i)%nat) ->
  exists w' p', (let* _ := for_each (seq 0 c) (fun _ => let* _ := try (on_process (arc_clone id)) in ret tt) in
                 let* tasks := try (run_tasks env id schedule (replicate c (Ready m))) in
                 join_all tasks) (w, (p, k)) = (Ok tt, (w', (p', k)))
    /\ served w' p' k id 1 (c * m) /\ same_env w w'.
Proof.
  intros Hs Hfit Hb Hturns.
  assert (Hcl : forall l q p, served w p k id (Datatypes.S q) 0 -> exists p1,
    for_each l (fun _ : nat => let* _ := try (on_process (arc_clone id)) in ret tt) (w, (p, k)) = (Ok tt, (w, (p1, k)))
    /\ served w p1 k id (Datatypes.S (length l + q)) 0).
  { induction l as [|x l IH]; intros q p1 Hs1; [by exists p1|]. cbn [for_each].
    destruct (clone_one_run _ _ _ _ _ _ Hs1) as (p2 & Hrun & Hs2). rewrite bind_bind, (bind_Ok _ _ _ _ _ (try_Ok _ _ _ _ Hrun)), bind_ret.
    destruct (IH (Datatypes.S q) p2 Hs2) as (p3 & Hrun3 & Hs3). exists p3. split; [done|].
    by rewrite Nat.add_succ_r in Hs3. }
  destruct (Hcl (seq 0 c) 0%nat p Hs) as (p1 & Hrun & Hs1). rewrite length_seq, Nat.add_0_r in Hs1.
  rewrite (bind_Ok _ _ _ _ _ Hrun). clear Hcl Hrun.
  assert (Hsum : forall (f : task -> nat) q, sum_list_with f (replicate q (Ready m)) = (q * f (Ready m))%nat).
  { intros f q. induction q as [|q IH]; simpl; [done|]. by rewrite IH. }
  pose proof (Hsum sends_left c) as Hsends. pose proof (Hsum alive c) as Hliv. simpl in Hsends, Hliv. rewrite Nat.mul_1_r in Hliv.
  destruct (run_tasks_run schedule w p1 k id 0 (replicate c (Ready m)))
    as (w2 & p2 & tasks & Hrun & Hs2 & Hok & He & _ & Hl & Hst).
  { by rewrite Hliv. } { by apply Forall_replicate. } { done. } { rewrite Hsends. lia. }
  rewrite length_replicate in Hl.
  assert (Hdone : forall i t, tasks !! i = Some t -> steps_left t = 0%nat).
  { intros i t Ht. destruct (Hst i t Ht) as (t0 & Ht0 & E). apply lookup_replicate in Ht0 as [-> Hi].
    specialize (Hturns i Hi). simpl in E. simpl in *. lia. }
  destruct (all_done tasks Hdone) as [D1 D2]. rewrite D1, D2, Hsends, Nat.sub_0_r in Hs2.
  exists w2, p2. split; [|done]. rewrite (bind_Ok _ _ _ _ _ (try_Ok _ _ _ _ Hrun)). by apply join_all_run.
Qed.

End tasks.
