(* ===== verification/BenchMain.v ===== *)
(** * A run of the benchmark from the environment to the disk *)

From S2P Require Import Prelude Bytes Error Compression LogRecord Fs Names Search.
From S2P Require Import Segment SparseIndex Log LogInv LogOps LogRecover LogCrash LogSpec LogStore.
From S2P Require Import OffsetStore Partition PartitionSpec Topic Producer TopicSpec TopicStore.
From S2P Require Import Consumer ConsumerSpec GroupSpec Broker BrokerSpec Registry BrokerStore BrokerOpen.
From S2P Require Import BrokerRefine Bench BenchSpec BenchRun BenchTasks.

(** ** The environment variables are in range *)
Lemma digit_val_nonneg c d : digit_val c = Some d -> 0 <= d.
Proof. unfold digit_val. repeat case_match; intros [= <-]; lia. Qed.

Lemma parse_digits_range max s : forall acc n, parse_digits max acc s = Some n -> 0 <= acc <= max -> 0 <= n <= max.
Proof.
  induction s as [|c s IH]; intros acc n; simpl; [by intros [= <-]|].
  destruct (digit_val c) as [d|] eqn:Hd; [|done]. apply digit_val_nonneg in Hd.
  destruct (Z.ltb_spec max (10 * acc + d)); [done|]. intros Hn Ha. eapply IH; [exact Hn|]. lia.
Qed.

Lemma parse_uint_range max s n : 0 <= max -> parse_uint max s = Some n -> 0 <= n <= max.
Proof.
  intros Hm. unfold parse_uint. destruct s as [|c s]; [done|]. destruct (Ascii.eqb c _).
  - destruct s; [done|]. intros Hn. eapply parse_digits_range; [exact Hn|lia].
  - intros Hn. eapply parse_digits_range; [exact Hn|lia].
Qed.

Lemma total_range env : is_u64 (TOTAL_RECORDS_TARGET env).
Proof.
  unfold TOTAL_RECORDS_TARGET. destruct (env "KAFKO_TOTAL_RECORDS") as [s|]; simpl; [|split; vm_compute; congruence].
  destruct (parse_u64 s) as [n|] eqn:Hn; simpl; [|split; vm_compute; congruence].
  apply parse_uint_range in Hn; [|vm_compute; congruence]. unfold u64_max in Hn. split; lia.
Qed.

Lemma partitions_range env : 0 < PARTITIONS env < 2 ^ 32.
Proof.
  unfold PARTITIONS. destruct (env "KAFKO_PARTITIONS") as [s|]; simpl; [|lia].
  destruct (parse_u32 s) as [n|] eqn:Hn; simpl; [|lia]. destruct (Z.leb_spec 1 n); [|lia].
  apply parse_uint_range in Hn; [|vm_compute; congruence]. unfold u32_max in Hn. lia.
Qed.

Section main.
Context {B : Buf} {H : Crc32} {C : Codecs} {F : Flock} {FL : FlockLaws F} {HL : Crc32Laws H}.
Context {R S : World -> Log -> alog -> Prop} {D : World -> path -> alog -> Prop}.
Context {LC : LogContract R} {LS : LogStore R S D}.
Context (env : string -> option string) (cwd : path).

Abbreviation TOTAL := (TOTAL_RECORDS_TARGET env).

(** The topic of a scenario, its configuration, how many records it sends and
    how many at a time; [None] for a scenario that is refused. *)
Definition plan (scenario : string) : option (string * LogConfig * Z * nat) :=
  if String.eqb scenario "sequential" then Some (SEQUENTIAL_TOPIC, default_cfg, TOTAL, 1%nat)
  else if String.eqb scenario "concurrent" then
    Some (CONCURRENT_TOPIC, default_cfg, TOTAL / CONCURRENT_TASKS * CONCURRENT_TASKS, 1%nat)
  else if String.eqb scenario "batch" then
    Some (BATCH_TOPIC, default_cfg, div_ceil TOTAL BATCH_SIZE * BATCH_SIZE, Z.to_nat BATCH_SIZE)
  else if String.eqb scenario "lz4_sequential" then
    if compression_lz4 then Some (LZ4_SEQUENTIAL_TOPIC, lz4_cfg, TOTAL, 1%nat) else None
  else if String.eqb scenario "zstd_sequential" then
    if compression_zstd then Some (ZSTD_SEQUENTIAL_TOPIC, zstd_cfg, TOTAL, 1%nat) else None
  else None.

(** Every task of the concurrent scenario gets the turns it needs. *)
Definition fair (schedule : list nat) : Prop :=
  forall i, (i < 16)%nat -> (2 * Z.to_nat (TOTAL / CONCURRENT_TASKS) + 1 <= turns schedule i)%nat.

(** [create_topic] and [producer_for], the body, and the producer's drop. *)
Lemma scenario_frame {A} (body : nat -> M (World * (Process * Kafko)) Error A) (x : A) name cfg m w p k ts :
  usable cfg -> broker_rep (R := R) w p k ts [] -> ts !! name = None -> plain name -> name <> LOCK_FILENAME ->
  (forall id w1 p1 k1, served (R := R) env name cfg (PARTITIONS env) ts w1 p1 k1 id 1 0 -> same_env w w1 ->
     exists w2 p2, body id (w1, (p1, k1)) = (Ok x, (w2, (p2, k1)))
       /\ served (R := R) env name cfg (PARTITIONS env) ts w2 p2 k1 id 1 m) ->
  exists w' p' k' als,
    (let* _ := try (create_topic_with_config_and_partitions name cfg (PARTITIONS env)) in
     with_producer name body) (w, (p, k)) = (Ok x, (w', (p', k')))
    /\ broker_rep (R := R) w' p' k' (<[name := mkATopic als cfg]> ts) []
    /\ filled (payload env) m als /\ len als = PARTITIONS env /\ dir k' = dir k.
Proof.
  intros Hu Hb Hn Hpl Hl Hbody. pose proof (partitions_range env) as Hr.
  destruct (create_topic_run w p k ts [] name cfg (PARTITIONS env) Hu Hb Hn Hpl Hl Hr) as (w1 & p1 & k1 & Hrun & Hb1 & Hd & Ho).
  rewrite (bind_Ok _ _ _ _ _ (try_Ok _ _ _ _ Hrun)). unfold with_producer.
  destruct (topic_run w1 p1 k1 _ [] name _ Hb1 (lookup_insert_eq _ _ _)) as (id & p2 & Hrun2 & _ & Hb2).
  rewrite (bind_Ok _ _ _ _ _ (try_Ok _ _ _ _ Hrun2)).
  destruct (Hbody id w1 p2 k1) as (w3 & p3 & Hrun3 & als & Hb3 & Hf3 & Hl3).
  { eexists. split; [exact Hb2|]. split; [apply filled_empty|]. unfold len. rewrite length_replicate. lia. }
  { by eapply outside_env. }
  destruct (drop_handle_run w3 p3 k1 _ _ 0 name id Hb3 eq_refl) as (p4 & Hd4 & Hb4).
  exists w3, p4, k1, als. rewrite Hrun3, Hd4. split; [reflexivity|]. by split_and!.
Qed.

Lemma sends_scenario name cfg title w p k ts :
  usable cfg -> broker_rep (R := R) w p k ts [] -> ts !! name = None -> plain name -> name <> LOCK_FILENAME -> fits_batch env cfg w 1 ->
  exists w' p' k' als,
    (let* _ := try (create_topic_with_config_and_partitions name cfg (PARTITIONS env)) in
     with_producer name (fun producer =>
       let n := TOTAL in let* _ := send_loop env producer n in ret (report env title n None))) (w, (p, k))
      = (Ok (report env title TOTAL None), (w', (p', k')))
    /\ broker_rep (R := R) w' p' k' (<[name := mkATopic als cfg]> ts) []
    /\ filled (payload env) (Z.to_nat TOTAL) als /\ len als = PARTITIONS env /\ dir k' = dir k.
Proof.
  intros Hu Hb Hn Hpl Hl Hfit. apply scenario_frame; try done. intros id w1 p1 k1 Hs He. cbv zeta.
  destruct (send_loop_run env name cfg (PARTITIONS env) ts w1 p1 k1 id 1 TOTAL Hs ltac:(lia)) as (w2 & p2 & Hrun & Hs2 & _).
  { by eapply fits_batch_env. }
  { apply total_range. }
  exists w2, p2. split; [|done]. by rewrite (bind_Ok _ _ _ _ _ Hrun).
Qed.

Lemma bench_topic_plain name :
  name ∈ [SEQUENTIAL_TOPIC; CONCURRENT_TOPIC; BATCH_TOPIC; LZ4_SEQUENTIAL_TOPIC; ZSTD_SEQUENTIAL_TOPIC] ->
  plain name /\ name <> LOCK_FILENAME.
Proof.
  rewrite !elem_of_cons, elem_of_nil. intros [->|[->|[->|[->|[->|[]]]]]];
    (split; [split; [reflexivity|split_and!; discriminate]|discriminate]).
Qed.

Lemma concurrent_scenario schedule w p k ts :
  broker_rep (R := R) w p k ts [] -> ts !! CONCURRENT_TOPIC = None -> fits_batch env default_cfg w 1 -> fair schedule ->
  let total := TOTAL / CONCURRENT_TASKS * CONCURRENT_TASKS in
  exists r w' p' k' als, run_concurrent env schedule (w, (p, k)) = (Ok r, (w', (p', k'))) /\ r_total r = total
    /\ broker_rep (R := R) w' p' k' (<[CONCURRENT_TOPIC := mkATopic als default_cfg]> ts) []
    /\ filled (payload env) (Z.to_nat total) als /\ len als = PARTITIONS env /\ dir k' = dir k.
Proof.
  intros Hb Hn Hfit Hfair total. destruct (bench_topic_plain CONCURRENT_TOPIC ltac:(rewrite !elem_of_cons; tauto)) as [Hpl Hl].
  pose proof (total_range env) as [H0 H64]. unfold total, CONCURRENT_TASKS in *.
  pose proof (Z.div_mod TOTAL 16 ltac:(lia)). pose proof (Z.mod_pos_bound TOTAL 16 ltac:(lia)).
  set (per := TOTAL / 16) in *.
  destruct (scenario_frame (fun id =>
      let* _ := for_each (seq 0 (Z.to_nat 16)) (fun _ => let* _ := try (on_process (arc_clone id)) in ret tt) in
      let* tasks := try (run_tasks env id schedule (replicate (Z.to_nat 16) (Ready (Z.to_nat per)))) in
      let* _ := join_all tasks in
      ret (report env "concurrent" (u64_mul per 16) (Some 16)))
    (report env "concurrent" (u64_mul per 16) (Some 16)) CONCURRENT_TOPIC default_cfg (16 * Z.to_nat per) w p k ts)
    as (w' & p' & k' & als & Hrun & Hb' & Hf' & Hrest); try done.
  { intros id w1 p1 k1 Hs He.
    destruct (all_tasks_run env CONCURRENT_TOPIC default_cfg (PARTITIONS env) ts schedule w1 p1 k1 id (Z.to_nat per) 16 Hs)
      as (w2 & p2 & Hrun & Hs2 & _); [by eapply fits_batch_env|lia|exact Hfair|].
    exists w2, p2. split; [|done].
    apply bind_Ok_inv in Hrun as ([] & s1 & R1 & Hrun). apply bind_Ok_inv in Hrun as (tasks & s2 & R2 & R3).
    change (Z.to_nat 16) with 16%nat.
    by rewrite (bind_Ok _ _ _ _ _ R1), (bind_Ok _ _ _ _ _ R2), (bind_Ok _ _ _ _ _ R3). }
  eexists _, w', p', k', als. split; [exact Hrun|]. split.
  { change (u64_mul per 16 = per * 16). unfold u64_mul. apply as_u64_small. split; lia. }
  split; [exact Hb'|]. split; [|exact Hrest]. by replace (Z.to_nat (per * 16)) with (16 * Z.to_nat per)%nat by lia.
Qed.

Lemma batch_scenario w p k ts :
  broker_rep (R := R) w p k ts [] -> ts !! BATCH_TOPIC = None -> fits_batch env default_cfg w (Z.to_nat BATCH_SIZE) ->
  let total := div_ceil TOTAL BATCH_SIZE * BATCH_SIZE in
  total < 2 ^ 64 ->
  exists r w' p' k' als, run_batch env (w, (p, k)) = (Ok r, (w', (p', k'))) /\ r_total r = total
    /\ broker_rep (R := R) w' p' k' (<[BATCH_TOPIC := mkATopic als default_cfg]> ts) []
    /\ filled (payload env) (Z.to_nat total) als /\ len als = PARTITIONS env /\ dir k' = dir k.
Proof.
  intros Hb Hn Hfit total Ht. destruct (bench_topic_plain BATCH_TOPIC ltac:(rewrite !elem_of_cons; tauto)) as [Hpl Hl].
  pose proof (total_range env) as [H0 H64]. set (batches := div_ceil TOTAL BATCH_SIZE) in *.
  assert (Hbt : 0 <= batches).
  { unfold batches, div_ceil, BATCH_SIZE, u64_add. pose proof (Z.div_pos TOTAL 1024 H0 ltac:(lia)).
    destruct (_ =? 0); [done|]. apply as_u64_range. }
  unfold total, BATCH_SIZE in *. change (Z.to_nat 1024) with 1024%nat in Hfit.
  destruct (scenario_frame (fun id => let* _ := for_each (seq 0 (Z.to_nat batches)) (fun _ => send_one_batch env id) in
      ret (report env "batch" (u64_mul batches 1024) None))
    (report env "batch" (u64_mul batches 1024) None) BATCH_TOPIC default_cfg (Z.to_nat batches * 1024) w p k ts)
    as (w' & p' & k' & als & Hrun & Hb' & Hf' & Hrest); try done.
  { intros id w1 p1 k1 Hs He.
    destruct (repeat_run env BATCH_TOPIC default_cfg (PARTITIONS env) ts (send_one_batch env id) 1024 w1 p1 k1 id 1 0
      (seq 0 (Z.to_nat batches)) Hs) as (w2 & p2 & Hrun & Hs2 & _).
    { rewrite length_seq. lia. }
    { intros w2 p2 j Hs2 He2 Hj. apply (send_one_batch_run env BATCH_TOPIC default_cfg (PARTITIONS env) ts); try done; [lia|].
      eapply fits_batch_env; [exact He2|]. by eapply fits_batch_env. }
    rewrite length_seq in Hs2. exists w2, p2. split; [|exact Hs2]. by rewrite (bind_Ok _ _ _ _ _ Hrun). }
  eexists _, w', p', k', als. split; [exact Hrun|]. split.
  { change (u64_mul batches 1024 = batches * 1024). unfold u64_mul. apply as_u64_small. split; lia. }
  split; [exact Hb'|]. split; [|exact Hrest].
  by replace (Z.to_nat (batches * 1024)) with (Z.to_nat batches * 1024)%nat by lia.
Qed.

Lemma scenario_run schedule scenario name cfg total m w p k ts :
  broker_rep (R := R) w p k ts [] -> plan scenario = Some (name, cfg, total, m) -> ts !! name = None ->
  fits_batch env cfg w m -> total < 2 ^ 64 -> fair schedule ->
  exists r w' p' k' als, run_scenario env schedule scenario (w, (p, k)) = (Ok r, (w', (p', k'))) /\ r_total r = total
    /\ broker_rep (R := R) w' p' k' (<[name := mkATopic als cfg]> ts) []
    /\ filled (payload env) (Z.to_nat total) als /\ len als = PARTITIONS env /\ dir k' = dir k.
Proof.
  intros Hb Hplan Hn Hfit Ht Hfair. unfold plan in Hplan. unfold run_scenario.
  assert (Hsends : forall nm c title, nm ∈ [SEQUENTIAL_TOPIC; CONCURRENT_TOPIC; BATCH_TOPIC; LZ4_SEQUENTIAL_TOPIC; ZSTD_SEQUENTIAL_TOPIC] ->
    usable c -> ts !! nm = None -> fits_batch env c w 1 -> exists r w' p' k' als,
    (let* _ := try (create_topic_with_config_and_partitions nm c (PARTITIONS env)) in
     with_producer nm (fun producer =>
       let n := TOTAL in let* _ := send_loop env producer n in ret (report env title n None))) (w, (p, k))
      = (Ok r, (w', (p', k'))) /\ r_total r = TOTAL
    /\ broker_rep (R := R) w' p' k' (<[nm := mkATopic als c]> ts) []
    /\ filled (payload env) (Z.to_nat TOTAL) als /\ len als = PARTITIONS env /\ dir k' = dir k).
  { intros nm c title Hin Hu Hnn Hf. destruct (bench_topic_plain nm Hin) as [Hpl Hl].
    destruct (sends_scenario nm c title w p k ts Hu Hb Hnn Hpl Hl Hf) as (w' & p' & k' & als & Hrun & Hrest).
    eexists _, w', p', k', als. split; [exact Hrun|]. by split. }
  destruct (String.eqb scenario "sequential").
  { injection Hplan as <- <- <- <-. apply Hsends; [rewrite !elem_of_cons; tauto|done..]. }
  destruct (String.eqb scenario "concurrent").
  { injection Hplan as <- <- <- <-. by apply concurrent_scenario. }
  destruct (String.eqb scenario "batch").
  { injection Hplan as <- <- <- <-. by apply batch_scenario. }
  destruct (String.eqb scenario "lz4_sequential").
  { destruct compression_lz4; [|done]. injection Hplan as <- <- <- <-. apply Hsends; [rewrite !elem_of_cons; tauto|done..]. }
  destruct (String.eqb scenario "zstd_sequential"); [|done].
  destruct compression_zstd; [|done]. injection Hplan as <- <- <- <-. apply Hsends; [rewrite !elem_of_cons; tauto|done..].
Qed.

(** Where the broker's data is. *)
Definition data_dir_path : path := join cwd (default "./kafko-bench_data" (env "KAFKO_BENCH_DATA_DIR")).

Definition kept (ts : gmap string (list alog)) : gmap string (list alog) :=
  match env "KAFKO_RESET" with Some _ => empty | None => ts end.

(** [main] up to the scenario. *)
Lemma main_opens schedule w p ts :
  data_dir (D := D) w data_dir_path ts -> ~ locked (data_dir_path ++ [LOCK_FILENAME]) (flocks p) ->
  (forall id, is_Some (arcs p !! id) -> (id < next_arc p)%nat) -> default "" (env "KAFKO_SCENARIO") <> "" ->
  exists w1 p1 k, broker_rep (R := R) w1 p1 k (reopened (kept ts)) [] /\ dir k = data_dir_path
    /\ read_max w1 = read_max w
    /\ main env cwd schedule (w, p) =
      (let '(o, s) := run_scenario env schedule (default "" (env "KAFKO_SCENARIO")) (w1, (p1, k)) in
       let '(o', (w', (p', _))) :=
        match o with
        | Ok r => (let* _ := try (Broker.shutdown MultiThread) in ret r) s
        | Err e => (let* _ := try (drop_kafko MultiThread) in throw e) s
        | _ => (o, s)
        end in
      (o', (w', p'))).
Proof.
  intros Hd Hl Hi Hsc. unfold main. destruct (String.eqb_spec (default "" (env "KAFKO_SCENARIO")) "") as [|_]; [done|].
  fold data_dir_path. cbv zeta.
  assert (Hr : exists w1, (match env "KAFKO_RESET" with
      | Some _ => let* _ := attempt (E := io_error) (in_world (remove_dir_all data_dir_path)) in ret tt
      | None => ret tt end) (w, p) = (Ok tt : outcome Error unit, (w1, p))
    /\ data_dir (D := D) w1 data_dir_path (kept ts) /\ read_max w1 = read_max w).
  { unfold kept. destruct (env "KAFKO_RESET"); [|by exists w].
    destruct (reset_run w data_dir_path ts Hd) as (r & w1 & Hrun & Hd1 & _ & Hm). exists w1. split; [|done].
    unfold io, map_err, bind, attempt, in_world, zoom in *. simpl in *.
    by destruct (remove_dir_all data_dir_path w) as [[] ?]; simplify_eq. }
  destruct Hr as (w1 & R0 & Hd1 & Hm1).
  destruct (broker_open_run w1 p data_dir_path default_config _ default_usable Hd1 Hl Hi) as (w2 & p2 & k & R1 & Hb & Hdk & _ & _ & _ & Hm2).
  exists w2, p2, k. split; [exact Hb|]. split; [done|]. split; [congruence|].
  rewrite (bind_Ok _ _ _ _ _ R0). unfold Broker.open. unfold bind at 1, map_err at 1. by rewrite R1.
Qed.

Lemma bench_run schedule w p ts name cfg total m :
  data_dir (D := D) w data_dir_path ts -> ~ locked (data_dir_path ++ [LOCK_FILENAME]) (flocks p) ->
  (forall id, is_Some (arcs p !! id) -> (id < next_arc p)%nat) ->
  plan (default "" (env "KAFKO_SCENARIO")) = Some (name, cfg, total, m) -> kept ts !! name = None ->
  fits_batch env cfg w m -> total < 2 ^ 64 -> fair schedule ->
  exists r w' p', main env cwd schedule (w, p) = (Ok r, (w', p')) /\ r_total r = total
    /\ ~ locked (data_dir_path ++ [LOCK_FILENAME]) (flocks p')
    /\ forall w2, crash w' w2 -> exists als, data_dir (D := D) w2 data_dir_path (<[name := als]> (kept ts))
         /\ filled (payload env) (Z.to_nat total) als /\ len als = PARTITIONS env.
Proof.
  intros Hd Hl Hi Hp Hn Hfit Ht Hfair.
  destruct (main_opens schedule w p ts Hd Hl Hi) as (w1 & p1 & k & Hb & Hdk & Hm & ->).
  { intros E. rewrite E in Hp. discriminate Hp. }
  destruct (scenario_run schedule _ name cfg total m w1 p1 k _ Hb Hp) as (r & w2 & p2 & k2 & als & -> & Hr & Hb2 & Hf & Hla & Hdk2); try done.
  { unfold reopened. by rewrite lookup_fmap, Hn. }
  { intros now Hnow. destruct (Hfit now Hnow) as [Hs [G1 G2 G3]]. split; [done|]. split; try done. unfold seg_limit in *. by rewrite Hm. }
  destruct (shutdown_run MultiThread w2 p2 k2 _ [] Hb2) as (w3 & p3 & Hsd & Hset & Hap & Hul).
  exists r, w3, p3. rewrite (bind_Ok _ _ _ _ _ (try_Ok _ _ _ _ Hsd)). split; [reflexivity|]. split; [done|].
  assert (Hlk : dir_lock k2 = data_dir_path ++ [LOCK_FILENAME]).
  { rewrite (br_lock_path _ _ _ _ _ Hb2). congruence. }
  rewrite Hlk in Hul. split; [done|]. intros w4 Hc. exists als.
  pose proof (shutdown_data_dir _ _ _ _ _ _ _ Hb2 Hset Hap Hc) as Hdd. rewrite Hdk2, Hdk in Hdd.
  rewrite fmap_insert in Hdd. unfold reopened in Hdd. rewrite <- map_fmap_compose in Hdd. split; [|done].
  erewrite (map_fmap_ext _ id), map_fmap_id in Hdd; [exact Hdd|]. done.
Qed.

(** A scenario whose topic is refused ends there. *)
Lemma scenario_refused schedule scenario name cfg total m s e :
  plan scenario = Some (name, cfg, total, m) ->
  create_topic_with_config_and_partitions name cfg (PARTITIONS env) s = (Err e, s) ->
  run_scenario env schedule scenario s = (Err (Kafka e), s).
Proof.
  intros Hplan Hc. apply try_Err in Hc. unfold plan in Hplan. unfold run_scenario.
  destruct (String.eqb scenario "sequential"); [injection Hplan as <- <- <- <-; by apply bind_Err|].
  destruct (String.eqb scenario "concurrent"); [injection Hplan as <- <- <- <-; by apply bind_Err|].
  destruct (String.eqb scenario "batch"); [injection Hplan as <- <- <- <-; by apply bind_Err|].
  destruct (String.eqb scenario "lz4_sequential").
  { destruct compression_lz4; [|done]. injection Hplan as <- <- <- <-. by apply bind_Err. }
  destruct (String.eqb scenario "zstd_sequential"); [|done].
  destruct compression_zstd; [|done]. injection Hplan as <- <- <- <-. by apply bind_Err.
Qed.

(** A scenario whose topic is there already. *)
Lemma bench_rerun schedule w p ts name cfg total m als :
  data_dir (D := D) w data_dir_path ts -> ~ locked (data_dir_path ++ [LOCK_FILENAME]) (flocks p) ->
  (forall id, is_Some (arcs p !! id) -> (id < next_arc p)%nat) ->
  plan (default "" (env "KAFKO_SCENARIO")) = Some (name, cfg, total, m) -> env "KAFKO_RESET" = None -> ts !! name = Some als ->
  exists w' p', main env cwd schedule (w, p) = (Err (Kafka (TopicAlreadyExists name)), (w', p'))
    /\ forall w2, crash w' w2 -> data_dir (D := D) w2 data_dir_path ts.
Proof.
  intros Hd Hl Hi Hp Hreset Hn.
  destruct (main_opens schedule w p ts Hd Hl Hi) as (w1 & p1 & k & Hb & Hdk & Hm & ->).
  { intros E. rewrite E in Hp. discriminate Hp. }
  unfold kept in Hb. rewrite Hreset in Hb.
  assert (Hne : PARTITIONS env <> 0) by (pose proof (partitions_range env); lia).
  assert (Hex : reopened ts !! name = Some (mkATopic als default_config)) by (unfold reopened; by rewrite lookup_fmap, Hn).
  rewrite (scenario_refused _ _ _ _ _ _ (w1, (p1, k)) (TopicAlreadyExists name) Hp)
    by exact (create_topic_exists w1 p1 k _ [] name cfg (PARTITIONS env) _ Hb Hex Hne).
  destruct (shutdown_run MultiThread w1 p1 k _ [] Hb) as (w2 & p2 & Hsd & Hset & Hap & Hul).
  exists w2, p2. rewrite <- (drop_multi_thread MultiThread) in Hsd.
  rewrite (bind_Ok _ _ _ _ _ (try_Ok _ _ _ _ Hsd)). split; [reflexivity|]. intros w3 Hc.
  pose proof (shutdown_data_dir _ _ _ _ _ _ _ Hb Hset Hap Hc) as Hdd. rewrite Hdk in Hdd.
  unfold reopened in Hdd. rewrite <- map_fmap_compose in Hdd.
  erewrite (map_fmap_ext _ id), map_fmap_id in Hdd; [exact Hdd|]. done.
Qed.

End main.
