(* ===== verification/BenchTheorems.v ===== *)
(** * Properties of the benchmark client *)

From S2P Require Import Prelude Bytes Error Compression LogRecord Fs Names Search.
From S2P Require Import Segment SparseIndex Log LogInv LogOps LogRecover LogCrash LogSpec LogStore.
From S2P Require Import OffsetStore Partition PartitionSpec Topic Producer TopicSpec TopicStore.
From S2P Require Import Consumer ConsumerSpec GroupSpec Broker BrokerSpec Registry BrokerStore BrokerOpen.
From S2P Require Import BrokerRefine Bench BenchSpec BenchRun BenchTasks BenchMain Examples BrokerExamples FuzzSpec.

Section theorems.
Context {B : Buf} {H : Crc32} {C : Codecs} {F : Flock} {FL : FlockLaws F} {HL : Crc32Laws H}.
Context {R S : World -> Log -> alog -> Prop} {D : World -> path -> alog -> Prop}.
Context {LC : LogContract R} {LS : LogStore R S D}.

(** C19: a scenario of the benchmark does what it reports: whatever the
    environment says, and however the sixteen tasks of the concurrent scenario
    are interleaved, [main] ends, the total it reports is the number of records
    of the scenario's plan, the lock is free again, and after a crash at any
    later time the scenario's topic holds exactly that many records, all of
    them the payload, next to the topics that were there. *)
Theorem bench_reports_what_is_stored env cwd schedule w p ts name cfg total m :
  data_dir (D := D) w (data_dir_path env cwd) ts ->
  ~ locked (data_dir_path env cwd ++ [LOCK_FILENAME]) (flocks p) ->
  (forall id, is_Some (arcs p !! id) -> (id < next_arc p)%nat) ->
  plan env (default "" (env "KAFKO_SCENARIO")) = Some (name, cfg, total, m) -> kept env ts !! name = None ->
  fits_batch env cfg w m -> total < 2 ^ 64 -> fair env schedule ->
  exists r w' p', main env cwd schedule (w, p) = (Ok r, (w', p')) /\ r_total r = total
    /\ ~ locked (data_dir_path env cwd ++ [LOCK_FILENAME]) (flocks p')
    /\ forall w2, crash w' w2 -> exists als,
         data_dir (D := D) w2 (data_dir_path env cwd) (<[name := als]> (kept env ts))
         /\ filled (payload env) (Z.to_nat total) als /\ len als = PARTITIONS env.
Proof. apply (bench_run (R := R)). Qed.

(** Without KAFKO_RESET a scenario runs once per data directory: the
    second time its topic is there, [main] fails with [TopicAlreadyExists] and
    leaves every topic as it was. *)
Theorem bench_reruns_only_after_reset env cwd schedule w p ts name cfg total m als :
  data_dir (D := D) w (data_dir_path env cwd) ts ->
  ~ locked (data_dir_path env cwd ++ [LOCK_FILENAME]) (flocks p) ->
  (forall id, is_Some (arcs p !! id) -> (id < next_arc p)%nat) ->
  plan env (default "" (env "KAFKO_SCENARIO")) = Some (name, cfg, total, m) ->
  env "KAFKO_RESET" = None -> ts !! name = Some als ->
  exists w' p', main env cwd schedule (w, p) = (Err (Kafka (TopicAlreadyExists name)), (w', p'))
    /\ forall w2, crash w' w2 -> data_dir (D := D) w2 (data_dir_path env cwd) ts.
Proof. apply (bench_rerun (R := R)). Qed.

End theorems.

(** ** Witnesses *)

(** 33 records asked for, eight bytes each, over two partitions: sixteen tasks
    send two records each. *)
Definition ex_env (var : string) : option string :=
  if String.eqb var "KAFKO_SCENARIO" then Some "concurrent"
  else if String.eqb var "KAFKO_TOTAL_RECORDS" then Some "33"
  else if String.eqb var "KAFKO_VALUE_SIZE" then Some "8"
  else if String.eqb var "KAFKO_PARTITIONS" then Some "2"
  else None.

Definition ex_schedule : list nat := concat (replicate 5 (seq 0 16)).

Lemma ex_fair : fair ex_env ex_schedule.
Proof.
  intros i Hi. do 16 (destruct i as [|i]; [vm_compute; lia|]). lia.
Qed.

Lemma ex_plan : plan ex_env (default "" (ex_env "KAFKO_SCENARIO")) = Some (CONCURRENT_TOPIC, default_cfg, 32, 1%nat).
Proof. vm_compute. reflexivity. Qed.

Lemma ex_bench_fits w : seg_limit w = 2147479552 -> fits_batch ex_env default_cfg w 1.
Proof.
  intros E now Hn. split; [apply plain_storable; [done|vm_compute; reflexivity]|].
  apply plain_room; rewrite ?E; try done.
Qed.

Lemma ex_unlocked q : ~ locked q (flocks fresh_process).
Proof. apply not_elem_of_empty. Qed.

Lemma ex_bench_no_arcs id : is_Some (arcs fresh_process !! id) -> (id < next_arc fresh_process)%nat.
Proof. intros [x Hx]. simpl in Hx. by rewrite lookup_empty in Hx. Qed.

Definition ex_bench_dir : path := data_dir_path ex_env ["home"].

Lemma bench_reports_what_is_stored_witness :
  exists r w' p', main ex_env ["home"] ex_schedule (ex_world, fresh_process) = (Ok r, (w', p')) /\ r_total r = 32.
Proof.
  destruct (bench_reports_what_is_stored (R := log_refines) (S := log_synced) (D := log_openable) ex_env ["home"] ex_schedule
    ex_world fresh_process empty CONCURRENT_TOPIC default_cfg 32 1%nat) as (r & w' & p' & Hrun & Hr & _).
  - apply ex_data_dir. vm_compute. congruence.
  - apply ex_unlocked.
  - apply ex_bench_no_arcs.
  - apply ex_plan.
  - reflexivity.
  - apply ex_bench_fits. reflexivity.
  - reflexivity.
  - apply ex_fair.
  - exists r, w', p'. exact (conj Hrun Hr).
Defined.

(** A crash that loses nothing, in a world where no more is synced than was
    written. *)
Definition no_surplus (e : path * node) : bool :=
  match snd e with NFile f => bool_decide (f_synced f `prefix_of` f_data f) | NDir => true end.

Definition after_crash (w : World) : World := mkWorld (nodes w) (now_ms w) [] (read_max w).

Lemma crash_nothing_lost w : forallb no_surplus (map_to_list (nodes w)) = true -> crash w (after_crash w).
Proof.
  intros Hw. rewrite forallb_forall in Hw. split; [done|done|]. intros q. simpl.
  destruct (nodes w !! q) as [[f|]|] eqn:E; [|done..]. exists f. split; [done|].
  specialize (Hw (q, NFile f)). apply elem_of_map_to_list, list_elem_of_In in E. specialize (Hw E).
  apply bool_decide_eq_true_1 in Hw. by split_and!.
Qed.

Definition ex_first_run := main ex_env ["home"] ex_schedule (ex_world, fresh_process).
Definition ex_after : World := fst (snd ex_first_run).

Lemma ex_after_sane : forallb no_surplus (map_to_list (nodes ex_after)) = true.
Proof. vm_compute. reflexivity. Qed.

Lemma ex_benched : exists als, data_dir (D := log_openable) (after_crash ex_after) ex_bench_dir (<[CONCURRENT_TOPIC := als]> empty).
Proof.
  destruct (bench_run (R := log_refines) (S := log_synced) (D := log_openable) ex_env ["home"] ex_schedule
    ex_world fresh_process empty CONCURRENT_TOPIC default_cfg 32 1%nat) as (r & w' & p' & Hrun & Hr & _ & Hd);
    [apply ex_data_dir; vm_compute; congruence|apply ex_unlocked|apply ex_bench_no_arcs|apply ex_plan|reflexivity
    |apply ex_bench_fits; reflexivity|reflexivity|apply ex_fair|].
  assert (E : ex_after = w') by (unfold ex_after, ex_first_run; by rewrite Hrun).
  destruct (Hd (after_crash w')) as (als & Hdd & _); [rewrite <- E; apply crash_nothing_lost, ex_after_sane|].
  exists als. rewrite E. exact Hdd.
Qed.

Lemma bench_reruns_only_after_reset_witness :
  exists w' p', main ex_env ["home"] ex_schedule (after_crash ex_after, fresh_process) = (Err (Kafka (TopicAlreadyExists CONCURRENT_TOPIC)), (w', p')).
Proof.
  destruct ex_benched as (als & Hd).
  destruct (bench_reruns_only_after_reset (R := log_refines) (S := log_synced) (D := log_openable) ex_env ["home"] ex_schedule
    (after_crash ex_after) fresh_process _ CONCURRENT_TOPIC default_cfg 32 1%nat als Hd (ex_unlocked _) ex_bench_no_arcs ex_plan eq_refl
    (lookup_insert_eq _ _ _)) as (w' & p' & Hrun & _).
  exists w', p'. exact Hrun.
Defined.
